(** * youtube-ai-chat: the tool-calling orchestrator and its JSON tool executors

    A shallow embedding of [src/services/gemini.js] (conversation adapter and
    the bounded function-calling loops) and of [src/services/jsonTools.js]
    (the executors [compute_stats_json], [plot_metric_vs_time], [play_video]
    and [generateImage]), followed by the properties the specification states
    about them.

    Conventions of the embedding.
    - A JavaScript string is a [string]; each [ascii] is one UTF-16 code unit
      in the range 0..255, so the model covers Latin-1 text.
    - A JavaScript number is a [number]: [NaN], the two infinities, or a
      finite double held as the rational it denotes.  The result of an
      arithmetic operation and the value of a numeral are rounded to the
      nearest double, ties to even, and overflow to an infinity
      ([Js.round64]).  The two zeros are not told apart.
    - A completion is either a normal value or a thrown exception.
    - Arrays of records live in a heap and are passed by reference, because
      [Array.prototype.sort] sorts in place. *)

From Stdlib Require Import String Ascii List ZArith QArith Qround Qabs Qpower Qreduction.
From Stdlib Require Import Lia Lqa Bool.
From Stdlib Require Import Sorted Permutation.
From stdpp Require Import base option list gmap strings.

Close Scope Q_scope.
Open Scope string_scope.
Open Scope list_scope.
Open Scope nat_scope.

(** ** Completions: normal values and thrown exceptions *)

Module Js.

Inductive Completion (A : Type) : Type :=
| Normal (a : A)
| Throw (message : string).
Arguments Normal {A} a.
Arguments Throw {A} message.

Definition cbind {A B} (c : Completion A) (f : A -> Completion B) : Completion B :=
  match c with
  | Normal a => f a
  | Throw e => Throw e
  end.

(** A computation that threads a state [S] and may throw. *)
Definition StE (S A : Type) : Type := S -> S * Completion A.

Definition ret {S A} (a : A) : StE S A := fun s => (s, Normal a).
Definition throw {S A} (e : string) : StE S A := fun s => (s, Throw e).
Definition bind {S A B} (m : StE S A) (f : A -> StE S B) : StE S B :=
  fun s => match m s with
           | (s', Normal a) => f a s'
           | (s', Throw e) => (s', Throw e)
           end.
Definition lift {S A} (c : Completion A) : StE S A := fun s => (s, c).

Declare Scope ste_scope.
Delimit Scope ste_scope with ste.
Notation "'let*' x ':=' m 'in' k" := (bind m (fun x => k))
  (at level 10, x name, m at level 200, k at level 200, only parsing) : ste_scope.

(** ** Characters and strings *)

Definition dquote : string := String (ascii_of_nat 34) EmptyString.
Definition newline : string := String (ascii_of_nat 10) EmptyString.

Definition code (c : ascii) : nat := nat_of_ascii c.

(** [WhiteSpace] and [LineTerminator] code units below 256: TAB, LF, VT, FF,
    CR, SP and NBSP.  This is the set removed by [trim] and matched by [\s]. *)
Definition is_ws (c : ascii) : bool :=
  let n := code c in
  ((9 <=? n) && (n <=? 13)) || (n =? 32) || (n =? 160).

Definition is_digit (c : ascii) : bool :=
  let n := code c in (48 <=? n) && (n <=? 57).

Definition digit_val (c : ascii) : nat := code c - 48.

(** [String.prototype.toLowerCase] on one code unit below 256: A-Z and the
    Latin-1 capitals U+00C0..U+00DE (but not the sign U+00D7) gain 32. *)
Definition lower_char (c : ascii) : ascii :=
  let n := code c in
  if ((65 <=? n) && (n <=? 90)) || ((192 <=? n) && (n <=? 222) && negb (n =? 215))
  then ascii_of_nat (n + 32) else c.

(** The canonical form used by a case-insensitive regular expression without
    the unicode flag: [toUpperCase] where that stays a single code unit and
    does not turn a non-ASCII unit into an ASCII one. *)
Definition upper_char (c : ascii) : ascii :=
  let n := code c in
  if ((97 <=? n) && (n <=? 122)) || ((224 <=? n) && (n <=? 254) && negb (n =? 247))
  then ascii_of_nat (n - 32) else c.

Fixpoint toLowerCase (s : string) : string :=
  match s with
  | EmptyString => EmptyString
  | String c r => String (lower_char c) (toLowerCase r)
  end.

Fixpoint trimStart (s : string) : string :=
  match s with
  | String c r => if is_ws c then trimStart r else s
  | EmptyString => EmptyString
  end.

(** [trimEnd], written by recursion from the right end. *)
Fixpoint trimEnd (s : string) : string :=
  match s with
  | EmptyString => EmptyString
  | String c r =>
      match trimEnd r with
      | EmptyString => if is_ws c then EmptyString else String c EmptyString
      | r' => String c r'
      end
  end.

Definition trim (s : string) : string := trimEnd (trimStart s).

Fixpoint starts_with (p s : string) : bool :=
  match p, s with
  | EmptyString, _ => true
  | String a p', String b s' => Ascii.eqb a b && starts_with p' s'
  | String _ _, EmptyString => false
  end.

(** [s.includes(t)]. *)
Fixpoint includes (s t : string) : bool :=
  starts_with t s ||
  match s with
  | EmptyString => false
  | String _ r => includes r t
  end.

(** [s.substring(0, n)]. *)
Fixpoint take_str (n : nat) (s : string) : string :=
  match n, s with
  | S n', String c r => String c (take_str n' r)
  | _, _ => EmptyString
  end.

(** [s.split(/\s+/)]: the pieces between maximal runs of white space; a run
    at either end of [s] leaves an empty piece there, and the empty string
    splits into one empty piece. *)
Fixpoint split_ws_go (s : string) (cur : string) (in_ws : bool) : list string :=
  match s with
  | EmptyString => [cur]
  | String c r =>
      if is_ws c
      then (if in_ws then split_ws_go r cur true
            else cur :: split_ws_go r EmptyString true)
      else split_ws_go r (cur ++ String c EmptyString) false
  end.

Definition split_ws (s : string) : list string := split_ws_go s EmptyString false.

(** [xs.join(sep)]. *)
Fixpoint join (sep : string) (xs : list string) : string :=
  match xs with
  | [] => EmptyString
  | [x] => x
  | x :: rest => x ++ sep ++ join sep rest
  end.

(** ** Regular expressions

    The patterns of the source are written as [regex] terms and run by a
    backtracking matcher with the semantics of ECMAScript: alternatives are
    tried left to right, [*] is greedy and gives characters back, an empty
    iteration of [*] is refused, and [search] returns the leftmost match. *)

Inductive regex : Type :=
| Eps
| Chr (c : ascii)
| Digit
| Space
| Seq (r1 r2 : regex)
| Alt (r1 r2 : regex)
| Star (r : regex)
| Group (r : regex).

(** [r+] *)
Definition Plus (r : regex) : regex := Seq r (Star r).

Fixpoint lit (s : string) : regex :=
  match s with
  | EmptyString => Eps
  | String c EmptyString => Chr c
  | String c r => Seq (Chr c) (lit r)
  end.

Definition chr_eq (ci : bool) (c d : ascii) : bool :=
  if ci then Ascii.eqb (upper_char c) (upper_char d) else Ascii.eqb c d.

(** [rmatch ci r s caps k]: match [r] at the start of [s]; on success hand
    the rest of the input and the captures so far to the continuation [k];
    when [k] fails, backtrack.  [ci] is the flag [i]. *)
Fixpoint rmatch {T : Type} (ci : bool) (r : regex) (s : string) (caps : list string)
    (k : string -> list string -> option T) {struct r} : option T :=
  match r with
  | Eps => k s caps
  | Chr c =>
      match s with
      | String d s' => if chr_eq ci c d then k s' caps else None
      | EmptyString => None
      end
  | Digit =>
      match s with
      | String d s' => if is_digit d then k s' caps else None
      | EmptyString => None
      end
  | Space =>
      match s with
      | String d s' => if is_ws d then k s' caps else None
      | EmptyString => None
      end
  | Seq r1 r2 => rmatch ci r1 s caps (fun s' caps' => rmatch ci r2 s' caps' k)
  | Alt r1 r2 =>
      match rmatch ci r1 s caps k with
      | Some x => Some x
      | None => rmatch ci r2 s caps k
      end
  | Star r1 =>
      (fix iterate (fuel : nat) (s : string) (caps : list string) : option T :=
         match fuel with
         | 0 => k s caps
         | S fuel' =>
             match rmatch ci r1 s caps
                     (fun s' caps' =>
                        if String.length s' <? String.length s
                        then iterate fuel' s' caps' else None) with
             | Some x => Some x
             | None => k s caps
             end
         end) (String.length s) s caps
  | Group r1 =>
      rmatch ci r1 s caps
        (fun s' caps' =>
           k s' (caps' ++ [take_str (String.length s - String.length s') s]))
  end.

(** [s.match(r)] for a pattern without the flag [g]: the captures of the
    leftmost match, or [None] for [null]. *)
Fixpoint search (ci : bool) (r : regex) (s : string) : option (list string) :=
  match rmatch ci r s [] (fun _ caps => Some caps) with
  | Some caps => Some caps
  | None =>
      match s with
      | String _ s' => search ci r s'
      | EmptyString => None
      end
  end.

(** [r.test(s)] *)
Definition test (ci : bool) (r : regex) (s : string) : bool :=
  match search ci r s with Some _ => true | None => false end.

(** ** Numbers *)

Inductive number : Type :=
| NaN
| PInf
| NInf
| Fin (q : Q).

Definition Qltb (x y : Q) : bool := negb (Qle_bool y x).

Definition nneg (a : number) : number :=
  match a with
  | NaN => NaN
  | PInf => NInf
  | NInf => PInf
  | Fin q => Fin (- q)%Q
  end.

(** *** Rounding to the nearest double

    A finite double is [n * 2^p] with [|n| < 2^53], [p >= -1074] and a
    magnitude below [2^1024].  [round64 q] is the double nearest to the
    rational [q], the one with the even [n] on a tie, and an infinity when
    that value reaches [2^1024]: the rounding of IEEE-754 binary64 that
    ECMAScript prescribes for [+], [-], [*], [/] and for the value of a
    numeral. *)

Definition pow2 (e : Z) : Q := Qpower (2 # 1) e.

(** The exponent [e] with [2^e <= q < 2^(e+1)], for [q > 0]. *)
Definition ilog2 (q : Q) : Z :=
  let e0 := (Z.log2 (Qnum q) - Z.log2 (Zpos (Qden q)))%Z in
  if Qle_bool (pow2 e0) q then e0 else (e0 - 1)%Z.

(** The integer nearest to [x], the even one on a tie. *)
Definition nearest_even (x : Q) : Z :=
  let k := Qfloor x in
  match Qcompare (x - inject_Z k)%Q (1 # 2)%Q with
  | Lt => k
  | Gt => (k + 1)%Z
  | Eq => if Z.even k then k else (k + 1)%Z
  end.

(** The exponent of the binade of [q > 0]; below [2^-1022] the doubles are
    spaced as in the lowest binade. *)
Definition binade (q : Q) : Z := Z.max (ilog2 q) (-1022).

(** The multiple of [2^(binade q - 52)] nearest to [q > 0]. *)
Definition nearest (q : Q) : Q :=
  (inject_Z (nearest_even (q / pow2 (binade q - 52))) * pow2 (binade q - 52))%Q.

Definition round64_pos (q : Q) : number :=
  if Qle_bool (pow2 1024) (nearest q) then PInf else Fin (Qred (nearest q)).

Definition round64 (q : Q) : number :=
  match Qcompare q 0%Q with
  | Eq => Fin 0
  | Gt => round64_pos q
  | Lt => nneg (round64_pos (- q)%Q)
  end.

(** A number as a double: a finite value is rounded. *)
Definition rounded (a : number) : number :=
  match a with
  | Fin q => round64 q
  | _ => a
  end.

(** *** Arithmetic

    [nadd], [nsub], [nsquare] and [ndiv] are the exact results; [fadd],
    [fsub], [fsquare] and [fdiv] round them, as the operators of the
    language do. *)

Definition nadd (a b : number) : number :=
  match a, b with
  | NaN, _ | _, NaN => NaN
  | PInf, NInf | NInf, PInf => NaN
  | PInf, _ | _, PInf => PInf
  | NInf, _ | _, NInf => NInf
  | Fin x, Fin y => Fin (x + y)%Q
  end.

(** The exact difference.  The comparators of the sorts return it
    unrounded: a sort reads the sign of the result only, and rounding does
    not change the sign of the difference of two doubles. *)
Definition nsub (a b : number) : number := nadd a (nneg b).

Definition nsquare (a : number) : number :=
  match a with
  | NaN => NaN
  | PInf | NInf => PInf
  | Fin x => Fin (x * x)%Q
  end.

(** The exact quotient; a zero divisor is the positive zero. *)
Definition ndiv (a b : number) : number :=
  match a, b with
  | NaN, _ | _, NaN => NaN
  | (PInf | NInf), (PInf | NInf) => NaN
  | Fin _, (PInf | NInf) => Fin 0
  | PInf, Fin y => if Qltb y 0 then NInf else PInf
  | NInf, Fin y => if Qltb y 0 then PInf else NInf
  | Fin x, Fin y =>
      if Qeq_bool y 0
      then (if Qeq_bool x 0 then NaN else if Qltb x 0 then NInf else PInf)
      else Fin (x / y)%Q
  end.

(** [a + b], [a - b] and [a / b] *)
Definition fadd (a b : number) : number := rounded (nadd a b).
Definition fsub (a b : number) : number := rounded (nsub a b).
Definition fdiv (a b : number) : number := rounded (ndiv a b).

(** [a ** 2], taken to be the square rounded once (the language leaves the
    last bit of [**] to the engine). *)
Definition fsquare (a : number) : number := rounded (nsquare a).

(** [a < b] and [a <= b]: false as soon as one side is [NaN]. *)
Definition nlt (a b : number) : bool :=
  match a, b with
  | NaN, _ | _, NaN => false
  | _, NInf => false
  | NInf, _ => true
  | PInf, _ => false
  | _, PInf => true
  | Fin x, Fin y => Qltb x y
  end.

Definition nle (a b : number) : bool :=
  match a, b with
  | NaN, _ | _, NaN => false
  | NInf, _ => true
  | _, NInf => false
  | _, PInf => true
  | PInf, _ => false
  | Fin x, Fin y => Qle_bool x y
  end.

Definition isNaN (a : number) : bool :=
  match a with NaN => true | _ => false end.

(** [ToBoolean] of a number: false for [NaN] and for zero. *)
Definition number_truthy (a : number) : bool :=
  match a with
  | NaN => false
  | Fin q => negb (Qeq_bool q 0)
  | _ => true
  end.

(** The length of an array as a number (such a length is below 2^32). *)
Definition of_nat (n : nat) : number := Fin (inject_Z (Z.of_nat n)).

(** [Math.min(...xs)] and [Math.max(...xs)]: [NaN] as soon as one argument
    is [NaN]; the empty list gives the neutral infinity. *)
Definition Math_min (xs : list number) : number :=
  fold_left (fun m x =>
               match m, x with
               | NaN, _ | _, NaN => NaN
               | _, _ => if nlt x m then x else m
               end) xs PInf.

Definition Math_max (xs : list number) : number :=
  fold_left (fun m x =>
               match m, x with
               | NaN, _ | _, NaN => NaN
               | _, _ => if nlt m x then x else m
               end) xs NInf.

(** The decimal that [x.toFixed(4)] prints for the double [x].  At or above
    10^21 in magnitude [toFixed] prints the number itself; below, it picks
    the integer [n] with [n / 10^4] closest to the magnitude, the larger one
    on a tie, and keeps the sign. *)
Definition toFixed4 (q : Q) : Q :=
  if Qle_bool (inject_Z (10 ^ 21)) (Qabs q) then q
  else
    let n := Qfloor (Qabs q * inject_Z 10000 + (1 # 2))%Q in
    if Qle_bool 0 q then (n # 10000)%Q else (- n # 10000)%Q.

(** [+x.toFixed(4)]: the decimal is read back as a double. *)
Definition fmt_number (n : number) : number :=
  match n with
  | Fin q => round64 (toFixed4 q)
  | _ => n
  end.

(** *** Reading numbers from strings *)

(** The longest run of decimal digits at the start of [s]: its value, its
    length and the rest of [s]. *)
Fixpoint digits_go (s : string) (acc : Z) (cnt : nat) : Z * nat * string :=
  match s with
  | String c r =>
      if is_digit c
      then digits_go r (10 * acc + Z.of_nat (digit_val c))%Z (S cnt)
      else (acc, cnt, s)
  | EmptyString => (acc, cnt, s)
  end.

Definition digits (s : string) : Z * nat * string := digits_go s 0%Z 0.

Definition pow10 (e : Z) : Q := Qpower (inject_Z 10) e.

(** An [ExponentPart] at the start of [s], when there is a complete one. *)
Definition exponent_part (s : string) : option (Z * string) :=
  match s with
  | String c r =>
      if Ascii.eqb c "e"%char || Ascii.eqb c "E"%char then
        let '(neg, r1) :=
          match r with
          | String d r' =>
              if Ascii.eqb d "-"%char then (true, r')
              else if Ascii.eqb d "+"%char then (false, r')
              else (false, r)
          | EmptyString => (false, r)
          end in
        let '(e, cnt, rest) := digits r1 in
        if cnt =? 0 then None else Some (if neg then (- e)%Z else e, rest)
      else None
  | EmptyString => None
  end.

(** The longest prefix of [s] that is a [StrUnsignedDecimalLiteral] other
    than [Infinity]: its value and the rest of [s]. *)
Definition decimal_prefix (s : string) : option (Q * string) :=
  let '(ip, ni, r1) := digits s in
  let '(fp, nf, r2) :=
    match r1 with
    | String c r =>
        if Ascii.eqb c "."%char
        then (let '(f, n, r') := digits r in
              if (ni =? 0) && (n =? 0) then (0%Z, 0, r1) else (f, n, r'))
        else (0%Z, 0, r1)
    | EmptyString => (0%Z, 0, r1)
    end in
  if (ni =? 0) && (nf =? 0) then None
  else
    let mant := (inject_Z ip + inject_Z fp * pow10 (- Z.of_nat nf))%Q in
    match exponent_part r2 with
    | Some (e, rest) => Some ((mant * pow10 e)%Q, rest)
    | None => Some (mant, r2)
    end.

Definition signed (s : string) : bool * string :=
  match s with
  | String c r =>
      if Ascii.eqb c "-"%char then (true, r)
      else if Ascii.eqb c "+"%char then (false, r)
      else (false, s)
  | EmptyString => (false, s)
  end.

(** [parseFloat(s)] on a string: leading white space is skipped and the
    longest prefix that is a decimal literal is read, its value rounded to a
    double; [NaN] when there is none. *)
Definition parseFloat_string (s : string) : number :=
  let '(neg, r) := signed (trimStart s) in
  if starts_with "Infinity" r then (if neg then NInf else PInf)
  else
    match decimal_prefix r with
    | Some (q, _) => round64 (if neg then (- q)%Q else q)
    | None => NaN
    end.

(** The digits of a [0x], [0o] or [0b] literal. *)
Definition radix_digit (radix : nat) (c : ascii) : option nat :=
  let n := code c in
  let d :=
    if (48 <=? n) && (n <=? 57) then Some (n - 48)
    else if (97 <=? n) && (n <=? 102) then Some (n - 87)
    else if (65 <=? n) && (n <=? 70) then Some (n - 55)
    else None in
  match d with
  | Some v => if v <? radix then Some v else None
  | None => None
  end.

Fixpoint radix_value (radix : nat) (s : string) (acc : Z) : option Z :=
  match s with
  | EmptyString => Some acc
  | String c r =>
      match radix_digit radix c with
      | Some v => radix_value radix r (Z.of_nat radix * acc + Z.of_nat v)%Z
      | None => None
      end
  end.

Definition radix_literal (s : string) : option Z :=
  match s with
  | String z (String x (String c r)) =>
      if Ascii.eqb z "0"%char then
        let body := String c r in
        if Ascii.eqb x "x"%char || Ascii.eqb x "X"%char then radix_value 16 body 0%Z
        else if Ascii.eqb x "o"%char || Ascii.eqb x "O"%char then radix_value 8 body 0%Z
        else if Ascii.eqb x "b"%char || Ascii.eqb x "B"%char then radix_value 2 body 0%Z
        else None
      else None
  | _ => None
  end.

(** [StringToNumber]: the whole trimmed string must be a numeric literal,
    whose value is rounded to a double; the empty string is zero. *)
Definition StringToNumber (s : string) : number :=
  let t := trim s in
  match t with
  | EmptyString => Fin 0
  | _ =>
      match radix_literal t with
      | Some z => round64 (inject_Z z)
      | None =>
          let '(neg, r) := signed t in
          if String.eqb r "Infinity" then (if neg then NInf else PInf)
          else
            match decimal_prefix r with
            | Some (q, EmptyString) => round64 (if neg then (- q)%Q else q)
            | _ => NaN
            end
      end
  end.

(** [parseInt(s, 10)] for a string [s] of decimal digits. *)
Definition parseInt_digits (s : string) : Z :=
  let '(v, _, _) := digits s in v.

(** ** Values and objects *)

(** The values a record of a dataset or the arguments of a call can hold:
    the scalars of JSON, [undefined] for what is absent, and [JBuiltin] for a
    member inherited from [Object.prototype] (a function, or the prototype
    object itself under [__proto__]). *)
Inductive JsValue : Type :=
| JUndefined
| JNull
| JBool (b : bool)
| JNum (n : number)
| JStr (s : string)
| JBuiltin.

(** An object: its own enumerable string-keyed properties in property
    order.  The keys of one object are pairwise distinct. *)
Definition JsObject : Type := list (string * JsValue).

Fixpoint own_property (o : JsObject) (key : string) : option JsValue :=
  match o with
  | [] => None
  | (k, v) :: rest => if String.eqb k key then Some v else own_property rest key
  end.

(** The property names of [Object.prototype]. *)
Definition Object_prototype_keys : list string :=
  [ "constructor"; "__defineGetter__"; "__defineSetter__"; "hasOwnProperty";
    "__lookupGetter__"; "__lookupSetter__"; "isPrototypeOf";
    "propertyIsEnumerable"; "toString"; "valueOf"; "__proto__";
    "toLocaleString" ].

Definition in_Object_prototype (key : string) : bool :=
  existsb (String.eqb key) Object_prototype_keys.

(** [o[key]]: an own property, else what the prototype chain gives. *)
Definition get (o : JsObject) (key : string) : JsValue :=
  match own_property o key with
  | Some v => v
  | None => if in_Object_prototype key then JBuiltin else JUndefined
  end.

(** [Object.keys(o)] *)
Definition Object_keys (o : JsObject) : list string := map fst o.

(** [ToBoolean] *)
Definition truthy (v : JsValue) : bool :=
  match v with
  | JUndefined | JNull => false
  | JBool b => b
  | JNum n => number_truthy n
  | JStr s => negb (String.eqb s EmptyString)
  | JBuiltin => true
  end.

(** [a || b] *)
Definition or_else (a b : JsValue) : JsValue := if truthy a then a else b.

(** [v !== undefined && v !== null] *)
Definition is_present (v : JsValue) : bool :=
  match v with
  | JUndefined | JNull => false
  | _ => true
  end.

(** [typeof v === 'number'] *)
Definition is_number (v : JsValue) : bool :=
  match v with JNum _ => true | _ => false end.

(** [parseFloat(v)]: [v] is first turned into a string.  A number (a
    double) prints and reads back as itself; the words [undefined], [null], [true], [false] and
    the text of a built-in start no decimal literal. *)
Definition parseFloat (v : JsValue) : number :=
  match v with
  | JNum n => n
  | JStr s => parseFloat_string s
  | _ => NaN
  end.

(** [ToNumber] *)
Definition ToNumber (v : JsValue) : number :=
  match v with
  | JUndefined => NaN
  | JNull => Fin 0
  | JBool b => if b then Fin 1 else Fin 0
  | JNum n => n
  | JStr s => StringToNumber s
  | JBuiltin => NaN
  end.

(** ** What the host provides

    Built-ins whose results depend on the engine, the locale or the time
    zone, or that are irrational, are taken from the host. *)
Record Host : Type := {
  (** [Number.prototype.toString] *)
  Number_toString : number -> string;
  (** [Date.parse]: the time value in milliseconds, [None] when the string
      is no date ([NaN]). *)
  Date_parse : string -> option Z;
  (** [d.toLocaleDateString('en-US', { month: 'short', year: 'numeric' })] of
      the date with the given time value. *)
  Date_toLocaleDateString : option Z -> string;
  (** [Math.sqrt] *)
  Math_sqrt : number -> number;
}.

Section WithHost.
Context (host : Host).

(** [ToString], as used by template literals and property keys. *)
Definition ToString (v : JsValue) : string :=
  match v with
  | JUndefined => "undefined"
  | JNull => "null"
  | JBool b => if b then "true" else "false"
  | JNum n => Number_toString host n
  | JStr s => s
  | JBuiltin => "[object Object]"
  end.

(** The time value of [new Date(v)]: a string is parsed, anything else is
    turned into a number, truncated and clipped to the range of dates. *)
Definition time_clip (n : number) : option Z :=
  match n with
  | Fin q =>
      if Qle_bool (Qabs q) (inject_Z 8640000000000000)
      then Some (if Qle_bool 0 q then Qfloor q else (- Qfloor (- q))%Z)
      else None
  | _ => None
  end.

Definition Date_new (v : JsValue) : option Z :=
  match v with
  | JStr s => Date_parse host s
  | JUndefined => None
  | _ => time_clip (ToNumber v)
  end.

(** [d1 - d2] on two dates: the difference of the time values, unrounded, as
    the comparators read its sign only; [NaN] when one of them is no date. *)
Definition Date_sub (a b : option Z) : number :=
  match a, b with
  | Some x, Some y => Fin (inject_Z (x - y))
  | _, _ => NaN
  end.

End WithHost.

End Js.

(** ** The heap of record arrays

    [videos], its copies [[...videos]] and the arrays [filter] returns are
    arrays of records held in a heap and named by a location.  A copy is
    shallow: it is a new array of the same records.  The source never assigns
    to a property of a record, so records are kept as values.  Arrays of
    numbers and of chart points are built by [map] and never shared; they are
    plain lists. *)

Module Heap.
Import Js.

Definition loc : Type := nat.
Abbreviation heap := (gmap nat (list JsObject)).

Definition M (A : Type) : Type := StE heap A.

Definition read (a : loc) : M (list JsObject) :=
  fun h => match h !! a with
           | Some xs => (h, Normal xs)
           | None => (h, Throw "no array at this location")
           end.

Definition write (a : loc) (xs : list JsObject) : M unit :=
  fun h => (<[a := xs]> h, Normal tt).

Definition alloc (xs : list JsObject) : M loc :=
  fun h => let a := fresh (dom h) in (<[a := xs]> h, Normal a).

(** The comparator protocol of [Array.prototype.sort]: [cmp a b > 0] puts
    [b] first; a negative or zero result leaves [a] first, and so does [NaN],
    which the engine reads as 0.  The sort is stable, so when the results of
    the comparator order the elements consistently (as they do when every
    result on the elements is read as 0) the sorted array is the one this
    insertion sort gives.  When they do not, as with [NaN] for some pairs and
    a sign for others, the standard leaves the order to the engine, and this
    insertion sort is one possible order only: what is stated below about
    the order of a sorted array is stated for results that are consistent. *)
Section Sort.
Context {A : Type} (cmp : A -> A -> number).

Definition comes_after (a b : A) : bool := nlt (Fin 0) (cmp a b).

Fixpoint insert_sorted (x : A) (l : list A) : list A :=
  match l with
  | [] => [x]
  | y :: l' => if comes_after x y then y :: insert_sorted x l' else x :: l
  end.

Definition sort (l : list A) : list A := fold_right insert_sorted [] l.

End Sort.

(** [[...a]] *)
Definition Array_spread (a : loc) : M loc :=
  (let* xs := read a in alloc xs)%ste.

(** [a.filter(p)] *)
Definition Array_filter (p : JsObject -> bool) (a : loc) : M loc :=
  (let* xs := read a in alloc (List.filter p xs))%ste.

(** [a.sort(cmp)]: sorts the array in place and returns it. *)
Definition Array_sort (cmp : JsObject -> JsObject -> number) (a : loc) : M loc :=
  (let* xs := read a in
   let* _ := write a (sort cmp xs) in
   ret a)%ste.

(** [a.length] *)
Definition Array_length (a : loc) : M nat :=
  (let* xs := read a in ret (length xs))%ste.

(** [a[i]] for an integer [i]; [None] is [undefined]. *)
Definition Array_at (a : loc) (i : Z) : M (option JsObject) :=
  (let* xs := read a in
   ret (if (i <? 0)%Z then None else xs !! Z.to_nat i))%ste.

(** [a[v]] for a value [v]: a number that is a natural number indexes the
    array; the text of a built-in names no element. *)
Definition Array_at_value (a : loc) (v : JsValue) : M (option JsObject) :=
  match v with
  | JNum (Fin q) =>
      if Qeq_bool q (inject_Z (Qfloor q)) then Array_at a (Qfloor q) else ret None
  | _ => ret None
  end.

(** [a.map(f)] *)
Definition Array_map {B : Type} (f : JsObject -> B) (a : loc) : M (list B) :=
  (let* xs := read a in ret (map f xs))%ste.

(** [a.find(p)] where the callback [p] may throw. *)
Fixpoint find_first (p : JsObject -> Completion bool) (xs : list JsObject)
    : Completion (option JsObject) :=
  match xs with
  | [] => Normal None
  | x :: rest =>
      match p x with
      | Normal true => Normal (Some x)
      | Normal false => find_first p rest
      | Throw e => Throw e
      end
  end.

Definition Array_find (p : JsObject -> Completion bool) (a : loc) : M (option JsObject) :=
  (let* xs := read a in lift (find_first p xs))%ste.

End Heap.

(** ** [src/services/jsonTools.js]: the tool executors *)

Module JsonTools.
Import Js Heap.

Record ChartPoint : Type := {
  date : string;
  fullDate : JsValue;
  value : number;
  point_title : JsValue;
}.

(** The objects [executeJsonTool] returns, by their marker field. *)
Inductive ToolResult : Type :=
(** [{ error }] *)
| ErrorResult (error : string)
(** [{ field, count, mean, median, std, min, max }] *)
| StatsResult (field : JsValue) (count : nat) (mean median std min max : number)
(** [{ _chartType: 'metric_vs_time', metric, title, data }] *)
| ChartResult (metric title : JsValue) (data : list ChartPoint)
(** [{ _cardType: 'video', title, video_url, thumbnail_url, view_count,
       like_count, duration }] *)
| VideoCard (title video_url thumbnail_url view_count like_count duration : JsValue)
(** [{ _action: 'generateImage', prompt }] *)
| ImageAction (prompt : JsValue).

Section WithHost.
Context (host : Host).

(** *** Math helpers *)

(** [videos.map((v) => parseFloat(v[field])).filter((n) => !isNaN(n))] *)
Definition numericValues (videos : loc) (field : JsValue) : M (list number) :=
  (let* parsed := Array_map (fun v => parseFloat (get v (ToString host field))) videos in
   ret (List.filter (fun n => negb (isNaN n)) parsed))%ste.

(** [sorted[i]] in arithmetic: [undefined] out of range counts as [NaN].
    [median] is only called on a non-empty list, where its indices are in
    range. *)
Definition num_at (xs : list number) (i : nat) : number := nth i xs NaN.

Definition median (sorted : list number) : number :=
  if length sorted mod 2 =? 0
  then fdiv (fadd (num_at sorted (length sorted / 2 - 1))
                  (num_at sorted (length sorted / 2))) (Fin 2)
  else num_at sorted (length sorted / 2).

(** [+n.toFixed(4)] *)
Definition fmt (n : number) : number := fmt_number n.

(** *** [compute_stats_json] *)

Definition compute_stats_json (args : JsObject) (videos : loc) : M ToolResult :=
  (let field := get args "field" in
   let* vals := numericValues videos field in
   if length vals =? 0 then
     let* first := Array_at videos 0 in
     let available := join ", " (Object_keys (default [] first)) in
     ret (ErrorResult ("No numeric values found for field " ++ dquote
                         ++ ToString host field ++ dquote
                         ++ ". Available fields: " ++ available))
   else
     let mean := fdiv (fold_left (fun a b => fadd a b) vals (Fin 0))
                      (of_nat (length vals)) in
     let sorted := sort (fun a b => nsub a b) vals in
     let variance :=
       fdiv (fold_left (fun a b => fadd a (fsquare (fsub b mean))) vals (Fin 0))
            (of_nat (length vals)) in
     ret (StatsResult field (length vals) (fmt mean) (fmt (median sorted))
            (fmt (Math_sqrt host variance)) (Math_min vals) (Math_max vals)))%ste.

(** *** [plot_metric_vs_time] *)

(** [v.release_date && v[metric] !== undefined && v[metric] !== null] *)
Definition has_date_and_metric (metric : JsValue) (v : JsObject) : bool :=
  truthy (get v "release_date") && is_present (get v (ToString host metric)).

(** [new Date(a.release_date) - new Date(b.release_date)] *)
Definition by_release_date (a b : JsObject) : number :=
  Date_sub (Date_new host (get a "release_date")) (Date_new host (get b "release_date")).

(** [typeof v[metric] === 'number' ? v[metric] : parseFloat(v[metric]) || 0] *)
Definition metric_value (metric : JsValue) (v : JsObject) : number :=
  match get v (ToString host metric) with
  | JNum n => n
  | other => let p := parseFloat other in if number_truthy p then p else Fin 0
  end.

Definition chart_point (metric : JsValue) (v : JsObject) : ChartPoint :=
  {| date := Date_toLocaleDateString host (Date_new host (get v "release_date"));
     fullDate := get v "release_date";
     value := metric_value metric v;
     point_title := or_else (get v "title") (JStr EmptyString) |}.

Definition plot_metric_vs_time (args : JsObject) (videos : loc) : M ToolResult :=
  (let metric := get args "metric" in
   let title := or_else (get args "title") (JStr (ToString host metric ++ " over time")) in
   let* copy := Array_spread videos in
   let* kept := Array_filter (has_date_and_metric metric) copy in
   let* sorted := Array_sort by_release_date kept in
   let* n := Array_length sorted in
   if n =? 0 then
     ret (ErrorResult ("No data found for metric " ++ dquote ++ ToString host metric
                         ++ dquote ++ " with release dates."))
   else
     let* data := Array_map (chart_point metric) sorted in
     ret (ChartResult metric title data))%ste.

(** *** [play_video] *)

(** [x.toLowerCase()]: a method of strings only. *)
Definition toLowerCase_method (x : JsValue) : Completion string :=
  match x with
  | JStr s => Normal (toLowerCase s)
  | _ => Throw "TypeError: toLowerCase is not a function"
  end.

(** [(args.query || '').toLowerCase().trim()] *)
Definition normalized_query (args : JsObject) : Completion string :=
  cbind (toLowerCase_method (or_else (get args "query") (JStr EmptyString)))
        (fun s => Normal (trim s)).

Definition ordinals : JsObject :=
  [ ("first", JNum (of_nat 0)); ("second", JNum (of_nat 1)); ("third", JNum (of_nat 2));
    ("fourth", JNum (of_nat 3)); ("fifth", JNum (of_nat 4)); ("sixth", JNum (of_nat 5));
    ("seventh", JNum (of_nat 6)); ("eighth", JNum (of_nat 7)); ("ninth", JNum (of_nat 8));
    ("tenth", JNum (of_nat 9)) ].

(** [/(\d+)(?:st|nd|rd|th)/] *)
Definition ordinal_suffix_re : regex :=
  Seq (Group (Plus Digit)) (Alt (lit "st") (Alt (lit "nd") (Alt (lit "rd") (lit "th")))).

(** The branch [else if (ordMatch)]:
    [videos[parseInt(ordMatch[1], 10) - 1]], or [null] without a match. *)
Definition numeral_suffix_match (query : string) (videos : loc) : M (option JsObject) :=
  match search false ordinal_suffix_re query with
  | Some caps => Array_at videos (parseInt_digits (nth 0 caps EmptyString) - 1)
  | None => ret None
  end.

(** Lines 1226-1233: the spelled-out ordinal when [ordinals[query]] is not
    [undefined], else the numeral with a suffix. *)
Definition ordinal_match (query : string) (videos : loc) : M (option JsObject) :=
  match get ordinals query with
  | JUndefined => numeral_suffix_match query videos
  | index => Array_at_value videos index
  end.

(** [(v.key || 0)] as the operand of a subtraction. *)
Definition count_of (key : string) (v : JsObject) : number :=
  ToNumber (or_else (get v key) (JNum (Fin 0))).

(** [new Date(v.release_date || 0)] *)
Definition release_or_epoch (v : JsObject) : option Z :=
  Date_new host (or_else (get v "release_date") (JNum (Fin 0))).

Definition descending (key : JsObject -> number) (a b : JsObject) : number :=
  nsub (key b) (key a).
Definition ascending (key : JsObject -> number) (a b : JsObject) : number :=
  nsub (key a) (key b).

(** [sorted.sort(cmp); found = sorted[0]] *)
Definition head_sorted (cmp : JsObject -> JsObject -> number) (sorted : loc)
    : M (option JsObject) :=
  (let* _ := Array_sort cmp sorted in Array_at sorted 0)%ste.

(** [/most\s*view/i], [/least\s*view/i], [/most\s*lik/i],
    [/latest|newest|recent/i], [/oldest|earliest/i], [/shortest/i] and
    [/longest/i] *)
Definition most_view_re : regex := Seq (lit "most") (Seq (Star Space) (lit "view")).
Definition least_view_re : regex := Seq (lit "least") (Seq (Star Space) (lit "view")).
Definition most_lik_re : regex := Seq (lit "most") (Seq (Star Space) (lit "lik")).
Definition latest_re : regex := Alt (lit "latest") (Alt (lit "newest") (lit "recent")).
Definition oldest_re : regex := Alt (lit "oldest") (lit "earliest").
Definition shortest_re : regex := lit "shortest".
Definition longest_re : regex := lit "longest".

(** Lines 1235-1260: the criteria, tried when nothing is found yet. *)
Definition criteria_match (query : string) (videos : loc) (found : option JsObject)
    : M (option JsObject) :=
  match found with
  | Some v => ret (Some v)
  | None =>
      (let* sorted := Array_spread videos in
       if test true most_view_re query then
         head_sorted (descending (count_of "view_count")) sorted
       else if test true least_view_re query then
         head_sorted (ascending (count_of "view_count")) sorted
       else if test true most_lik_re query then
         head_sorted (descending (count_of "like_count")) sorted
       else if test true latest_re query then
         head_sorted (fun a b => Date_sub (release_or_epoch b) (release_or_epoch a)) sorted
       else if test true oldest_re query then
         head_sorted (fun a b => Date_sub (release_or_epoch a) (release_or_epoch b)) sorted
       else if test true shortest_re query then
         head_sorted (ascending (count_of "duration")) sorted
       else if test true longest_re query then
         head_sorted (descending (count_of "duration")) sorted
       else ret None)%ste
  end.

(** [(v.title || '').toLowerCase()] *)
Definition lower_title (v : JsObject) : Completion string :=
  toLowerCase_method (or_else (get v "title") (JStr EmptyString)).

Definition title_has_every (terms : list string) (v : JsObject) : Completion bool :=
  cbind (lower_title v) (fun t => Normal (forallb (fun term => includes t term) terms)).

Definition title_has_some (terms : list string) (v : JsObject) : Completion bool :=
  cbind (lower_title v)
        (fun t => Normal (existsb (fun term => (2 <? String.length term) && includes t term)
                                  terms)).

(** Lines 1262-1276: the title matches, tried when nothing is found yet. *)
Definition title_match (query : string) (videos : loc) (found : option JsObject)
    : M (option JsObject) :=
  match found with
  | Some v => ret (Some v)
  | None =>
      (let terms := split_ws query in
       let* every := Array_find (title_has_every terms) videos in
       match every with
       | Some v => ret (Some v)
       | None => Array_find (title_has_some terms) videos
       end)%ste
  end.

(** The value of [found] at line 1278. *)
Definition find_video (query : string) (videos : loc) : M (option JsObject) :=
  (let* found := ordinal_match query videos in
   let* found := criteria_match query videos found in
   title_match query videos found)%ste.

Definition video_card (found : JsObject) : ToolResult :=
  VideoCard (get found "title") (get found "video_url")
    (or_else (get found "thumbnail_url")
       (JStr ("https://i.ytimg.com/vi/" ++ ToString host (get found "video_id")
                ++ "/hqdefault.jpg")))
    (get found "view_count") (get found "like_count") (get found "duration").

Definition play_video (args : JsObject) (videos : loc) : M ToolResult :=
  (let* query := lift (normalized_query args) in
   let* n := Array_length videos in
   if n =? 0 then ret (ErrorResult "No videos loaded.")
   else
     let* found := find_video query videos in
     match found with
     | None =>
         ret (ErrorResult ("No video found matching " ++ dquote
                             ++ ToString host (get args "query") ++ dquote ++ "."))
     | Some v => ret (video_card v)
     end)%ste.

(** *** [executeJsonTool] *)

Definition executeJsonTool (toolName : string) (args : JsObject) (videos : loc)
    : M ToolResult :=
  if String.eqb toolName "compute_stats_json" then compute_stats_json args videos
  else if String.eqb toolName "plot_metric_vs_time" then plot_metric_vs_time args videos
  else if String.eqb toolName "play_video" then play_video args videos
  else if String.eqb toolName "generateImage" then ret (ImageAction (get args "prompt"))
  else ret (ErrorResult ("Unknown tool: " ++ toolName)).

End WithHost.

(** What the loops of [gemini.js] read off a result. *)

(** [toolResult?._chartType] is truthy *)
Definition has_chartType (r : ToolResult) : bool :=
  match r with ChartResult _ _ _ => true | _ => false end.

(** [toolResult?._cardType === 'video'] *)
Definition is_video_card (r : ToolResult) : bool :=
  match r with VideoCard _ _ _ _ _ _ => true | _ => false end.

(** [result.error] is present *)
Definition is_error (r : ToolResult) : bool :=
  match r with ErrorResult _ => true | _ => false end.

End JsonTools.

(** ** [src/services/gemini.js]: conversation adapter and function-calling loops *)

Module Gemini.
Import Js.

(** An element [m] of [history]: [m.role] and [m.content] ([None] when it is
    absent). *)
Record Message : Type := {
  role : string;
  content : option string;
}.

(** A turn in the provider's format: [{ role, parts: [{ text }] }]. *)
Record Content : Type := {
  content_role : string;
  content_text : string;
}.

(** [history.map((m) => ({ role: m.role === 'user' ? 'user' : 'model',
                          parts: [{ text: m.content || '' }] }))] *)
Definition baseHistory (history : list Message) : list Content :=
  map (fun m => {| content_role := if String.eqb (role m) "user" then "user" else "model";
                   content_text := default EmptyString (content m) |})
      history.

(** The array [chatHistory], built the same way in [streamChat] (lines
    50-64), [chatWithCsvTools] (144-158) and [chatWithJsonTools] (212-226). *)
Definition chatHistory (systemInstruction : string) (history : list Message)
    : list Content :=
  if negb (String.eqb systemInstruction EmptyString) then
    {| content_role := "user";
       content_text := ("Follow these instructions in every response:" ++ newline
                         ++ newline ++ systemInstruction)%string |}
    :: {| content_role := "model";
          content_text := "Got it! I'll follow those instructions." |}
    :: baseHistory history
  else baseHistory history.

(** [{ name, args }] of a [functionCall] part. *)
Record FunctionCall : Type := {
  name : string;
  args : JsObject;
}.

Record Part : Type := {
  part_text : option string;
  functionCall : option FunctionCall;
}.

(** A response of the model: [response.candidates?.[0]?.content?.parts || []]
    and the outcome of [response.text()]. *)
Record Response : Type := {
  parts : list Part;
  text : Completion string;
}.

(** [parts.find((p) => p.functionCall)], read at [.functionCall]. *)
Fixpoint find_functionCall (ps : list Part) : option FunctionCall :=
  match ps with
  | [] => None
  | p :: rest =>
      match functionCall p with
      | Some fc => Some fc
      | None => find_functionCall rest
      end
  end.

Section Orchestrator.

(** [R] is the type of the objects the executor returns; the loops look at
    two of their fields only. *)
Context {R : Type}.
(** [toolResult?._chartType] is truthy *)
Context (has_chartType : R -> bool).
(** [toolResult?._cardType === 'video'] *)
Context (is_video_card : R -> bool).

(** What is sent with [chat.sendMessage]. *)
Inductive Request : Type :=
| UserMessage (message : string)
| FunctionResponse (fname : string) (result : R).

(** [{ name, args, result }] *)
Record ToolCall : Type := {
  call_name : string;
  call_args : JsObject;
  call_result : R;
}.

(** The world outside the module: the prompt file, the chat session of the
    provider, and whatever the executor touches.  [W] is its state. *)
Context {W : Type}.

Record Remote : Type := {
  (** [fetch('/prompt_chat.txt')] and [res.text()]: the body when the
      response is [ok] and could be read, [None] on any failure. *)
  fetch_prompt : W -> W * option string;
  (** [model.startChat({ history })]; the provider may refuse the history. *)
  startChat : list Content -> StE W unit;
  (** [(await chat.sendMessage(m)).response] *)
  sendMessage : Request -> StE W Response;
  (** [await v] for a value [v] that the executor returned: [v] itself when
      it is no promise, what the promise is fulfilled with, or the exception
      it is rejected with. *)
  await : R -> StE W R;
}.

Context (remote : Remote).
(** The call [executeFn(name, args)] itself, with its effects: the value it
    returns (a promise, when the executor is asynchronous) or the exception
    it raises before returning. *)
Context (executeFn : string -> JsObject -> StE W R).

(** The state the module runs in: the world and the module variable
    [cachedPrompt] ([None] is [null]). *)
Record State : Type := {
  world : W;
  cachedPrompt : option string;
}.

Definition in_world {A : Type} (m : StE W A) : StE State A :=
  fun st => let '(w, r) := m (world st) in
            ({| world := w; cachedPrompt := cachedPrompt st |}, r).

(** [loadSystemPrompt(userName)] *)
Definition loadSystemPrompt (userName : string) : StE State string :=
  fun st =>
    let st1 :=
      match cachedPrompt st with
      | Some (String c r) => st
      | _ =>
          let '(w, body) := fetch_prompt remote (world st) in
          {| world := w;
             cachedPrompt := Some (match body with
                                   | Some t => trim t
                                   | None => EmptyString
                                   end) |}
      end in
    let prompt := default EmptyString (cachedPrompt st1) in
    (st1,
     Normal (if negb (String.eqb userName EmptyString)
             then (prompt ++ newline ++ newline ++ "The user's name is " ++ userName
                    ++ ". Address them by their first name in your first message and whenever it feels natural.")%string
             else prompt)).

(** The arrays the loop fills. *)
Record Log : Type := {
  charts : list R;
  videoCards : list R;
  toolCalls : list ToolCall;
}.

Definition empty_log : Log := {| charts := []; videoCards := []; toolCalls := [] |}.

(** [toolCalls.push(...)], [charts.push(...)] and, with [cards], the line
    [if (toolResult?._cardType === 'video') videoCards.push(toolResult)]. *)
Definition record_call (cards : bool) (fc : FunctionCall) (toolResult : R) (log : Log) : Log :=
  {| charts := if has_chartType toolResult then charts log ++ [toolResult] else charts log;
     videoCards := if cards && is_video_card toolResult
                   then videoCards log ++ [toolResult] else videoCards log;
     toolCalls := toolCalls log ++ [{| call_name := name fc; call_args := args fc;
                                       call_result := toolResult |}] |}.

Definition MAX_ROUNDS : nat := 5.

(** [const toolResult = await executeFn(name, args)] in [chatWithJsonTools]
    (line 243, [cards]) and [const toolResult = executeFn(name, args)],
    without [await], in [chatWithCsvTools] (line 181). *)
Definition call_tool (cards : bool) (fc : FunctionCall) : StE W R :=
  (let* called := executeFn (name fc) (args fc) in
   if cards then await remote called else ret called)%ste.

(** [for (let round = 0; round < 5; round++) { ... }] with [remaining] the
    number of rounds still allowed, [5 - round].  It returns the last
    [response] and the filled arrays.  [cards] tells the two loops apart: it
    is set in [chatWithJsonTools], which awaits the result of the executor
    and fills [videoCards]. *)
Fixpoint tool_loop (cards : bool) (remaining : nat) (response : Response) (log : Log)
    : StE W (Response * Log) :=
  match remaining with
  | 0 => ret (response, log)
  | S remaining' =>
      match find_functionCall (parts response) with
      | None => ret (response, log)
      | Some fc =>
          (let* toolResult := call_tool cards fc in
           let log' := record_call cards fc toolResult log in
           let* response' := sendMessage remote (FunctionResponse (name fc) toolResult) in
           tool_loop cards remaining' response' log')%ste
      end
  end.

(** What [chatWithCsvTools] and [chatWithJsonTools] return; the first has no
    [videoCards]. *)
Record Answer : Type := {
  answer_text : string;
  answer_log : Log;
}.

Definition run_chat (cards : bool) (history : list Message) (message : string)
    (userName : string) : StE State Answer :=
  (let* systemInstruction := loadSystemPrompt userName in
   let* _ := in_world (startChat remote (chatHistory systemInstruction history)) in
   let* response := in_world (sendMessage remote (UserMessage message)) in
   let* last := in_world (tool_loop cards MAX_ROUNDS response empty_log) in
   let* t := lift (text (fst last)) in
   ret {| answer_text := t; answer_log := snd last |})%ste.

(** [csvHeaders?.length ? `[CSV columns: ${csvHeaders.join(', ')}]\n\n${newMessage}`
                        : newMessage] *)
Definition msgWithContext (csvHeaders : option (list string)) (newMessage : string) : string :=
  match csvHeaders with
  | Some (h :: hs) =>
      ("[CSV columns: " ++ join ", " (h :: hs) ++ "]" ++ newline ++ newline ++ newMessage)%string
  | _ => newMessage
  end.

Definition chatWithCsvTools (history : list Message) (newMessage : string)
    (csvHeaders : option (list string)) (userName : string) : StE State Answer :=
  run_chat false history (msgWithContext csvHeaders newMessage) userName.

Definition chatWithJsonTools (history : list Message) (newMessage : string)
    (userName : string) : StE State Answer :=
  run_chat true history newMessage userName.

End Orchestrator.

(** *** Counting the invocations of the executor

    To count how often a run calls [executeFn], the world is paired with a
    counter that the executor alone advances.  The run itself is unchanged
    ([GeminiFacts.counting_erases]). *)
Section Counting.
Context {R W : Type}.
Context (remote : @Remote R W) (executeFn : string -> JsObject -> StE W R).

Definition uncounted {A : Type} (m : StE W A) : StE (W * nat) A :=
  fun s => let '(w, r) := m (fst s) in ((w, snd s), r).

Definition counted {A : Type} (m : StE W A) : StE (W * nat) A :=
  fun s => let '(w, r) := m (fst s) in ((w, S (snd s)), r).

Definition counting_remote : @Remote R (W * nat) :=
  {| fetch_prompt := fun s => let '(w, body) := fetch_prompt remote (fst s) in
                              ((w, snd s), body);
     startChat := fun h => uncounted (startChat remote h);
     sendMessage := fun req => uncounted (sendMessage remote req);
     await := fun called => uncounted (await remote called) |}.

Definition counting_executeFn (fname : string) (fargs : JsObject) : StE (W * nat) R :=
  counted (executeFn fname fargs).

(** The number of executor invocations a state has seen. *)
Definition invocations (st : @State (W * nat)) : nat := snd (world st).

Definition start_counting (st : @State W) : @State (W * nat) :=
  {| world := (world st, 0); cachedPrompt := cachedPrompt st |}.

Definition stop_counting (st : @State (W * nat)) : @State W :=
  {| world := fst (world st); cachedPrompt := cachedPrompt st |}.

End Counting.

End Gemini.

(** ** Recording what a turn sends

    To see which messages a run sends with [chat.sendMessage], the world is
    paired with the list of the requests sent so far, in order.  The run
    itself is unchanged ([LogFacts.tracing_erases]). *)

Module GeminiTrace.
Import Js Gemini.

Section Tracing.
Context {R W : Type}.
Context (remote : @Remote R W) (executeFn : string -> JsObject -> StE W R).

Definition untraced {A : Type} (m : StE W A) : StE (W * list (@Request R)) A :=
  fun s => let '(w, r) := m (fst s) in ((w, snd s), r).

Definition tracing_remote : @Remote R (W * list (@Request R)) :=
  {| fetch_prompt := fun s => let '(w, body) := fetch_prompt remote (fst s) in
                              ((w, snd s), body);
     startChat := fun h => untraced (startChat remote h);
     sendMessage := fun req s =>
       let '(w, r) := sendMessage remote req (fst s) in ((w, snd s ++ [req]), r);
     await := fun called => untraced (await remote called) |}.

Definition traced_executeFn (fname : string) (fargs : JsObject)
    : StE (W * list (@Request R)) R :=
  untraced (executeFn fname fargs).

(** The requests a state has seen sent. *)
Definition sent (st : @State (W * list (@Request R))) : list (@Request R) :=
  snd (world st).

Definition start_tracing (st : @State W) : @State (W * list (@Request R)) :=
  {| world := (world st, []); cachedPrompt := cachedPrompt st |}.

Definition stop_tracing (st : @State (W * list (@Request R))) : @State W :=
  {| world := fst (world st); cachedPrompt := cachedPrompt st |}.

(** The function response that sends the result of a recorded call back. *)
Definition response_of (call : @ToolCall R) : @Request R :=
  FunctionResponse (call_name call) (call_result call).

End Tracing.

(** *** Recording what happens in a turn

    To see what a run does with the executor and with the responses of the
    model, the world is paired with the list of the events so far, in order:
    each call of the executor with its outcome, each [await] of a value the
    executor returned with its outcome, and each message sent with the
    response to it.  The run itself is unchanged
    ([GeminiFacts.observing_erases]). *)
Section Observing.
Context {R W : Type}.
Context (remote : @Remote R W) (executeFn : string -> JsObject -> StE W R).

Inductive Event : Type :=
| Called (fname : string) (fargs : JsObject) (outcome : Completion R)
| Awaited (called : R) (outcome : Completion R)
| Sent (request : @Request R) (outcome : Completion Response).

Definition unobserved {A : Type} (m : StE W A) : StE (W * list Event) A :=
  fun s => let '(w, r) := m (fst s) in ((w, snd s), r).

Definition observed {A : Type} (event : Completion A -> Event) (m : StE W A)
    : StE (W * list Event) A :=
  fun s => let '(w, r) := m (fst s) in ((w, snd s ++ [event r]), r).

Definition observing_remote : @Remote R (W * list Event) :=
  {| fetch_prompt := fun s => let '(w, body) := fetch_prompt remote (fst s) in
                              ((w, snd s), body);
     startChat := fun h => unobserved (startChat remote h);
     sendMessage := fun req => observed (Sent req) (sendMessage remote req);
     await := fun called => observed (Awaited called) (await remote called) |}.

Definition observing_executeFn (fname : string) (fargs : JsObject)
    : StE (W * list Event) R :=
  observed (Called fname fargs) (executeFn fname fargs).

(** The events a state has seen. *)
Definition events (st : @State (W * list Event)) : list Event := snd (world st).

Definition start_observing (st : @State W) : @State (W * list Event) :=
  {| world := (world st, []); cachedPrompt := cachedPrompt st |}.

Definition stop_observing (st : @State (W * list Event)) : @State W :=
  {| world := fst (world st); cachedPrompt := cachedPrompt st |}.

(** The responses received, in order. *)
Fixpoint received (trace : list Event) : list Response :=
  match trace with
  | [] => []
  | Sent _ (Normal response) :: rest => response :: received rest
  | _ :: rest => received rest
  end.

(** The response asked for the call that was recorded. *)
Definition asked_for (response : Response) (call : @ToolCall R) : Prop :=
  find_functionCall (parts response)
  = Some {| name := call_name call; args := call_args call |}.

(** The event is a failure of the executor: the call raised, or the value it
    returned was awaited and rejected. *)
Definition executor_failed (event : Event) (e : string) : Prop :=
  (exists fname fargs, event = Called fname fargs (Throw e))
  \/ (exists called, event = Awaited called (Throw e)).

End Observing.

End GeminiTrace.


(** ** [src/components/Chat.js]: the turn handler around the JSON tools

    [handleSend] on the JSON tools path: the executor it passes to
    [chatWithJsonTools], the image generation handler, the fields it sets on
    the assistant message and passes to [saveMessage], and what the reload
    effect rebuilds from a stored message. *)

Module Chat.
Import Js Heap JsonTools Gemini.

(** An attached or generated image: [{ mimeType, data }]. *)
Record Image : Type := {
  mimeType : JsValue;
  data : JsValue;
}.

(** An element of [contentParts]: [{ text }] or [{ inlineData }]. *)
Inductive ContentPart : Type :=
| TextPart (text : JsValue)
| InlineData (image : Image).

(** A part of the response of the image model; [inlineData] is [None] when
    [part.inlineData] is falsy. *)
Record GeneratedPart : Type := {
  inlineData : option Image;
}.

(** What the executor of the JSON tools path returns. *)
Inductive Result : Type :=
(** an object built by [executeJsonTool], or the [{ error }] of
    [handleGenerateImage] *)
| Tool (r : ToolResult)
(** [{ _generatedImage: { data, mimeType }, description }] *)
| Generated (image : Image) (description : string)
(** [{ description }] *)
| Described (description : string).

(** [toolResult?._chartType], [toolResult?._cardType === 'video'] and
    [tc.result?._generatedImage] on these results. *)
Definition has_chartType (r : Result) : bool :=
  match r with Tool t => JsonTools.has_chartType t | _ => false end.

Definition is_video_card (r : Result) : bool :=
  match r with Tool t => JsonTools.is_video_card t | _ => false end.

Definition generatedImage (r : Result) : option Image :=
  match r with Generated image _ => Some image | _ => None end.

Section Handler.
Context (host : Host).
(** The state of the image service is [N]; [generateContent] stands for
    lines 641-653: the dynamic import, the construction of the model, the
    request and the reading of [result.response.candidates?.[0]?.content?.parts
    || []].  Any of them may throw. *)
Context {N : Type} (generateContent : list ContentPart -> StE N (list GeneratedPart)).

(** [contentParts] of lines 646-651. *)
Definition contentParts (prompt : JsValue) (anchorImage : option Image) : list ContentPart :=
  TextPart prompt
  :: match anchorImage with
     | Some anchor =>
         if truthy (data anchor)
         then [InlineData {| mimeType := or_else (mimeType anchor) (JStr "image/png");
                             data := data anchor |}]
         else []
     | None => []
     end.

(** [for (const part of parts) if (part.inlineData) return ...] *)
Fixpoint first_inlineData (parts : list GeneratedPart) : option Image :=
  match parts with
  | [] => None
  | part :: rest =>
      match inlineData part with
      | Some image => Some image
      | None => first_inlineData rest
      end
  end.

(** [handleGenerateImage(prompt, anchorImage)], lines 638-666. *)
Definition handleGenerateImage (prompt : JsValue) (anchorImage : option Image)
    : StE N Result :=
  fun n =>
    match generateContent (contentParts prompt anchorImage) n with
    | (n', Normal parts) =>
        (n', Normal
               match first_inlineData parts with
               | Some image =>
                   Generated {| mimeType := mimeType image; data := data image |}
                     ("Generated image for: " ++ ToString host prompt)
               | None =>
                   Described ("Image generation completed but no image was returned for: "
                                ++ ToString host prompt)
               end)
    | (n', Throw message) =>
        (n', Normal (Tool (ErrorResult ("Image generation failed: " ++ message))))
    end.

(** The executor of lines 514-521.  Its world is the heap that holds the
    dataset together with the state of the image service.  The function is
    asynchronous: a call returns a promise and never raises; the outcome
    given here is that of the promise, which [chatWithJsonTools] awaits, an
    exception standing for a rejection. *)
Definition executor (imageParts : list Image) (sessionJsonData : loc)
    (toolName : string) (args : JsObject) : StE (heap * N) Result :=
  fun w =>
    if String.eqb toolName "generateImage" then
      let anchor := head imageParts in
      let '(n', r) := handleGenerateImage (get args "prompt") anchor (snd w) in
      ((fst w, n'), r)
    else
      let '(h', r) := executeJsonTool host toolName args sessionJsonData (fst w) in
      ((h', snd w),
       match r with
       | Normal t => Normal (Tool t)
       | Throw message => Throw message
       end).

End Handler.

(** *** The assistant message of a turn *)

(** [xs.length ? xs : undefined] and [xs.length ? xs : null]; both are
    [None] here. *)
Definition if_any {A : Type} (xs : list A) : option (list A) :=
  match xs with
  | [] => None
  | _ => Some xs
  end.

(** The fields of the assistant message that the JSON tools path sets.  An
    absent field, [undefined] and [null] are all [None]. *)
Record AssistantMessage : Type := {
  msg_content : string;
  msg_charts : option (list Result);
  msg_videoCards : option (list Result);
  msg_generatedImages : option (list Image);
  msg_toolCalls : option (list (@ToolCall Result));
}.

(** The arguments of [saveMessage] after the role: content, images, charts
    and tool calls. *)
Record StoredMessage : Type := {
  stored_content : string;
  stored_charts : option (list Result);
  stored_toolCalls : option (list (@ToolCall Result));
}.

(** Lines 529-533: the generated images of the tool calls. *)
Fixpoint generatedImages_of (toolCalls : list (@ToolCall Result)) : list Image :=
  match toolCalls with
  | [] => []
  | tc :: rest =>
      match generatedImage (call_result tc) with
      | Some image => image :: generatedImages_of rest
      | None => generatedImages_of rest
      end
  end.

(** The message shown at the end of a turn of the JSON tools path, lines
    506-549 and 592-598, from the outcome of [chatWithJsonTools]. *)
Definition shown (outcome : Completion (@Answer Result)) : AssistantMessage :=
  match outcome with
  | Normal result =>
      {| msg_content := answer_text result;
         msg_charts := if_any (charts (answer_log result));
         msg_videoCards := if_any (videoCards (answer_log result));
         msg_generatedImages := if_any (generatedImages_of (toolCalls (answer_log result)));
         msg_toolCalls := if_any (toolCalls (answer_log result)) |}
  | Throw message =>
      {| msg_content := "Error: " ++ message;
         msg_charts := None;
         msg_videoCards := None;
         msg_generatedImages := None;
         msg_toolCalls := None |}
  end.

(** [fullContent] after the [try] of the two tool paths, lines 516, 556 and
    600-605: the text of the answer, or the text of the error. *)
Definition fullContent {R : Type} (outcome : Completion (@Answer R)) : string :=
  match outcome with
  | Normal result => answer_text result
  | Throw message => "Error: " ++ message
  end.

(** What the turn hands to [saveMessage], lines 611-623. *)
Definition saved (outcome : Completion (@Answer Result)) : StoredMessage :=
  match outcome with
  | Normal result =>
      {| stored_content := answer_text result;
         stored_charts := if_any (charts (answer_log result));
         stored_toolCalls := if_any (toolCalls (answer_log result)) |}
  | Throw message =>
      {| stored_content := "Error: " ++ message;
         stored_charts := None;
         stored_toolCalls := None |}
  end.

(** The reload effect, lines 166-181, on one stored message:
    [videoCards] and [generatedImages] are rebuilt from the tool calls. *)
Definition enriched (m : StoredMessage) : AssistantMessage :=
  match stored_toolCalls m with
  | None | Some [] =>
      {| msg_content := stored_content m;
         msg_charts := stored_charts m;
         msg_videoCards := None;
         msg_generatedImages := None;
         msg_toolCalls := stored_toolCalls m |}
  | Some calls =>
      let videoCards :=
        map call_result (List.filter (fun tc => is_video_card (call_result tc)) calls) in
      let generatedImages :=
        generatedImages_of
          (List.filter (fun tc => match generatedImage (call_result tc) with
                                  | Some _ => true
                                  | None => false
                                  end) calls) in
      {| msg_content := stored_content m;
         msg_charts := stored_charts m;
         msg_videoCards := if_any videoCards;
         msg_generatedImages := if_any generatedImages;
         msg_toolCalls := stored_toolCalls m |}
  end.

(** *** Routing, lines 402-413 *)

Record Route : Type := {
  useJsonTools : bool;
  useTools : bool;
  useCodeExecution : bool;
}.

(** [pythonKeyword] and [codeKeyword] are the results of the two keyword
    tests on the text; the other arguments say whether a JSON dataset is
    loaded, whether CSV rows are loaded and whether a CSV file is attached to
    this message. *)
Definition routing (sessionJsonData sessionCsvRows capturedCsv pythonKeyword codeKeyword : bool)
    : Route :=
  let wantPythonOnly := pythonKeyword in
  let wantCode := codeKeyword && negb sessionCsvRows in
  let useJsonTools := sessionJsonData in
  {| useJsonTools := useJsonTools;
     useTools := negb useJsonTools && sessionCsvRows && negb wantPythonOnly
                 && negb wantCode && negb capturedCsv;
     useCodeExecution := negb useJsonTools && (wantPythonOnly || wantCode) |}.

(** The branch [handleSend] takes, lines 507-590. *)
Inductive Path : Type := JsonToolsPath | CsvToolsPath | StreamingPath (codeExecution : bool).

Definition path_of (r : Route) : Path :=
  if useJsonTools r then JsonToolsPath
  else if useTools r then CsvToolsPath
  else StreamingPath (useCodeExecution r).

End Chat.

(** ** The channel downloader (server side)

    [fetchChannelVideos] and its helpers: the channel reference is resolved,
    the ids of the uploads are paged in, the details are fetched in batches
    of 50 and turned into the records of the dataset, and the transcripts are
    attached.  The YouTube Data API and the transcript service are a record
    of operations on a state [W]; each may throw. *)

Module Downloader.
Import Js.

(** *** Numbers *)

(** The sign of a number that is neither zero nor [NaN]. *)
Definition nsign (a : number) : option bool :=
  match a with
  | NaN => None
  | PInf => Some true
  | NInf => Some false
  | Fin q => if Qeq_bool q 0 then None else Some (Qle_bool 0 q)
  end.

(** The exact product. *)
Definition nmul (a b : number) : number :=
  match a, b with
  | NaN, _ | _, NaN => NaN
  | Fin x, Fin y => Fin (x * y)%Q
  | _, _ =>
      match nsign a, nsign b with
      | Some sa, Some sb => if Bool.eqb sa sb then PInf else NInf
      | _, _ => NaN
      end
  end.

(** [a * b] *)
Definition fmul (a b : number) : number := rounded (nmul a b).

(** [parseInt(v, 10)]: the value is turned into a string, leading white
    space and a sign are skipped and the longest run of decimal digits is
    read, its value rounded to a double; [NaN] when there is none. *)
Definition parseInt10 (host : Host) (v : JsValue) : number :=
  let '(neg, r) := signed (trimStart (ToString host v)) in
  let '(z, n, _) := digits r in
  if n =? 0 then NaN else round64 (inject_Z (if neg then (- z)%Z else z)).

(** *** [parseDuration] *)

(** [(?:(\d+)c)?].  A group that takes no part in the match is [undefined]
    in [m]; the empty string is recorded for it here, and [+m[i] || 0] is 0
    for both. *)
Definition optional_unit (c : ascii) : regex :=
  Alt (Seq (Group (Plus Digit)) (Chr c)) (Group Eps).

(** [/PT(?:(\d+)H)?(?:(\d+)M)?(?:(\d+)S)?/] *)
Definition duration_re : regex :=
  Seq (lit "PT")
      (Seq (optional_unit "H") (Seq (optional_unit "M") (optional_unit "S"))).

(** [+m[i + 1] || 0] *)
Definition unit_value (m : list string) (i : nat) : number :=
  let n := StringToNumber (nth i m EmptyString) in
  if number_truthy n then n else Fin 0.

Definition parseDuration (iso : JsValue) : Completion number :=
  if negb (truthy iso) then Normal (Fin 0)
  else
    match iso with
    | JStr s =>
        match search false duration_re s with
        | None => Normal (Fin 0)
        | Some m =>
            Normal (fadd (fadd (fmul (unit_value m 0) (Fin 3600))
                               (fmul (unit_value m 1) (Fin 60)))
                         (unit_value m 2))
        end
    | _ => Throw "TypeError: iso.match is not a function"
    end.

(** *** What the services return *)

(** An element of [res.data.items] of [playlistItems.list]:
    [item.contentDetails], when present, holds [videoId]. *)
Record PlaylistItem : Type := {
  item_contentDetails : option JsValue;
}.

Record PlaylistPage : Type := {
  page_items : list PlaylistItem;
  nextPageToken : JsValue;
}.

(** [s.thumbnails]: the [url] of each size, [undefined] for a size that is
    absent. *)
Record Thumbnails : Type := {
  maxres_url : JsValue;
  high_url : JsValue;
  medium_url : JsValue;
}.

Record Snippet : Type := {
  title : JsValue;
  description : JsValue;
  publishedAt : JsValue;
  thumbnails : option Thumbnails;
}.

Record Statistics : Type := {
  viewCount : JsValue;
  likeCount : JsValue;
  commentCount : JsValue;
}.

Record ContentDetails : Type := {
  duration : JsValue;
}.

(** An element of [res.data.items] of [videos.list]; a part that is absent
    (or falsy) is [None]. *)
Record VideoItem : Type := {
  id : JsValue;
  snippet : option Snippet;
  statistics : option Statistics;
  contentDetails : option ContentDetails;
}.

Record Api (W : Type) : Type := {
  (** [channels.list({ part: ['id'], forHandle })]: [res.data?.items?.[0]?.id] *)
  channel_of_handle : string -> StE W JsValue;
  (** [channels.list({ part: ['contentDetails'], id })]:
      [res.data?.items?.[0]?.contentDetails?.relatedPlaylists?.uploads] *)
  uploads_of_channel : JsValue -> StE W JsValue;
  (** [playlistItems.list({ playlistId, maxResults, pageToken })]: [items]
      (empty when absent) and [nextPageToken] *)
  playlistItems_list : JsValue -> nat -> JsValue -> StE W PlaylistPage;
  (** [videos.list({ id: batch })]: [res.data.items || []] *)
  videos_list : list JsValue -> StE W (list VideoItem);
  (** [fetchTranscript(videoId, { lang: 'en' })]: the texts of the segments *)
  fetchTranscript : JsValue -> StE W (list string);
}.
Arguments channel_of_handle {W} _ _ _.
Arguments uploads_of_channel {W} _ _ _.
Arguments playlistItems_list {W} _ _ _ _ _.
Arguments videos_list {W} _ _ _.
Arguments fetchTranscript {W} _ _ _.

(** A computation that may also run out of the fuel given to a loop:
    [None] is "no result within the fuel". *)
Definition out_of_fuel {W A : Type} : StE W (option A) := ret None.

(** *** [resolveChannelId] *)

(** [/^https?:\/\/(www\.)?youtube\.com\//] *)
Definition url_prefix_re : regex :=
  Seq (lit "http")
      (Seq (Alt (Chr "s") Eps)
           (Seq (lit "://") (Seq (Alt (Group (lit "www.")) Eps) (lit "youtube.com/")))).

(** [s.replace(/^.../, '')] for a pattern anchored at the start: the match
    is removed when there is one. *)
Definition remove_prefix (r : regex) (s : string) : string :=
  match rmatch false r s [] (fun rest _ => Some rest) with
  | Some rest => rest
  | None => s
  end.

(** [s.replace(/\/$/, '')] *)
Fixpoint remove_last_slash (s : string) : string :=
  match s with
  | EmptyString => EmptyString
  | String c EmptyString => if Ascii.eqb c "/" then EmptyString else s
  | String c r => String c (remove_last_slash r)
  end.

(** [\w] and [[\w-]] *)
Definition is_word (c : ascii) : bool :=
  let n := code c in
  ((48 <=? n) && (n <=? 57)) || ((65 <=? n) && (n <=? 90))
  || ((97 <=? n) && (n <=? 122)) || (n =? 95).

Fixpoint all_chars (p : ascii -> bool) (s : string) : bool :=
  match s with
  | EmptyString => true
  | String c r => p c && all_chars p r
  end.

(** [/^UC[\w-]{22}$/.test(s)] *)
Definition is_channel_id (s : string) : bool :=
  starts_with "UC" s
  && (String.length s =? 24)
  && all_chars (fun c => is_word c || Ascii.eqb c "-") s.

(** [s.slice(n)] *)
Fixpoint drop_str (n : nat) (s : string) : string :=
  match n, s with
  | S n', String _ r => drop_str n' r
  | _, _ => s
  end.

(** [channelInput.replace(...).replace(...).trim()] *)
Definition cleaned (channelInput : string) : string :=
  trim (remove_last_slash (remove_prefix url_prefix_re channelInput)).

Section WithApi.
Context (host : Host) {W : Type} (api : Api W).

Definition resolveChannelId (channelInput : string) : StE W JsValue :=
  let cleaned := cleaned channelInput in
  if is_channel_id cleaned then ret (JStr cleaned)
  else if starts_with "channel/" cleaned then ret (JStr (drop_str 8 cleaned))
  else
    let handle := if starts_with "c/" cleaned then drop_str 2 cleaned else cleaned in
    let handle := if starts_with "@" handle then drop_str 1 handle else handle in
    (let* channelId := channel_of_handle api handle in
     if truthy channelId then ret channelId
     else throw ("Channel not found for: " ++ channelInput))%ste.

Definition getUploadsPlaylistId (channelId : JsValue) : StE W JsValue :=
  (let* id := uploads_of_channel api channelId in
   if truthy id then ret id
   else throw ("Could not find uploads playlist for channel: "
                 ++ ToString host channelId))%ste.

(** *** [getVideoIds] *)

(** [for (const item of items) ids.push(item.contentDetails.videoId)] *)
Fixpoint pushed_ids (items : list PlaylistItem) : Completion (list JsValue) :=
  match items with
  | [] => Normal []
  | item :: rest =>
      match item_contentDetails item with
      | Some videoId => cbind (pushed_ids rest) (fun ids => Normal (videoId :: ids))
      | None => Throw "TypeError: cannot read properties of undefined (reading 'videoId')"
      end
  end.

(** The loop of lines 53-65, then [ids.slice(0, max)].  Each unit of fuel
    pays for one request. *)
Fixpoint getVideoIds_from (fuel : nat) (uploadsPlaylistId : JsValue) (max : nat)
    (ids : list JsValue) (pageToken : JsValue) : StE W (option (list JsValue)) :=
  if length ids <? max then
    match fuel with
    | 0 => out_of_fuel
    | S fuel' =>
        (let* res := playlistItems_list api uploadsPlaylistId
                       (Nat.min 50 (max - length ids)) pageToken in
         let* new := lift (pushed_ids (page_items res)) in
         if truthy (nextPageToken res)
         then getVideoIds_from fuel' uploadsPlaylistId max (ids ++ new) (nextPageToken res)
         else ret (Some (take max (ids ++ new))))%ste
    end
  else ret (Some (take max ids)).

Definition getVideoIds (fuel : nat) (uploadsPlaylistId : JsValue) (max : nat)
    : StE W (option (list JsValue)) :=
  getVideoIds_from fuel uploadsPlaylistId max [] JUndefined.

(** *** [getVideoDetails] *)

Definition no_snippet : Snippet :=
  {| title := JUndefined; description := JUndefined; publishedAt := JUndefined;
     thumbnails := None |}.
Definition no_statistics : Statistics :=
  {| viewCount := JUndefined; likeCount := JUndefined; commentCount := JUndefined |}.
Definition no_contentDetails : ContentDetails := {| duration := JUndefined |}.
Definition no_thumbnails : Thumbnails :=
  {| maxres_url := JUndefined; high_url := JUndefined; medium_url := JUndefined |}.

(** The object of lines 92-108. *)
Definition video_record (item : VideoItem) : Completion JsObject :=
  let s := default no_snippet (snippet item) in
  let st := default no_statistics (statistics item) in
  let cd := default no_contentDetails (contentDetails item) in
  let th := default no_thumbnails (thumbnails s) in
  cbind (parseDuration (duration cd))
    (fun seconds =>
       Normal
         [ ("video_id", id item);
           ("title", or_else (title s) (JStr EmptyString));
           ("description", or_else (description s) (JStr EmptyString));
           ("duration", JNum seconds);
           ("release_date", or_else (publishedAt s) JNull);
           ("view_count", JNum (parseInt10 host (or_else (viewCount st) (JStr "0"))));
           ("like_count", JNum (parseInt10 host (or_else (likeCount st) (JStr "0"))));
           ("comment_count", JNum (parseInt10 host (or_else (commentCount st) (JStr "0"))));
           ("video_url", JStr ("https://www.youtube.com/watch?v=" ++ ToString host (id item)));
           ("thumbnail_url",
            or_else (maxres_url th) (or_else (high_url th) (or_else (medium_url th) JNull)));
           ("transcript", JNull) ]).

(** [for (const item of items) results.push({ ... })] *)
Fixpoint pushed_records (items : list VideoItem) : Completion (list JsObject) :=
  match items with
  | [] => Normal []
  | item :: rest =>
      cbind (video_record item)
        (fun record => cbind (pushed_records rest)
                         (fun records => Normal (record :: records)))
  end.

(** The loop of lines 82-110 from index [i] on; each unit of fuel pays for
    one batch. *)
Fixpoint getVideoDetails_from (fuel : nat) (videoIds : list JsValue) (i : nat)
    (results : list JsObject) : StE W (option (list JsObject)) :=
  if i <? length videoIds then
    match fuel with
    | 0 => out_of_fuel
    | S fuel' =>
        (let batch := take 50 (drop i videoIds) in
         let* items := videos_list api batch in
         let* records := lift (pushed_records items) in
         getVideoDetails_from fuel' videoIds (i + 50) (results ++ records))%ste
    end
  else ret (Some results).

(** The loop runs at most once for each id, so its fuel never runs out. *)
Definition getVideoDetails (videoIds : list JsValue) : StE W (option (list JsObject)) :=
  getVideoDetails_from (length videoIds) videoIds 0 [].

(** *** [fetchTranscriptForVideo] *)

(** [s.replace(/\s+/g, ' ')]: each run of white space becomes one space. *)
Fixpoint collapse_ws_go (s : string) (in_ws : bool) : string :=
  match s with
  | EmptyString => EmptyString
  | String c r =>
      if is_ws c
      then (if in_ws then collapse_ws_go r true else String " " (collapse_ws_go r true))
      else String c (collapse_ws_go r false)
  end.

Definition collapse_ws (s : string) : string := collapse_ws_go s false.

Definition fetchTranscriptForVideo (videoId : JsValue) : StE W JsValue :=
  fun w =>
    match fetchTranscript api videoId w with
    | (w', Normal segments) => (w', Normal (JStr (trim (collapse_ws (join " " segments)))))
    | (w', Throw _) => (w', Normal JNull)
    end.

(** *** [fetchChannelVideos] *)

(** [video.key = value] on a record that has the key. *)
Fixpoint set_property (o : JsObject) (key : string) (value : JsValue) : JsObject :=
  match o with
  | [] => []
  | (k, v) :: rest =>
      if String.eqb k key then (k, value) :: rest else (k, v) :: set_property rest key value
  end.

(** [for (const video of videos) video.transcript = await ...] *)
Fixpoint attach_transcripts (videos : list JsObject) : StE W (list JsObject) :=
  match videos with
  | [] => ret []
  | video :: rest =>
      (let* transcript := fetchTranscriptForVideo (get video "video_id") in
       let* rest' := attach_transcripts rest in
       ret (set_property video "transcript" transcript :: rest'))%ste
  end.

(** [Math.max(1, Math.min(100, max))] for an integer [max]. *)
Definition limit_of (max : Z) : nat := Z.to_nat (Z.max 1 (Z.min 100 max)).

(** [fetchChannelVideos(channelUrl, { max, includeTranscripts })]; [fuel] is
    the number of requests [getVideoIds] may make. *)
Definition fetchChannelVideos (fuel : nat) (channelUrl : string) (max : Z)
    (includeTranscripts : bool) : StE W (option (list JsObject)) :=
  (let limit := limit_of max in
   let* channelId := resolveChannelId channelUrl in
   let* uploadsPlaylistId := getUploadsPlaylistId channelId in
   let* videoIds := getVideoIds fuel uploadsPlaylistId limit in
   match videoIds with
   | None => out_of_fuel
   | Some videoIds =>
       let* videos := getVideoDetails videoIds in
       match videos with
       | None => out_of_fuel
       | Some videos =>
           if includeTranscripts
           then let* videos' := attach_transcripts videos in ret (Some videos')
           else ret (Some videos)
       end
   end)%ste.

End WithApi.

(** *** [maxVideos] of the download form, line 75 of [YouTubeDownload.js] *)

(** [Math.min(100, Math.max(1, +e.target.value || 10))], from the number
    [+e.target.value]. *)
Definition clamped_maxVideos (value : number) : number :=
  Math_min [Fin 100; Math_max [Fin 1; if number_truthy value then value else Fin 10]].

End Downloader.

(** ** A log of the requests of the downloader

    To state what the downloader asks of the services, the services are
    wrapped so that the state also holds the list of the requests made so
    far, each with the answer it got.  The wrapper changes neither the
    answers nor the state of the services. *)

Module DownloaderTrace.
Import Js Downloader.

Inductive Call : Type :=
| HandleCall (handle : string)
| UploadsCall (channelId : JsValue)
| PageCall (playlistId : JsValue) (maxResults : nat) (pageToken : JsValue)
    (answer : Completion PlaylistPage)
| VideosCall (batch : list JsValue) (answer : Completion (list VideoItem))
| TranscriptCall (videoId : JsValue).

Section Tracing.
Context {W : Type} (api : Api W).

(** Run an operation on the state of the services and log the call. *)
Definition logged {A : Type} (m : StE W A) (call : Completion A -> Call)
    : StE (W * list Call) A :=
  fun s => let '(w, r) := m (fst s) in ((w, snd s ++ [call r]), r).

Definition tracing_api : Api (W * list Call) :=
  {| channel_of_handle := fun handle =>
       logged (channel_of_handle api handle) (fun _ => HandleCall handle);
     uploads_of_channel := fun channelId =>
       logged (uploads_of_channel api channelId) (fun _ => UploadsCall channelId);
     playlistItems_list := fun playlistId maxResults pageToken =>
       logged (playlistItems_list api playlistId maxResults pageToken)
         (PageCall playlistId maxResults pageToken);
     videos_list := fun batch => logged (videos_list api batch) (VideosCall batch);
     fetchTranscript := fun videoId =>
       logged (fetchTranscript api videoId) (fun _ => TranscriptCall videoId) |}.

End Tracing.

(** *** What the log of a run is compared with *)

(** The ids a page request brought in. *)
Definition ids_of_call (c : Call) : list JsValue :=
  match c with
  | PageCall _ _ _ (Normal page) =>
      match pushed_ids (page_items page) with
      | Normal ids => ids
      | Throw _ => []
      end
  | _ => []
  end.

(** A page request for between 1 and 50 ids, and at most [max]. *)
Definition page_call_within (playlistId : JsValue) (max : nat) (c : Call) : Prop :=
  match c with
  | PageCall p n _ _ => p = playlistId /\ 1 <= n <= 50 /\ n <= max
  | _ => False
  end.

(** The page requests pass on the tokens: the first one carries [token], and
    each later one the [nextPageToken] of the answer before it. *)
Fixpoint tokens_chain (token : JsValue) (calls : list Call) : Prop :=
  match calls with
  | [] => True
  | PageCall _ _ pageToken (Normal page) :: rest =>
      pageToken = token /\ tokens_chain (nextPageToken page) rest
  | _ => False
  end.

(** The batch of a request for details. *)
Definition batch_of_call (c : Call) : list JsValue :=
  match c with
  | VideosCall batch _ => batch
  | _ => []
  end.

(** The records a request for details brought in. *)
Definition records_of_call (host : Host) (c : Call) : list JsObject :=
  match c with
  | VideosCall _ (Normal items) =>
      match pushed_records host items with
      | Normal records => records
      | Throw _ => []
      end
  | _ => []
  end.

Definition batch_call_within (c : Call) : Prop :=
  match c with
  | VideosCall batch _ => 1 <= length batch <= 50
  | _ => False
  end.

(** Every page that names a next page holds at least one item. *)
Definition productive {W : Type} (api : Api W) : Prop :=
  forall playlistId maxResults pageToken w page,
    snd (playlistItems_list api playlistId maxResults pageToken w) = Normal page ->
    truthy (nextPageToken page) = true ->
    page_items page <> [].

(** The title of every item the service returns is text, or absent. *)
Definition titled (item : VideoItem) : bool :=
  match or_else (title (default no_snippet (snippet item))) (JStr EmptyString) with
  | JStr _ => true
  | _ => false
  end.

(** The keys of a record of the dataset, in order. *)
Definition record_keys : list string :=
  [ "video_id"; "title"; "description"; "duration"; "release_date"; "view_count";
    "like_count"; "comment_count"; "video_url"; "thumbnail_url"; "transcript" ].

(** What [getVideoDetails] builds for an item: the eleven keys, a number of
    seconds that is not negative (it is [Infinity] for a component too long
    for a double), numbers for the counts, and a transcript that is [null] or
    a text. *)
Definition well_formed (v : JsObject) : Prop :=
  Object_keys v = record_keys
  /\ (exists n : number, get v "duration" = JNum n /\ nle (Fin 0) n = true)
  /\ (exists n, get v "view_count" = JNum n)
  /\ (exists n, get v "like_count" = JNum n)
  /\ (exists n, get v "comment_count" = JNum n)
  /\ (get v "transcript" = JNull \/ exists s, get v "transcript" = JStr s).

(** A service that returns at most one item for each id it is asked. *)
Definition honest {W : Type} (api : Api W) : Prop :=
  forall batch w items,
    snd (videos_list api batch w) = Normal items -> length items <= length batch.

(** A service whose items all carry a text (or no) title. *)
Definition titles_are_text {W : Type} (api : Api W) : Prop :=
  forall batch w items item,
    snd (videos_list api batch w) = Normal items -> item ∈ items -> titled item = true.

(** The transcript of [v'] is a text or [null], and [v'] is otherwise [v]. *)
Definition with_transcript (v v' : JsObject) : Prop :=
  exists t, v' = set_property v "transcript" t /\ (t = JNull \/ exists s, t = JStr s).

(** The requests for transcripts of a download: one for each video, in
    order, when transcripts are included. *)
Definition transcript_calls (includeTranscripts : bool) (videos : list JsObject)
    : list Call :=
  if includeTranscripts
  then map (fun video => TranscriptCall (get video "video_id")) videos
  else [].

End DownloaderTrace.

(** ** [streamChat] and the streaming path of [handleSend]

    The generator [streamChat] is modelled by what a complete run of it
    yields, in order, and by how the run ends.  The consumer is the loop of
    [handleSend] (lines 566-590 of [Chat.js]) with its [catch] and the
    arguments it gives to [saveMessage]. *)

Module Stream.
Import Js Gemini.

(** [p.executableCode], [p.codeExecutionResult] and [p.inlineData] of a part
    of the model's answer. *)
Record ExecutableCode : Type := {
  language : option string;
  code : JsValue;
}.

Record ExecutionResult : Type := {
  outcome : JsValue;
  output : JsValue;
}.

Record InlineData : Type := {
  inline_mimeType : JsValue;
  inline_data : JsValue;
}.

(** A part of a chunk or of the final response; a field that is absent is
    [None]. *)
Record ModelPart : Type := {
  model_text : option string;
  executableCode : option ExecutableCode;
  codeExecutionResult : option ExecutionResult;
  inlineData : option InlineData;
}.

(** The elements of [structuredParts]. *)
Inductive StructuredPart : Type :=
| TextPart (text : string)
| CodePart (language : string) (code : JsValue)
| ResultPart (outcome output : JsValue)
| ImagePart (mimeType data : JsValue).

(** What the generator yields; [G] is the grounding metadata. *)
Inductive Event (G : Type) : Type :=
| TextEvent (text : string)
| FullResponse (parts : list StructuredPart)
| Grounding (data : G).
Arguments TextEvent {G} text.
Arguments FullResponse {G} parts.
Arguments Grounding {G} data.

(** The parts of the message sent: [{ text }] and [{ inlineData }]. *)
Inductive RequestPart : Type :=
| RequestText (text : string)
| RequestImage (mimeType data : JsValue).

Section Generator.
Context {G : Type}.

(** [await result.response]: [candidates?.[0]?.content?.parts || []] and
    [candidates?.[0]?.groundingMetadata] (when truthy). *)
Record FinalResponse : Type := {
  allParts : list ModelPart;
  groundingMetadata : option G;
}.

(** The result of [chat.sendMessageStream(parts)]: the parts of each chunk
    ([chunk.candidates?.[0]?.content?.parts || []]), the exception that ends
    the iteration of the stream if there is one, and the final response. *)
Record StreamResult : Type := {
  stream : list (list ModelPart);
  stream_failure : option string;
  response : Completion FinalResponse;
}.

(** [if (part.text) yield { type: 'text', text: part.text }] over all chunks *)
Definition truthy_text (p : ModelPart) : option string :=
  match model_text p with
  | Some (String c r) => Some (String c r)
  | _ => None
  end.

(** [part.text] is truthy. *)
Definition has_text (p : ModelPart) : bool :=
  match truthy_text p with
  | Some _ => true
  | None => false
  end.

Fixpoint texts_of (parts : list ModelPart) : list string :=
  match parts with
  | [] => []
  | p :: rest =>
      match truthy_text p with
      | Some t => t :: texts_of rest
      | None => texts_of rest
      end
  end.

Definition streamed_texts (chunks : list (list ModelPart)) : list string :=
  texts_of (concat chunks).

(** [p.inlineData && p.inlineData.mimeType?.startsWith('image/')] *)
Definition is_image (d : InlineData) : Completion bool :=
  match inline_mimeType d with
  | JUndefined | JNull => Normal false
  | JStr s => Normal (starts_with "image/" s)
  | _ => Throw "TypeError: startsWith is not a function"
  end.

(** The callback of [allParts.some(...)] *)
Definition has_code (p : ModelPart) : Completion bool :=
  match executableCode p, codeExecutionResult p, inlineData p with
  | Some _, _, _ => Normal true
  | None, Some _, _ => Normal true
  | None, None, Some d => is_image d
  | None, None, None => Normal false
  end.

Fixpoint some_has_code (parts : list ModelPart) : Completion bool :=
  match parts with
  | [] => Normal false
  | p :: rest =>
      match has_code p with
      | Normal true => Normal true
      | Normal false => some_has_code rest
      | Throw e => Throw e
      end
  end.

(** The callback of [allParts.map(...)], lines 99-116; [None] is [null]. *)
Definition structured (p : ModelPart) : option StructuredPart :=
  match truthy_text p, executableCode p, codeExecutionResult p, inlineData p with
  | Some t, _, _, _ => Some (TextPart t)
  | None, Some c, _, _ => Some (CodePart (default "PYTHON" (match language c with
                                                           | Some (String a r) => Some (String a r)
                                                           | _ => None
                                                           end)) (code c))
  | None, None, Some r, _ => Some (ResultPart (outcome r) (output r))
  | None, None, None, Some d => Some (ImagePart (inline_mimeType d) (inline_data d))
  | None, None, None, None => None
  end.

(** [allParts.map(...).filter(Boolean)] *)
Fixpoint structuredParts (parts : list ModelPart) : list StructuredPart :=
  match parts with
  | [] => []
  | p :: rest =>
      match structured p with
      | Some s => s :: structuredParts rest
      | None => structuredParts rest
      end
  end.

(** The parts sent, lines 68-73. *)
Definition request_parts (newMessage : string) (imageParts : list (JsValue * JsValue))
    : list RequestPart :=
  RequestText newMessage
  :: map (fun img => RequestImage (or_else (fst img) (JStr "image/png")) (snd img))
       imageParts.

(** What a run of the generator yields once a stream has been obtained, and
    how it ends. *)
Definition yielded (result : StreamResult) : list (Event G) * Completion unit :=
  let texts := map TextEvent (streamed_texts (stream result)) in
  match stream_failure result with
  | Some e => (texts, Throw e)
  | None =>
      match response result with
      | Throw e => (texts, Throw e)
      | Normal final =>
          match some_has_code (allParts final) with
          | Throw e => (texts, Throw e)
          | Normal hasCodeExecution =>
              (texts
                 ++ (if hasCodeExecution
                     then [FullResponse (structuredParts (allParts final))] else [])
                 ++ match groundingMetadata final with
                    | Some grounding => [Grounding grounding]
                    | None => []
                    end,
               Normal tt)
          end
      end
  end.

Context {R W : Type} (remote : @Remote R W).
(** [model.startChat(...).sendMessageStream(parts)] for the model with the
    code execution tool ([true]) or the search tool ([false]). *)
Context (sendMessageStream : bool -> list RequestPart -> StE W StreamResult).

(** [streamChat(history, newMessage, imageParts, useCodeExecution, userName)] *)
Definition streamChat (history : list Message) (newMessage : string)
    (imageParts : list (JsValue * JsValue)) (useCodeExecution : bool) (userName : string)
    (st : @State W) : @State W * (list (Event G) * Completion unit) :=
  match loadSystemPrompt remote userName st with
  | (st1, Throw e) => (st1, ([], Throw e))
  | (st1, Normal systemInstruction) =>
      match startChat remote (chatHistory systemInstruction history) (world st1) with
      | (w0, Throw e) => ({| world := w0; cachedPrompt := cachedPrompt st1 |}, ([], Throw e))
      | (w0, Normal _) =>
          match sendMessageStream useCodeExecution (request_parts newMessage imageParts) w0 with
          | (w1, Throw e) =>
              ({| world := w1; cachedPrompt := cachedPrompt st1 |}, ([], Throw e))
          | (w1, Normal result) =>
              ({| world := w1; cachedPrompt := cachedPrompt st1 |}, yielded result)
          end
      end
  end.

End Generator.

(** *** The consumer *)

Section Consumer.
Context {G : Type}.

(** The assistant message on the screen, and the variables of the loop. *)
Record Shown : Type := {
  shown_content : string;
  shown_parts : option (list StructuredPart);
  shown_grounding : option G;
}.

Record Loop : Type := {
  fullContent : string;
  loop_parts : option (list StructuredPart);
  groundingData : option G;
  message : Shown;
}.

Definition start : Loop :=
  {| fullContent := EmptyString; loop_parts := None; groundingData := None;
     message := {| shown_content := EmptyString; shown_parts := None;
                   shown_grounding := None |} |}.

(** The body of the loop for one event, lines 570-588. *)
Definition on_event (l : Loop) (chunk : Event G) : Loop :=
  match chunk with
  | TextEvent text =>
      {| fullContent := fullContent l ++ text;
         loop_parts := loop_parts l;
         groundingData := groundingData l;
         message := {| shown_content := fullContent l ++ text;
                       shown_parts := shown_parts (message l);
                       shown_grounding := shown_grounding (message l) |} |}
  | FullResponse parts =>
      {| fullContent := fullContent l;
         loop_parts := Some parts;
         groundingData := groundingData l;
         message := {| shown_content := EmptyString;
                       shown_parts := Some parts;
                       shown_grounding := shown_grounding (message l) |} |}
  | Grounding data =>
      {| fullContent := fullContent l;
         loop_parts := loop_parts l;
         groundingData := Some data;
         message := message l |}
  end.

(** The [catch] of lines 591-597. *)
Definition on_error (l : Loop) (e : string) : Loop :=
  {| fullContent := "Error: " ++ e;
     loop_parts := loop_parts l;
     groundingData := groundingData l;
     message := {| shown_content := "Error: " ++ e;
                   shown_parts := shown_parts (message l);
                   shown_grounding := shown_grounding (message l) |} |}.

(** The loop over a run of the generator.  [abort] is the number of events
    after which [abortRef.current] is found set, if it is: the loop then
    leaves with [break] when the next event arrives. *)
Definition consume (run : list (Event G) * Completion unit) (abort : option nat) : Loop :=
  let '(events, ending) := run in
  match abort with
  | Some k =>
      if k <? length events then fold_left on_event (take k events) start
      else match ending with
           | Normal _ => fold_left on_event events start
           | Throw e => on_error (fold_left on_event events start) e
           end
  | None =>
      match ending with
      | Normal _ => fold_left on_event events start
      | Throw e => on_error (fold_left on_event events start) e
      end
  end.

(** Lines 599-603: the message at the end of the turn. *)
Definition shown (l : Loop) : Shown :=
  match groundingData l with
  | Some data => {| shown_content := shown_content (message l);
                    shown_parts := shown_parts (message l);
                    shown_grounding := Some data |}
  | None => message l
  end.

(** [parts.filter((p) => p.type === 'text').map((p) => p.text).join('\n')] *)
Fixpoint part_texts (parts : list StructuredPart) : list string :=
  match parts with
  | [] => []
  | TextPart t :: rest => t :: part_texts rest
  | _ :: rest => part_texts rest
  end.

Definition joined_text (parts : list StructuredPart) : string :=
  join newline (part_texts parts).

(** [savedContent], lines 612-614. *)
Definition savedContent (l : Loop) : string :=
  match loop_parts l with
  | Some parts => joined_text parts
  | None => fullContent l
  end.

(** [messageText(m)], lines 53-56, and the text of [m] in the history of a
    later turn, [m.content || messageText(m)] (line 486). *)
Definition messageText (content : string) (parts : option (list StructuredPart)) : string :=
  match parts with
  | Some ps => joined_text ps
  | None => content
  end.

Definition history_text (content : string) (parts : option (list StructuredPart)) : string :=
  match content with
  | EmptyString => messageText content parts
  | _ => content
  end.

(** No text event comes after a full response. *)
Fixpoint texts_first (after_full : bool) (events : list (Event G)) : bool :=
  match events with
  | [] => true
  | TextEvent _ :: rest => negb after_full && texts_first after_full rest
  | FullResponse _ :: rest => texts_first true rest
  | Grounding _ :: rest => texts_first after_full rest
  end.

Definition is_text_event (e : Event G) : bool :=
  match e with TextEvent _ => true | _ => false end.

(** The state of the loop: before a full response, the message shows the
    text received so far; after one, it shows the parts and no text. *)
Definition in_step (after_full : bool) (l : Loop) : Prop :=
  if after_full
  then exists ps, loop_parts l = Some ps /\ shown_parts (message l) = Some ps
                  /\ shown_content (message l) = EmptyString
  else loop_parts l = None /\ shown_parts (message l) = None
       /\ shown_content (message l) = fullContent l.

End Consumer.

End Stream.

(** ** [buildJsonSummary]: the summary of a dataset for the prompt *)

Module Summary.
Import Js Heap JsonTools.

(** The built-ins of the summary whose results depend on the locale. *)
Record Locale : Type := {
  (** [n.toLocaleString()] on a number *)
  Number_toLocaleString : number -> string;
  (** [d.toLocaleDateString()] of the date with the given time value *)
  Date_toLocaleDateString_default : option Z -> string;
}.

Section WithHost.
Context (host : Host) (locale : Locale).

(** [["view_count", "like_count", "comment_count", "duration"]] *)
Definition numericFields : list string :=
  ["view_count"; "like_count"; "comment_count"; "duration"].

(** The line of a field with at least one number, line 1316. *)
Definition stat_line (field : string) (vals : list number) : string :=
  let mean := fdiv (fold_left (fun a b => fadd a b) vals (Fin 0)) (of_nat (length vals)) in
  ("  - " ++ dquote ++ field ++ dquote ++ ": mean=" ++ Number_toString host (fmt mean)
     ++ ", min=" ++ Number_toString host (Math_min vals)
     ++ ", max=" ++ Number_toString host (Math_max vals)
     ++ ", n=" ++ Number_toString host (of_nat (length vals)))%string.

(** The loop of lines 1312-1318. *)
Fixpoint numeric_lines (fields : list string) (videos : loc) : M (list string) :=
  match fields with
  | [] => ret []
  | field :: rest =>
      (let* vals := numericValues host videos (JStr field) in
       let* more := numeric_lines rest videos in
       ret (if length vals =? 0 then more else stat_line field vals :: more))%ste
  end.

(** [new Date(a.release_date || 0) - new Date(b.release_date || 0)] *)
Definition by_release_or_epoch (a b : JsObject) : number :=
  Date_sub (release_or_epoch host a) (release_or_epoch host b).

(** [x.toLocaleString()] for the value [v.view_count || 0]: a number is
    printed for the locale, a string is itself. *)
Definition toLocaleString (x : JsValue) : string :=
  match x with
  | JNum n => Number_toLocaleString locale n
  | other => ToString host other
  end.

(** The line of a video, lines 1324-1325; [i] counts from 0. *)
Definition video_line (i : nat) (v : JsObject) : string :=
  let date :=
    if truthy (get v "release_date")
    then Date_toLocaleDateString_default locale (Date_new host (get v "release_date"))
    else "unknown" in
  ("  " ++ Number_toString host (of_nat (i + 1)) ++ ". " ++ dquote
     ++ ToString host (get v "title") ++ dquote ++ " (" ++ date ++ ", "
     ++ toLocaleString (or_else (get v "view_count") (JNum (Fin 0))) ++ " views)")%string.

(** [sorted.forEach((v, i) => lines.push(...))] from index [i] on. *)
Fixpoint video_lines (i : nat) (sorted : list JsObject) : list string :=
  match sorted with
  | [] => []
  | v :: rest => video_line i v :: video_lines (S i) rest
  end.

Definition buildJsonSummary (videos : loc) : M string :=
  (let* n := Array_length videos in
   if n =? 0 then ret EmptyString
   else
     let header :=
       ("**YouTube Channel Data: " ++ Number_toString host (of_nat n) ++ " videos**"
          ++ newline)%string in
     let* numeric := numeric_lines numericFields videos in
     let* copy := Array_spread videos in
     let* sorted := Array_sort by_release_or_epoch copy in
     let* listed := read sorted in
     ret (join newline
            ([header; "**Numeric fields:**"] ++ numeric
               ++ [(newline ++ "**Videos (by release date):**")%string]
               ++ video_lines 0 listed)))%ste.

End WithHost.

End Summary.
(** ** Concrete hosts, datasets and sessions for the examples *)

Module Samples.
Import Js Heap JsonTools Gemini.

(** The decimal digits of an integer below 10^40 in magnitude. *)
Fixpoint print_Z_go (fuel : nat) (z : Z) (acc : string) : string :=
  match fuel with
  | 0 => acc
  | S fuel' =>
      let acc' := String (ascii_of_nat (48 + Z.to_nat (z mod 10))) acc in
      if (z / 10 =? 0)%Z then acc' else print_Z_go fuel' (z / 10)%Z acc'
  end.

Definition print_Z (z : Z) : string :=
  if (z <? 0)%Z then String "-"%char (print_Z_go 40 (- z) EmptyString)
  else print_Z_go 40 z EmptyString.

(** The double nearest to the square root of [q >= 0].  The root of [q]
    scaled by a power of 4 is taken down to an integer [s] of more than 54
    bits; when [q] is no square the root lies strictly between [s] and
    [s + 1], and [s + 1/2] is rounded to the same double. *)
Definition sqrt64 (q : Q) : number :=
  if Qeq_bool q 0 then Fin 0
  else
    let k := Z.max 0 ((111 - ilog2 q) / 2) in
    let x := (q * pow2 (2 * k))%Q in
    let s := Z.sqrt (Qfloor x) in
    if Qeq_bool (inject_Z (s * s)) x
    then round64 (inject_Z s * pow2 (- k))%Q
    else round64 (inject_Z (2 * s + 1) * pow2 (- k - 1))%Q.

(** A host for the examples.  It prints natural numbers, reads a date given
    as a four-digit year (midnight UTC of its first day), names a date by its
    time value, and takes square roots as IEEE-754 does. *)
Definition sample_host : Host :=
  {| Number_toString := fun n =>
       match n with
       | NaN => "NaN"
       | PInf => "Infinity"
       | NInf => "-Infinity"
       | Fin q => print_Z (Qfloor q)
       end;
     Date_parse := fun s =>
       match digits s with
       | (y, 4, EmptyString) =>
           let leaps (n : Z) := (n / 4 - n / 100 + n / 400)%Z in
           Some ((365 * (y - 1970) + leaps (y - 1) - leaps 1969) * 86400000)%Z
       | _ => None
       end;
     Date_toLocaleDateString := fun t =>
       match t with
       | Some ms => ("t" ++ print_Z ms)%string
       | None => "Invalid Date"
       end;
     Math_sqrt := fun n =>
       match n with
       | Fin q =>
           if Qltb q 0 then NaN else sqrt64 q
       | PInf => PInf
       | _ => NaN
       end |}.

Definition num (z : Z) : JsValue := JNum (Fin (inject_Z z)).

(** The number that the decimal [q] denotes. *)
Definition decimal (q : Q) : JsValue := JNum (round64 q).

(** A heap that holds one dataset, at location 0. *)
Definition dataset_at_0 (videos : list JsObject) : heap := {[ 0 := videos ]}.

(** The dataset of the end-to-end scenarios. *)
Definition abc : list JsObject :=
  [ [("title", JStr "A"); ("view_count", num 100)];
    [("title", JStr "B"); ("view_count", num 300)];
    [("title", JStr "C"); ("view_count", num 200)] ].

(** Three records, one of them titled with the word "the". *)
Definition the_cat : list JsObject :=
  [ [("title", JStr "Sunrise"); ("view_count", num 100)];
    [("title", JStr "The Cat"); ("view_count", num 300)];
    [("title", JStr "Tides"); ("view_count", num 200)] ].

(** Three records; the words of "play the first video" are all in the title
    of the last one only. *)
Definition spring : list JsObject :=
  [ [("title", JStr "Sunrise")];
    [("title", JStr "First light")];
    [("title", JStr "Play the first video of spring")] ].

(** One record whose only number is [0.00004]. *)
Definition tiny : list JsObject := [ [("ratio", decimal (4 # 100000))] ].

(** Three records whose view counts, near 1e17, are doubles 16 apart. *)
Definition uneven : list JsObject :=
  [ [("view_count", num 100000000000000032)];
    [("view_count", num 100000000000000016)];
    [("view_count", num 100000000000000032)] ].

(** Two records whose numbers are [1e308]. *)
Definition huge : list JsObject :=
  [ [("ratio", decimal (inject_Z (10 ^ 308)))]; [("ratio", decimal (inject_Z (10 ^ 308)))] ].

(** One record whose number reads as [Infinity]. *)
Definition unbounded : list JsObject := [ [("ratio", JStr "Infinity")] ].

(** Three dated records, out of order, the last without the metric. *)
Definition dated : list JsObject :=
  [ [("title", JStr "B"); ("release_date", JStr "2021"); ("view_count", num 300)];
    [("title", JStr "A"); ("release_date", JStr "2020"); ("view_count", JStr "12abc")];
    [("title", JStr "C"); ("release_date", JStr "2019")] ].

(** Two records; the date of the first is text that is no date. *)
Definition soon : list JsObject :=
  [ [("title", JStr "A"); ("release_date", JStr "soon"); ("view_count", num 5)];
    [("title", JStr "B"); ("release_date", JStr "2020"); ("view_count", num 7)] ].

(** Two records; the view count of the first is text that is no number. *)
Definition uncounted : list JsObject :=
  [ [("title", JStr "A"); ("view_count", JStr "abc")];
    [("title", JStr "B"); ("view_count", num 10)] ].

(** A session whose model asks for [play_video] in every response.  The
    world counts the messages sent. *)
Definition call_first : FunctionCall :=
  {| name := "play_video"; args := [("query", JStr "first")] |}.

Definition insisting_response : Response :=
  {| parts := [ {| part_text := None; functionCall := Some call_first |} ];
     text := Normal EmptyString |}.

Definition insisting_remote : @Remote ToolResult nat :=
  {| fetch_prompt := fun w => (w, Some "Be brief.");
     startChat := fun _ w => (w, Normal tt);
     sendMessage := fun _ w => (S w, Normal insisting_response);
     await := fun called w => (w, Normal called) |}.

(** A session whose model answers in text at once. *)
Definition plain_response : Response :=
  {| parts := [ {| part_text := Some "Hello."; functionCall := None |} ];
     text := Normal "Hello." |}.

Definition plain_remote : @Remote ToolResult nat :=
  {| fetch_prompt := fun w => (w, None);
     startChat := fun _ w => (w, Normal tt);
     sendMessage := fun _ w => (S w, Normal plain_response);
     await := fun called w => (w, Normal called) |}.

(** A session that keeps the history it is started with as its world. *)
Definition recording_remote : @Remote ToolResult (list Content) :=
  {| fetch_prompt := fun w => (w, Some "  Be brief.  ");
     startChat := fun history _ => (history, Normal tt);
     sendMessage := fun _ w => (w, Normal plain_response);
     await := fun called w => (w, Normal called) |}.

Definition two_messages : list Message :=
  [ {| role := "user"; content := Some "Hi" |};
    {| role := "assistant"; content := None |} ].

(** An executor that runs [executeJsonTool] on the scenario dataset, and one
    that always raises. *)
Definition scenario_executor (fname : string) (fargs : JsObject) : StE nat ToolResult :=
  fun w => (w, snd (executeJsonTool sample_host fname fargs 0 (dataset_at_0 abc))).

Definition failing_executor {W : Type} (fname : string) (fargs : JsObject)
    : StE W ToolResult :=
  fun w => (w, Throw "boom").

Definition fresh_state : @State nat := {| world := 0; cachedPrompt := None |}.

(** What an executor that may be asynchronous returns: a plain result, or a
    promise that is going to be rejected. *)
Inductive Returned : Type :=
| Plain (result : ToolResult)
| Rejecting (reason : string).

(** A session whose model asks for one call and answers in text when it gets
    the result; awaiting a promise that rejects raises its reason. *)
Definition promise_remote : @Remote Returned nat :=
  {| fetch_prompt := fun w => (w, Some "Be brief.");
     startChat := fun _ w => (w, Normal tt);
     sendMessage := fun request w =>
       (S w, Normal match request with
                    | UserMessage _ => insisting_response
                    | FunctionResponse _ _ => plain_response
                    end);
     await := fun called w =>
       (w, match called with
           | Plain _ => Normal called
           | Rejecting reason => Throw reason
           end) |}.

(** An asynchronous executor that always fails: the call returns a promise,
    and the promise is rejected. *)
Definition rejecting_executor (fname : string) (fargs : JsObject) : StE nat Returned :=
  fun w => (w, Normal (Rejecting "boom")).

(** A session that does not accept a history that starts with the model. *)
Definition strict_remote : @Remote ToolResult nat :=
  {| fetch_prompt := fun w => (w, None);
     startChat := fun history w =>
       (w, match history with
           | first :: _ =>
               if String.eqb (content_role first) "user" then Normal tt
               else Throw "First content should be with role 'user', got model"
           | [] => Normal tt
           end);
     sendMessage := fun _ w => (S w, Normal plain_response);
     await := fun called w => (w, Normal called) |}.

End Samples.


(** ** Services for the examples of the chat handler and the downloader *)

Module Fixtures.
Import Js Heap JsonTools Gemini Downloader.

(** An image service that is out of quota, and one that answers with a text
    part and then a picture.  The state counts the requests. *)
Definition failing_image_service (parts : list Chat.ContentPart)
    : StE nat (list Chat.GeneratedPart) :=
  fun n => (S n, Throw "quota exceeded").

Definition picture : Chat.Image :=
  {| Chat.mimeType := JStr "image/png"; Chat.data := JStr "iVBORw0KGgo=" |}.

Definition painting_image_service (parts : list Chat.ContentPart)
    : StE nat (list Chat.GeneratedPart) :=
  fun n => (S n, Normal [ {| Chat.inlineData := None |};
                          {| Chat.inlineData := Some picture |} ]).

(** A channel with three uploads, served in two pages whatever page size is
    asked for.  The state counts the requests.  The video [b] has no
    captions. *)
Definition uploads_page (pageToken : JsValue) : PlaylistPage :=
  match pageToken with
  | JStr _ =>
      {| page_items := [ {| item_contentDetails := Some (JStr "c") |} ];
         nextPageToken := JUndefined |}
  | _ =>
      {| page_items := [ {| item_contentDetails := Some (JStr "a") |};
                         {| item_contentDetails := Some (JStr "b") |} ];
         nextPageToken := JStr "page-2" |}
  end.

Definition video_item (videoId : JsValue) : VideoItem :=
  {| id := videoId;
     snippet := Some {| title := JStr "Tides at dawn"; description := JUndefined;
                        publishedAt := JStr "2020"; thumbnails := None |};
     statistics := Some {| viewCount := JStr "1200"; likeCount := JStr "34";
                           commentCount := JUndefined |};
     contentDetails := Some {| duration := JStr "PT1M5S" |} |}.

Definition sample_api : Api nat :=
  {| channel_of_handle := fun handle n =>
       (S n, Normal (if String.eqb handle "tides" then JStr "UC-tides" else JUndefined));
     uploads_of_channel := fun _ n => (S n, Normal (JStr "UU-tides"));
     playlistItems_list := fun _ _ pageToken n => (S n, Normal (uploads_page pageToken));
     videos_list := fun batch n => (S n, Normal (map video_item batch));
     fetchTranscript := fun videoId n =>
       (S n, match videoId with
             | JStr "b" => Throw "no captions"
             | _ => Normal ["Hello   there"; " and welcome "]
             end) |}.

(** A service whose pages are empty and always name a next page. *)
Definition stalling_api : Api nat :=
  {| channel_of_handle := channel_of_handle sample_api;
     uploads_of_channel := uploads_of_channel sample_api;
     playlistItems_list := fun _ _ _ n =>
       (S n, Normal {| page_items := []; nextPageToken := JStr "again" |});
     videos_list := videos_list sample_api;
     fetchTranscript := fetchTranscript sample_api |}.

(** A locale for the examples: numbers and dates are printed as the sample
    host prints them. *)
Definition sample_locale : Summary.Locale :=
  {| Summary.Number_toLocaleString := Js.Number_toString Samples.sample_host;
     Summary.Date_toLocaleDateString_default :=
       Js.Date_toLocaleDateString Samples.sample_host |}.

End Fixtures.
(** ** Notions used to state the properties *)

Module Notions.
Import Js Heap JsonTools.

(** *** Frames

    [keeps h0 m Q]: run in any heap that extends [h0], the computation [m]
    ends in a heap that still extends [h0], and a value it returns satisfies
    [Q]. *)
Definition keeps (h0 : heap) {A : Type} (m : M A) (Q : A -> Prop) : Prop :=
  forall h : heap,
    h0 ⊆ h -> h0 ⊆ fst (m h) /\ (forall x, snd (m h) = Normal x -> Q x).

(** A location that names no array of [h0]. *)
Definition outside (h0 : heap) (a : loc) : Prop := h0 !! a = None.

(** *** Orders

    [before cmp x y] says that the comparator puts [x] strictly before [y];
    [key_le key a b] compares two elements by an integer key. *)
Definition before {A : Type} (cmp : A -> A -> number) (x y : A) : Prop :=
  comes_after cmp y x = true.

Definition key_le {A : Type} (key : A -> Z) (a b : A) : Prop := (key a <= key b)%Z.

(** The time value of a record's [release_date], for a record that has a
    date the host can read. *)
Definition release_time (host : Host) (v : JsObject) : Z :=
  default 0%Z (Date_new host (get v "release_date")).

(** *** Statistics *)

(** The value of [vals]: what is left of the field after coercion. *)
Definition coerced (host : Host) (field : JsValue) (records : list JsObject) : list number :=
  List.filter (fun n => negb (isNaN n))
    (map (fun v => parseFloat (get v (ToString host field))) records).

(** The sum [a + q1 + ... + qn], added from the left as [reduce] does, the
    sum of squared distances to [m], and the length as a rational. *)
Fixpoint qsum (qs : list Q) (a : Q) : Q :=
  match qs with
  | [] => a
  | q :: rest => qsum rest (a + q)%Q
  end.

Fixpoint qsumsq (m : Q) (qs : list Q) (a : Q) : Q :=
  match qs with
  | [] => a
  | q :: rest => qsumsq m rest (a + (q + - m) * (q + - m))%Q
  end.

Definition qlen (qs : list Q) : Q := inject_Z (Z.of_nat (length qs)).

(** No partial sum of [a + q1 + ... + qn] is changed by rounding. *)
Fixpoint sums_exact (qs : list Q) (a : Q) : bool :=
  match qs with
  | [] => true
  | q :: rest =>
      match round64 (a + q)%Q with
      | Fin s => Qeq_bool s (a + q)%Q && sums_exact rest s
      | _ => false
      end
  end.

(** *** The query "play the 5th" *)

Definition terms_5th : list string := ["play"; "the"; "5th"].



End Notions.


(** ** Notions for the criteria of [play_video] *)

Module Criteria.
Import Js Heap JsonTools.

(** The seven criteria of lines 1238-1258, in the order of the chain. *)
Inductive Criterion : Type :=
| MostViewed | LeastViewed | MostLiked | Latest | Oldest | Shortest | Longest.

(** The criterion a query selects: the first test of the chain that
    succeeds. *)
Definition criterion_of (query : string) : option Criterion :=
  if test true most_view_re query then Some MostViewed
  else if test true least_view_re query then Some LeastViewed
  else if test true most_lik_re query then Some MostLiked
  else if test true latest_re query then Some Latest
  else if test true oldest_re query then Some Oldest
  else if test true shortest_re query then Some Shortest
  else if test true longest_re query then Some Longest
  else None.

(** The comparator the chain passes to [sort] for a criterion. *)
Definition comparator (host : Host) (c : Criterion) : JsObject -> JsObject -> number :=
  match c with
  | MostViewed => descending (count_of "view_count")
  | LeastViewed => ascending (count_of "view_count")
  | MostLiked => descending (count_of "like_count")
  | Latest => fun a b => Date_sub (release_or_epoch host b) (release_or_epoch host a)
  | Oldest => fun a b => Date_sub (release_or_epoch host a) (release_or_epoch host b)
  | Shortest => ascending (count_of "duration")
  | Longest => descending (count_of "duration")
  end.

(** The time value of [new Date(v.release_date || 0)] as a number: [NaN] for
    an invalid date. *)
Definition date_number (host : Host) (v : JsObject) : number :=
  match release_or_epoch host v with
  | Some t => Fin (inject_Z t)
  | None => NaN
  end.

(** What a criterion measures on a record, and whether it wants the largest
    or the smallest measure. *)
Definition measure (host : Host) (c : Criterion) (v : JsObject) : number :=
  match c with
  | MostViewed | LeastViewed => count_of "view_count" v
  | MostLiked => count_of "like_count" v
  | Latest | Oldest => date_number host v
  | Shortest | Longest => count_of "duration" v
  end.

Definition wants_largest (c : Criterion) : bool :=
  match c with
  | MostViewed | MostLiked | Latest | Longest => true
  | LeastViewed | Oldest | Shortest => false
  end.

(** [ahead host c v w]: by criterion [c], record [v] is strictly better than
    record [w]. *)
Definition ahead (host : Host) (c : Criterion) (v w : JsObject) : bool :=
  if wants_largest c then nlt (measure host c w) (measure host c v)
  else nlt (measure host c v) (measure host c w).

(** The exception of [x.toLowerCase()] on a value that is no string. *)
Definition TypeError_toLowerCase : string := "TypeError: toLowerCase is not a function".

(** A value that [toLowerCase] can be called on once [|| ''] is applied: a
    string, or a falsy value. *)
Definition text_or_falsy (x : JsValue) : bool :=
  match or_else x (JStr EmptyString) with
  | JStr _ => true
  | _ => false
  end.

(** A query that [(args.query || '').toLowerCase().trim()] turns into the
    empty string: a falsy value, or a string of white space. *)
Definition blank_query (x : JsValue) : bool :=
  negb (truthy x)
  || match x with
     | JStr s => String.eqb (trim (toLowerCase s)) EmptyString
     | _ => false
     end.

(** The two tests of the title match on a record whose title is text:
    every term of the query is in the lower-cased title; some term longer
    than two characters is. *)
Definition has_every_term (terms : list string) (v : JsObject) : bool :=
  match lower_title v with
  | Normal t => forallb (fun term => includes t term) terms
  | Throw _ => false
  end.

Definition has_some_term (terms : list string) (v : JsObject) : bool :=
  match lower_title v with
  | Normal t => existsb (fun term => (2 <? String.length term) && includes t term) terms
  | Throw _ => false
  end.

End Criteria.

(** ** Notions for the matcher and for [parseDuration] *)

Module Readers.
Import Js Downloader.

(** What [\d*] does: it takes the longest run of digits and gives digits
    back one at a time while the continuation fails. *)
Fixpoint star_digit {T : Type} (s : string) (caps : list string)
    (k : string -> list string -> option T) : option T :=
  match s with
  | String d s' =>
      if is_digit d
      then match star_digit s' caps k with
           | Some x => Some x
           | None => k s caps
           end
      else k s caps
  | EmptyString => k s caps
  end.

(** The longest run of digits at the start of [s], and what follows it. *)
Fixpoint take_digits (s : string) : string :=
  match s with
  | String d r => if is_digit d then String d (take_digits r) else EmptyString
  | EmptyString => EmptyString
  end.

Fixpoint skip_digits (s : string) : string :=
  match s with
  | String d r => if is_digit d then skip_digits r else s
  | EmptyString => EmptyString
  end.

(** A reader for one optional unit: at least one digit followed by the
    letter [c] is taken off [s]; otherwise nothing is. *)
Definition read_unit (c : ascii) (s : string) : string * string :=
  match take_digits s, skip_digits s with
  | String _ _, String d rest =>
      if Ascii.eqb c d then (take_digits s, rest) else (EmptyString, s)
  | _, _ => (EmptyString, s)
  end.

(** The three captures of the duration pattern on the text after [PT]. *)
Definition read_units (s : string) : list string :=
  let '(hours, s1) := read_unit "H" s in
  let '(minutes, s2) := read_unit "M" s1 in
  let '(seconds, _) := read_unit "S" s2 in
  [hours; minutes; seconds].

(** A string without a decimal digit. *)
Definition no_digit (s : string) : bool := all_chars (fun c => negb (is_digit c)) s.

(** The record a numeral names: the one at position [n - 1], when [n] is
    at least 1 and at most the number of records. *)
Definition record_numbered (n : Z) (records : list JsObject) : option JsObject :=
  if (1 <=? n)%Z then records !! Z.to_nat (n - 1) else None.

(** A non-empty string of decimal digits. *)
Definition is_numeral (s : string) : bool :=
  negb (String.eqb s EmptyString) && all_chars is_digit s.

(** A component of a duration, [None] when it is left out: its text before
    the unit letter, and its value. *)
Definition component_ok (o : option string) : bool :=
  match o with
  | Some ds => is_numeral ds
  | None => true
  end.

Definition component_text (o : option string) (unit : string) : string :=
  match o with
  | Some ds => ds ++ unit
  | None => EmptyString
  end.

Definition component_value (o : option string) : Z :=
  match o with
  | Some ds => parseInt_digits ds
  | None => 0%Z
  end.

Definition component_digits (o : option string) : string :=
  match o with
  | Some ds => ds
  | None => EmptyString
  end.

End Readers.

(** ** Notions for the statistics *)

Module StatsNotions.
Import Js.

(** The middle of a sorted list of values: the value in the middle, or the
    mean of the two in the middle. *)
Definition middle (sorted : list Q) : Q :=
  if length sorted mod 2 =? 0
  then ((nth (length sorted / 2 - 1) sorted 0 + nth (length sorted / 2) sorted 0) / 2)%Q
  else nth (length sorted / 2) sorted 0%Q.

(** For an even number of values, the sum of the two in the middle is not
    changed by rounding. *)
Definition middle_sum_exact (sorted : list Q) : bool :=
  if length sorted mod 2 =? 0
  then
    let sum := (nth (length sorted / 2 - 1) sorted 0 + nth (length sorted / 2) sorted 0)%Q in
    match round64 sum with
    | Fin s => Qeq_bool s sum
    | _ => false
    end
  else true.

(** The time value of [new Date(v.release_date || 0)], for a record whose
    date the host can read. *)
Definition time_or_epoch (host : Host) (v : JsObject) : Z :=
  default 0%Z (JsonTools.release_or_epoch host v).

End StatsNotions.

(** ** Notions for the inputs of [resolveChannelId] *)

Module ResolveNotions.
Import Js Downloader.

(** The characters of a handle or a custom name: letters, digits, [_], [-]
    and [.]. *)
Definition is_name_char (c : ascii) : bool :=
  is_word c || Ascii.eqb c "-" || Ascii.eqb c ".".

(** A non-empty name made of such characters. *)
Definition is_name (s : string) : bool :=
  negb (String.eqb s EmptyString) && all_chars is_name_char s.

(** The ways of writing the address of the site that line 15 removes. *)
Definition site_prefixes : list string :=
  [ EmptyString; "https://www.youtube.com/"; "https://youtube.com/";
    "http://www.youtube.com/"; "http://youtube.com/" ].

End ResolveNotions.

(** ** Notions for the text of a transcript *)

Module TranscriptNotions.
Import Js.

(** Every white-space character of [s] is a space, no two of them are
    adjacent, and [s] does not begin with one when [after_space] holds. *)
Fixpoint single_spaced (s : string) (after_space : bool) : bool :=
  match s with
  | EmptyString => true
  | String c r =>
      if is_ws c then Ascii.eqb c " " && negb after_space && single_spaced r true
      else single_spaced r false
  end.

(** The last character of [s], if there is one, is not white space. *)
Fixpoint ends_in_text (s : string) : bool :=
  match s with
  | EmptyString => true
  | String c EmptyString => negb (is_ws c)
  | String _ r => ends_in_text r
  end.

(** Words separated by single spaces, with no white space around them. *)
Definition spaced_words (s : string) : bool := single_spaced s true && ends_in_text s.

(** The characters of [s] that are not white space. *)
Fixpoint non_blank (s : string) : string :=
  match s with
  | EmptyString => EmptyString
  | String c r => if is_ws c then non_blank r else String c (non_blank r)
  end.

(** The texts one after the other. *)
Fixpoint concat_texts (xs : list string) : string :=
  match xs with
  | [] => EmptyString
  | x :: rest => (x ++ concat_texts rest)%string
  end.

End TranscriptNotions.
(** * Properties *)

(** ** The function-calling loop *)

Module GeminiFacts.
Import Js Gemini GeminiTrace.

Section Loop.
Context {R W : Type} (has_chartType is_video_card : R -> bool).
Context (remote : @Remote R W) (executeFn : string -> JsObject -> StE W R).

Local Abbreviation loop := (tool_loop has_chartType is_video_card remote executeFn).
Local Abbreviation counting_loop :=
  (tool_loop has_chartType is_video_card (counting_remote remote)
     (counting_executeFn executeFn)).

(** [if (!funcCall) break;] *)
Lemma tool_loop_break cards remaining response log w :
  find_functionCall (parts response) = None ->
  loop cards remaining response log w = (w, Normal (response, log)).
Proof.
  intros Hnone. destruct remaining as [|k]; simpl.
  - reflexivity.
  - rewrite Hnone. reflexivity.
Qed.

(** The call of the executor: awaited with [cards], and taken as it is
    without. *)
Lemma call_tool_steps cards fc w :
  call_tool remote executeFn cards fc w =
    match executeFn (name fc) (args fc) w with
    | (w1, Normal called) => if cards then await remote called w1 else (w1, Normal called)
    | (w1, Throw e) => (w1, Throw e)
    end.
Proof.
  unfold call_tool, bind.
  destruct (executeFn (name fc) (args fc) w) as [w1 [called|e]]; [|reflexivity].
  destruct cards; reflexivity.
Qed.

(** One round of the loop, when the model asks for a call. *)
Lemma tool_loop_round cards remaining response log w fc :
  find_functionCall (parts response) = Some fc ->
  loop cards (S remaining) response log w =
    match call_tool remote executeFn cards fc w with
    | (w1, Normal toolResult) =>
        match sendMessage remote (FunctionResponse (name fc) toolResult) w1 with
        | (w2, Normal response') =>
            loop cards remaining response'
              (record_call has_chartType is_video_card cards fc toolResult log) w2
        | (w2, Throw e) => (w2, Throw e)
        end
    | (w1, Throw e) => (w1, Throw e)
    end.
Proof.
  intros Hcall. simpl. rewrite Hcall. unfold bind.
  destruct (call_tool remote executeFn cards fc w) as [w1 [toolResult|e]]; [|reflexivity].
  destruct (sendMessage remote (FunctionResponse (name fc) toolResult) w1)
    as [w2 [response'|e]]; reflexivity.
Qed.

(** An exception of the executor leaves the loop at once. *)
Lemma tool_loop_executor_throws cards remaining response log w fc w1 e :
  find_functionCall (parts response) = Some fc ->
  executeFn (name fc) (args fc) w = (w1, Throw e) ->
  loop cards (S remaining) response log w = (w1, Throw e).
Proof.
  intros Hcall Hthrow.
  rewrite (tool_loop_round _ _ _ _ _ _ Hcall), call_tool_steps, Hthrow.
  reflexivity.
Qed.

(** Counting does not change the call of the executor, and counts it once. *)
Lemma counting_call_tool cards fc w n :
  call_tool (counting_remote remote) (counting_executeFn executeFn) cards fc (w, n)
  = let '(w1, r) := call_tool remote executeFn cards fc w in ((w1, S n), r).
Proof.
  unfold call_tool, bind, counting_executeFn, counted. cbn [fst snd].
  destruct (executeFn (name fc) (args fc) w) as [w1 [called|e]]; [|reflexivity].
  destruct cards; [|reflexivity].
  cbn [counting_remote await]. unfold uncounted. cbn [fst snd].
  destruct (await remote called w1) as [w2 r]. reflexivity.
Qed.

(** The counter grows by at most the number of rounds allowed. *)
Lemma counting_loop_bound cards remaining :
  forall response log w n,
    snd (fst (counting_loop cards remaining response log (w, n))) <= n + remaining.
Proof.
  induction remaining as [|k IH]; intros response log w n; simpl.
  - lia.
  - destruct (find_functionCall (parts response)) as [fc|]; simpl; [|lia].
    unfold bind. rewrite counting_call_tool.
    destruct (call_tool remote executeFn cards fc w) as [w1 [toolResult|e]]; simpl; [|lia].
    unfold uncounted; simpl.
    destruct (sendMessage remote (FunctionResponse (name fc) toolResult) w1)
      as [w2 [response'|e]]; simpl; [|lia].
    apply (Nat.le_trans _ _ _
             (IH response'
                (record_call has_chartType is_video_card cards fc toolResult log)
                w2 (S n))).
    lia.
Qed.

(** Counting does not change the run of the loop. *)
Lemma counting_loop_erases cards remaining :
  forall response log w n,
    (fst (fst (counting_loop cards remaining response log (w, n))),
     snd (counting_loop cards remaining response log (w, n)))
    = loop cards remaining response log w.
Proof.
  induction remaining as [|k IH]; intros response log w n; simpl.
  - reflexivity.
  - destruct (find_functionCall (parts response)) as [fc|]; simpl; [|reflexivity].
    unfold bind. rewrite counting_call_tool.
    destruct (call_tool remote executeFn cards fc w) as [w1 [toolResult|e]]; simpl;
      [|reflexivity].
    unfold uncounted; simpl.
    destruct (sendMessage remote (FunctionResponse (name fc) toolResult) w1)
      as [w2 [response'|e]]; simpl; [|reflexivity].
    apply IH.
Qed.

(** The run of a whole turn, step by step. *)
Lemma run_chat_steps cards history message userName st :
  run_chat has_chartType is_video_card remote executeFn cards history message userName st =
    let '(st1, sys) := loadSystemPrompt remote userName st in
    match sys with
    | Throw e => (st1, Throw e)
    | Normal systemInstruction =>
        match startChat remote (chatHistory systemInstruction history) (world st1) with
        | (w0, Throw e) => ({| world := w0; cachedPrompt := cachedPrompt st1 |}, Throw e)
        | (w0, Normal _) =>
            match sendMessage remote (UserMessage message) w0 with
            | (w1, Throw e) =>
                ({| world := w1; cachedPrompt := cachedPrompt st1 |}, Throw e)
            | (w1, Normal response) =>
                match loop cards MAX_ROUNDS response empty_log w1 with
                | (w2, Throw e) =>
                    ({| world := w2; cachedPrompt := cachedPrompt st1 |}, Throw e)
                | (w2, Normal last) =>
                    ({| world := w2; cachedPrompt := cachedPrompt st1 |},
                     match text (fst last) with
                     | Normal t => Normal {| answer_text := t; answer_log := snd last |}
                     | Throw e => Throw e
                     end)
                end
            end
        end
    end.
Proof.
  unfold run_chat.
  generalize (tool_loop has_chartType is_video_card remote executeFn cards MAX_ROUNDS).
  intros L. unfold bind, in_world, lift, ret.
  destruct (loadSystemPrompt remote userName st) as [st1 [sys|e]]; simpl; [|reflexivity].
  destruct (startChat remote (chatHistory sys history) (world st1)) as [w0 [[]|e]]; simpl;
    [|reflexivity].
  destruct (sendMessage remote (UserMessage message) w0) as [w1 [response|e]]; simpl;
    [|reflexivity].
  destruct (L response empty_log w1) as [w2 [last|e]]; simpl; [|reflexivity].
  destruct (text (fst last)); reflexivity.
Qed.

End Loop.

Section Turn.
Context {R W : Type} (has_chartType is_video_card : R -> bool).
Context (remote : @Remote R W) (executeFn : string -> JsObject -> StE W R).

Local Opaque MAX_ROUNDS.

(** Counting does not change [loadSystemPrompt]. *)
Lemma counting_loadSystemPrompt userName (st : @State (W * nat)) :
  (stop_counting (fst (loadSystemPrompt (counting_remote remote) userName st)),
   snd (loadSystemPrompt (counting_remote remote) userName st))
  = loadSystemPrompt remote userName (stop_counting st)
  /\ invocations (fst (loadSystemPrompt (counting_remote remote) userName st))
     = invocations st.
Proof.
  destruct st as [[w n] cached]. unfold loadSystemPrompt, stop_counting, invocations.
  simpl. destruct cached as [[|c r]|]; simpl;
    try (destruct (fetch_prompt remote w) as [w' body]; simpl); auto.
Qed.

(** A whole turn invokes the executor at most [MAX_ROUNDS] times more. *)
Lemma counting_run_chat_bound cards history message userName (st : @State (W * nat)) :
  invocations (fst (run_chat has_chartType is_video_card (counting_remote remote)
                      (counting_executeFn executeFn) cards history message userName st))
  <= invocations st + MAX_ROUNDS.
Proof.
  rewrite run_chat_steps.
  destruct (counting_loadSystemPrompt userName st) as [_ Hsame].
  destruct (loadSystemPrompt (counting_remote remote) userName st) as [st1 [sys|e]];
    simpl in *; [|unfold invocations in *; simpl; lia].
  destruct st1 as [[w1 n1] cached1]. unfold invocations in *. simpl in *. subst n1.
  unfold uncounted. simpl.
  destruct (startChat remote (chatHistory sys history) w1) as [w0 [[]|e]]; simpl; [|lia].
  destruct (sendMessage remote (UserMessage message) w0) as [w2 [response|e]];
    simpl; [|lia].
  pose proof (counting_loop_bound has_chartType is_video_card remote executeFn cards
                MAX_ROUNDS response empty_log w2 (snd (world st))) as Hbound.
  destruct (tool_loop has_chartType is_video_card (counting_remote remote)
              (counting_executeFn executeFn) cards MAX_ROUNDS response empty_log
              (w2, snd (world st))) as [[w3 n3] [last|e]]; simpl in *; lia.
Qed.

(** Counting does not change the run of a turn. *)
Lemma counting_erases cards history message userName (st : @State W) :
  let counting :=
    run_chat has_chartType is_video_card (counting_remote remote)
      (counting_executeFn executeFn) cards history message userName (start_counting st) in
  (stop_counting (fst counting), snd counting)
  = run_chat has_chartType is_video_card remote executeFn cards history message userName st.
Proof.
  cbv zeta. rewrite !run_chat_steps.
  destruct (counting_loadSystemPrompt userName (start_counting st)) as [Hload _].
  replace (stop_counting (start_counting st)) with st in Hload by (destruct st; reflexivity).
  rewrite <- Hload. clear Hload.
  destruct (loadSystemPrompt (counting_remote remote) userName (start_counting st))
    as [st1 [sys|e]]; simpl; [|reflexivity].
  destruct st1 as [[w1 n1] cached1]. unfold uncounted, stop_counting. simpl.
  destruct (startChat remote (chatHistory sys history) w1) as [w0 [[]|e]]; simpl;
    [|reflexivity].
  destruct (sendMessage remote (UserMessage message) w0) as [w2 [response|e]];
    simpl; [|reflexivity].
  pose proof (counting_loop_erases has_chartType is_video_card remote executeFn cards
                MAX_ROUNDS response empty_log w2 n1) as Herase.
  destruct (tool_loop has_chartType is_video_card (counting_remote remote)
              (counting_executeFn executeFn) cards MAX_ROUNDS response empty_log (w2, n1))
    as [[w3 n3] [last|e]]; simpl in *; rewrite <- Herase; reflexivity.
Qed.

End Turn.

(** C1.  Whatever the history, the message, the model behind [remote] and the
    executor, one user turn of [chatWithJsonTools] and of [chatWithCsvTools]
    invokes the executor at most 5 times, also when every response asks for
    another call; and the loop stops at once, with nothing executed or sent,
    when the response holds no function call. *)
Theorem at_most_five_tool_invocations :
  forall (R W : Type) (has_chartType is_video_card : R -> bool)
         (remote : @Remote R W) (executeFn : string -> JsObject -> StE W R)
         (history : list Message) (newMessage userName : string)
         (csvHeaders : option (list string)) (st : @State W),
    invocations
      (fst (chatWithJsonTools has_chartType is_video_card (counting_remote remote)
              (counting_executeFn executeFn) history newMessage userName
              (start_counting st))) <= 5
    /\ invocations
         (fst (chatWithCsvTools has_chartType is_video_card (counting_remote remote)
                 (counting_executeFn executeFn) history newMessage csvHeaders userName
                 (start_counting st))) <= 5
    /\ (forall (cards : bool) (remaining : nat) (response : Response)
               (log : @Log R) (w : W),
          find_functionCall (parts response) = None ->
          tool_loop has_chartType is_video_card remote executeFn cards remaining
            response log w = (w, Normal (response, log))).
Proof.
  intros. split; [|split].
  - unfold chatWithJsonTools.
    apply (counting_run_chat_bound has_chartType is_video_card remote executeFn true
             history newMessage userName (start_counting st)).
  - unfold chatWithCsvTools.
    apply (counting_run_chat_bound has_chartType is_video_card remote executeFn false
             history (msgWithContext csvHeaders newMessage) userName (start_counting st)).
  - intros. apply tool_loop_break. assumption.
Qed.

(** A model that asks for a call in every response gets exactly five. *)
Example insisting_model_is_cut_off :
  invocations
    (fst (chatWithJsonTools JsonTools.has_chartType JsonTools.is_video_card
            (counting_remote Samples.insisting_remote)
            (counting_executeFn Samples.scenario_executor) [] "play" "Ann"
            (start_counting Samples.fresh_state))) = 5.
Proof. vm_compute. reflexivity. Qed.

(** A model that answers in text gets no tool run at all: one message is
    sent and the answer is the text of its response. *)
Example plain_answer_runs_no_tool :
  chatWithJsonTools JsonTools.has_chartType JsonTools.is_video_card
    (counting_remote Samples.plain_remote)
    (counting_executeFn Samples.failing_executor) [] "hello" EmptyString
    (start_counting Samples.fresh_state)
  = ({| world := (1, 0); cachedPrompt := Some EmptyString |},
     Normal {| answer_text := "Hello."; answer_log := empty_log |}).
Proof. vm_compute. reflexivity. Qed.

Lemma at_most_five_tool_invocations_witness :
  invocations
    (fst (chatWithJsonTools JsonTools.has_chartType JsonTools.is_video_card
            (counting_remote Samples.insisting_remote)
            (counting_executeFn Samples.scenario_executor) [] "play" "Ann"
            (start_counting Samples.fresh_state))) <= 5.
Proof.
  exact (proj1 (at_most_five_tool_invocations _ _ JsonTools.has_chartType
                  JsonTools.is_video_card Samples.insisting_remote
                  Samples.scenario_executor [] "play" "Ann" None Samples.fresh_state)).
Defined.

(** *** What happens in a turn *)

Lemma split_cons {A : Type} (x y : A) (l earlier later : list A) :
  x :: l = earlier ++ y :: later ->
  (earlier = [] /\ x = y /\ l = later)
  \/ exists earlier', earlier = x :: earlier' /\ l = earlier' ++ y :: later.
Proof.
  destruct earlier as [|z earlier']; simpl; intros [= -> ->].
  - left. repeat split.
  - right. exists earlier'. split; reflexivity.
Qed.

Section Observed.
Context {R W : Type} (has_chartType is_video_card : R -> bool).
Context (remote : @Remote R W) (executeFn : string -> JsObject -> StE W R).

Local Abbreviation observing_loop :=
  (tool_loop has_chartType is_video_card (observing_remote remote)
     (observing_executeFn executeFn)).

Lemma received_app (t1 t2 : list (@Event R)) :
  received (t1 ++ t2) = received t1 ++ received t2.
Proof.
  induction t1 as [|ev rest IH]; [reflexivity|].
  destruct ev as [f a o|c o|req [response|e]]; simpl; rewrite ?IH; reflexivity.
Qed.

(** The call of the executor under observation. *)
Lemma observing_call_tool cards fc w trace :
  call_tool (observing_remote remote) (observing_executeFn executeFn) cards fc (w, trace)
  = match executeFn (name fc) (args fc) w with
    | (w1, Throw e) => ((w1, trace ++ [Called (name fc) (args fc) (Throw e)]), Throw e)
    | (w1, Normal called) =>
        if cards then
          let '(w2, r) := await remote called w1 in
          ((w2, trace ++ [Called (name fc) (args fc) (Normal called); Awaited called r]), r)
        else ((w1, trace ++ [Called (name fc) (args fc) (Normal called)]), Normal called)
    end.
Proof.
  unfold call_tool, bind, observing_executeFn, observed. cbn [fst snd].
  destruct (executeFn (name fc) (args fc) w) as [w1 [called|e]]; [|reflexivity].
  destruct cards; [|reflexivity].
  cbn [observing_remote await]. unfold observed. cbn [fst snd].
  destruct (await remote called w1) as [w2 r]. rewrite <- app_assoc. reflexivity.
Qed.

(** One round of the loop under observation. *)
Lemma observing_loop_round cards remaining response log w trace fc :
  find_functionCall (parts response) = Some fc ->
  observing_loop cards (S remaining) response log (w, trace) =
    match call_tool (observing_remote remote) (observing_executeFn executeFn) cards fc
            (w, trace) with
    | ((w1, trace1), Normal toolResult) =>
        match sendMessage remote (FunctionResponse (name fc) toolResult) w1 with
        | (w2, Normal response') =>
            observing_loop cards remaining response'
              (record_call has_chartType is_video_card cards fc toolResult log)
              (w2, trace1 ++ [Sent (FunctionResponse (name fc) toolResult)
                                 (Normal response')])
        | (w2, Throw e) =>
            ((w2, trace1 ++ [Sent (FunctionResponse (name fc) toolResult) (Throw e)]),
             Throw e)
        end
    | (s1, Throw e) => (s1, Throw e)
    end.
Proof.
  intros Hcall.
  rewrite (tool_loop_round has_chartType is_video_card (observing_remote remote)
             (observing_executeFn executeFn) cards remaining response log (w, trace) fc
             Hcall).
  destruct (call_tool (observing_remote remote) (observing_executeFn executeFn) cards fc
              (w, trace)) as [[w1 trace1] [toolResult|e]]; [|reflexivity].
  cbn [observing_remote sendMessage]. unfold observed. cbn [fst snd].
  destruct (sendMessage remote (FunctionResponse (name fc) toolResult) w1)
    as [w2 [response'|e]]; reflexivity.
Qed.

(** Observing does not change the run of the loop. *)
Lemma observing_loop_erases cards remaining :
  forall response log w trace,
    (fst (fst (observing_loop cards remaining response log (w, trace))),
     snd (observing_loop cards remaining response log (w, trace)))
    = tool_loop has_chartType is_video_card remote executeFn cards remaining response log w.
Proof.
  induction remaining as [|k IH]; intros response log w trace.
  - reflexivity.
  - destruct (find_functionCall (parts response)) as [fc|] eqn:Hcall.
    + rewrite (observing_loop_round cards k response log w trace fc Hcall).
      rewrite (tool_loop_round has_chartType is_video_card remote executeFn cards k
                 response log w fc Hcall).
      rewrite observing_call_tool, call_tool_steps.
      destruct (executeFn (name fc) (args fc) w) as [w1 [called|e]]; [|reflexivity].
      destruct cards.
      * destruct (await remote called w1) as [w2 [toolResult|e]]; [|reflexivity].
        destruct (sendMessage remote (FunctionResponse (name fc) toolResult) w2)
          as [w3 [response'|e]]; [|reflexivity].
        apply IH.
      * destruct (sendMessage remote (FunctionResponse (name fc) called) w1)
          as [w3 [response'|e]]; [|reflexivity].
        apply IH.
    + rewrite !tool_loop_break by exact Hcall. reflexivity.
Qed.

(** What the loop adds to the events. *)
Lemma observing_loop_events cards remaining :
  forall response log w trace,
    exists added : list (@Event R),
      snd (fst (observing_loop cards remaining response log (w, trace))) = trace ++ added
      /\ (forall event e,
            In event added -> executor_failed event e ->
            snd (observing_loop cards remaining response log (w, trace)) = Throw e
            /\ exists earlier, added = earlier ++ [event])
      /\ (forall called outcome, In (Awaited called outcome) added -> cards = true)
      /\ (cards = false ->
          forall earlier fname fargs called later,
            added = earlier ++ Called fname fargs (Normal called) :: later ->
            exists outcome later',
              later = Sent (FunctionResponse fname called) outcome :: later')
      /\ (forall last log',
            snd (observing_loop cards remaining response log (w, trace))
            = Normal (last, log') ->
            exists (calls : list (@ToolCall R)) (earlier : list Response),
              toolCalls log' = toolCalls log ++ calls
              /\ response :: received added = earlier ++ [last]
              /\ Forall2 asked_for earlier calls
              /\ (find_functionCall (parts last) = None \/ length calls = remaining)).
Proof.
  assert (Hnothing : forall rounds response log (w : W) (trace : list (@Event R)),
            find_functionCall (parts response) = None \/ 0 = rounds ->
            exists added : list (@Event R),
              trace = trace ++ added
              /\ (forall event e,
                    In event added -> executor_failed event e ->
                    @Normal (Response * @Log R) (response, log) = Throw e
                    /\ exists earlier, added = earlier ++ [event])
              /\ (forall called outcome, In (Awaited called outcome) added -> cards = true)
              /\ (cards = false ->
                  forall earlier fname fargs called later,
                    added = earlier ++ Called fname fargs (Normal called) :: later ->
                    exists outcome later',
                      later = Sent (FunctionResponse fname called) outcome :: later')
              /\ (forall last log',
                    @Normal (Response * @Log R) (response, log) = Normal (last, log') ->
                    exists (calls : list (@ToolCall R)) (earlier : list Response),
                      toolCalls log' = toolCalls log ++ calls
                      /\ response :: received added = earlier ++ [last]
                      /\ Forall2 asked_for earlier calls
                      /\ (find_functionCall (parts last) = None
                          \/ length calls = rounds))).
  { intros rounds response log w trace Hend. exists []. rewrite app_nil_r.
    split; [reflexivity|]. split; [intros event e []|]. split; [intros called outcome []|].
    split.
    - intros _ earlier fname fargs called later Heq.
      destruct earlier; discriminate Heq.
    - intros last log' [= <- <-]. exists [], []. rewrite app_nil_r.
      split; [reflexivity|]. split; [reflexivity|]. split; [constructor|exact Hend]. }
  induction remaining as [|k IH]; intros response log w trace.
  - exact (Hnothing 0 response log w trace (or_intror eq_refl)).
  - destruct (find_functionCall (parts response)) as [fc|] eqn:Hcall.
    2: { rewrite tool_loop_break by exact Hcall.
         exact (Hnothing (S k) response log w trace (or_introl Hcall)). }
    rewrite (observing_loop_round cards k response log w trace fc Hcall).
    rewrite observing_call_tool.
    destruct (executeFn (name fc) (args fc) w) as [w1 [called|e]].
    2: { (* the call raises *)
      exists [Called (name fc) (args fc) (Throw e)]. cbn [fst snd].
      split; [reflexivity|]. split.
      { intros event e' [<-|[]] [(f & a & Hev)|(c & Hev)]; [|discriminate Hev].
        injection Hev as _ _ ->. split; [reflexivity|]. exists []. reflexivity. }
      split; [intros c o [Hev|[]]; discriminate Hev|]. split.
      { intros _ earlier fname fargs c later Heq.
        apply split_cons in Heq as [(_ & Hev & _)|(earlier' & _ & Heq)];
          [discriminate Hev|destruct earlier'; discriminate Heq]. }
      intros last log' Hrun. discriminate Hrun. }
    (* the events of the call, and its result *)
    assert (Hcalled :
      exists (pre : list (@Event R)) (w2 : W) (result : Completion R),
        (if cards then
           let '(w2, r) := await remote called w1 in
           ((w2, trace ++ [Called (name fc) (args fc) (Normal called); Awaited called r]), r)
         else ((w1, trace ++ [Called (name fc) (args fc) (Normal called)]), Normal called))
        = ((w2, trace ++ Called (name fc) (args fc) (Normal called) :: pre), result)
        /\ (if cards then pre = [Awaited called result]
            else pre = [] /\ result = Normal called)).
    { destruct cards.
      - destruct (await remote called w1) as [w2 r]. exists [Awaited called r], w2, r.
        split; reflexivity.
      - exists [], w1, (Normal called). repeat split. }
    destruct Hcalled as (pre & w2 & result & -> & Hpre).
    destruct result as [toolResult|e].
    2: { (* the value awaited is rejected *)
      destruct cards; [|destruct Hpre as [_ Hpre]; discriminate Hpre]. subst pre.
      exists [Called (name fc) (args fc) (Normal called); Awaited called (Throw e)].
      cbn [fst snd]. split; [reflexivity|]. split.
      { intros event e' [<-|[<-|[]]] [(f & a & Hev)|(c & Hev)]; try discriminate Hev.
        injection Hev as _ ->. split; [reflexivity|].
        exists [Called (name fc) (args fc) (Normal called)]. reflexivity. }
      split; [reflexivity|]. split; [discriminate|].
      intros last log' Hrun. discriminate Hrun. }
    destruct (sendMessage remote (FunctionResponse (name fc) toolResult) w2)
      as [w3 [response'|e]].
    2: { (* the result cannot be sent *)
      exists (Called (name fc) (args fc) (Normal called)
                :: pre ++ [Sent (FunctionResponse (name fc) toolResult) (Throw e)]).
      cbn [fst snd]. split; [rewrite <- app_assoc; reflexivity|]. split.
      { intros event e' Hin [(f & a & Hev)|(c & Hev)]; subst event.
        - destruct Hin as [Hev|Hin]; [discriminate Hev|].
          apply in_app_iff in Hin as [Hin|[Hev|[]]]; [|discriminate Hev].
          destruct cards; [subst pre|destruct Hpre as [-> _]; destruct Hin].
          destruct Hin as [Hev|[]]. discriminate Hev.
        - destruct Hin as [Hev|Hin]; [discriminate Hev|].
          apply in_app_iff in Hin as [Hin|[Hev|[]]]; [|discriminate Hev].
          destruct cards; [subst pre|destruct Hpre as [-> _]; destruct Hin].
          destruct Hin as [Hev|[]]. discriminate Hev. }
      split.
      { intros c o Hin. destruct cards; [reflexivity|]. destruct Hpre as [-> _].
        destruct Hin as [Hev|[Hev|[]]]; discriminate Hev. }
      split.
      { intros -> earlier fname fargs c later Heq. destruct Hpre as [-> Hres].
        injection Hres as <-. cbn [app] in Heq.
        apply split_cons in Heq as [(_ & Hev & <-)|(earlier' & _ & Heq)].
        - injection Hev as <- _ <-. eexists _, _. reflexivity.
        - apply split_cons in Heq as [(_ & Hev & _)|(earlier'' & _ & Heq)];
            [discriminate Hev|destruct earlier''; discriminate Heq]. }
      intros last log' Hrun. discriminate Hrun. }
    (* the round is complete *)
    destruct (IH response'
                (record_call has_chartType is_video_card cards fc toolResult log) w3
                ((trace ++ Called (name fc) (args fc) (Normal called) :: pre)
                   ++ [Sent (FunctionResponse (name fc) toolResult) (Normal response')]))
      as (added & Htrace & Hfail & Hawait & Hsent & Hlog).
    exists (Called (name fc) (args fc) (Normal called)
              :: pre ++ Sent (FunctionResponse (name fc) toolResult) (Normal response')
              :: added).
    split.
    { rewrite Htrace, <- !app_assoc. reflexivity. }
    split.
    { intros event e' Hin Hfailed.
      assert (Hadded : In event added).
      { destruct Hin as [Hev|Hin].
        - subst event. destruct Hfailed as [(f & a & Hev)|(c & Hev)]; discriminate Hev.
        - apply in_app_iff in Hin as [Hin|[Hev|Hin]]; [| |exact Hin].
          + destruct cards; [subst pre|destruct Hpre as [-> _]; destruct Hin].
            destruct Hin as [Hev|[]]. subst event.
            destruct Hfailed as [(f & a & Hev)|(c & Hev)]; discriminate Hev.
          + subst event. destruct Hfailed as [(f & a & Hev)|(c & Hev)]; discriminate Hev. }
      destruct (Hfail event e' Hadded Hfailed) as (Hrun & earlier & ->).
      split; [exact Hrun|].
      exists (Called (name fc) (args fc) (Normal called)
                :: pre ++ Sent (FunctionResponse (name fc) toolResult) (Normal response')
                :: earlier).
      cbn [app]. rewrite <- app_assoc. reflexivity. }
    split.
    { intros c o Hin. destruct cards; [reflexivity|]. destruct Hpre as [-> _].
      destruct Hin as [Hev|[Hev|Hin]]; try discriminate Hev.
      exact (Hawait c o Hin). }
    split.
    { intros -> earlier fname fargs c later Heq. destruct Hpre as [-> Hres].
      injection Hres as <-. cbn [app] in Heq.
      apply split_cons in Heq as [(_ & Hev & <-)|(earlier' & _ & Heq)].
      - injection Hev as <- _ <-. eexists _, _. reflexivity.
      - apply split_cons in Heq as [(_ & Hev & _)|(earlier'' & _ & Heq)];
          [discriminate Hev|].
        exact (Hsent eq_refl earlier'' fname fargs c later Heq). }
    intros last log' Hrun.
    destruct (Hlog last log' Hrun)
      as (calls & earlier & Hcalls & Hreceived & Hasked & Hend).
    exists ({| call_name := name fc; call_args := args fc; call_result := toolResult |}
              :: calls), (response :: earlier).
    split.
    { rewrite Hcalls. cbn [record_call toolCalls]. rewrite <- app_assoc. reflexivity. }
    split.
    { assert (Hnone : received (Called (name fc) (args fc) (Normal called) :: pre) = []).
      { destruct cards; [subst pre; reflexivity|destruct Hpre as [-> _]; reflexivity]. }
      change (Called (name fc) (args fc) (Normal called)
                :: pre ++ Sent (FunctionResponse (name fc) toolResult) (Normal response')
                :: added)
        with ((Called (name fc) (args fc) (Normal called) :: pre)
                ++ Sent (FunctionResponse (name fc) toolResult) (Normal response')
                :: added).
      rewrite received_app, Hnone. cbn [app received].
      rewrite Hreceived. reflexivity. }
    split.
    { constructor; [|exact Hasked].
      unfold asked_for. cbn [call_name call_args]. rewrite Hcall. destruct fc; reflexivity. }
    destruct Hend as [Hnone|Hfull]; [left; exact Hnone|right; cbn [length]; lia].
Qed.

Local Opaque MAX_ROUNDS.

Lemma observing_loadSystemPrompt userName (st : @State (W * list (@Event R))) :
  (stop_observing (fst (loadSystemPrompt (observing_remote remote) userName st)),
   snd (loadSystemPrompt (observing_remote remote) userName st))
  = loadSystemPrompt remote userName (stop_observing st)
  /\ events (fst (loadSystemPrompt (observing_remote remote) userName st)) = events st.
Proof.
  destruct st as [[w trace] cached]. unfold loadSystemPrompt, stop_observing, events.
  simpl. destruct cached as [[|c r]|]; simpl;
    try (destruct (fetch_prompt remote w) as [w' body]; simpl); auto.
Qed.

(** Observing does not change the run of a turn. *)
Lemma observing_erases cards history message userName (st : @State W) :
  let turn :=
    run_chat has_chartType is_video_card (observing_remote remote)
      (observing_executeFn executeFn) cards history message userName (start_observing st) in
  (stop_observing (fst turn), snd turn)
  = run_chat has_chartType is_video_card remote executeFn cards history message userName st.
Proof.
  cbv zeta. rewrite !run_chat_steps.
  destruct (observing_loadSystemPrompt userName (start_observing st)) as [Hload _].
  replace (stop_observing (start_observing st)) with st in Hload
    by (destruct st; reflexivity).
  rewrite <- Hload. clear Hload.
  destruct (loadSystemPrompt (observing_remote remote) userName (start_observing st))
    as [st1 [sys|e]]; simpl; [|reflexivity].
  destruct st1 as [[w1 trace1] cached1]. unfold unobserved, observed, stop_observing. simpl.
  destruct (startChat remote (chatHistory sys history) w1) as [w0 [[]|e]]; simpl;
    [|reflexivity].
  destruct (sendMessage remote (UserMessage message) w0) as [w2 [response|e]];
    simpl; [|reflexivity].
  pose proof (observing_loop_erases cards MAX_ROUNDS response empty_log w2
                (trace1 ++ [Sent (UserMessage message) (Normal response)])) as Herase.
  destruct (tool_loop has_chartType is_video_card (observing_remote remote)
              (observing_executeFn executeFn) cards MAX_ROUNDS response empty_log
              (w2, trace1 ++ [Sent (UserMessage message) (Normal response)]))
    as [[w3 trace3] [last|e]]; simpl in *; rewrite <- Herase; reflexivity.
Qed.

(** The events of a turn. *)
Lemma observing_run_chat_events cards history message userName (st : @State W) :
  let turn :=
    run_chat has_chartType is_video_card (observing_remote remote)
      (observing_executeFn executeFn) cards history message userName (start_observing st) in
  (forall event e,
     In event (events (fst turn)) -> executor_failed event e ->
     snd turn = Throw e /\ exists earlier, events (fst turn) = earlier ++ [event])
  /\ (forall called outcome, In (Awaited called outcome) (events (fst turn)) -> cards = true)
  /\ (cards = false ->
      forall earlier fname fargs called later,
        events (fst turn) = earlier ++ Called fname fargs (Normal called) :: later ->
        exists outcome later', later = Sent (FunctionResponse fname called) outcome :: later')
  /\ (forall answer,
        snd turn = Normal answer ->
        exists (earlier : list Response) (last : Response),
          received (events (fst turn)) = earlier ++ [last]
          /\ text last = Normal (answer_text answer)
          /\ Forall2 asked_for earlier (toolCalls (answer_log answer))
          /\ (find_functionCall (parts last) = None
              \/ length (toolCalls (answer_log answer)) = MAX_ROUNDS)).
Proof.
  cbv zeta. rewrite run_chat_steps.
  destruct (observing_loadSystemPrompt userName (start_observing st)) as [_ Hsame].
  destruct (loadSystemPrompt (observing_remote remote) userName (start_observing st))
    as [st1 [sys|e]].
  2: { cbn [fst snd] in Hsame. cbv beta iota. cbn [fst snd]. rewrite Hsame. cbn.
       repeat split; try contradiction; try discriminate.
       intros _ earlier fname fargs called later Heq. destruct earlier; discriminate Heq. }
  destruct st1 as [[w1 trace1] cached1]. unfold events in Hsame. cbn in Hsame. subst trace1.
  cbv beta iota. cbn [world cachedPrompt observing_remote startChat sendMessage].
  unfold unobserved, observed. cbn [fst snd].
  destruct (startChat remote (chatHistory sys history) w1) as [w0 [[]|e]];
    cbv beta iota; cbn [fst snd].
  2: { cbn. repeat split; try contradiction; try discriminate.
       intros _ earlier fname fargs called later Heq. destruct earlier; discriminate Heq. }
  destruct (sendMessage remote (UserMessage message) w0) as [w2 [response|e]];
    cbv beta iota; cbn [fst snd].
  2: { cbn. split.
       { intros event e' [<-|[]] [(f & a & Hev)|(c & Hev)]; discriminate Hev. }
       split; [intros c o [Hev|[]]; discriminate Hev|]. split; [|discriminate].
       intros _ earlier fname fargs called later Heq.
       apply split_cons in Heq as [(_ & Hev & _)|(earlier' & _ & Heq)];
         [discriminate Hev|destruct earlier'; discriminate Heq]. }
  cbn [app].
  destruct (observing_loop_events cards MAX_ROUNDS response empty_log w2
              [Sent (UserMessage message) (Normal response)])
    as (added & Htrace & Hfail & Hawait & Hsent & Hlog).
  destruct (tool_loop has_chartType is_video_card (observing_remote remote)
              (observing_executeFn executeFn) cards MAX_ROUNDS response empty_log
              (w2, [Sent (UserMessage message) (Normal response)]))
    as [[w3 trace3] [[last log]|e]]; cbn [fst snd] in *; subst trace3;
    unfold events; cbn [fst snd world app].
  - split.
    { intros event e' [<-|Hin] Hfailed.
      - destruct Hfailed as [(f & a & Hev)|(c & Hev)]; discriminate Hev.
      - destruct (Hfail event e' Hin Hfailed) as (Hrun & _). discriminate Hrun. }
    split.
    { intros c o [Hev|Hin]; [discriminate Hev|exact (Hawait c o Hin)]. }
    split.
    { intros Hcsv earlier fname fargs c later Heq.
      apply split_cons in Heq as [(_ & Hev & _)|(earlier' & _ & Heq)];
        [discriminate Hev|exact (Hsent Hcsv earlier' fname fargs c later Heq)]. }
    intros answer Hanswer.
    destruct (Hlog last log eq_refl)
      as (calls & earlier & Hcalls & Hreceived & Hasked & Hend).
    cbn in Hcalls. subst calls.
    destruct (text last) as [t|e] eqn:Htext; [|discriminate Hanswer].
    injection Hanswer as <-. cbn [answer_text answer_log].
    exists earlier, last. cbn [received]. repeat split; assumption.
  - split.
    { intros event e' [<-|Hin] Hfailed.
      - destruct Hfailed as [(f & a & Hev)|(c & Hev)]; discriminate Hev.
      - destruct (Hfail event e' Hin Hfailed) as (Hrun & earlier & Heq).
        injection Hrun as ->. split; [reflexivity|].
        exists (Sent (UserMessage message) (Normal response) :: earlier).
        rewrite Heq. reflexivity. }
    split.
    { intros c o [Hev|Hin]; [discriminate Hev|exact (Hawait c o Hin)]. }
    split; [|discriminate].
    intros Hcsv earlier fname fargs c later Heq.
    apply split_cons in Heq as [(_ & Hev & _)|(earlier' & _ & Heq)];
      [discriminate Hev|exact (Hsent Hcsv earlier' fname fargs c later Heq)].
Qed.

End Observed.

(** C2, as the code has it.  Neither loop catches.  In a turn of
    [chatWithJsonTools] or of [chatWithCsvTools], whatever the model and the
    executor do, a failure of the executor in any round (the call raises or,
    in [chatWithJsonTools], the promise it returned is rejected) is the last
    thing that happens in the turn: no function response is sent for that
    round, the turn ends with that exception, and the caller shows its
    message as the text of the answer.  Only [chatWithJsonTools] awaits: in
    [chatWithCsvTools] the value the call returned, also a promise that is
    going to be rejected, is the one sent back to the model.  In each loop an
    exception of the call leaves the world as the executor left it. *)
Theorem executor_exception_escapes :
  forall (R W : Type) (has_chartType is_video_card : R -> bool)
         (remote : @Remote R W) (executeFn : string -> JsObject -> StE W R)
         (history : list Message) (newMessage userName : string)
         (csvHeaders : option (list string)) (st : @State W) (cards : bool),
    let turn :=
      if cards
      then chatWithJsonTools has_chartType is_video_card (observing_remote remote)
             (observing_executeFn executeFn) history newMessage userName
             (start_observing st)
      else chatWithCsvTools has_chartType is_video_card (observing_remote remote)
             (observing_executeFn executeFn) history newMessage csvHeaders userName
             (start_observing st) in
    (stop_observing (fst turn), snd turn)
    = (if cards
       then chatWithJsonTools has_chartType is_video_card remote executeFn history
              newMessage userName st
       else chatWithCsvTools has_chartType is_video_card remote executeFn history
              newMessage csvHeaders userName st)
    /\ (forall (event : @Event R) (e : string),
          In event (events (fst turn)) ->
          executor_failed event e ->
          snd turn = Throw e
          /\ Chat.fullContent (snd turn) = ("Error: " ++ e)%string
          /\ exists earlier, events (fst turn) = earlier ++ [event])
    /\ (forall (called : R) (outcome : Completion R),
          In (Awaited called outcome) (events (fst turn)) -> cards = true)
    /\ (cards = false ->
        forall earlier fname fargs called later,
          events (fst turn) = earlier ++ Called fname fargs (Normal called) :: later ->
          exists outcome later',
            later = Sent (FunctionResponse fname called) outcome :: later')
    /\ (forall (remaining : nat) (response : Response) (log : @Log R) (w w1 : W)
               (fc : FunctionCall) (e : string),
          find_functionCall (parts response) = Some fc ->
          executeFn (name fc) (args fc) w = (w1, Throw e) ->
          tool_loop has_chartType is_video_card remote executeFn cards (S remaining)
            response log w = (w1, Throw e)).
Proof.
  intros R W has_chartType is_video_card remote executeFn history newMessage userName
         csvHeaders st cards turn.
  assert (Hturn : turn =
            run_chat has_chartType is_video_card (observing_remote remote)
              (observing_executeFn executeFn) cards history
              (if cards then newMessage else msgWithContext csvHeaders newMessage)
              userName (start_observing st)).
  { subst turn. destruct cards; reflexivity. }
  rewrite Hturn. clear Hturn turn.
  destruct (observing_run_chat_events has_chartType is_video_card remote executeFn cards
              history (if cards then newMessage else msgWithContext csvHeaders newMessage)
              userName st) as (Hfail & Hawait & Hsent & _).
  split.
  { rewrite (observing_erases has_chartType is_video_card remote executeFn cards history
               (if cards then newMessage else msgWithContext csvHeaders newMessage)
               userName st).
    destruct cards; reflexivity. }
  split.
  { intros event e Hin Hfailed. destruct (Hfail event e Hin Hfailed) as (Hrun & Hlast).
    split; [exact Hrun|]. split; [rewrite Hrun; reflexivity|exact Hlast]. }
  split; [exact Hawait|]. split; [exact Hsent|].
  intros remaining response log w w1 fc e Hcall Hthrow.
  exact (tool_loop_executor_throws has_chartType is_video_card remote executeFn cards
           remaining response log w fc w1 e Hcall Hthrow).
Qed.

Lemma executor_exception_escapes_witness :
  snd (chatWithJsonTools JsonTools.has_chartType JsonTools.is_video_card
         (observing_remote Samples.insisting_remote)
         (observing_executeFn Samples.failing_executor) [] "play" EmptyString
         (start_observing Samples.fresh_state)) = Throw "boom"
  /\ events (fst (chatWithJsonTools JsonTools.has_chartType JsonTools.is_video_card
                    (observing_remote Samples.insisting_remote)
                    (observing_executeFn Samples.failing_executor) [] "play" EmptyString
                    (start_observing Samples.fresh_state)))
     = [ Sent (UserMessage "play") (Normal Samples.insisting_response);
         Called "play_video" [("query", JStr "first")] (Throw "boom") ].
Proof.
  split; [|vm_compute; reflexivity].
  destruct (executor_exception_escapes _ _ JsonTools.has_chartType
              JsonTools.is_video_card Samples.insisting_remote Samples.failing_executor
              [] "play" EmptyString None Samples.fresh_state true)
    as (_ & Hfail & _).
  apply (Hfail (Called "play_video" [("query", JStr "first")] (Throw "boom")) "boom").
  - vm_compute. right. left. reflexivity.
  - left. exists "play_video", [("query", JStr "first")]. reflexivity.
Defined.

(** C2, as the claim has it, fails: with an executor that raises, the turn
    ends with the exception instead of an answer. *)
Lemma executor_exception_not_caught :
  snd (chatWithJsonTools JsonTools.has_chartType JsonTools.is_video_card
         Samples.insisting_remote Samples.failing_executor [] "play" EmptyString
         Samples.fresh_state) = Throw "boom".
Proof. vm_compute. reflexivity. Qed.

(** An asynchronous executor whose promise is rejected: [chatWithJsonTools]
    awaits the promise and ends with its reason; [chatWithCsvTools] does not
    await, records the promise itself as the result of the call, sends it
    back, and returns the answer of the model. *)
Example rejected_promise_on_the_two_paths :
  snd (chatWithJsonTools (fun _ => false) (fun _ => false) Samples.promise_remote
         Samples.rejecting_executor [] "play" EmptyString Samples.fresh_state)
  = Throw "boom"
  /\ snd (chatWithCsvTools (fun _ => false) (fun _ => false) Samples.promise_remote
            Samples.rejecting_executor [] "play" None EmptyString Samples.fresh_state)
     = Normal {| answer_text := "Hello.";
                 answer_log :=
                   {| charts := []; videoCards := [];
                      toolCalls := [ {| call_name := "play_video";
                                        call_args := [("query", JStr "first")];
                                        call_result := Samples.Rejecting "boom" |} ] |} |}.
Proof. split; vm_compute; reflexivity. Qed.

(** A session that refuses the history ends the turn before anything is
    sent. *)
Example refused_history_ends_the_turn :
  chatWithJsonTools JsonTools.has_chartType JsonTools.is_video_card
    Samples.strict_remote Samples.failing_executor
    [ {| role := "model"; content := Some "Hi" |} ] "hello" EmptyString
    Samples.fresh_state
  = ({| world := 0; cachedPrompt := Some EmptyString |},
     Throw "First content should be with role 'user', got model").
Proof. vm_compute. reflexivity. Qed.

(** C8.  With a non-empty instruction the adapter gives one user turn that
    carries the instruction, then one model turn that acknowledges it, then
    the history, each message turned into its role and text, in order; with
    an empty instruction it gives the mapped history alone. *)
Theorem conversation_adapter_shape :
  forall (history : list Message) (systemInstruction : string),
    (systemInstruction <> EmptyString ->
     chatHistory systemInstruction history =
       {| content_role := "user";
          content_text := ("Follow these instructions in every response:" ++ newline
                             ++ newline ++ systemInstruction)%string |}
       :: {| content_role := "model";
             content_text := "Got it! I'll follow those instructions." |}
       :: baseHistory history)
    /\ chatHistory EmptyString history = baseHistory history
    /\ length (baseHistory history) = length history
    /\ (forall (i : nat) (m : Message),
          history !! i = Some m ->
          baseHistory history !! i =
            Some {| content_role := if String.eqb (role m) "user" then "user" else "model";
                    content_text := default EmptyString (content m) |}).
Proof.
  intros history systemInstruction. repeat split.
  - intros Hne. unfold chatHistory.
    destruct (String.eqb_spec systemInstruction EmptyString) as [Heq|_];
      [contradiction|reflexivity].
  - unfold baseHistory. apply length_map.
  - intros i m Hm. unfold baseHistory. revert i Hm.
    induction history as [|m0 rest IH]; intros [|i] Hm; simpl in *; try discriminate.
    + injection Hm as ->. reflexivity.
    + apply IH. exact Hm.
Qed.

(** The chat is started with the output of the adapter: here the session
    keeps the history it was started with. *)
Example chat_starts_with_the_adapted_history :
  world (fst (chatWithJsonTools JsonTools.has_chartType JsonTools.is_video_card
                Samples.recording_remote Samples.failing_executor Samples.two_messages
                "hello" EmptyString {| world := []; cachedPrompt := None |}))
  = chatHistory "Be brief." Samples.two_messages
  /\ chatHistory "Be brief." Samples.two_messages
     = [ {| content_role := "user";
            content_text := ("Follow these instructions in every response:" ++ newline
                               ++ newline ++ "Be brief.")%string |};
         {| content_role := "model";
            content_text := "Got it! I'll follow those instructions." |};
         {| content_role := "user"; content_text := "Hi" |};
         {| content_role := "model"; content_text := EmptyString |} ].
Proof. split; vm_compute; reflexivity. Qed.

End GeminiFacts.

(** ** The heap: runs of the array operations and what they leave alone *)

Module HeapFacts.
Import Js Heap Notions.

Lemma fresh_is_free (h : heap) : h !! fresh (dom h) = None.
Proof. apply not_elem_of_dom. apply is_fresh. Qed.

Lemma alloc_keeps (h : heap) a xs ys :
  h !! a = Some xs -> <[fresh (dom h) := ys]> h !! a = Some xs.
Proof.
  intros Ha. rewrite lookup_insert_ne; [exact Ha|].
  intros Heq. rewrite <- Heq, fresh_is_free in Ha. discriminate.
Qed.

Lemma read_run (h : heap) a xs : h !! a = Some xs -> read a h = (h, Normal xs).
Proof. intros Ha. unfold read. rewrite Ha. reflexivity. Qed.

Lemma Array_spread_run (h : heap) a xs :
  h !! a = Some xs ->
  Array_spread a h = (<[fresh (dom h) := xs]> h, Normal (fresh (dom h))).
Proof. intros Ha. unfold Array_spread, bind. rewrite (read_run _ _ _ Ha). reflexivity. Qed.

Lemma Array_filter_run (h : heap) p a xs :
  h !! a = Some xs ->
  Array_filter p a h = (<[fresh (dom h) := List.filter p xs]> h, Normal (fresh (dom h))).
Proof. intros Ha. unfold Array_filter, bind. rewrite (read_run _ _ _ Ha). reflexivity. Qed.

Lemma Array_sort_run (h : heap) cmp a xs :
  h !! a = Some xs ->
  Array_sort cmp a h = (<[a := sort cmp xs]> h, Normal a).
Proof. intros Ha. unfold Array_sort, bind. rewrite (read_run _ _ _ Ha). reflexivity. Qed.

Lemma Array_length_run (h : heap) a xs :
  h !! a = Some xs -> Array_length a h = (h, Normal (length xs)).
Proof. intros Ha. unfold Array_length, bind. rewrite (read_run _ _ _ Ha). reflexivity. Qed.

Lemma Array_at_run (h : heap) a xs i :
  h !! a = Some xs ->
  Array_at a i h = (h, Normal (if (i <? 0)%Z then None else xs !! Z.to_nat i)).
Proof. intros Ha. unfold Array_at, bind. rewrite (read_run _ _ _ Ha). reflexivity. Qed.

Lemma Array_map_run {B : Type} (f : JsObject -> B) (h : heap) a xs :
  h !! a = Some xs -> Array_map f a h = (h, Normal (map f xs)).
Proof. intros Ha. unfold Array_map, bind. rewrite (read_run _ _ _ Ha). reflexivity. Qed.

Lemma Array_find_run (h : heap) p a xs :
  h !! a = Some xs -> Array_find p a h = (h, find_first p xs).
Proof. intros Ha. unfold Array_find, bind. rewrite (read_run _ _ _ Ha). reflexivity. Qed.

(** *** A frame rule *)

Section Keeps.
Context (h0 : heap).

Lemma keeps_ret {A} (x : A) (Q : A -> Prop) : Q x -> keeps h0 (ret x) Q.
Proof. intros Hq h Hsub. split; [exact Hsub|]. simpl. intros y [= <-]. exact Hq. Qed.

Lemma keeps_lift {A} (c : Completion A) : keeps h0 (lift c) (fun _ => True).
Proof. intros h Hsub. split; [exact Hsub|]. auto. Qed.

Lemma keeps_weaken {A} (m : M A) (Q Q' : A -> Prop) :
  keeps h0 m Q -> (forall x, Q x -> Q' x) -> keeps h0 m Q'.
Proof.
  intros Hm Himp h Hsub. destruct (Hm h Hsub) as [Hh Hq]. split; [exact Hh|].
  intros x Hx. apply Himp, Hq, Hx.
Qed.

Lemma keeps_bind {A B} (m : M A) (f : A -> M B) (Q : A -> Prop) (Q' : B -> Prop) :
  keeps h0 m Q -> (forall x, Q x -> keeps h0 (f x) Q') -> keeps h0 (bind m f) Q'.
Proof.
  intros Hm Hf h Hsub. destruct (Hm h Hsub) as [Hh Hq]. unfold bind.
  destruct (m h) as [h1 [x|e]]; simpl in *.
  - apply (Hf x (Hq x eq_refl) h1 Hh).
  - split; [exact Hh|]. intros y Hy. discriminate.
Qed.

Lemma keeps_read a : keeps h0 (read a) (fun _ => True).
Proof.
  intros h Hsub. unfold read. destruct (h !! a); simpl; split; auto.
Qed.

Lemma keeps_alloc xs : keeps h0 (alloc xs) (outside h0).
Proof.
  intros h Hsub. unfold alloc. simpl.
  assert (Hfree : h0 !! fresh (dom h) = None)
    by (apply (lookup_weaken_None h0 h); [apply fresh_is_free|exact Hsub]).
  split.
  - apply insert_subseteq_r; assumption.
  - intros x [= <-]. exact Hfree.
Qed.

Lemma keeps_write a xs : outside h0 a -> keeps h0 (write a xs) (fun _ => True).
Proof.
  intros Hout h Hsub. unfold write. simpl. split; [|auto].
  apply insert_subseteq_r; assumption.
Qed.

Lemma keeps_Array_spread a : keeps h0 (Array_spread a) (outside h0).
Proof.
  unfold Array_spread. eapply keeps_bind; [apply keeps_read|].
  intros xs _. apply keeps_alloc.
Qed.

Lemma keeps_Array_filter p a : keeps h0 (Array_filter p a) (outside h0).
Proof.
  unfold Array_filter. eapply keeps_bind; [apply keeps_read|].
  intros xs _. apply keeps_alloc.
Qed.

(** Sorting in place is harmless on an array that is not one of [h0]. *)
Lemma keeps_Array_sort cmp a : outside h0 a -> keeps h0 (Array_sort cmp a) (outside h0).
Proof.
  intros Hout. unfold Array_sort. eapply keeps_bind; [apply keeps_read|].
  intros xs _. eapply keeps_bind; [apply keeps_write; exact Hout|].
  intros _ _. apply keeps_ret. exact Hout.
Qed.

Lemma keeps_Array_length a : keeps h0 (Array_length a) (fun _ => True).
Proof.
  unfold Array_length. eapply keeps_bind; [apply keeps_read|].
  intros xs _. apply keeps_ret. exact I.
Qed.

Lemma keeps_Array_at a i : keeps h0 (Array_at a i) (fun _ => True).
Proof.
  unfold Array_at. eapply keeps_bind; [apply keeps_read|].
  intros xs _. apply keeps_ret. exact I.
Qed.

Lemma keeps_Array_at_value a v : keeps h0 (Array_at_value a v) (fun _ => True).
Proof.
  unfold Array_at_value. destruct v as [| | |[| | |q]| |]; try (apply keeps_ret; exact I).
  destruct (Qeq_bool q (inject_Z (Qfloor q))); [apply keeps_Array_at|apply keeps_ret; exact I].
Qed.

Lemma keeps_Array_map {B} (f : JsObject -> B) a : keeps h0 (Array_map f a) (fun _ => True).
Proof.
  unfold Array_map. eapply keeps_bind; [apply keeps_read|].
  intros xs _. apply keeps_ret. exact I.
Qed.

Lemma keeps_Array_find p a : keeps h0 (Array_find p a) (fun _ => True).
Proof.
  unfold Array_find. eapply keeps_bind; [apply keeps_read|].
  intros xs _. apply keeps_lift.
Qed.

End Keeps.

End HeapFacts.

(** ** The executors leave the arrays they are given alone *)

Module FrameFacts.
Import Js Heap JsonTools Notions HeapFacts.

Section Frame.
Context (host : Host) (h0 : heap).

Local Ltac step :=
  first
    [ apply keeps_Array_spread | apply keeps_Array_filter | apply keeps_Array_length
    | apply keeps_Array_at | apply keeps_Array_at_value | apply keeps_Array_map
    | apply keeps_Array_find | apply keeps_lift
    | apply keeps_ret; exact I ].

Lemma keeps_numericValues videos field :
  keeps h0 (numericValues host videos field) (fun _ => True).
Proof.
  unfold numericValues. eapply keeps_bind; [step|]. intros parsed _. step.
Qed.

Lemma keeps_compute_stats_json args videos :
  keeps h0 (compute_stats_json host args videos) (fun _ => True).
Proof.
  unfold compute_stats_json. eapply keeps_bind; [apply keeps_numericValues|].
  intros vals _. destruct (length vals =? 0).
  - eapply keeps_bind; [step|]. intros first _. step.
  - step.
Qed.

Lemma keeps_plot_metric_vs_time args videos :
  keeps h0 (plot_metric_vs_time host args videos) (fun _ => True).
Proof.
  unfold plot_metric_vs_time.
  eapply keeps_bind; [step|]. intros copy _.
  eapply keeps_bind; [step|]. intros kept Hkept.
  eapply keeps_bind; [apply keeps_Array_sort; exact Hkept|]. intros sorted _.
  eapply keeps_bind; [step|]. intros n _.
  destruct (n =? 0); [step|].
  eapply keeps_bind; [step|]. intros data _. step.
Qed.

Lemma keeps_numeral_suffix_match query videos :
  keeps h0 (numeral_suffix_match query videos) (fun _ => True).
Proof.
  unfold numeral_suffix_match. destruct (search false ordinal_suffix_re query); step.
Qed.

Lemma keeps_ordinal_match query videos :
  keeps h0 (ordinal_match query videos) (fun _ => True).
Proof.
  unfold ordinal_match.
  destruct (get ordinals query); first [apply keeps_numeral_suffix_match | step].
Qed.

(** [sorted] is the fresh copy, so sorting it in place is harmless. *)
Lemma keeps_head_sorted cmp sorted :
  outside h0 sorted -> keeps h0 (head_sorted cmp sorted) (fun _ => True).
Proof.
  intros Hout. unfold head_sorted.
  eapply keeps_bind; [apply keeps_Array_sort; exact Hout|]. intros _ _. step.
Qed.

Lemma keeps_criteria_match query videos found :
  keeps h0 (criteria_match host query videos found) (fun _ => True).
Proof.
  unfold criteria_match. destruct found as [v|]; [step|].
  eapply keeps_bind; [step|]. intros sorted Hsorted.
  repeat match goal with
         | |- keeps _ (if ?b then _ else _) _ =>
             destruct b; [apply keeps_head_sorted; exact Hsorted|]
         end.
  step.
Qed.

Lemma keeps_title_match query videos found :
  keeps h0 (title_match query videos found) (fun _ => True).
Proof.
  unfold title_match. destruct found as [v|]; [step|].
  eapply keeps_bind; [step|]. intros [v|] _; step.
Qed.

Lemma keeps_find_video query videos :
  keeps h0 (find_video host query videos) (fun _ => True).
Proof.
  unfold find_video.
  eapply keeps_bind; [apply keeps_ordinal_match|]. intros found _.
  eapply keeps_bind; [apply keeps_criteria_match|]. intros found' _.
  apply keeps_title_match.
Qed.

Lemma keeps_play_video args videos :
  keeps h0 (play_video host args videos) (fun _ => True).
Proof.
  unfold play_video.
  eapply keeps_bind; [step|]. intros query _.
  eapply keeps_bind; [step|]. intros n _.
  destruct (n =? 0); [step|].
  eapply keeps_bind; [apply keeps_find_video|]. intros [v|] _; step.
Qed.

Lemma keeps_executeJsonTool toolName args videos :
  keeps h0 (executeJsonTool host toolName args videos) (fun _ => True).
Proof.
  unfold executeJsonTool.
  destruct (String.eqb toolName "compute_stats_json"); [apply keeps_compute_stats_json|].
  destruct (String.eqb toolName "plot_metric_vs_time"); [apply keeps_plot_metric_vs_time|].
  destruct (String.eqb toolName "play_video"); [apply keeps_play_video|].
  destruct (String.eqb toolName "generateImage"); step.
Qed.

End Frame.

(** C9.  Whatever the tool name and the arguments, after [executeJsonTool]
    the array [videos] holds the records it held before, the same ones in the
    same order; and so does every other array that existed before the
    call.  The in-place sorts work on the fresh copies only. *)
Theorem executors_leave_dataset_unchanged :
  forall (host : Host) (toolName : string) (args : JsObject) (videos : loc)
         (h : heap) (records : list JsObject),
    h !! videos = Some records ->
    fst (executeJsonTool host toolName args videos h) !! videos = Some records
    /\ h ⊆ fst (executeJsonTool host toolName args videos h).
Proof.
  intros host toolName args videos h records Hvideos.
  destruct (keeps_executeJsonTool host h toolName args videos h) as [Hsub _];
    [reflexivity|].
  split; [|exact Hsub].
  apply (lookup_weaken h); assumption.
Qed.

Lemma executors_leave_dataset_unchanged_witness :
  fst (executeJsonTool Samples.sample_host "play_video"
         [("query", JStr "play the most viewed")] 0 (Samples.dataset_at_0 Samples.abc))
    !! 0 = Some Samples.abc
  /\ Samples.dataset_at_0 Samples.abc
     ⊆ fst (executeJsonTool Samples.sample_host "play_video"
              [("query", JStr "play the most viewed")] 0
              (Samples.dataset_at_0 Samples.abc)).
Proof.
  apply (executors_leave_dataset_unchanged Samples.sample_host "play_video"
           [("query", JStr "play the most viewed")] 0 (Samples.dataset_at_0 Samples.abc)
           Samples.abc).
  reflexivity.
Defined.

(** The sort of that call did happen, on the copy: the array allocated for
    [[...videos]] ends up ordered by falling view count. *)
Example most_viewed_sorts_the_copy :
  fst (executeJsonTool Samples.sample_host "play_video"
         [("query", JStr "play the most viewed")] 0 (Samples.dataset_at_0 Samples.abc))
    !! 1
  = Some [ [("title", JStr "B"); ("view_count", Samples.num 300)];
           [("title", JStr "C"); ("view_count", Samples.num 200)];
           [("title", JStr "A"); ("view_count", Samples.num 100)] ].
Proof. vm_compute. reflexivity. Qed.

(** Had [videos] itself been sorted, the dataset would have changed: the
    in-place sort does reorder the array it is given. *)
Example sorting_in_place_reorders :
  fst (Array_sort (descending (count_of "view_count")) 0
         (Samples.dataset_at_0 Samples.abc)) !! 0
  = Some [ [("title", JStr "B"); ("view_count", Samples.num 300)];
           [("title", JStr "C"); ("view_count", Samples.num 200)];
           [("title", JStr "A"); ("view_count", Samples.num 100)] ].
Proof. vm_compute. reflexivity. Qed.

End FrameFacts.

(** ** The stable sort *)

Module SortFacts.
Import Js Heap Notions.

Section Sorting.
Context {A : Type} (cmp : A -> A -> number).

Lemma insert_sorted_perm x l : Permutation (insert_sorted cmp x l) (x :: l).
Proof.
  induction l as [|y l IH]; simpl.
  - reflexivity.
  - destruct (comes_after cmp x y).
    + rewrite IH. apply perm_swap.
    + reflexivity.
Qed.

(** [sort] keeps the elements: each one once for each time it occurs. *)
Lemma sort_perm l : Permutation (sort cmp l) l.
Proof.
  induction l as [|x l IH]; simpl.
  - reflexivity.
  - rewrite insert_sorted_perm. constructor. exact IH.
Qed.

Lemma sort_length l : length (sort cmp l) = length l.
Proof. apply Permutation_length, sort_perm. Qed.

Lemma sort_nil_iff l : sort cmp l = [] <-> l = [].
Proof.
  split.
  - intros Hnil. apply Permutation_nil. rewrite <- Hnil. apply sort_perm.
  - intros ->. reflexivity.
Qed.

(** *** Sorted output, for a comparator that follows an integer key *)
Section ByKey.
Context (key : A -> Z) (P : A -> Prop).
Hypothesis after_key :
  forall a b, P a -> P b -> comes_after cmp a b = (key b <? key a)%Z.

Lemma insert_sorted_by_key x l :
  P x -> Forall P l ->
  StronglySorted (key_le key) l -> StronglySorted (key_le key) (insert_sorted cmp x l).
Proof.
  intros Hx Hl Hs. induction l as [|y l IH]; simpl.
  - constructor; constructor.
  - inversion Hl as [|? ? Hy Hl']; subst. inversion Hs as [|? ? Hs' Hall]; subst.
    rewrite (after_key x y Hx Hy).
    destruct (Z.ltb_spec (key y) (key x)) as [Hlt|Hge].
    + constructor; [apply IH; assumption|].
      rewrite (insert_sorted_perm x l). constructor.
      * unfold key_le. lia.
      * exact Hall.
    + constructor; [exact Hs|]. constructor.
      * exact Hge.
      * eapply Forall_impl; [exact Hall|]. unfold key_le. intros z Hz. simpl in Hz. lia.
Qed.

Lemma sort_by_key l : Forall P l -> StronglySorted (key_le key) (sort cmp l).
Proof.
  induction l as [|x l IH]; intros Hl; simpl.
  - constructor.
  - inversion Hl as [|? ? Hx Hl']; subst.
    apply insert_sorted_by_key; [exact Hx| |apply IH; exact Hl'].
    rewrite (sort_perm l). exact Hl'.
Qed.

End ByKey.

(** *** The head of the sorted array

    [before cmp x y] says that the comparator puts [x] strictly before [y].  When
    that is a strict weak order on the elements, the head of the sorted array
    is the earliest element that nothing comes strictly before. *)
Section Head.
Context (P : A -> Prop).

Hypothesis before_asym : forall x y, P x -> P y -> before cmp x y -> ~ before cmp y x.
Hypothesis before_cotrans :
  forall x y z, P x -> P y -> P z -> before cmp x y -> before cmp x z \/ before cmp z y.

Lemma sort_head l :
  Forall P l -> l <> [] ->
  exists (i : nat) (x : A),
    l !! i = Some x
    /\ head (sort cmp l) = Some x
    /\ (forall j y, l !! j = Some y -> ~ before cmp y x)
    /\ (forall j y, j < i -> l !! j = Some y -> before cmp x y).
Proof.
  induction l as [|a l IH]; intros Hl Hne; [contradiction|].
  inversion Hl as [|? ? Ha Hl']; subst.
  destruct l as [|b l'].
  - exists 0, a. simpl. repeat split.
    + intros [|j] y Hy; simpl in Hy; [|discriminate]. injection Hy as <-.
      intros Hb. exact (before_asym a a Ha Ha Hb Hb).
    + intros j y Hj. lia.
  - destruct (IH Hl' ltac:(discriminate)) as (i & x & Hix & Hhead & Hmin & Hearly).
    assert (HP : forall j y, (b :: l') !! j = Some y -> P y).
    { intros j y Hy. rewrite Forall_forall in Hl'. apply Hl'.
      eapply list_elem_of_lookup_2. exact Hy. }
    assert (Hx : P x) by exact (HP i x Hix).
    change (sort cmp (a :: b :: l')) with (insert_sorted cmp a (sort cmp (b :: l'))).
    destruct (sort cmp (b :: l')) as [|x' rest] eqn:Hsorted; [discriminate|].
    simpl in Hhead. injection Hhead as ->. simpl.
    destruct (comes_after cmp a x) eqn:Hafter.
    + exists (S i), x. simpl. repeat split; try assumption.
      * intros [|j] y Hy; simpl in Hy.
        -- injection Hy as <-. apply (before_asym x a Hx Ha). exact Hafter.
        -- apply (Hmin j y Hy).
      * intros [|j] y Hj Hy; simpl in Hy.
        -- injection Hy as <-. exact Hafter.
        -- apply (Hearly j y); [lia|exact Hy].
    + exists 0, a. simpl. repeat split.
      * intros [|j] y Hy; simpl in Hy.
        -- injection Hy as <-. intros Hb. exact (before_asym a a Ha Ha Hb Hb).
        -- intros Hb.
           assert (Hy' : P y) by exact (HP j y Hy).
           destruct (before_cotrans y a x Hy' Ha Hx Hb) as [Hyx|Hxa].
           ++ exact (Hmin j y Hy Hyx).
           ++ unfold before in Hxa. rewrite Hafter in Hxa. discriminate.
      * intros j y Hj. lia.
Qed.

End Head.

End Sorting.

End SortFacts.

(** ** Numbers: order and subtraction *)

Module NumberFacts.
Import Js.

Lemma Qltb_lt (x y : Q) : Qltb x y = true <-> (x < y)%Q.
Proof.
  unfold Qltb. rewrite negb_true_iff. split.
  - intros Hle. apply Qnot_le_lt. intros Hyx.
    apply Qle_bool_iff in Hyx. congruence.
  - intros Hlt. destruct (Qle_bool y x) eqn:Hle; [|reflexivity].
    apply Qle_bool_iff in Hle. exfalso. apply (Qlt_not_le _ _ Hlt Hle).
Qed.

Lemma Qltb_false (x y : Q) : Qltb x y = false <-> (y <= x)%Q.
Proof.
  unfold Qltb. rewrite negb_false_iff. apply Qle_bool_iff.
Qed.

Lemma nlt_asym (a b : number) : nlt a b = true -> nlt b a = false.
Proof.
  destruct a as [| | |x], b as [| | |y]; simpl; try congruence.
  intros Hxy. apply Qltb_lt in Hxy. apply Qltb_false. apply Qlt_le_weak. exact Hxy.
Qed.

Lemma nlt_cotrans (a b c : number) :
  c <> NaN -> nlt a b = true -> nlt a c = true \/ nlt c b = true.
Proof.
  destruct a as [| | |x], b as [| | |y], c as [| | |z]; simpl; intros Hc Hab;
    try congruence; auto.
  apply Qltb_lt in Hab.
  destruct (Qlt_le_dec x z) as [Hxz|Hzx].
  - left. apply Qltb_lt. exact Hxz.
  - right. apply Qltb_lt. eapply Qle_lt_trans; eassumption.
Qed.

(** For numbers that are not [NaN], [b - a > 0] says [a < b]. *)
Lemma nsub_pos (a b : number) :
  a <> NaN -> b <> NaN -> nlt (Fin 0) (nsub b a) = nlt a b.
Proof.
  destruct a as [| | |x], b as [| | |y]; simpl; intros Ha Hb; try congruence.
  destruct (Qltb x y) eqn:Hxy.
  - apply Qltb_lt. apply Qltb_lt in Hxy. lra.
  - apply Qltb_false. apply Qltb_false in Hxy. lra.
Qed.

(** Among numbers that are not [NaN], [nle] is the negation of the converse
    [nlt]. *)
Lemma nle_not_nlt (a b : number) :
  a <> NaN -> b <> NaN -> nle a b = negb (nlt b a).
Proof.
  destruct a as [| | |x], b as [| | |y]; simpl; intros Ha Hb; try congruence.
  unfold Qltb. rewrite negb_involutive. reflexivity.
Qed.

End NumberFacts.

(** ** Rounding to the nearest double *)

Module RoundFacts.
Import Js.
Local Open Scope Q_scope.

Lemma pow2_pos e : 0 < pow2 e.
Proof. apply Qpower_0_lt. reflexivity. Qed.

Lemma pow2_add a b : pow2 (a + b) == pow2 a * pow2 b.
Proof. apply Qpower_plus. discriminate. Qed.

Lemma pow2_le a b : (a <= b)%Z -> pow2 a <= pow2 b.
Proof. intros H. apply Qpower_le_compat_l; [exact H|discriminate]. Qed.

Lemma pow2_lt a b : (a < b)%Z -> pow2 a < pow2 b.
Proof. intros H. apply Qpower_lt_compat_l; [exact H|reflexivity]. Qed.

Lemma pow2_lt_inv a b : pow2 a < pow2 b -> (a < b)%Z.
Proof. intros H. apply (Qpower_lt_compat_l_inv 2); [exact H|reflexivity]. Qed.

Lemma pow2_Z (n : Z) : (0 <= n)%Z -> pow2 n == inject_Z (2 ^ n).
Proof. intros H. unfold pow2. rewrite Zpower_Qpower by exact H. reflexivity. Qed.

Lemma Q_as_fraction (q : Q) : inject_Z (Qnum q) == q * inject_Z (Zpos (Qden q)).
Proof. destruct q as [a b]. unfold Qeq, Qmult, inject_Z. simpl. lia. Qed.

Lemma ilog2_spec (q : Q) : 0 < q -> pow2 (ilog2 q) <= q /\ q < pow2 (ilog2 q + 1).
Proof.
  intros Hq. unfold ilog2.
  set (a := Qnum q). set (b := Zpos (Qden q)).
  assert (Ha : (0 < a)%Z) by (unfold a; destruct q as [n d]; unfold Qlt in Hq; simpl in *; lia).
  assert (Hb : (0 < b)%Z) by (unfold b; lia).
  destruct (Z.log2_spec a Ha) as [Ha1 Ha2].
  destruct (Z.log2_spec b Hb) as [Hb1 Hb2].
  pose proof (Z.log2_nonneg a) as Hla. pose proof (Z.log2_nonneg b) as Hlb.
  set (la := Z.log2 a) in *. set (lb := Z.log2 b) in *.
  assert (Hfrac : inject_Z a == q * inject_Z b) by apply Q_as_fraction.
  assert (HbQ : 0 < inject_Z b) by (change 0 with (inject_Z 0); rewrite <- Zlt_Qlt; exact Hb).
  assert (Ha1' : pow2 la <= inject_Z a) by (rewrite pow2_Z by lia; rewrite <- Zle_Qle; exact Ha1).
  assert (Ha2' : inject_Z a < pow2 (la + 1))
    by (rewrite pow2_Z by lia; rewrite <- Zlt_Qlt; unfold Z.succ in Ha2; exact Ha2).
  assert (Hb1' : pow2 lb <= inject_Z b) by (rewrite pow2_Z by lia; rewrite <- Zle_Qle; exact Hb1).
  assert (Hb2' : inject_Z b < pow2 (lb + 1))
    by (rewrite pow2_Z by lia; rewrite <- Zlt_Qlt; unfold Z.succ in Hb2; exact Hb2).
  assert (Hlow : pow2 (la - lb - 1) < q).
  { apply (Qmult_lt_r _ _ (inject_Z b) HbQ). rewrite <- Hfrac.
    apply Qlt_le_trans with (pow2 (la - lb - 1) * pow2 (lb + 1)).
    - apply Qmult_lt_l; [apply pow2_pos|exact Hb2'].
    - rewrite <- pow2_add. replace (la - lb - 1 + (lb + 1))%Z with la by lia. exact Ha1'. }
  assert (Hhigh : q < pow2 (la - lb + 1)).
  { apply (Qmult_lt_r _ _ (inject_Z b) HbQ). rewrite <- Hfrac.
    apply Qlt_le_trans with (pow2 (la - lb + 1) * pow2 lb).
    - rewrite <- pow2_add. replace (la - lb + 1 + lb)%Z with (la + 1)%Z by lia. exact Ha2'.
    - apply Qmult_le_l; [apply pow2_pos|exact Hb1']. }
  destruct (Qle_bool (pow2 (la - lb)) q) eqn:Htest.
  - apply Qle_bool_iff in Htest. split; assumption.
  - split; [apply Qlt_le_weak; exact Hlow|].
    replace (la - lb - 1 + 1)%Z with (la - lb)%Z by lia.
    apply Qnot_le_lt. intros Hle. apply Qle_bool_iff in Hle. congruence.
Qed.

Lemma cmp_eq (x y : Q) : (x ?= y) = Eq -> x == y.
Proof. apply Qeq_alt. Qed.

Lemma cmp_lt (x y : Q) : (x ?= y) = Lt -> x < y.
Proof. apply Qlt_alt. Qed.

Lemma cmp_gt (x y : Q) : (x ?= y) = Gt -> y < x.
Proof. apply Qgt_alt. Qed.

Lemma nearest_even_floor (x : Q) :
  (Qfloor x <= nearest_even x <= Qfloor x + 1)%Z.
Proof.
  unfold nearest_even. destruct (Qcompare _ _); [destruct (Z.even _)| |]; lia.
Qed.

Lemma nearest_even_Z (k : Z) : nearest_even (inject_Z k) = k.
Proof.
  unfold nearest_even. rewrite Qfloor_Z.
  assert (H : inject_Z k - inject_Z k == 0) by ring.
  rewrite H. reflexivity.
Qed.

Lemma nearest_even_ge (x : Q) (k : Z) : inject_Z k <= x -> (k <= nearest_even x)%Z.
Proof.
  intros H. apply Qfloor_resp_le in H. rewrite Qfloor_Z in H.
  pose proof (nearest_even_floor x). lia.
Qed.

Lemma nearest_even_le (x : Q) (k : Z) : x <= inject_Z k -> (nearest_even x <= k)%Z.
Proof.
  intros H. pose proof (nearest_even_floor x) as Hf.
  pose proof (Qfloor_resp_le _ _ H) as Hk. rewrite Qfloor_Z in Hk.
  destruct (Z.eq_dec (Qfloor x) k) as [Heq|Hne]; [|lia].
  assert (Hx : x == inject_Z k).
  { apply Qle_antisym; [exact H|]. rewrite <- Heq. apply Qfloor_le. }
  unfold nearest_even. rewrite Heq.
  assert (Hz : x - inject_Z k == 0) by (rewrite Hx; ring).
  rewrite Hz. simpl. lia.
Qed.

#[local] Instance nearest_even_comp : Proper (Qeq ==> eq) nearest_even.
Proof.
  intros x y Hxy. unfold nearest_even.
  assert (Hf : Qfloor x = Qfloor y).
  { apply Z.le_antisymm; apply Qfloor_resp_le; rewrite Hxy; apply Qle_refl. }
  rewrite Hf. rewrite Hxy. reflexivity.
Qed.

Lemma nearest_even_mono (x y : Q) : x <= y -> (nearest_even x <= nearest_even y)%Z.
Proof.
  intros Hxy. pose proof (Qfloor_resp_le _ _ Hxy) as Hf.
  pose proof (nearest_even_floor x) as Hx. pose proof (nearest_even_floor y) as Hy.
  destruct (Z.eq_dec (Qfloor x) (Qfloor y)) as [Heq|Hne]; [|lia].
  unfold nearest_even. rewrite <- Heq.
  destruct (Qcompare (x - inject_Z (Qfloor x)) (1 # 2)) eqn:Hcx;
    destruct (Qcompare (y - inject_Z (Qfloor x)) (1 # 2)) eqn:Hcy;
    try (destruct (Z.even (Qfloor x))); try lia; exfalso;
    try apply cmp_eq in Hcx; try apply cmp_lt in Hcx; try apply cmp_gt in Hcx;
    try apply cmp_eq in Hcy; try apply cmp_lt in Hcy; try apply cmp_gt in Hcy; lra.
Qed.




Lemma round64_pos_nearest (q : Q) :
  round64_pos q = if Qle_bool (pow2 1024) (nearest q) then PInf else Fin (Qred (nearest q)).
Proof. reflexivity. Qed.

Lemma ilog2_mono (q1 q2 : Q) : 0 < q1 -> q1 <= q2 -> (ilog2 q1 <= ilog2 q2)%Z.
Proof.
  intros H1 H12.
  destruct (ilog2_spec q1 H1) as [Hlo _].
  destruct (ilog2_spec q2 ltac:(lra)) as [_ Hhi].
  assert (H : pow2 (ilog2 q1) < pow2 (ilog2 q2 + 1)) by lra.
  apply pow2_lt_inv in H. lia.
Qed.

Lemma div_pow2 (q : Q) (e : Z) : q / pow2 e * pow2 e == q.
Proof. field. pose proof (pow2_pos e). lra. Qed.

Lemma pow2_split (a b : Z) : pow2 a == pow2 (a - b) * pow2 b.
Proof. rewrite <- pow2_add. replace (a - b + b)%Z with a by lia. reflexivity. Qed.

(** The scaled value lies between 2^52 (for a normal number) and 2^53. *)
Lemma scaled_lt (q : Q) : 0 < q -> q / pow2 (binade q - 52) < pow2 53.
Proof.
  intros Hq. destruct (ilog2_spec q Hq) as [_ Hhi].
  apply Qlt_shift_div_r; [apply pow2_pos|].
  rewrite <- pow2_add.
  eapply Qlt_le_trans; [exact Hhi|]. apply pow2_le. unfold binade. lia.
Qed.

Lemma scaled_ge (q : Q) :
  0 < q -> (-1022 <= ilog2 q)%Z -> pow2 52 <= q / pow2 (binade q - 52).
Proof.
  intros Hq Hnormal. destruct (ilog2_spec q Hq) as [Hlo _].
  apply Qle_shift_div_l; [apply pow2_pos|].
  rewrite <- pow2_add.
  eapply Qle_trans; [|exact Hlo]. apply pow2_le. unfold binade. lia.
Qed.

Lemma nearest_nonneg (q : Q) : 0 < q -> 0 <= nearest q.
Proof.
  intros Hq. unfold nearest.
  apply Qmult_le_0_compat; [|apply Qlt_le_weak, pow2_pos].
  change 0 with (inject_Z 0). rewrite <- Zle_Qle.
  apply nearest_even_ge. change (inject_Z 0) with 0.
  apply Qle_shift_div_l; [apply pow2_pos|]. lra.
Qed.

Lemma nearest_le_next (q : Q) : 0 < q -> nearest q <= pow2 (binade q + 1).
Proof.
  intros Hq. unfold nearest.
  rewrite (pow2_split (binade q + 1) (binade q - 52)).
  replace (binade q + 1 - (binade q - 52))%Z with 53%Z by lia.
  apply Qmult_le_compat_r; [|apply Qlt_le_weak, pow2_pos].
  rewrite (pow2_Z 53) by lia. rewrite <- Zle_Qle.
  apply nearest_even_le. rewrite <- pow2_Z by lia.
  apply Qlt_le_weak, scaled_lt. exact Hq.
Qed.

Lemma nearest_ge_binade (q : Q) :
  0 < q -> (-1022 <= ilog2 q)%Z -> pow2 (binade q) <= nearest q.
Proof.
  intros Hq Hnormal. unfold nearest.
  rewrite (pow2_split (binade q) (binade q - 52)) at 1.
  replace (binade q - (binade q - 52))%Z with 52%Z by lia.
  apply Qmult_le_compat_r; [|apply Qlt_le_weak, pow2_pos].
  rewrite (pow2_Z 52) by lia. rewrite <- Zle_Qle.
  apply nearest_even_ge. rewrite <- pow2_Z by lia.
  apply scaled_ge; assumption.
Qed.

Lemma nearest_mono (q1 q2 : Q) : 0 < q1 -> q1 <= q2 -> nearest q1 <= nearest q2.
Proof.
  intros H1 H12. assert (H2 : 0 < q2) by lra.
  pose proof (ilog2_mono q1 q2 H1 H12) as He.
  destruct (Z.eq_dec (binade q1) (binade q2)) as [Heq|Hne].
  - unfold nearest. rewrite Heq.
    apply Qmult_le_compat_r; [|apply Qlt_le_weak, pow2_pos].
    rewrite <- Zle_Qle. apply nearest_even_mono.
    apply Qmult_le_compat_r; [exact H12|].
    apply Qlt_le_weak, Qinv_lt_0_compat, pow2_pos.
  - assert (Hlt : (binade q1 < binade q2)%Z) by (unfold binade in *; lia).
    assert (Hnormal : (-1022 <= ilog2 q2)%Z) by (unfold binade in *; lia).
    eapply Qle_trans; [apply nearest_le_next; exact H1|].
    eapply Qle_trans; [|apply nearest_ge_binade; assumption].
    apply pow2_le. lia.
Qed.

(** A positive value [k * 2^p] with [k < 2^53] and [p >= -1074] is kept. *)
Lemma nearest_exact (q : Q) (k p : Z) :
  (0 < k < 2 ^ 53)%Z -> (-1074 <= p)%Z -> q == inject_Z k * pow2 p -> nearest q == q.
Proof.
  intros Hk Hp Hq.
  assert (Hpos : 0 < q).
  { rewrite Hq. apply Qmult_lt_0_compat; [|apply pow2_pos].
    change 0 with (inject_Z 0). rewrite <- Zlt_Qlt. lia. }
  assert (Hbin : (binade q - 52 <= p)%Z).
  { destruct (ilog2_spec q Hpos) as [Hlo _].
    assert (Hlt : pow2 (ilog2 q) < pow2 (p + 53)).
    { eapply Qle_lt_trans; [exact Hlo|]. rewrite Hq.
      rewrite (Qmult_comm (inject_Z k)), (Z.add_comm p 53), (pow2_split (53 + p) 53).
      replace (53 + p - 53)%Z with p by lia.
      apply Qmult_lt_l; [apply pow2_pos|].
      rewrite (pow2_Z 53) by lia. rewrite <- Zlt_Qlt. lia. }
    apply pow2_lt_inv in Hlt. unfold binade. lia. }
  unfold nearest.
  assert (Hint : q / pow2 (binade q - 52) == inject_Z (k * 2 ^ (p - (binade q - 52)))).
  { rewrite inject_Z_mult, <- pow2_Z by lia.
    apply Qeq_sym. apply (Qmult_inj_r _ _ (pow2 (binade q - 52)));
      [pose proof (pow2_pos (binade q - 52)); lra|].
    rewrite div_pow2, <- Qmult_assoc, <- pow2_add.
    replace (p - (binade q - 52) + (binade q - 52))%Z with p by lia.
    rewrite Hq. reflexivity. }
  rewrite Hint at 1. rewrite nearest_even_Z. rewrite <- Hint. apply div_pow2.
Qed.

Lemma Qle_bool_false (x y : Q) : Qle_bool x y = false <-> y < x.
Proof.
  split.
  - intros H. apply Qnot_le_lt. intros Hle. apply Qle_bool_iff in Hle. congruence.
  - intros H. destruct (Qle_bool x y) eqn:E; [|reflexivity].
    apply Qle_bool_iff in E. lra.
Qed.

Lemma round64_pos_mono (q1 q2 : Q) :
  0 < q1 -> q1 <= q2 -> nle (round64_pos q1) (round64_pos q2) = true.
Proof.
  intros H1 H12. pose proof (nearest_mono q1 q2 H1 H12) as Hmono.
  rewrite !round64_pos_nearest.
  destruct (Qle_bool (pow2 1024) (nearest q2)) eqn:H2.
  - destruct (Qle_bool (pow2 1024) (nearest q1)); reflexivity.
  - apply Qle_bool_false in H2.
    destruct (Qle_bool (pow2 1024) (nearest q1)) eqn:H1'.
    + apply Qle_bool_iff in H1'. lra.
    + cbn [nle]. apply Qle_bool_iff. rewrite !Qred_correct. exact Hmono.
Qed.

Lemma round64_pos_nonneg (q : Q) : 0 < q -> nle (Fin 0) (round64_pos q) = true.
Proof.
  intros Hq. rewrite round64_pos_nearest.
  destruct (Qle_bool (pow2 1024) (nearest q)); [reflexivity|].
  cbn [nle]. apply Qle_bool_iff. rewrite Qred_correct. apply nearest_nonneg. exact Hq.
Qed.

Lemma round64_pos_cases (q : Q) :
  round64_pos q = PInf \/ exists v, round64_pos q = Fin v.
Proof.
  rewrite round64_pos_nearest. destruct (Qle_bool _ _); [left|right; eexists]; reflexivity.
Qed.

Lemma round64_zero (q : Q) : q == 0 -> round64 q = Fin 0.
Proof. intros H. unfold round64. rewrite H. reflexivity. Qed.

Lemma round64_positive (q : Q) : 0 < q -> round64 q = round64_pos q.
Proof.
  intros H. unfold round64. destruct (Qcompare q 0) eqn:E; [| |reflexivity].
  - apply cmp_eq in E. lra.
  - apply cmp_lt in E. lra.
Qed.

Lemma round64_negative (q : Q) : q < 0 -> round64 q = nneg (round64_pos (- q)).
Proof.
  intros H. unfold round64. destruct (Qcompare q 0) eqn:E; [|reflexivity|].
  - apply cmp_eq in E. lra.
  - apply cmp_gt in E. lra.
Qed.

Lemma nle_nneg (a b : number) :
  nle (Fin 0) a = true -> nle (Fin 0) b = true -> nle (nneg a) (nneg b) = nle b a.
Proof.
  destruct a as [| | |x], b as [| | |y]; cbn [nle nneg]; try discriminate; try reflexivity.
  intros _ _. destruct (Qle_bool y x) eqn:E.
  - apply Qle_bool_iff. apply Qle_bool_iff in E. lra.
  - apply Qle_bool_false. apply Qle_bool_false in E. lra.
Qed.

Lemma nle_trans (a b c : number) : nle a b = true -> nle b c = true -> nle a c = true.
Proof.
  destruct a as [| | |x], b as [| | |y], c as [| | |z]; cbn [nle]; try discriminate;
    try reflexivity.
  intros H1 H2. apply Qle_bool_iff in H1, H2. apply Qle_bool_iff. lra.
Qed.

Lemma nneg_nonpos (a : number) : nle (Fin 0) a = true -> nle (nneg a) (Fin 0) = true.
Proof.
  destruct a as [| | |x]; cbn [nle nneg]; try discriminate; try reflexivity.
  intros H. apply Qle_bool_iff in H. apply Qle_bool_iff. lra.
Qed.

Lemma round64_nonneg (q : Q) : 0 <= q -> nle (Fin 0) (round64 q) = true.
Proof.
  intros Hq. destruct (Qlt_le_dec 0 q) as [Hpos|Hzero].
  - rewrite round64_positive by exact Hpos. apply round64_pos_nonneg. exact Hpos.
  - rewrite round64_zero by lra. reflexivity.
Qed.

Lemma round64_nonpos (q : Q) : q <= 0 -> nle (round64 q) (Fin 0) = true.
Proof.
  intros Hq. destruct (Qlt_le_dec q 0) as [Hneg|Hzero].
  - rewrite round64_negative by exact Hneg. apply nneg_nonpos, round64_pos_nonneg. lra.
  - rewrite round64_zero by lra. reflexivity.
Qed.

(** Rounding keeps the order. *)
Lemma round64_mono (q1 q2 : Q) : q1 <= q2 -> nle (round64 q1) (round64 q2) = true.
Proof.
  intros H12.
  destruct (Qlt_le_dec 0 q1) as [Hpos1|Hnp1].
  - rewrite (round64_positive q1), (round64_positive q2) by lra.
    apply round64_pos_mono; assumption.
  - destruct (Qlt_le_dec q2 0) as [Hneg2|Hnn2].
    + rewrite (round64_negative q1), (round64_negative q2) by lra.
      rewrite nle_nneg by (apply round64_pos_nonneg; lra).
      apply round64_pos_mono; lra.
    + apply (nle_trans _ (Fin 0)); [apply round64_nonpos|apply round64_nonneg]; assumption.
Qed.

Lemma round64_not_NaN (q : Q) : round64 q <> NaN.
Proof.
  unfold round64. destruct (Qcompare q 0); [discriminate| |];
    [destruct (round64_pos_cases (- q)) as [->|[v ->]]
    |destruct (round64_pos_cases q) as [->|[v ->]]]; discriminate.
Qed.

(** A value [k * 2^p] with [|k| < 2^53] and [p >= -1074] that is below
    [2^1024] in magnitude is a double: rounding keeps it. *)
Lemma Qopp_opp (q : Q) : (- - q)%Q = q.
Proof. destruct q as [a b]. unfold Qopp. cbn [Qnum Qden]. rewrite Z.opp_involutive. reflexivity. Qed.

Lemma round64_pos_exact (q : Q) (k p : Z) :
  (0 < k < 2 ^ 53)%Z -> (-1074 <= p)%Z -> q == inject_Z k * pow2 p -> q < pow2 1024 ->
  round64_pos q = Fin (Qred q).
Proof.
  intros Hk Hp Hq Hfin. rewrite round64_pos_nearest.
  pose proof (nearest_exact q k p Hk Hp Hq) as Hexact.
  destruct (Qle_bool (pow2 1024) (nearest q)) eqn:Hover.
  - apply Qle_bool_iff in Hover. lra.
  - f_equal. apply Qred_complete. exact Hexact.
Qed.

Lemma round64_exact (q : Q) (k p : Z) :
  (Z.abs k < 2 ^ 53)%Z -> (-1074 <= p)%Z -> q == inject_Z k * pow2 p ->
  Qabs q < pow2 1024 ->
  round64 q = Fin (Qred q).
Proof.
  intros Hk Hp Hq Hfin. pose proof (pow2_pos p) as Hp2.
  destruct (Z.lt_trichotomy k 0) as [Hneg|[Hzero|Hpos]].
  - assert (Hq0 : q < 0).
    { rewrite Hq. assert (inject_Z k < 0) by (change 0 with (inject_Z 0); rewrite <- Zlt_Qlt; lia).
      setoid_replace 0 with (0 * pow2 p) using relation Qeq by ring.
      apply Qmult_lt_compat_r; assumption. }
    rewrite round64_negative by exact Hq0.
    rewrite (round64_pos_exact (- q) (- k) p); try lia.
    + cbn [nneg]. rewrite Qred_opp, Qopp_opp. reflexivity.
    + rewrite Hq, inject_Z_opp. ring.
    + rewrite <- (Qabs_neg q) by lra. exact Hfin.
  - subst k. assert (Hq0 : q == 0) by (rewrite Hq; ring).
    rewrite round64_zero by exact Hq0. f_equal.
    change 0 with (Qred 0). apply Qred_complete. symmetry. exact Hq0.
  - assert (Hq0 : 0 < q).
    { rewrite Hq. apply Qmult_lt_0_compat; [|exact Hp2].
      change 0 with (inject_Z 0). rewrite <- Zlt_Qlt. lia. }
    rewrite round64_positive by exact Hq0.
    apply (round64_pos_exact q k p); try lia; try assumption.
    rewrite <- (Qabs_pos q) by lra. exact Hfin.
Qed.

Lemma Qred_Z (z : Z) : Qred (inject_Z z) = inject_Z z.
Proof.
  unfold Qred, inject_Z. 
  pose proof (Z.ggcd_gcd z 1) as Hg. pose proof (Z.ggcd_correct_divisors z 1) as Hd.
  destruct (Z.ggcd z 1) as [g [a b]]. cbn [fst snd] in *.
  rewrite Z.gcd_1_r in Hg. subst g. destruct Hd as [Ha Hb].
  rewrite Z.mul_1_l in Ha, Hb. subst a b. reflexivity.
Qed.

(** Integers up to [2^53] in magnitude are doubles. *)
Lemma round64_Z (z : Z) : (Z.abs z <= 2 ^ 53)%Z -> round64 (inject_Z z) = Fin (inject_Z z).
Proof.
  intros Hz. rewrite <- (Qred_Z z) at 2.
  assert (Hfin : Qabs (inject_Z z) < pow2 1024).
  { apply Qle_lt_trans with (pow2 53); [|apply pow2_lt; lia].
    rewrite pow2_Z by lia. unfold inject_Z at 1. rewrite <- Zabs_Qabs.
    change (Z.abs z # 1) with (inject_Z (Z.abs z)). rewrite <- Zle_Qle. exact Hz. }
  destruct (Z.eq_dec (Z.abs z) (2 ^ 53)%Z) as [Htop|Hbelow].
  - assert (Hz2 : z = (2 * (z / 2))%Z).
    { apply Z_div_exact_2; [lia|].
      destruct (Z.abs_eq_or_opp z) as [E|E]; rewrite E in Htop.
      - rewrite Htop. reflexivity.
      - replace z with (- 2 ^ 53)%Z by lia. reflexivity. }
    apply (round64_exact _ (z / 2) 1).
    + change (2 ^ 53)%Z with (2 * 2 ^ 52)%Z in *. lia.
    + lia.
    + rewrite Hz2 at 1. rewrite inject_Z_mult. change (pow2 1) with 2.
      change (inject_Z 2) with 2. ring.
    + exact Hfin.
  - apply (round64_exact _ z 0).
    + lia.
    + lia.
    + change (pow2 0) with 1. ring.
    + exact Hfin.
Qed.

(** Rounding does not depend on how the rational is written. *)
Lemma ilog2_comp (q1 q2 : Q) : 0 < q1 -> q1 == q2 -> ilog2 q1 = ilog2 q2.
Proof.
  intros H1 H12. apply Z.le_antisymm; apply ilog2_mono; lra.
Qed.

Lemma nearest_comp (q1 q2 : Q) : 0 < q1 -> q1 == q2 -> nearest q1 == nearest q2.
Proof.
  intros H1 H12. unfold nearest, binade. rewrite (ilog2_comp q1 q2 H1 H12).
  rewrite H12. reflexivity.
Qed.

Lemma Qle_bool_comp (a b c d : Q) : a == c -> b == d -> Qle_bool a b = Qle_bool c d.
Proof.
  intros Hac Hbd. destruct (Qle_bool c d) eqn:E.
  - apply Qle_bool_iff. apply Qle_bool_iff in E. rewrite Hac, Hbd. exact E.
  - apply Qle_bool_false. apply Qle_bool_false in E. rewrite Hac, Hbd. exact E.
Qed.

Lemma round64_pos_comp (q1 q2 : Q) : 0 < q1 -> q1 == q2 -> round64_pos q1 = round64_pos q2.
Proof.
  intros H1 H12. rewrite !round64_pos_nearest.
  pose proof (nearest_comp q1 q2 H1 H12) as Hn.
  rewrite (Qle_bool_comp (pow2 1024) (nearest q1) (pow2 1024) (nearest q2))
    by (try reflexivity; exact Hn).
  rewrite (Qred_complete _ _ Hn). reflexivity.
Qed.

Lemma round64_comp (q1 q2 : Q) : q1 == q2 -> round64 q1 = round64 q2.
Proof.
  intros H12. destruct (Qlt_le_dec 0 q1) as [Hpos|Hnp].
  - rewrite (round64_positive q1), (round64_positive q2) by lra.
    apply round64_pos_comp; assumption.
  - destruct (Qlt_le_dec q1 0) as [Hneg|Hzero].
    + rewrite (round64_negative q1), (round64_negative q2) by lra.
      f_equal. apply round64_pos_comp; [lra|rewrite H12; reflexivity].
    + rewrite (round64_zero q1), (round64_zero q2) by lra. reflexivity.
Qed.

(** A number that is a bound of [q] and a double is a bound of the
    rounded [q]. *)
Lemma round64_ge (lo q : Q) :
  round64 lo = Fin lo -> lo <= q -> nle (Fin lo) (round64 q) = true.
Proof. intros Hlo Hle. rewrite <- Hlo. apply round64_mono. exact Hle. Qed.

Lemma round64_le (q hi : Q) :
  round64 hi = Fin hi -> q <= hi -> nle (round64 q) (Fin hi) = true.
Proof. intros Hhi Hle. rewrite <- Hhi. apply round64_mono. exact Hle. Qed.

End RoundFacts.

(** ** [play_video]: the record resolver *)

Module PlayFacts.
Import Js Heap JsonTools Notions HeapFacts SortFacts NumberFacts.

Section Resolver.
Context (host : Host).

(** [play_video] in terms of the value of [found]. *)
Lemma play_video_run args videos (h : heap) records query :
  normalized_query args = Normal query ->
  h !! videos = Some records ->
  records <> [] ->
  play_video host args videos h =
    (fst (find_video host query videos h),
     match snd (find_video host query videos h) with
     | Normal (Some v) => Normal (video_card host v)
     | Normal None =>
         Normal (ErrorResult ("No video found matching " ++ dquote
                                ++ ToString host (get args "query") ++ dquote ++ "."))
     | Throw e => Throw e
     end).
Proof.
  intros Hq Hv Hne. unfold play_video, bind, lift. rewrite Hq.
  rewrite (Array_length_run _ _ _ Hv).
  destruct records as [|v0 rest]; [contradiction|].
  change (length (v0 :: rest) =? 0) with false. cbv beta iota.
  destruct (find_video host query videos h) as [h' [[v|]|e]]; reflexivity.
Qed.

(** When no callback throws, [find] is the plain search. *)
Lemma find_first_total (p : JsObject -> Completion bool) (q : JsObject -> bool) records :
  (forall v, v ∈ records -> p v = Normal (q v)) ->
  find_first p records = Normal (List.find q records).
Proof.
  induction records as [|v rest IH]; intros Hp; simpl.
  - reflexivity.
  - rewrite (Hp v) by (left). destruct (q v); [reflexivity|].
    apply IH. intros w Hw. apply Hp. right. exact Hw.
Qed.

(** *** The spelled-out ordinals *)

Lemma spelled_out_ordinals :
  Object_keys ordinals =
    ["first"; "second"; "third"; "fourth"; "fifth"; "sixth"; "seventh"; "eighth";
     "ninth"; "tenth"].
Proof. reflexivity. Qed.

(** A spelled-out ordinal indexes the array as given. *)
Lemma ordinal_match_spelled_out query videos (i : nat) :
  Object_keys ordinals !! i = Some query ->
  ordinal_match query videos = Array_at videos (Z.of_nat i).
Proof.
  intros Hi.
  do 10 (destruct i as [|i]; [injection Hi as <-; reflexivity|]).
  discriminate.
Qed.

(** A query that names an inherited member of [Object.prototype] enters the
    first branch and finds nothing there; it holds no digit, so the second
    branch would have found nothing either. *)
Lemma ordinal_match_inherited query videos (h : heap) :
  In query Object_prototype_keys ->
  ordinal_match query videos h = numeral_suffix_match query videos h.
Proof.
  intros Hin. simpl in Hin.
  repeat (destruct Hin as [<-|Hin]; [reflexivity|]). contradiction.
Qed.

Lemma own_property_ordinals_none query :
  ~ In query (Object_keys ordinals) -> own_property ordinals query = None.
Proof.
  intros Hnot. unfold ordinals, own_property.
  repeat match goal with
         | |- context [String.eqb ?k query] =>
             destruct (String.eqb_spec k query) as [Heq|_];
             [exfalso; apply Hnot; rewrite <- Heq; simpl; tauto|]
         end.
  reflexivity.
Qed.

Lemma in_Object_prototype_In query :
  in_Object_prototype query = true -> In query Object_prototype_keys.
Proof.
  unfold in_Object_prototype. rewrite existsb_exists.
  intros (k & Hk & Heq). apply String.eqb_eq in Heq. subst k. exact Hk.
Qed.

(** Any other query goes to the numeral branch. *)
Lemma ordinal_match_other query videos (h : heap) :
  ~ In query (Object_keys ordinals) ->
  ordinal_match query videos h = numeral_suffix_match query videos h.
Proof.
  intros Hnot. destruct (in_Object_prototype query) eqn:Hproto.
  - apply ordinal_match_inherited, in_Object_prototype_In, Hproto.
  - unfold ordinal_match, get. rewrite (own_property_ordinals_none _ Hnot), Hproto.
    reflexivity.
Qed.

(** *** The criteria *)

Lemma criteria_most_viewed query videos (h : heap) records :
  h !! videos = Some records ->
  test true most_view_re query = true ->
  criteria_match host query videos None h =
    (<[fresh (dom h) := sort (descending (count_of "view_count")) records]>
       (<[fresh (dom h) := records]> h),
     Normal (head (sort (descending (count_of "view_count")) records))).
Proof.
  intros Hv Htest. unfold criteria_match, bind.
  rewrite (Array_spread_run _ _ _ Hv), Htest. unfold head_sorted, bind.
  rewrite (Array_sort_run _ _ _ records) by apply lookup_insert_eq.
  rewrite (Array_at_run _ _ (sort (descending (count_of "view_count")) records))
    by apply lookup_insert_eq.
  simpl. rewrite head_lookup. reflexivity.
Qed.


Lemma title_match_run query videos (h : heap) records :
  h !! videos = Some records ->
  title_match query videos None h =
    (h, match find_first (title_has_every (split_ws query)) records with
        | Normal None => find_first (title_has_some (split_ws query)) records
        | found => found
        end).
Proof.
  intros Hv. unfold title_match, bind. rewrite (Array_find_run _ _ _ _ Hv).
  destruct (find_first (title_has_every (split_ws query)) records) as [[v|]|e];
    try reflexivity.
  rewrite (Array_find_run _ _ _ _ Hv). reflexivity.
Qed.

(** *** The whole search, for the queries of the scenarios *)

Lemma find_video_first videos (h : heap) v0 rest :
  h !! videos = Some (v0 :: rest) ->
  find_video host "first" videos h = (h, Normal (Some v0)).
Proof.
  intros Hv. unfold find_video, bind.
  rewrite (ordinal_match_spelled_out "first" videos 0 eq_refl).
  rewrite (Array_at_run _ _ _ _ Hv). reflexivity.
Qed.

Lemma find_video_most_viewed query videos (h : heap) records :
  h !! videos = Some records ->
  records <> [] ->
  ~ In query (Object_keys ordinals) ->
  search false ordinal_suffix_re query = None ->
  test true most_view_re query = true ->
  find_video host query videos h =
    (<[fresh (dom h) := sort (descending (count_of "view_count")) records]>
       (<[fresh (dom h) := records]> h),
     Normal (head (sort (descending (count_of "view_count")) records))).
Proof.
  intros Hv Hne Hnot Hsuffix Htest. unfold find_video, bind.
  rewrite (ordinal_match_other _ _ _ Hnot). unfold numeral_suffix_match.
  rewrite Hsuffix. unfold ret at 1. cbv beta iota.
  rewrite (criteria_most_viewed _ _ _ _ Hv Htest).
  destruct (sort (descending (count_of "view_count")) records) as [|v sorted] eqn:Hsort.
  - apply sort_nil_iff in Hsort. contradiction.
  - reflexivity.
Qed.


End Resolver.

(** The comparator of "most viewed" puts [x] before [y] exactly when [x] has
    the larger count. *)
Lemma before_descending (key : JsObject -> number) (x y : JsObject) :
  key x <> NaN -> key y <> NaN ->
  before (descending key) x y <-> nlt (key y) (key x) = true.
Proof.
  intros Hx Hy. unfold before, comes_after, descending.
  rewrite (nsub_pos (key y) (key x) Hy Hx). reflexivity.
Qed.

(** The head of the array sorted by falling key: the earliest record whose
    key is the largest. *)
Lemma head_descending (key : JsObject -> number) (records : list JsObject) :
  records <> [] ->
  (forall v, v ∈ records -> key v <> NaN) ->
  exists (i : nat) (v : JsObject),
    records !! i = Some v
    /\ head (sort (descending key) records) = Some v
    /\ (forall j w, records !! j = Some w -> nle (key w) (key v) = true)
    /\ (forall j w, j < i -> records !! j = Some w -> nlt (key w) (key v) = true).
Proof.
  intros Hne Hkeys.
  assert (HP : forall j w, records !! j = Some w -> key w <> NaN).
  { intros j w Hw. apply Hkeys. eapply list_elem_of_lookup_2. exact Hw. }
  destruct (sort_head (descending key) (fun v => key v <> NaN)) with (l := records)
    as (i & v & Hi & Hhead & Hmin & Hearly).
  - intros x y Hx Hy Hb Hb'.
    apply (before_descending key x y Hx Hy) in Hb.
    apply (before_descending key y x Hy Hx) in Hb'.
    apply nlt_asym in Hb. congruence.
  - intros x y z Hx Hy Hz Hb.
    apply (before_descending key x y Hx Hy) in Hb.
    destruct (nlt_cotrans (key y) (key x) (key z) Hz Hb) as [Hyz|Hzx].
    + right. apply (before_descending key z y Hz Hy). exact Hyz.
    + left. apply (before_descending key x z Hx Hz). exact Hzx.
  - rewrite Forall_forall. exact Hkeys.
  - exact Hne.
  - exists i, v. repeat split; try assumption.
    + intros j w Hw.
      rewrite (nle_not_nlt (key w) (key v) (HP j w Hw) (HP i v Hi)).
      apply negb_true_iff. apply not_true_is_false. intros Hlt.
      apply (Hmin j w Hw). apply (before_descending key w v (HP j w Hw) (HP i v Hi)).
      exact Hlt.
    + intros j w Hj Hw.
      apply (before_descending key v w (HP i v Hi) (HP j w Hw)).
      apply (Hearly j w Hj Hw).
Qed.

(** C7.  On a non-empty dataset the query "first" resolves to the first
    record of the list as given; and, when every view count is a number (or
    absent, which counts as 0), the query "most viewed" resolves to a record
    whose view count no other exceeds, the earliest such record of the
    list. *)
Theorem resolve_first_and_most_viewed :
  forall (host : Host) (videos : loc) (h : heap) (first : JsObject)
         (rest : list JsObject),
    h !! videos = Some (first :: rest) ->
    snd (find_video host "first" videos h) = Normal (Some first)
    /\ snd (play_video host [("query", JStr "first")] videos h)
       = Normal (video_card host first)
    /\ ((forall v, v ∈ first :: rest -> count_of "view_count" v <> NaN) ->
        exists (i : nat) (v : JsObject),
          (first :: rest) !! i = Some v
          /\ snd (find_video host "most viewed" videos h) = Normal (Some v)
          /\ snd (play_video host [("query", JStr "most viewed")] videos h)
             = Normal (video_card host v)
          /\ (forall j w, (first :: rest) !! j = Some w ->
                nle (count_of "view_count" w) (count_of "view_count" v) = true)
          /\ (forall j w, j < i -> (first :: rest) !! j = Some w ->
                nlt (count_of "view_count" w) (count_of "view_count" v) = true)).
Proof.
  intros host videos h first rest Hv.
  assert (Hne : first :: rest <> []) by discriminate.
  split; [|split].
  - rewrite (find_video_first host videos h first rest Hv). reflexivity.
  - rewrite (play_video_run host [("query", JStr "first")] videos h (first :: rest)
               "first" eq_refl Hv Hne).
    rewrite (find_video_first host videos h first rest Hv). reflexivity.
  - intros Hkeys.
    destruct (head_descending (count_of "view_count") (first :: rest) Hne Hkeys)
      as (i & v & Hi & Hhead & Hmax & Hearly).
    assert (Hfound : snd (find_video host "most viewed" videos h) = Normal (Some v)).
    { rewrite (find_video_most_viewed host "most viewed" videos h (first :: rest) Hv Hne).
      - cbn [snd]. rewrite Hhead. reflexivity.
      - simpl. intuition discriminate.
      - reflexivity.
      - reflexivity. }
    exists i, v. repeat split; try assumption.
    rewrite (play_video_run host [("query", JStr "most viewed")] videos h
               (first :: rest) "most viewed" eq_refl Hv Hne).
    rewrite Hfound. reflexivity.
Qed.

Lemma resolve_first_and_most_viewed_witness :
  snd (find_video Samples.sample_host "first" 0 (Samples.dataset_at_0 Samples.abc))
  = Normal (head Samples.abc)
  /\ exists v : JsObject,
       snd (find_video Samples.sample_host "most viewed" 0
              (Samples.dataset_at_0 Samples.abc)) = Normal (Some v)
       /\ get v "title" = JStr "B".
Proof.
  destruct (resolve_first_and_most_viewed Samples.sample_host 0
              (Samples.dataset_at_0 Samples.abc)
              [("title", JStr "A"); ("view_count", Samples.num 100)]
              [ [("title", JStr "B"); ("view_count", Samples.num 300)];
                [("title", JStr "C"); ("view_count", Samples.num 200)] ]
              eq_refl) as (Hfirst & _ & Hmost).
  split; [exact Hfirst|].
  destruct Hmost as (i & v & Hi & Hfound & _ & _ & _).
  - intros v Hv. repeat (apply elem_of_cons in Hv as [->|Hv]; [discriminate|]).
    apply elem_of_nil in Hv. contradiction.
  - exists v. split; [exact Hfound|].
    vm_compute in Hfound. injection Hfound as <-. reflexivity.
Defined.

(** C7, as the claim has it, fails: a view count that is text and no number
    makes the comparator return [NaN] for every pair of these two records,
    the sort leaves them as they are, and "most viewed" plays the first
    record, whose view count is no number, although the other has 10. *)
Lemma most_viewed_plays_an_unread_count :
  snd (play_video Samples.sample_host [("query", JStr "most viewed")] 0
         (Samples.dataset_at_0 Samples.uncounted))
  = Normal (video_card Samples.sample_host
              [("title", JStr "A"); ("view_count", JStr "abc")])
  /\ count_of "view_count" [("title", JStr "A"); ("view_count", JStr "abc")] = NaN
  /\ count_of "view_count" [("title", JStr "B"); ("view_count", Samples.num 10)]
     = Fin (inject_Z 10)
  /\ (forall a b, a ∈ Samples.uncounted -> b ∈ Samples.uncounted -> a <> b ->
        descending (count_of "view_count") a b = NaN).
Proof.
  split; [vm_compute; reflexivity|]. split; [reflexivity|]. split; [reflexivity|].
  intros a b Ha Hb Hab.
  repeat (apply elem_of_cons in Ha as [->|Ha]);
    repeat (apply elem_of_cons in Hb as [->|Hb]);
    try (apply elem_of_nil in Ha; contradiction);
    try (apply elem_of_nil in Hb; contradiction);
    try reflexivity; contradiction.
Qed.

(** End-to-end scenario 2: "play the most viewed" on the records A, B, C
    gives the card of B. *)
Example play_the_most_viewed :
  snd (play_video Samples.sample_host [("query", JStr "play the most viewed")] 0
         (Samples.dataset_at_0 Samples.abc))
  = Normal (video_card Samples.sample_host
              [("title", JStr "B"); ("view_count", Samples.num 300)]).
Proof. vm_compute. reflexivity. Qed.



(** "Play the first video" does not resolve to the first record: it is found
    by its title. *)
Example play_the_first_video :
  normalized_query [("query", JStr "  Play the FIRST video ")]
  = Normal "play the first video"
  /\ snd (play_video Samples.sample_host [("query", JStr "  Play the FIRST video ")] 0
            (Samples.dataset_at_0 Samples.spring))
     = Normal (video_card Samples.sample_host
                 [("title", JStr "Play the first video of spring")]).
Proof. split; vm_compute; reflexivity. Qed.

(** *** "play the 5th" *)

Section Fifth.
Context (host : Host).

Lemma split_play_the_5th : split_ws "play the 5th" = terms_5th.
Proof. reflexivity. Qed.






End Fifth.




End PlayFacts.

(** ** [compute_stats_json]: the statistics executor *)

Module StatsFacts.
Import Js Heap JsonTools Notions HeapFacts SortFacts NumberFacts RoundFacts.

Section Stats.
Context (host : Host).

Lemma numericValues_run videos field (h : heap) records :
  h !! videos = Some records ->
  numericValues host videos field h = (h, Normal (coerced host field records)).
Proof.
  intros Hv. unfold numericValues, bind. rewrite (Array_map_run _ _ _ _ Hv). reflexivity.
Qed.

Lemma compute_stats_json_run args videos (h : heap) records :
  h !! videos = Some records ->
  compute_stats_json host args videos h =
    (h,
     Normal
       (let field := get args "field" in
        let vals := coerced host field records in
        if length vals =? 0 then
          ErrorResult ("No numeric values found for field " ++ dquote
                         ++ ToString host field ++ dquote ++ ". Available fields: "
                         ++ join ", " (Object_keys (default [] (head records))))
        else
          let mean := fdiv (fold_left (fun a b => fadd a b) vals (Fin 0))
                           (of_nat (length vals)) in
          StatsResult field (length vals) (fmt mean)
            (fmt (median (sort (fun a b => nsub a b) vals)))
            (fmt (Math_sqrt host
                    (fdiv (fold_left (fun a b => fadd a (fsquare (fsub b mean))) vals
                             (Fin 0))
                          (of_nat (length vals)))))
            (Math_min vals) (Math_max vals))).
Proof.
  intros Hv. unfold compute_stats_json, bind.
  rewrite (numericValues_run _ _ _ _ Hv). cbv zeta.
  destruct (length (coerced host (get args "field") records) =? 0); [|reflexivity].
  rewrite (Array_at_run _ _ _ _ Hv). simpl. rewrite head_lookup. reflexivity.
Qed.

(** No value coerces exactly when [vals] is empty. *)
Lemma coerced_nil field records :
  (forall v, v ∈ records -> parseFloat (get v (ToString host field)) = NaN) ->
  coerced host field records = [].
Proof.
  unfold coerced. induction records as [|v rest IH]; intros Hnan; simpl.
  - reflexivity.
  - rewrite (Hnan v) by left. simpl. apply IH. intros w Hw. apply Hnan. right. exact Hw.
Qed.

Lemma coerced_some field records v :
  v ∈ records -> parseFloat (get v (ToString host field)) <> NaN ->
  coerced host field records <> [].
Proof.
  unfold coerced. intros Hin Hnum Hnil.
  assert (Hmem : In (parseFloat (get v (ToString host field)))
                    (List.filter (fun n => negb (isNaN n))
                       (map (fun v => parseFloat (get v (ToString host field))) records))).
  { apply filter_In. split.
    - apply (in_map (fun v => parseFloat (get v (ToString host field)))).
      apply list_elem_of_In. exact Hin.
    - destruct (parseFloat (get v (ToString host field))); try reflexivity. contradiction. }
  rewrite Hnil in Hmem. exact Hmem.
Qed.

End Stats.

(** C4.  When no value of the field coerces to a number,
    [compute_stats_json] does not throw: it returns the error result whose
    message names the field and lists the fields of the first record (none
    when the dataset is empty). *)
Theorem stats_without_numbers_is_an_error :
  forall (host : Host) (args : JsObject) (videos : loc) (h : heap)
         (records : list JsObject),
    h !! videos = Some records ->
    (forall v, v ∈ records ->
       parseFloat (get v (ToString host (get args "field"))) = NaN) ->
    executeJsonTool host "compute_stats_json" args videos h
    = (h, Normal (ErrorResult
                    ("No numeric values found for field " ++ dquote
                       ++ ToString host (get args "field") ++ dquote
                       ++ ". Available fields: "
                       ++ join ", " (Object_keys (default [] (head records)))))).
Proof.
  intros host args videos h records Hv Hnan.
  change (executeJsonTool host "compute_stats_json" args videos h)
    with (compute_stats_json host args videos h).
  rewrite (compute_stats_json_run host args videos h records Hv).
  cbv zeta. rewrite (coerced_nil host _ records Hnan). reflexivity.
Qed.

Lemma stats_without_numbers_is_an_error_witness :
  executeJsonTool Samples.sample_host "compute_stats_json"
    [("field", JStr "likes")] 0 (Samples.dataset_at_0 Samples.abc)
  = (Samples.dataset_at_0 Samples.abc,
     Normal (ErrorResult
               ("No numeric values found for field " ++ dquote ++ "likes" ++ dquote
                  ++ ". Available fields: title, view_count"))).
Proof.
  apply (stats_without_numbers_is_an_error Samples.sample_host
           [("field", JStr "likes")] 0 (Samples.dataset_at_0 Samples.abc)
           Samples.abc eq_refl).
  intros v Hv.
  repeat (apply elem_of_cons in Hv as [->|Hv]; [reflexivity|]).
  apply elem_of_nil in Hv. contradiction.
Defined.

(** With no record at all the list of fields is empty. *)
Example stats_of_no_records :
  snd (executeJsonTool Samples.sample_host "compute_stats_json"
         [("field", JStr "likes")] 0 (Samples.dataset_at_0 []))
  = Normal (ErrorResult
              ("No numeric values found for field " ++ dquote ++ "likes" ++ dquote
                 ++ ". Available fields: ")).
Proof. vm_compute. reflexivity. Qed.

(** *** Rounding to four decimals *)

Lemma Qmake_scaled (n : Z) : (n # 10000 == inject_Z n * (1 # 10000))%Q.
Proof. unfold Qeq, inject_Z. simpl. lia. Qed.

Lemma floor_half (x : Q) :
  (inject_Z (Qfloor (x + (1 # 2))) <= x + (1 # 2)
   /\ x + (1 # 2) < inject_Z (Qfloor (x + (1 # 2))) + 1)%Q.
Proof.
  split.
  - apply Qfloor_le.
  - pose proof (Qlt_floor (x + (1 # 2))) as H.
    rewrite inject_Z_plus in H. exact H.
Qed.

Lemma toFixed4_close (q : Q) :
  (q - (1 # 20000) <= toFixed4 q /\ toFixed4 q <= q + (1 # 20000))%Q.
Proof.
  unfold toFixed4.
  destruct (Qle_bool (inject_Z (10 ^ 21)) (Qabs q)); [lra|].
  destruct (floor_half (Qabs q * inject_Z 10000)) as [Hlo Hhi].
  set (n := Qfloor (Qabs q * inject_Z 10000 + (1 # 2))) in *.
  destruct (Qle_bool 0 q) eqn:Hsign.
  - apply Qle_bool_iff in Hsign. rewrite (Qabs_pos q Hsign) in Hlo, Hhi.
    rewrite (Qmake_scaled n). change (inject_Z 10000) with (10000 # 1)%Q in *. lra.
  - assert (Hneg : (q <= 0)%Q).
    { apply Qlt_le_weak. apply Qnot_le_lt. intros Hle. apply Qle_bool_iff in Hle. congruence. }
    rewrite (Qabs_neg q Hneg) in Hlo, Hhi.
    rewrite (Qmake_scaled (- n)). rewrite inject_Z_opp.
    change (inject_Z 10000) with (10000 # 1)%Q in *. lra.
Qed.

Lemma toFixed4_nonneg (q : Q) : (0 <= q)%Q -> (0 <= toFixed4 q)%Q.
Proof.
  intros Hq. unfold toFixed4.
  destruct (Qle_bool (inject_Z (10 ^ 21)) (Qabs q)); [exact Hq|].
  apply Qle_bool_iff in Hq as Hq'. rewrite Hq'.
  rewrite Qmake_scaled.
  assert (0 <= Qfloor (Qabs q * inject_Z 10000 + (1 # 2)))%Z.
  { change 0%Z with (Qfloor 0). apply Qfloor_resp_le.
    pose proof (Qabs_nonneg q). change (inject_Z 10000) with (10000 # 1)%Q. lra. }
  assert (0 <= inject_Z (Qfloor (Qabs q * inject_Z 10000 + (1 # 2))))%Q.
  { change 0%Q with (inject_Z 0). rewrite <- Zle_Qle. assumption. }
  lra.
Qed.

(** *** Lists of finite numbers *)
Lemma finite_values (xs : list number) :
  (forall x, In x xs -> x <> NaN /\ x <> PInf /\ x <> NInf) ->
  exists qs : list Q, xs = map Fin qs.
Proof.
  induction xs as [|x xs IH]; intros Hfin.
  - exists []. reflexivity.
  - destruct IH as [qs ->]; [intros y Hy; apply Hfin; right; exact Hy|].
    destruct (Hfin x (or_introl eq_refl)) as (Hn & Hp & Hm).
    destruct x as [| | |q]; try contradiction.
    exists (q :: qs). reflexivity.
Qed.

Lemma qsum_comp (qs : list Q) (a b : Q) : (a == b)%Q -> (qsum qs a == qsum qs b)%Q.
Proof.
  revert a b. induction qs as [|q qs IH]; intros a b Hab; cbn [qsum]; [exact Hab|].
  apply IH. rewrite Hab. reflexivity.
Qed.

(** When no partial sum is rounded, the sum of the loop is the sum. *)
Lemma sum_exact (qs : list Q) (a : Q) :
  sums_exact qs a = true ->
  exists s : Q,
    fold_left (fun x y => fadd x y) (map Fin qs) (Fin a) = Fin s /\ (s == qsum qs a)%Q.
Proof.
  revert a. induction qs as [|q qs IH]; intros a; cbn [sums_exact map fold_left qsum].
  - intros _. exists a. split; reflexivity.
  - change (fadd (Fin a) (Fin q)) with (round64 (a + q)%Q).
    destruct (round64 (a + q)%Q) as [| | |s]; try discriminate.
    intros [Hs Hrest]%andb_prop. apply Qeq_bool_iff in Hs.
    destruct (IH s Hrest) as (t & Ht & Hsum). exists t. split; [exact Ht|].
    rewrite Hsum. apply qsum_comp. exact Hs.
Qed.

(** The sum of finite values is never [NaN]. *)
Lemma sum_not_NaN (qs : list Q) (acc : number) :
  acc <> NaN -> fold_left (fun x y => fadd x y) (map Fin qs) acc <> NaN.
Proof.
  revert acc. induction qs as [|q qs IH]; intros acc Hacc; cbn [map fold_left];
    [exact Hacc|].
  apply IH. destruct acc as [| | |a]; try contradiction; try discriminate.
  change (fadd (Fin a) (Fin q)) with (round64 (a + q)%Q). apply round64_not_NaN.
Qed.

Lemma qlen_cons q qs : (qlen (q :: qs) == qlen qs + 1)%Q.
Proof.
  unfold qlen. simpl length. rewrite Nat2Z.inj_succ. unfold Z.succ.
  rewrite inject_Z_plus. reflexivity.
Qed.

Lemma qlen_nonneg qs : (0 <= qlen qs)%Q.
Proof. unfold qlen. change 0%Q with (inject_Z 0). rewrite <- Zle_Qle. lia. Qed.

Lemma qlen_pos qs : qs <> [] -> (0 < qlen qs)%Q.
Proof.
  destruct qs as [|q qs]; [contradiction|]. intros _. rewrite qlen_cons.
  pose proof (qlen_nonneg qs). lra.
Qed.

Lemma qsum_bounds (lo hi : Q) (qs : list Q) (a : Q) :
  (forall q, In q qs -> lo <= q /\ q <= hi)%Q ->
  (a + qlen qs * lo <= qsum qs a /\ qsum qs a <= a + qlen qs * hi)%Q.
Proof.
  revert a. induction qs as [|q qs IH]; intros a Hb.
  - cbn [qsum]. change (qlen []) with 0%Q. lra.
  - cbn [qsum]. destruct (Hb q (or_introl eq_refl)) as [Hlo Hhi].
    destruct (IH (a + q)%Q) as [IHlo IHhi]; [intros r Hr; apply Hb; right; exact Hr|].
    rewrite (qlen_cons q qs). lra.
Qed.

(** The quotient by the count. *)
Lemma fdiv_length (s : Q) (qs : list Q) :
  qs <> [] ->
  fdiv (Fin s) (of_nat (length qs)) = round64 (s / qlen qs)%Q.
Proof.
  intros Hne. unfold fdiv, ndiv, of_nat. fold (qlen qs).
  destruct (Qeq_bool (qlen qs) 0) eqn:Hz; [|reflexivity].
  apply Qeq_bool_iff in Hz. pose proof (qlen_pos qs Hne). lra.
Qed.

Lemma fdiv_length_nonneg (a : number) (qs : list Q) :
  qs <> [] -> nle (Fin 0) a = true ->
  nle (Fin 0) (fdiv a (of_nat (length qs))) = true.
Proof.
  intros Hne Ha. pose proof (qlen_pos qs Hne) as Hpos.
  destruct a as [| | |x]; try discriminate.
  - unfold fdiv, ndiv, of_nat. fold (qlen qs).
    destruct (Qltb (qlen qs) 0) eqn:Hlt; [|reflexivity].
    apply Qltb_lt in Hlt. lra.
  - rewrite (fdiv_length x qs Hne). apply round64_nonneg.
    cbn [nle] in Ha. apply Qle_bool_iff in Ha.
    apply Qle_shift_div_l; [exact Hpos|]. lra.
Qed.

Lemma fdiv_length_not_NaN (a : number) (qs : list Q) :
  qs <> [] -> a <> NaN -> fdiv a (of_nat (length qs)) <> NaN.
Proof.
  intros Hne Ha. pose proof (qlen_pos qs Hne) as Hpos.
  destruct a as [| | |x]; try contradiction.
  - unfold fdiv, ndiv, of_nat. fold (qlen qs).
    destruct (Qltb (qlen qs) 0); discriminate.
  - unfold fdiv, ndiv, of_nat. fold (qlen qs).
    destruct (Qltb (qlen qs) 0); discriminate.
  - rewrite (fdiv_length x qs Hne). apply round64_not_NaN.
Qed.

Lemma mean_bounds (lo hi : Q) (qs : list Q) :
  qs <> [] ->
  (forall q, In q qs -> lo <= q /\ q <= hi)%Q ->
  (lo <= qsum qs 0 / qlen qs /\ qsum qs 0 / qlen qs <= hi)%Q.
Proof.
  intros Hne Hb. destruct (qsum_bounds lo hi qs 0 Hb) as [Hlo Hhi].
  pose proof (qlen_pos qs Hne) as Hpos.
  split.
  - apply Qle_shift_div_l; [exact Hpos|]. lra.
  - apply Qle_shift_div_r; [exact Hpos|]. lra.
Qed.

(** *** The squared distances are not negative *)

Lemma fsquare_nonneg (a : number) : a <> NaN -> nle (Fin 0) (fsquare a) = true.
Proof.
  destruct a as [| | |x]; intros Ha; try contradiction; try reflexivity.
  change (fsquare (Fin x)) with (round64 (x * x)%Q). apply round64_nonneg.
  destruct (Qlt_le_dec x 0) as [Hneg|Hpos].
  - assert (Heq : (x * x == (- x) * (- x))%Q) by ring.
    rewrite Heq. apply Qmult_le_0_compat; lra.
  - apply Qmult_le_0_compat; exact Hpos.
Qed.

Lemma fsub_not_NaN (q : Q) (m : number) :
  m <> NaN -> (m = PInf \/ m = NInf \/ exists x, m = Fin x) -> fsub (Fin q) m <> NaN.
Proof.
  intros _ [->|[->|[x ->]]]; try discriminate.
  change (fsub (Fin q) (Fin x)) with (round64 (q + - x)%Q). apply round64_not_NaN.
Qed.

Lemma fadd_nonneg (a b : number) :
  nle (Fin 0) a = true -> nle (Fin 0) b = true -> nle (Fin 0) (fadd a b) = true.
Proof.
  destruct a as [| | |x], b as [| | |y]; cbn [nle]; try discriminate; try reflexivity.
  intros Hx Hy. apply Qle_bool_iff in Hx, Hy.
  change (fadd (Fin x) (Fin y)) with (round64 (x + y)%Q). apply round64_nonneg. lra.
Qed.

Lemma sumsq_nonneg (m : number) (qs : list Q) (acc : number) :
  m <> NaN -> nle (Fin 0) acc = true ->
  nle (Fin 0)
    (fold_left (fun a b => fadd a (fsquare (fsub b m))) (map Fin qs) acc) = true.
Proof.
  intros Hm. revert acc. induction qs as [|q qs IH]; intros acc Hacc; cbn [map fold_left];
    [exact Hacc|].
  apply IH. apply fadd_nonneg; [exact Hacc|]. apply fsquare_nonneg.
  apply fsub_not_NaN; [exact Hm|]. destruct m as [| | |x]; try contradiction; eauto.
Qed.

Lemma fmt_nonneg (a : number) : nle (Fin 0) a = true -> nle (Fin 0) (fmt a) = true.
Proof.
  destruct a as [| | |x]; cbn [nle]; try discriminate; try reflexivity.
  intros Hx. apply Qle_bool_iff in Hx. unfold fmt, fmt_number.
  apply round64_nonneg. apply toFixed4_nonneg. exact Hx.
Qed.

(** *** The minimum and the maximum *)

Lemma min_finite (qs : list Q) (a : Q) :
  exists m : Q,
    fold_left (fun m x => match m, x with
                          | NaN, _ | _, NaN => NaN
                          | _, _ => if nlt x m then x else m
                          end) (map Fin qs) (Fin a) = Fin m
    /\ (m <= a)%Q /\ (forall q, In q qs -> m <= q)%Q.
Proof.
  revert a. induction qs as [|q qs IH]; intros a.
  - exists a. simpl. split; [reflexivity|]. split; [lra|]. intros q [].
  - simpl. destruct (Qltb q a) eqn:Hlt.
    + apply Qltb_lt in Hlt. destruct (IH q) as (m & Hm & Hle & Hall).
      exists m. split; [exact Hm|]. split; [lra|].
      intros r [<-|Hr]; [exact Hle|apply Hall; exact Hr].
    + apply Qltb_false in Hlt. destruct (IH a) as (m & Hm & Hle & Hall).
      exists m. split; [exact Hm|]. split; [exact Hle|].
      intros r [<-|Hr]; [lra|apply Hall; exact Hr].
Qed.

Lemma Math_min_finite (qs : list Q) :
  qs <> [] ->
  exists m : Q, Math_min (map Fin qs) = Fin m /\ (forall q, In q qs -> m <= q)%Q.
Proof.
  intros Hne. destruct qs as [|q qs]; [contradiction|].
  unfold Math_min. simpl.
  destruct (min_finite qs q) as (m & Hm & Hle & Hall).
  exists m. split; [exact Hm|].
  intros r [<-|Hr]; [exact Hle|apply Hall; exact Hr].
Qed.

Lemma max_finite (qs : list Q) (a : Q) :
  exists m : Q,
    fold_left (fun m x => match m, x with
                          | NaN, _ | _, NaN => NaN
                          | _, _ => if nlt m x then x else m
                          end) (map Fin qs) (Fin a) = Fin m
    /\ (a <= m)%Q /\ (forall q, In q qs -> q <= m)%Q.
Proof.
  revert a. induction qs as [|q qs IH]; intros a.
  - exists a. simpl. split; [reflexivity|]. split; [lra|]. intros q [].
  - simpl. destruct (Qltb a q) eqn:Hlt.
    + apply Qltb_lt in Hlt. destruct (IH q) as (m & Hm & Hle & Hall).
      exists m. split; [exact Hm|]. split; [lra|].
      intros r [<-|Hr]; [exact Hle|apply Hall; exact Hr].
    + apply Qltb_false in Hlt. destruct (IH a) as (m & Hm & Hle & Hall).
      exists m. split; [exact Hm|]. split; [exact Hle|].
      intros r [<-|Hr]; [lra|apply Hall; exact Hr].
Qed.

Lemma Math_max_finite (qs : list Q) :
  qs <> [] ->
  exists m : Q, Math_max (map Fin qs) = Fin m /\ (forall q, In q qs -> q <= m)%Q.
Proof.
  intros Hne. destruct qs as [|q qs]; [contradiction|].
  unfold Math_max. simpl.
  destruct (max_finite qs q) as (m & Hm & Hle & Hall).
  exists m. split; [exact Hm|].
  intros r [<-|Hr]; [exact Hle|apply Hall; exact Hr].
Qed.

(** The minimum and the maximum are values of the list. *)
Lemma min_attained (qs : list Q) (a m : Q) :
  fold_left (fun m x => match m, x with
                        | NaN, _ | _, NaN => NaN
                        | _, _ => if nlt x m then x else m
                        end) (map Fin qs) (Fin a) = Fin m ->
  m = a \/ In m qs.
Proof.
  revert a. induction qs as [|q qs IH]; intros a; cbn [map fold_left].
  - intros [= ->]. left. reflexivity.
  - cbn [nlt]. destruct (Qltb q a); intros Hfold; apply IH in Hfold.
    + destruct Hfold as [->|Hin]; right; [left; reflexivity|right; exact Hin].
    + destruct Hfold as [->|Hin]; [left; reflexivity|right; right; exact Hin].
Qed.

Lemma max_attained (qs : list Q) (a m : Q) :
  fold_left (fun m x => match m, x with
                        | NaN, _ | _, NaN => NaN
                        | _, _ => if nlt m x then x else m
                        end) (map Fin qs) (Fin a) = Fin m ->
  m = a \/ In m qs.
Proof.
  revert a. induction qs as [|q qs IH]; intros a; cbn [map fold_left].
  - intros [= ->]. left. reflexivity.
  - cbn [nlt]. destruct (Qltb a q); intros Hfold; apply IH in Hfold.
    + destruct Hfold as [->|Hin]; right; [left; reflexivity|right; exact Hin].
    + destruct Hfold as [->|Hin]; [left; reflexivity|right; right; exact Hin].
Qed.

Lemma Math_min_attained (qs : list Q) (m : Q) :
  qs <> [] -> Math_min (map Fin qs) = Fin m -> In m qs.
Proof.
  intros Hne. destruct qs as [|q qs]; [contradiction|].
  unfold Math_min. cbn [map fold_left nlt]. intros Hfold.
  apply min_attained in Hfold. destruct Hfold as [->|Hin]; [left|right]; auto.
Qed.

Lemma Math_max_attained (qs : list Q) (m : Q) :
  qs <> [] -> Math_max (map Fin qs) = Fin m -> In m qs.
Proof.
  intros Hne. destruct qs as [|q qs]; [contradiction|].
  unfold Math_max. cbn [map fold_left nlt]. intros Hfold.
  apply max_attained in Hfold. destruct Hfold as [->|Hin]; [left|right]; auto.
Qed.

(** The square root of the sample host is never negative. *)
Lemma sample_sqrt_nonneg (n : number) :
  nle (Fin 0) n = true -> nle (Fin 0) (Math_sqrt Samples.sample_host n) = true.
Proof.
  destruct n as [| | |q]; cbn [nle]; try discriminate; [reflexivity|].
  intros Hq. apply Qle_bool_iff in Hq. cbn [Math_sqrt Samples.sample_host].
  destruct (Qltb q 0) eqn:Hlt; [apply Qltb_lt in Hlt; lra|].
  unfold Samples.sqrt64. destruct (Qeq_bool q 0); [reflexivity|].
  pose proof (Z.sqrt_nonneg (Qfloor (q * pow2 (2 * Z.max 0 ((111 - ilog2 q) / 2))))) as Hs.
  set (s := Z.sqrt _) in *. set (k := Z.max 0 _).
  destruct (Qeq_bool (inject_Z (s * s)) _); apply round64_nonneg;
    (apply Qmult_le_0_compat; [|apply Qlt_le_weak, pow2_pos]);
    change 0%Q with (inject_Z 0); rewrite <- Zle_Qle; lia.
Qed.

(** C5, as the code has it.  When at least one value of the field coerces
    and every coerced value is finite, the result holds the count; [min]
    and [max] are values of the field that bound all the others; the
    returned [std] is not negative; and the returned mean is the sum of the
    values, added up as doubles in the order of the dataset, divided by the
    count and rounded to four decimals.  When moreover the values are doubles and
    no partial sum of the loop is rounded, the mean before [toFixed], which
    is the rounded quotient of the sum by the count, lies between [min] and
    [max], and the returned mean is the double nearest to that mean rounded
    to four decimals: it lies between the doubles nearest to
    [min - 0.00005] and to [max + 0.00005].  [Math.sqrt] is any function that
    gives a non-negative number on a non-negative one. *)
Theorem stats_mean_within_rounding :
  forall (host : Host) (args : JsObject) (videos : loc) (h : heap)
         (records : list JsObject) (qs : list Q),
    (forall n : number, nle (Fin 0) n = true -> nle (Fin 0) (Math_sqrt host n) = true) ->
    h !! videos = Some records ->
    coerced host (get args "field") records = map Fin qs ->
    qs <> [] ->
    exists (mean median std : number) (mn mx : Q),
      snd (executeJsonTool host "compute_stats_json" args videos h)
      = Normal (StatsResult (get args "field") (length qs) mean median std
                  (Fin mn) (Fin mx))
      /\ In mn qs /\ In mx qs
      /\ (forall q, In q qs -> mn <= q /\ q <= mx)%Q
      /\ nle (Fin 0) std = true
      /\ mean = fmt (fdiv (fold_left fadd (map Fin qs) (Fin 0)) (of_nat (length qs)))
      /\ ((forall q, In q qs -> round64 q = Fin q) ->
          sums_exact qs 0 = true ->
          exists m : Q,
            round64 (qsum qs 0 / qlen qs)%Q = Fin m
            /\ (mn <= m /\ m <= mx)%Q
            /\ mean = round64 (toFixed4 m)
            /\ (m - (1 # 20000) <= toFixed4 m /\ toFixed4 m <= m + (1 # 20000))%Q
            /\ nle (round64 (mn - (1 # 20000))%Q) mean = true
            /\ nle mean (round64 (mx + (1 # 20000))%Q) = true).
Proof.
  intros host args videos h records qs Hsqrt Hv Hqs Hqne.
  change (executeJsonTool host "compute_stats_json" args videos h)
    with (compute_stats_json host args videos h).
  rewrite (compute_stats_json_run host args videos h records Hv). cbn [snd]. cbv zeta.
  rewrite Hqs.
  destruct (length (map Fin qs) =? 0) eqn:Hlen.
  { apply Nat.eqb_eq in Hlen. rewrite length_map in Hlen.
    destruct qs; [contradiction|discriminate]. }
  destruct (Math_min_finite qs Hqne) as (mn & Hmin & Hlow).
  destruct (Math_max_finite qs Hqne) as (mx & Hmax & Hhigh).
  rewrite Hmin, Hmax, !length_map.
  set (total := fold_left (fun a b => fadd a b) (map Fin qs) (Fin 0)).
  set (mean := fdiv total (of_nat (length qs))).
  assert (Htotal : total <> NaN) by (apply sum_not_NaN; discriminate).
  assert (Hmean : mean <> NaN) by (apply fdiv_length_not_NaN; assumption).
  eexists _, _, _, mn, mx. split; [reflexivity|].
  split; [apply (Math_min_attained qs mn Hqne Hmin)|].
  split; [apply (Math_max_attained qs mx Hqne Hmax)|].
  split; [intros q Hq; split; [apply Hlow|apply Hhigh]; exact Hq|].
  split.
  { apply fmt_nonneg, Hsqrt, fdiv_length_nonneg; [exact Hqne|].
    apply sumsq_nonneg; [exact Hmean|reflexivity]. }
  split; [reflexivity|].
  intros Hdoubles Hexact.
  destruct (sum_exact qs 0 Hexact) as (s & Hs & Hsum).
  assert (Hquot : mean = round64 (qsum qs 0 / qlen qs)%Q).
  { unfold mean, total. rewrite Hs, (fdiv_length s qs Hqne).
    apply round64_comp. rewrite Hsum. reflexivity. }
  destruct (mean_bounds mn mx qs Hqne) as [Hlo Hhi];
    [intros q Hq; split; [apply Hlow|apply Hhigh]; exact Hq|].
  pose proof (round64_ge mn _ (Hdoubles mn (Math_min_attained qs mn Hqne Hmin)) Hlo) as Hge.
  pose proof (round64_le _ mx (Hdoubles mx (Math_max_attained qs mx Hqne Hmax)) Hhi) as Hle.
  rewrite <- Hquot in Hge, Hle.
  destruct mean as [| | |m] eqn:Hm; try discriminate.
  cbn [nle] in Hge, Hle. apply Qle_bool_iff in Hge, Hle.
  destruct (toFixed4_close m) as [Hclo Hchi].
  exists m. split; [symmetry; exact Hquot|]. split; [split; assumption|].
  split; [reflexivity|]. split; [split; assumption|].
  split; apply round64_mono; lra.
Qed.

Lemma stats_mean_within_rounding_witness :
  exists (mean median std : number) (mn mx : Q),
    snd (executeJsonTool Samples.sample_host "compute_stats_json"
           [("field", JStr "view_count")] 0 (Samples.dataset_at_0 Samples.abc))
    = Normal (StatsResult (JStr "view_count") 3 mean median std (Fin mn) (Fin mx))
    /\ nle (Fin 0) std = true
    /\ nle (round64 (mn - (1 # 20000))%Q) mean = true
    /\ nle mean (round64 (mx + (1 # 20000))%Q) = true.
Proof.
  destruct (stats_mean_within_rounding Samples.sample_host [("field", JStr "view_count")] 0
              (Samples.dataset_at_0 Samples.abc) Samples.abc
              [inject_Z 100; inject_Z 300; inject_Z 200]
              sample_sqrt_nonneg eq_refl eq_refl ltac:(discriminate))
    as (mean & median & std & mn & mx & Hrun & _ & _ & _ & Hstd & _ & Hmean).
  destruct Hmean as (m & _ & _ & _ & _ & Hlo & Hhi).
  - intros q [<-|[<-|[<-|[]]]]; reflexivity.
  - reflexivity.
  - exists mean, median, std, mn, mx. repeat split; assumption.
Defined.

(** End-to-end scenario 1: the statistics of the view counts 100, 300, 200. *)
Example stats_of_abc :
  snd (executeJsonTool Samples.sample_host "compute_stats_json"
         [("field", JStr "view_count")] 0 (Samples.dataset_at_0 Samples.abc))
  = Normal (StatsResult (JStr "view_count") 3 (Fin (inject_Z 200))
              (Fin (inject_Z 200)) (round64 (816497 # 10000)) (Fin (inject_Z 100))
              (Fin (inject_Z 300))).
Proof. vm_compute. reflexivity. Qed.

(** C5, as the claim has it, fails: for the single value 0.00004 the
    returned mean is 0, below the returned [min], the double 0.00004. *)
Lemma stats_mean_below_min :
  exists (mean median std mn mx : number),
    snd (executeJsonTool Samples.sample_host "compute_stats_json"
           [("field", JStr "ratio")] 0 (Samples.dataset_at_0 Samples.tiny))
    = Normal (StatsResult (JStr "ratio") 1 mean median std mn mx)
    /\ mn = round64 (4 # 100000)
    /\ mean = Fin 0
    /\ nle mn mean = false.
Proof.
  eexists _, _, _, _, _. split; [vm_compute; reflexivity|].
  repeat split; vm_compute; reflexivity.
Qed.

(** It fails on finite values also without the rounding to four decimals:
    the sum of two values 1e308 overflows, and the returned mean is
    [Infinity], above the returned [max]. *)
Example stats_mean_overflows :
  exists (median std mn : number),
    snd (executeJsonTool Samples.sample_host "compute_stats_json"
           [("field", JStr "ratio")] 0 (Samples.dataset_at_0 Samples.huge))
    = Normal (StatsResult (JStr "ratio") 2 PInf median std mn
                (round64 (inject_Z (10 ^ 308))))
    /\ nle PInf (round64 (inject_Z (10 ^ 308))) = false.
Proof.
  eexists _, _, _. split; vm_compute; reflexivity.
Qed.

(** And a sum that is rounded can leave the interval: the mean of these
    three values near 1e17 is 16 above the greatest of them. *)
Example stats_mean_above_max :
  exists (median std mn : number),
    snd (executeJsonTool Samples.sample_host "compute_stats_json"
           [("field", JStr "view_count")] 0 (Samples.dataset_at_0 Samples.uneven))
    = Normal (StatsResult (JStr "view_count") 3 (Fin (inject_Z 100000000000000048))
                median std mn (Fin (inject_Z 100000000000000032))).
Proof.
  eexists _, _, _. vm_compute. reflexivity.
Qed.

(** It also fails on a value that reads as [Infinity]: the returned [std]
    is [NaN], which is not at least 0. *)
Example stats_std_of_infinity :
  exists (mean median std mn mx : number),
    snd (executeJsonTool Samples.sample_host "compute_stats_json"
           [("field", JStr "ratio")] 0 (Samples.dataset_at_0 Samples.unbounded))
    = Normal (StatsResult (JStr "ratio") 1 mean median std mn mx)
    /\ std = NaN
    /\ nle (Fin 0) std = false.
Proof.
  eexists _, _, _, _, _. split; [vm_compute; reflexivity|].
  split; reflexivity.
Qed.

End StatsFacts.

(** ** [plot_metric_vs_time]: the chart builder *)

Module ChartFacts.
Import Js Heap JsonTools Notions HeapFacts SortFacts NumberFacts.

Section Chart.
Context (host : Host).

Lemma plot_metric_vs_time_run args videos (h : heap) records :
  h !! videos = Some records ->
  snd (plot_metric_vs_time host args videos h) =
    Normal
      (let metric := get args "metric" in
       let shown := sort (by_release_date host)
                      (List.filter (has_date_and_metric host metric) records) in
       if length shown =? 0 then
         ErrorResult ("No data found for metric " ++ dquote ++ ToString host metric
                        ++ dquote ++ " with release dates.")
       else
         ChartResult metric
           (or_else (get args "title") (JStr (ToString host metric ++ " over time")))
           (map (chart_point host metric) shown)).
Proof.
  intros Hv. unfold plot_metric_vs_time, bind.
  rewrite (Array_spread_run _ _ _ Hv).
  rewrite (Array_filter_run _ _ _ records) by apply lookup_insert_eq.
  rewrite (Array_sort_run _ _ _
             (List.filter (has_date_and_metric host (get args "metric")) records))
    by apply lookup_insert_eq.
  rewrite (Array_length_run _ _
             (sort (by_release_date host)
                (List.filter (has_date_and_metric host (get args "metric")) records)))
    by apply lookup_insert_eq.
  cbv zeta.
  destruct (length (sort (by_release_date host)
                      (List.filter (has_date_and_metric host (get args "metric")) records))
            =? 0); [reflexivity|].
  rewrite (Array_map_run _ _ _
             (sort (by_release_date host)
                (List.filter (has_date_and_metric host (get args "metric")) records)))
    by apply lookup_insert_eq.
  reflexivity.
Qed.

(** On records with readable dates the comparator follows the time value. *)
Lemma by_release_date_key (a b : JsObject) :
  Date_new host (get a "release_date") <> None ->
  Date_new host (get b "release_date") <> None ->
  comes_after (by_release_date host) a b
  = (release_time host b <? release_time host a)%Z.
Proof.
  unfold comes_after, by_release_date, release_time. intros Ha Hb.
  destruct (Date_new host (get a "release_date")) as [ta|]; [|contradiction].
  destruct (Date_new host (get b "release_date")) as [tb|]; [|contradiction].
  simpl. destruct (Z.ltb_spec tb ta) as [Hlt|Hge].
  - apply Qltb_lt. change 0%Q with (inject_Z 0). rewrite <- Zlt_Qlt. lia.
  - apply Qltb_false. change 0%Q with (inject_Z 0). rewrite <- Zle_Qle. lia.
Qed.

End Chart.

(** C6.  [plot_metric_vs_time] returns the error result exactly when no
    record has both a truthy [release_date] and a metric that is neither
    [undefined] nor [null].  Otherwise it returns a chart with one point for
    each such record and for no other, so with at least one point; the
    points are in non-decreasing order of time whenever the dates of those
    records can be read (a record whose date is truthy and cannot be read is
    kept as well, and has no time to be ordered by); and the value of a point
    is the metric itself when it is a number, else what [parseFloat] reads
    from it, else 0. *)
Theorem chart_points_follow_the_filter :
  forall (host : Host) (args : JsObject) (videos : loc) (h : heap)
         (records : list JsObject),
    h !! videos = Some records ->
    let metric := get args "metric" in
    let kept := List.filter (has_date_and_metric host metric) records in
    let result := snd (executeJsonTool host "plot_metric_vs_time" args videos h) in
    (kept = [] ->
     result = Normal (ErrorResult ("No data found for metric " ++ dquote
                                     ++ ToString host metric ++ dquote
                                     ++ " with release dates.")))
    /\ (kept <> [] ->
        exists (shown : list JsObject) (title : JsValue),
          result = Normal (ChartResult metric title (map (chart_point host metric) shown))
          /\ shown <> []
          /\ Permutation shown kept
          /\ (forall v, v ∈ shown ->
                v ∈ records
                /\ truthy (get v "release_date") = true
                /\ is_present (get v (ToString host metric)) = true)
          /\ ((forall v, v ∈ kept -> Date_new host (get v "release_date") <> None) ->
              StronglySorted (key_le (release_time host)) shown))
    /\ (forall v : JsObject,
          (forall n, get v (ToString host metric) = JNum n ->
                     value (chart_point host metric v) = n)
          /\ (is_number (get v (ToString host metric)) = false ->
              value (chart_point host metric v)
              = if number_truthy (parseFloat (get v (ToString host metric)))
                then parseFloat (get v (ToString host metric)) else Fin 0)).
Proof.
  intros host args videos h records Hv metric kept result.
  assert (Hresult : result =
            Normal (if length (sort (by_release_date host) kept) =? 0 then
                      ErrorResult ("No data found for metric " ++ dquote
                                     ++ ToString host metric ++ dquote
                                     ++ " with release dates.")
                    else
                      ChartResult metric
                        (or_else (get args "title")
                           (JStr (ToString host metric ++ " over time")))
                        (map (chart_point host metric) (sort (by_release_date host) kept)))).
  { subst result.
    change (executeJsonTool host "plot_metric_vs_time" args videos h)
      with (plot_metric_vs_time host args videos h).
    rewrite (plot_metric_vs_time_run host args videos h records Hv). reflexivity. }
  split; [|split].
  - intros Hnil. rewrite Hresult, Hnil. reflexivity.
  - intros Hne. rewrite Hresult.
    assert (Hshown : sort (by_release_date host) kept <> [])
      by (intros Hnil; apply sort_nil_iff in Hnil; contradiction).
    destruct (length (sort (by_release_date host) kept) =? 0) eqn:Hlen.
    { apply Nat.eqb_eq in Hlen. destruct (sort (by_release_date host) kept);
        [contradiction|discriminate]. }
    exists (sort (by_release_date host) kept),
      (or_else (get args "title") (JStr (ToString host metric ++ " over time"))).
    split; [reflexivity|]. split; [exact Hshown|].
    split; [apply sort_perm|]. split.
    + intros v Hin.
      assert (Hkept : In v kept).
      { apply (Permutation_in v (sort_perm (by_release_date host) kept)).
        apply list_elem_of_In. exact Hin. }
      apply filter_In in Hkept as [Hrec Hboth].
      unfold has_date_and_metric in Hboth. apply andb_true_iff in Hboth as [Hdate Hmetric].
      split; [apply list_elem_of_In; exact Hrec|]. split; assumption.
    + intros Hdates.
      apply (sort_by_key (by_release_date host) (release_time host)
               (fun v => Date_new host (get v "release_date") <> None)).
      * intros a b Ha Hb. apply by_release_date_key; assumption.
      * rewrite Forall_forall. exact Hdates.
  - intros v. split.
    + intros n Hn. unfold chart_point, metric_value. simpl. fold metric. rewrite Hn.
      reflexivity.
    + intros Hnot. unfold chart_point, metric_value. simpl. fold metric.
      destruct (get v (ToString host metric)); try reflexivity. discriminate.
Qed.

Lemma chart_points_follow_the_filter_witness :
  exists (shown : list JsObject) (title : JsValue),
    snd (executeJsonTool Samples.sample_host "plot_metric_vs_time"
           [("metric", JStr "view_count")] 0 (Samples.dataset_at_0 Samples.dated))
    = Normal (ChartResult (JStr "view_count") title
                (map (chart_point Samples.sample_host (JStr "view_count")) shown))
    /\ shown <> []
    /\ StronglySorted (key_le (release_time Samples.sample_host)) shown.
Proof.
  destruct (chart_points_follow_the_filter Samples.sample_host
              [("metric", JStr "view_count")] 0 (Samples.dataset_at_0 Samples.dated)
              Samples.dated eq_refl) as (_ & Hchart & _).
  destruct Hchart as (shown & title & Hresult & Hne & _ & _ & Hsorted);
    [discriminate|].
  exists shown, title. split; [exact Hresult|]. split; [exact Hne|].
  apply Hsorted. intros v Hv.
  repeat (apply elem_of_cons in Hv as [->|Hv]; [discriminate|]).
  apply elem_of_nil in Hv. contradiction.
Defined.

(** C6, as the claim has it, fails: a record whose [release_date] is text
    that is no date passes the filter, so the chart holds a point without a
    time value, dated "Invalid Date".  The comparator returns [NaN] for every
    pair of these two records, so the sort leaves them as they are; and
    whatever their order, the points are not in order of time, as one of
    them has none. *)
Lemma chart_keeps_unreadable_dates :
  snd (executeJsonTool Samples.sample_host "plot_metric_vs_time"
         [("metric", JStr "view_count")] 0 (Samples.dataset_at_0 Samples.soon))
  = Normal (ChartResult (JStr "view_count") (JStr "view_count over time")
              [ {| date := "Invalid Date"; fullDate := JStr "soon";
                   value := Fin (inject_Z 5); point_title := JStr "A" |};
                {| date := "t1577836800000"; fullDate := JStr "2020";
                   value := Fin (inject_Z 7); point_title := JStr "B" |} ])
  /\ Date_new Samples.sample_host (JStr "soon") = None
  /\ (forall a b, a ∈ Samples.soon -> b ∈ Samples.soon -> a <> b ->
        by_release_date Samples.sample_host a b = NaN).
Proof.
  split; [vm_compute; reflexivity|]. split; [reflexivity|].
  intros a b Ha Hb Hab.
  repeat (apply elem_of_cons in Ha as [->|Ha]);
    repeat (apply elem_of_cons in Hb as [->|Hb]);
    try (apply elem_of_nil in Ha; contradiction);
    try (apply elem_of_nil in Hb; contradiction);
    try reflexivity; contradiction.
Qed.

(** The chart of that dataset: the record of 2020 first, its view count
    read from the text "12abc"; the record without the metric is left out. *)
Example chart_of_dated :
  snd (executeJsonTool Samples.sample_host "plot_metric_vs_time"
         [("metric", JStr "view_count")] 0 (Samples.dataset_at_0 Samples.dated))
  = Normal (ChartResult (JStr "view_count") (JStr "view_count over time")
              [ {| date := "t1577836800000"; fullDate := JStr "2020";
                   value := Fin (inject_Z 12); point_title := JStr "A" |};
                {| date := "t1609459200000"; fullDate := JStr "2021";
                   value := Fin (inject_Z 300); point_title := JStr "B" |} ]).
Proof. vm_compute. reflexivity. Qed.

(** End-to-end scenario 4: no record has a date, so no chart is returned. *)
Example chart_without_dates :
  snd (executeJsonTool Samples.sample_host "plot_metric_vs_time"
         [("metric", JStr "view_count")] 0 (Samples.dataset_at_0 Samples.abc))
  = Normal (ErrorResult ("No data found for metric " ++ dquote ++ "view_count" ++ dquote
                           ++ " with release dates.")).
Proof. vm_compute. reflexivity. Qed.

End ChartFacts.

(** ** The log of a turn and the messages it sends *)

Module LogFacts.
Import Js Gemini GeminiTrace GeminiFacts.

Section Log.
Context {R W : Type} (has_chartType is_video_card : R -> bool).
Context (remote : @Remote R W) (executeFn : string -> JsObject -> StE W R).

Local Abbreviation loop := (tool_loop has_chartType is_video_card remote executeFn).

(** What a loop that ends normally has added to the arrays. *)
Lemma tool_loop_log cards remaining :
  forall response log w w' last log',
    loop cards remaining response log w = (w', Normal (last, log')) ->
    exists calls : list (@ToolCall R),
      toolCalls log' = toolCalls log ++ calls
      /\ length calls <= remaining
      /\ charts log' = charts log ++ List.filter has_chartType (map call_result calls)
      /\ videoCards log'
         = videoCards log
           ++ List.filter (fun r => cards && is_video_card r) (map call_result calls)
      /\ (find_functionCall (parts last) = None \/ length calls = remaining).
Proof.
  induction remaining as [|k IH]; intros response log w w' last log' Hrun.
  - simpl in Hrun. injection Hrun as <- <- <-. exists [].
    rewrite !app_nil_r. repeat split; auto.
  - destruct (find_functionCall (parts response)) as [fc|] eqn:Hcall.
    + rewrite (tool_loop_round has_chartType is_video_card remote executeFn
                 cards k response log w fc Hcall) in Hrun.
      destruct (call_tool remote executeFn cards fc w) as [w1 [toolResult|e]];
        [|discriminate].
      destruct (sendMessage remote (FunctionResponse (name fc) toolResult) w1)
        as [w2 [response'|e]]; [|discriminate].
      destruct (IH _ _ _ _ _ _ Hrun) as (calls & Hcalls & Hlen & Hcharts & Hcards & Hend).
      exists ({| call_name := name fc; call_args := args fc; call_result := toolResult |}
                :: calls).
      simpl in Hcalls, Hcharts, Hcards.
      split; [rewrite Hcalls, <- app_assoc; reflexivity|].
      split; [simpl; lia|].
      split.
      { rewrite Hcharts. simpl. destruct (has_chartType toolResult).
        - rewrite <- app_assoc. reflexivity.
        - reflexivity. }
      split.
      { rewrite Hcards. simpl. destruct (cards && is_video_card toolResult).
        - rewrite <- app_assoc. reflexivity.
        - reflexivity. }
      destruct Hend as [Hnone|Hfull]; [left; exact Hnone|right; simpl; lia].
    + rewrite (tool_loop_break has_chartType is_video_card remote executeFn
                 cards (S k) response log w Hcall) in Hrun.
      injection Hrun as <- <- <-. exists [].
      rewrite !app_nil_r. repeat split; auto. simpl. lia.
Qed.

(** The same for a whole turn. *)
Lemma run_chat_log cards history message userName st st' answer :
  run_chat has_chartType is_video_card remote executeFn cards history message userName st
  = (st', Normal answer) ->
  let calls := toolCalls (answer_log answer) in
  length calls <= 5
  /\ charts (answer_log answer) = List.filter has_chartType (map call_result calls)
  /\ videoCards (answer_log answer)
     = List.filter (fun r => cards && is_video_card r) (map call_result calls)
  /\ exists last : Response,
       text last = Normal (answer_text answer)
       /\ (find_functionCall (parts last) = None \/ length calls = 5).
Proof.
  rewrite run_chat_steps.
  destruct (loadSystemPrompt remote userName st) as [st1 [sys|e]]; [|discriminate].
  cbv beta iota zeta.
  destruct (startChat remote (chatHistory sys history) (world st1)) as [w0 [[]|e]];
    [|discriminate].
  destruct (sendMessage remote (UserMessage message) w0) as [w1 [response|e]];
    [|discriminate].
  destruct (loop cards MAX_ROUNDS response empty_log w1) as [w2 [[last log]|e]] eqn:Hloop;
    [|discriminate].
  cbn [fst snd].
  destruct (text last) as [t|e] eqn:Htext; [|discriminate].
  intros [= <- <-]. cbn [answer_log answer_text].
  destruct (tool_loop_log cards MAX_ROUNDS _ _ _ _ _ _ Hloop)
    as (calls & Hcalls & Hlen & Hcharts & Hcards & Hend).
  simpl in Hcalls, Hcharts, Hcards. subst calls. cbv zeta.
  repeat split; try assumption.
  exists last. split; assumption.
Qed.

End Log.

Section Trace.
Context {R W : Type} (has_chartType is_video_card : R -> bool).
Context (remote : @Remote R W) (executeFn : string -> JsObject -> StE W R).

Local Abbreviation traced_loop :=
  (tool_loop has_chartType is_video_card (tracing_remote remote)
     (traced_executeFn executeFn)).

(** Tracing does not change the call of the executor. *)
Lemma tracing_call_tool cards fc w (trace : list (@Request R)) :
  call_tool (tracing_remote remote) (traced_executeFn executeFn) cards fc (w, trace)
  = let '(w1, r) := call_tool remote executeFn cards fc w in ((w1, trace), r).
Proof.
  unfold call_tool, bind, traced_executeFn, untraced. cbn [fst snd].
  destruct (executeFn (name fc) (args fc) w) as [w1 [called|e]]; [|reflexivity].
  destruct cards; [|reflexivity].
  cbn [tracing_remote await]. unfold untraced. cbn [fst snd].
  destruct (await remote called w1) as [w2 r]. reflexivity.
Qed.

(** Tracing does not change the run of the loop. *)
Lemma tracing_loop_erases cards remaining :
  forall response log w trace,
    (fst (fst (traced_loop cards remaining response log (w, trace))),
     snd (traced_loop cards remaining response log (w, trace)))
    = tool_loop has_chartType is_video_card remote executeFn cards remaining response log w.
Proof.
  induction remaining as [|k IH]; intros response log w trace; simpl.
  - reflexivity.
  - destruct (find_functionCall (parts response)) as [fc|]; simpl; [|reflexivity].
    unfold bind. rewrite tracing_call_tool.
    destruct (call_tool remote executeFn cards fc w) as [w1 [toolResult|e]]; simpl;
      [|reflexivity].
    destruct (sendMessage remote (FunctionResponse (name fc) toolResult) w1)
      as [w2 [response'|e]]; simpl; [|reflexivity].
    apply IH.
Qed.

(** A loop that ends normally has sent one function response for each call
    it recorded, in the order of the calls. *)
Lemma traced_loop_sent cards remaining :
  forall response log w trace w' trace' last log',
    traced_loop cards remaining response log (w, trace) = ((w', trace'), Normal (last, log')) ->
    exists calls : list (@ToolCall R),
      toolCalls log' = toolCalls log ++ calls
      /\ trace' = trace ++ map response_of calls.
Proof.
  induction remaining as [|k IH]; intros response log w trace w' trace' last log' Hrun.
  - simpl in Hrun. injection Hrun as <- <- <- <-. exists [].
    simpl. rewrite !app_nil_r. split; reflexivity.
  - simpl in Hrun. destruct (find_functionCall (parts response)) as [fc|].
    + unfold bind in Hrun. rewrite tracing_call_tool in Hrun.
      destruct (call_tool remote executeFn cards fc w) as [w1 [toolResult|e]];
        simpl in Hrun; [|discriminate].
      destruct (sendMessage remote (FunctionResponse (name fc) toolResult) w1)
        as [w2 [response'|e]]; simpl in Hrun; [|discriminate].
      destruct (IH _ _ _ _ _ _ _ _ Hrun) as (calls & Hcalls & Htrace).
      exists ({| call_name := name fc; call_args := args fc; call_result := toolResult |}
                :: calls).
      simpl in Hcalls. split.
      * rewrite Hcalls, <- app_assoc. reflexivity.
      * rewrite Htrace, <- app_assoc. reflexivity.
    + injection Hrun as <- <- <- <-. exists [].
      simpl. rewrite !app_nil_r. split; reflexivity.
Qed.

Lemma tracing_loadSystemPrompt userName (st : @State (W * list (@Request R))) :
  (stop_tracing (fst (loadSystemPrompt (tracing_remote remote) userName st)),
   snd (loadSystemPrompt (tracing_remote remote) userName st))
  = loadSystemPrompt remote userName (stop_tracing st)
  /\ sent (fst (loadSystemPrompt (tracing_remote remote) userName st)) = sent st.
Proof.
  destruct st as [[w trace] cached]. unfold loadSystemPrompt, stop_tracing, sent.
  simpl. destruct cached as [[|c r]|]; simpl;
    try (destruct (fetch_prompt remote w) as [w' body]; simpl); auto.
Qed.

Local Opaque MAX_ROUNDS.

(** Tracing does not change the run of a turn. *)
Lemma tracing_erases cards history message userName (st : @State W) :
  let traced :=
    run_chat has_chartType is_video_card (tracing_remote remote)
      (traced_executeFn executeFn) cards history message userName (start_tracing st) in
  (stop_tracing (fst traced), snd traced)
  = run_chat has_chartType is_video_card remote executeFn cards history message userName st.
Proof.
  cbv zeta. rewrite !run_chat_steps.
  destruct (tracing_loadSystemPrompt userName (start_tracing st)) as [Hload _].
  replace (stop_tracing (start_tracing st)) with st in Hload by (destruct st; reflexivity).
  rewrite <- Hload. clear Hload.
  destruct (loadSystemPrompt (tracing_remote remote) userName (start_tracing st))
    as [st1 [sys|e]]; simpl; [|reflexivity].
  destruct st1 as [[w1 trace1] cached1]. unfold stop_tracing. simpl. unfold untraced. simpl.
  destruct (startChat remote (chatHistory sys history) w1) as [w0 [[]|e]]; simpl;
    [|reflexivity].
  destruct (sendMessage remote (UserMessage message) w0) as [w2 [response|e]];
    simpl; [|reflexivity].
  pose proof (tracing_loop_erases cards MAX_ROUNDS response empty_log w2
                (trace1 ++ [UserMessage message])) as Herase.
  destruct (tool_loop has_chartType is_video_card (tracing_remote remote)
              (traced_executeFn executeFn) cards MAX_ROUNDS response empty_log
              (w2, trace1 ++ [UserMessage message]))
    as [[w3 trace3] [last|e]]; simpl in *; rewrite <- Herase; reflexivity.
Qed.

(** What a turn that ends normally has sent. *)
Lemma run_chat_sent cards history message userName (st : @State W) st' answer :
  run_chat has_chartType is_video_card (tracing_remote remote)
    (traced_executeFn executeFn) cards history message userName (start_tracing st)
  = (st', Normal answer) ->
  sent st' = UserMessage message :: map response_of (toolCalls (answer_log answer)).
Proof.
  rewrite run_chat_steps.
  destruct (tracing_loadSystemPrompt userName (start_tracing st)) as [_ Hsame].
  destruct (loadSystemPrompt (tracing_remote remote) userName (start_tracing st))
    as [st1 [sys|e]]; [|discriminate].
  destruct st1 as [[w1 trace1] cached1]. unfold sent in Hsame. simpl in Hsame. subst trace1.
  cbv beta iota zeta. simpl. unfold untraced. simpl.
  destruct (startChat remote (chatHistory sys history) w1) as [w0 [[]|e]]; simpl;
    [|intros Hrun; discriminate Hrun].
  destruct (sendMessage remote (UserMessage message) w0) as [w2 [response|e]];
    simpl; [|intros Hrun; discriminate Hrun].
  destruct (tool_loop has_chartType is_video_card (tracing_remote remote)
              (traced_executeFn executeFn) cards MAX_ROUNDS response empty_log
              (w2, [UserMessage message]))
    as [[w3 trace3] [[last log]|e]] eqn:Hloop; simpl; [|discriminate].
  destruct (text last) as [t|e]; [|discriminate].
  intros [= <- <-]. unfold sent. simpl.
  destruct (traced_loop_sent cards MAX_ROUNDS _ _ _ _ _ _ _ _ Hloop)
    as (calls & Hcalls & Htrace).
  simpl in Hcalls. subst calls. exact Htrace.
Qed.

End Trace.

(** X1.  A turn of [chatWithJsonTools] or [chatWithCsvTools] that ends
    normally returns at most 5 tool calls; [charts] holds the results of
    those calls that carry [_chartType], in call order; [videoCards] holds
    those tagged as video cards (and is empty on the CSV path).  The
    responses the turn received are one for each recorded call, each asking
    for that call, in call order, and then a last one; the text returned is
    the text of that last response, which either asks for no call or follows
    the fifth call. *)
Theorem turn_log_is_consistent :
  forall (R W : Type) (has_chartType is_video_card : R -> bool)
         (remote : @Remote R W) (executeFn : string -> JsObject -> StE W R)
         (history : list Message) (newMessage userName : string)
         (csvHeaders : option (list string)) (st st' : @State W) (answer : @Answer R)
         (cards : bool),
    (if cards
     then chatWithJsonTools has_chartType is_video_card remote executeFn history
            newMessage userName st
     else chatWithCsvTools has_chartType is_video_card remote executeFn history
            newMessage csvHeaders userName st)
    = (st', Normal answer) ->
    let calls := toolCalls (answer_log answer) in
    let observed_turn :=
      if cards
      then chatWithJsonTools has_chartType is_video_card (observing_remote remote)
             (observing_executeFn executeFn) history newMessage userName
             (start_observing st)
      else chatWithCsvTools has_chartType is_video_card (observing_remote remote)
             (observing_executeFn executeFn) history newMessage csvHeaders userName
             (start_observing st) in
    length calls <= 5
    /\ charts (answer_log answer) = List.filter has_chartType (map call_result calls)
    /\ videoCards (answer_log answer)
       = (if cards then List.filter is_video_card (map call_result calls) else [])
    /\ snd observed_turn = Normal answer
    /\ exists (earlier : list Response) (last : Response),
         received (events (fst observed_turn)) = earlier ++ [last]
         /\ Forall2 asked_for earlier calls
         /\ text last = Normal (answer_text answer)
         /\ (find_functionCall (parts last) = None \/ length calls = 5).
Proof.
  intros R W has_chartType is_video_card remote executeFn history newMessage userName
         csvHeaders st st' answer cards Hrun calls observed_turn.
  assert (Hturn : (if cards
                   then chatWithJsonTools has_chartType is_video_card remote executeFn
                          history newMessage userName st
                   else chatWithCsvTools has_chartType is_video_card remote executeFn
                          history newMessage csvHeaders userName st)
                  = run_chat has_chartType is_video_card remote executeFn cards history
                      (if cards then newMessage else msgWithContext csvHeaders newMessage)
                      userName st)
    by (destruct cards; reflexivity).
  assert (Hobserved : observed_turn
                      = run_chat has_chartType is_video_card (observing_remote remote)
                          (observing_executeFn executeFn) cards history
                          (if cards then newMessage
                           else msgWithContext csvHeaders newMessage)
                          userName (start_observing st))
    by (subst observed_turn; destruct cards; reflexivity).
  rewrite Hturn in Hrun. rewrite Hobserved. clear Hturn Hobserved observed_turn.
  destruct (run_chat_log has_chartType is_video_card remote executeFn cards _ _ _ _ _ _
              Hrun) as (Hlen & Hcharts & Hcards & Hend).
  fold calls in Hlen, Hcharts, Hcards, Hend.
  pose proof (observing_erases has_chartType is_video_card remote executeFn cards history
                (if cards then newMessage else msgWithContext csvHeaders newMessage)
                userName st) as Herase.
  cbv zeta in Herase. rewrite Hrun in Herase. injection Herase as _ Hanswer.
  destruct (observing_run_chat_events has_chartType is_video_card remote executeFn cards
              history (if cards then newMessage else msgWithContext csvHeaders newMessage)
              userName st) as (_ & _ & _ & Hlog).
  destruct (Hlog answer Hanswer) as (earlier & last & Hreceived & Htext & Hasked & Hlast).
  split; [exact Hlen|]. split; [exact Hcharts|]. split.
  { rewrite Hcards. destruct cards; [reflexivity|].
    clear. induction (map call_result calls); [reflexivity|assumption]. }
  split; [exact Hanswer|].
  exists earlier, last. split; [exact Hreceived|]. split; [exact Hasked|].
  split; [exact Htext|exact Hlast].
Qed.

Lemma turn_log_is_consistent_witness :
  exists (st' : @State nat) (answer : @Answer JsonTools.ToolResult),
    chatWithJsonTools JsonTools.has_chartType JsonTools.is_video_card
      Samples.insisting_remote Samples.scenario_executor [] "play" "Ann"
      Samples.fresh_state = (st', Normal answer)
    /\ length (toolCalls (answer_log answer)) <= 5
    /\ videoCards (answer_log answer)
       = List.filter JsonTools.is_video_card
           (map call_result (toolCalls (answer_log answer))).
Proof.
  eexists _, _. split; [vm_compute; reflexivity|].
  destruct (turn_log_is_consistent _ _ JsonTools.has_chartType JsonTools.is_video_card
              Samples.insisting_remote Samples.scenario_executor [] "play" "Ann" None
              Samples.fresh_state _ _ true
              ltac:(vm_compute; reflexivity))
    as (Hlen & _ & Hcards & _).
  split; [exact Hlen|exact Hcards].
Defined.

(** X2.  In a turn that ends normally the messages sent to the model are the
    user message (with the CSV columns in front on the CSV path), then one
    function response for each recorded tool call, in call order, carrying
    that call's name and result.  Nothing else is sent. *)
Theorem turn_sends_one_response_per_call :
  forall (R W : Type) (has_chartType is_video_card : R -> bool)
         (remote : @Remote R W) (executeFn : string -> JsObject -> StE W R)
         (history : list Message) (newMessage userName : string)
         (csvHeaders : option (list string)) (st : @State W)
         (st' : @State (W * list (@Request R))) (answer : @Answer R) (cards : bool),
    (if cards
     then chatWithJsonTools has_chartType is_video_card (tracing_remote remote)
            (traced_executeFn executeFn) history newMessage userName (start_tracing st)
     else chatWithCsvTools has_chartType is_video_card (tracing_remote remote)
            (traced_executeFn executeFn) history newMessage csvHeaders userName
            (start_tracing st))
    = (st', Normal answer) ->
    sent st'
    = UserMessage (if cards then newMessage else msgWithContext csvHeaders newMessage)
      :: map response_of (toolCalls (answer_log answer)).
Proof.
  intros R W has_chartType is_video_card remote executeFn history newMessage userName
         csvHeaders st st' answer cards Hrun.
  destruct cards.
  - exact (run_chat_sent has_chartType is_video_card remote executeFn true _ _ _ _ _ _ Hrun).
  - exact (run_chat_sent has_chartType is_video_card remote executeFn false _ _ _ _ _ _ Hrun).
Qed.

Lemma turn_sends_one_response_per_call_witness :
  exists (st' : @State (nat * list (@Request JsonTools.ToolResult)))
         (answer : @Answer JsonTools.ToolResult),
    chatWithCsvTools JsonTools.has_chartType JsonTools.is_video_card
      (tracing_remote Samples.insisting_remote)
      (traced_executeFn Samples.scenario_executor) [] "play" (Some ["title"; "views"])
      EmptyString (start_tracing Samples.fresh_state) = (st', Normal answer)
    /\ sent st'
       = UserMessage (msgWithContext (Some ["title"; "views"]) "play")
         :: map response_of (toolCalls (answer_log answer))
    /\ length (sent st') = 6.
Proof.
  eexists _, _. split; [vm_compute; reflexivity|]. split.
  - apply (turn_sends_one_response_per_call _ _ JsonTools.has_chartType
             JsonTools.is_video_card Samples.insisting_remote Samples.scenario_executor
             [] "play" EmptyString (Some ["title"; "views"]) Samples.fresh_state _ _ false).
    vm_compute. reflexivity.
  - vm_compute. reflexivity.
Defined.

End LogFacts.

(** ** [play_video]: failures, criteria and title matches *)

Module ResolverFacts.
Import Js Heap JsonTools Notions Criteria HeapFacts SortFacts NumberFacts PlayFacts.

Lemma toLowerCase_method_throws x e :
  toLowerCase_method x = Throw e -> e = TypeError_toLowerCase.
Proof. destruct x; simpl; intros [=]; subst; reflexivity. Qed.

Lemma toLowerCase_method_text x :
  text_or_falsy x = true ->
  exists s, toLowerCase_method (or_else x (JStr EmptyString)) = Normal s.
Proof.
  unfold text_or_falsy. destruct (or_else x (JStr EmptyString)); try discriminate.
  intros _. eexists. reflexivity.
Qed.

Lemma toLowerCase_method_not_text x :
  text_or_falsy x = false ->
  toLowerCase_method (or_else x (JStr EmptyString)) = Throw TypeError_toLowerCase.
Proof.
  unfold text_or_falsy. destruct (or_else x (JStr EmptyString)); try discriminate;
    reflexivity.
Qed.

Lemma lower_title_text v :
  text_or_falsy (get v "title") = true -> exists t, lower_title v = Normal t.
Proof. apply toLowerCase_method_text. Qed.

(** [find] on callbacks that may throw: an exception is that of a callback on
    an element of the array. *)
Lemma find_first_throws (p : JsObject -> Completion bool) records e :
  find_first p records = Throw e -> exists v, v ∈ records /\ p v = Throw e.
Proof.
  induction records as [|v rest IH]; simpl; [discriminate|].
  destruct (p v) as [[|]|e'] eqn:Hp.
  - discriminate.
  - intros Hrest. destruct (IH Hrest) as (w & Hw & Hpw).
    exists w. split; [right; exact Hw|exact Hpw].
  - intros [= ->]. exists v. split; [left|exact Hp].
Qed.

(** [List.find] gives the first element that passes the test. *)
Lemma find_Some_first {A : Type} (q : A -> bool) (l : list A) (v : A) :
  List.find q l = Some v ->
  exists i, l !! i = Some v /\ q v = true
            /\ (forall j w, j < i -> l !! j = Some w -> q w = false).
Proof.
  induction l as [|x l IH]; simpl; [discriminate|].
  destruct (q x) eqn:Hq.
  - intros [= ->]. exists 0. repeat split; [exact Hq|]. intros j w Hj. lia.
  - intros Hfind. destruct (IH Hfind) as (i & Hi & Hv & Hearly).
    exists (S i). repeat split; [exact Hi|exact Hv|].
    intros [|j] w Hj Hw; simpl in Hw.
    + injection Hw as <-. exact Hq.
    + apply (Hearly j w); [lia|exact Hw].
Qed.

Lemma find_None_all {A : Type} (q : A -> bool) (l : list A) :
  List.find q l = None -> forall w, w ∈ l -> q w = false.
Proof.
  induction l as [|x l IH]; simpl; intros Hfind w Hw.
  - apply elem_of_nil in Hw. contradiction.
  - destruct (q x) eqn:Hq; [discriminate|].
    apply elem_of_cons in Hw as [->|Hw]; [exact Hq|apply IH; assumption].
Qed.

Section Steps.
Context (host : Host).

(** The ordinal step reads the array and nothing else. *)
Lemma ordinal_match_run query videos (h : heap) records :
  h !! videos = Some records ->
  exists found, ordinal_match query videos h = (h, Normal found)
                /\ (forall v, found = Some v -> v ∈ records).
Proof.
  intros Hv.
  assert (Hat : forall i, exists found,
             Array_at videos i h = (h, Normal found)
             /\ (forall v, found = Some v -> v ∈ records)).
  { intros i. rewrite (Array_at_run _ _ _ _ Hv). eexists. split; [reflexivity|].
    intros v. destruct (i <? 0)%Z; [discriminate|].
    intros Hi. eapply list_elem_of_lookup_2. exact Hi. }
  unfold ordinal_match.
  destruct (get ordinals query) as [| | |[| | |q]| |];
    try (exists None; split; [reflexivity|discriminate]).
  - unfold numeral_suffix_match.
    destruct (search false ordinal_suffix_re query); [apply Hat|].
    exists None. split; [reflexivity|discriminate].
  - unfold Array_at_value. destruct (Qeq_bool q (inject_Z (Qfloor q))); [apply Hat|].
    exists None. split; [reflexivity|discriminate].
Qed.

(** The criteria step: the head of a sorted copy, for the criterion the
    query selects. *)
Lemma criteria_match_run query videos (h : heap) records :
  h !! videos = Some records ->
  exists h',
    criteria_match host query videos None h =
      (h', Normal (match criterion_of query with
                   | Some c => head (sort (comparator host c) records)
                   | None => None
                   end))
    /\ h' !! videos = Some records.
Proof.
  intros Hv. unfold criteria_match, bind. rewrite (Array_spread_run _ _ _ Hv).
  assert (Hsorted : forall cmp,
             head_sorted cmp (fresh (dom h)) (<[fresh (dom h) := records]> h)
             = (<[fresh (dom h) := sort cmp records]> (<[fresh (dom h) := records]> h),
                Normal (head (sort cmp records)))).
  { intros cmp. unfold head_sorted, bind.
    rewrite (Array_sort_run _ _ _ records) by apply lookup_insert_eq.
    rewrite (Array_at_run _ _ (sort cmp records)) by apply lookup_insert_eq.
    simpl. rewrite head_lookup. reflexivity. }
  assert (Hkept : forall xs,
             (<[fresh (dom h) := xs]> (<[fresh (dom h) := records]> h)) !! videos
             = Some records).
  { intros xs. rewrite lookup_insert_ne.
    - apply alloc_keeps. exact Hv.
    - intros Heq. rewrite <- Heq, fresh_is_free in Hv. discriminate. }
  unfold criterion_of.
  repeat match goal with
         | |- context [if test true ?r query then _ else _] =>
             destruct (test true r query);
             [rewrite Hsorted; eexists; split; [reflexivity|apply Hkept]|]
         end.
  eexists. split; [reflexivity|]. apply alloc_keeps. exact Hv.
Qed.

(** The whole search, step by step. *)
Lemma find_video_run query videos (h : heap) records :
  h !! videos = Some records ->
  exists (found0 : option JsObject) (h' : heap),
    ordinal_match query videos h = (h, Normal found0)
    /\ (forall v, found0 = Some v -> v ∈ records)
    /\ find_video host query videos h =
         match found0 with
         | Some v => (h, Normal (Some v))
         | None =>
             match (match criterion_of query with
                    | Some c => head (sort (comparator host c) records)
                    | None => None
                    end) with
             | Some v => (h', Normal (Some v))
             | None =>
                 (h', match find_first (title_has_every (split_ws query)) records with
                      | Normal None => find_first (title_has_some (split_ws query)) records
                      | found => found
                      end)
             end
         end.
Proof.
  intros Hv.
  destruct (ordinal_match_run query videos h records Hv) as (found0 & Hord & Hin).
  destruct (criteria_match_run query videos h records Hv) as (h' & Hcrit & Hv').
  exists found0, h'. split; [exact Hord|]. split; [exact Hin|].
  unfold find_video, bind. rewrite Hord. destruct found0 as [v|].
  - reflexivity.
  - rewrite Hcrit.
    destruct (match criterion_of query with
              | Some c => head (sort (comparator host c) records)
              | None => None
              end) as [v|].
    + reflexivity.
    + apply (title_match_run query videos h' records Hv').
Qed.

(** [play_video] on a dataset, in terms of the search. *)
Lemma play_video_cases args videos (h : heap) records :
  h !! videos = Some records ->
  snd (play_video host args videos h) =
    match normalized_query args with
    | Throw e => Throw e
    | Normal query =>
        match records with
        | [] => Normal (ErrorResult "No videos loaded.")
        | _ =>
            match snd (find_video host query videos h) with
            | Normal (Some v) => Normal (video_card host v)
            | Normal None =>
                Normal (ErrorResult ("No video found matching " ++ dquote
                                       ++ ToString host (get args "query") ++ dquote ++ "."))
            | Throw e => Throw e
            end
        end
    end.
Proof.
  intros Hv. destruct (normalized_query args) as [query|e] eqn:Hq.
  - destruct records as [|v0 rest].
    + unfold play_video, bind, lift. rewrite Hq.
      rewrite (Array_length_run _ _ _ Hv). reflexivity.
    + rewrite (play_video_run host args videos h (v0 :: rest) query Hq Hv) by discriminate.
      reflexivity.
  - unfold play_video, bind, lift. rewrite Hq. reflexivity.
Qed.

Lemma lower_title_throws v e :
  lower_title v = Throw e ->
  e = TypeError_toLowerCase /\ text_or_falsy (get v "title") = false.
Proof.
  unfold lower_title. intros Hthrow. split.
  - apply (toLowerCase_method_throws _ _ Hthrow).
  - destruct (text_or_falsy (get v "title")) eqn:Htext; [|reflexivity].
    destruct (toLowerCase_method_text _ Htext) as (s & Hs). congruence.
Qed.

Lemma normalized_query_throws args e :
  normalized_query args = Throw e ->
  e = TypeError_toLowerCase /\ text_or_falsy (get args "query") = false.
Proof.
  unfold normalized_query. intros Hthrow.
  destruct (toLowerCase_method (or_else (get args "query") (JStr EmptyString)))
    as [s|e'] eqn:Hlow; [discriminate|].
  simpl in Hthrow. injection Hthrow as ->. split.
  - apply (toLowerCase_method_throws _ _ Hlow).
  - destruct (text_or_falsy (get args "query")) eqn:Htext; [|reflexivity].
    destruct (toLowerCase_method_text _ Htext) as (s & Hs). congruence.
Qed.

(** An exception of the title match comes from a record whose title is no
    text. *)
Lemma title_search_throws terms records e :
  match find_first (title_has_every terms) records with
  | Normal None => find_first (title_has_some terms) records
  | found => found
  end = Throw e ->
  e = TypeError_toLowerCase
  /\ exists v, v ∈ records /\ text_or_falsy (get v "title") = false.
Proof.
  intros Hthrow.
  assert (Hcb : exists v, v ∈ records /\ lower_title v = Throw e).
  { destruct (find_first (title_has_every terms) records) as [[v|]|e'] eqn:Hevery.
    - discriminate.
    - destruct (find_first_throws _ _ _ Hthrow) as (v & Hv & Hp).
      exists v. split; [exact Hv|]. unfold title_has_some in Hp.
      destruct (lower_title v); [discriminate|simpl in Hp; congruence].
    - injection Hthrow as ->.
      destruct (find_first_throws _ _ _ Hevery) as (v & Hv & Hp).
      exists v. split; [exact Hv|]. unfold title_has_every in Hp.
      destruct (lower_title v); [discriminate|simpl in Hp; congruence]. }
  destruct Hcb as (v & Hv & Hlow). destruct (lower_title_throws v e Hlow) as [-> Htext].
  split; [reflexivity|]. exists v. split; assumption.
Qed.

Lemma play_video_throws args videos (h : heap) records e :
  h !! videos = Some records ->
  snd (play_video host args videos h) = Throw e ->
  e = TypeError_toLowerCase
  /\ (text_or_falsy (get args "query") = false
      \/ exists v, v ∈ records /\ text_or_falsy (get v "title") = false).
Proof.
  intros Hv. rewrite (play_video_cases args videos h records Hv).
  destruct (normalized_query args) as [query|e'] eqn:Hq.
  - destruct records as [|v0 rest]; [discriminate|].
    destruct (find_video_run query videos h (v0 :: rest) Hv)
      as (found0 & h' & _ & _ & Hfind).
    rewrite Hfind. destruct found0 as [v|]; [discriminate|].
    destruct (match criterion_of query with
              | Some c => head (sort (comparator host c) (v0 :: rest))
              | None => None
              end) as [v|]; [discriminate|].
    cbn [snd].
    destruct (match find_first (title_has_every (split_ws query)) (v0 :: rest) with
              | Normal None => find_first (title_has_some (split_ws query)) (v0 :: rest)
              | found => found
              end) as [[v|]|e'] eqn:Htitle; try discriminate.
    intros [= ->]. destruct (title_search_throws _ _ _ Htitle) as [-> Hbad].
    split; [reflexivity|right; exact Hbad].
  - intros [= ->]. destruct (normalized_query_throws _ _ Hq) as [-> Htext].
    split; [reflexivity|left; exact Htext].
Qed.

Lemma play_video_returns args videos (h : heap) records r :
  h !! videos = Some records ->
  snd (play_video host args videos h) = Normal r ->
  is_error r = true \/ is_video_card r = true.
Proof.
  intros Hv. rewrite (play_video_cases args videos h records Hv).
  destruct (normalized_query args) as [query|e']; [|discriminate].
  destruct records as [|v0 rest]; [intros [= <-]; left; reflexivity|].
  destruct (snd (find_video host query videos h)) as [[v|]|e']; intros [= <-];
    [right|left]; reflexivity.
Qed.

End Steps.

(** *** The criteria *)

Section Best.
Context (host : Host).

Lemma Date_sub_pos (a b : option Z) (x y : Z) :
  a = Some x -> b = Some y ->
  nlt (Fin 0) (Date_sub a b) = nlt (Fin (inject_Z y)) (Fin (inject_Z x)).
Proof.
  intros -> ->. simpl.
  destruct (Qltb (inject_Z y) (inject_Z x)) eqn:Hyx.
  - apply Qltb_lt. apply Qltb_lt in Hyx. rewrite <- Zlt_Qlt in Hyx.
    change 0%Q with (inject_Z 0). rewrite <- Zlt_Qlt. lia.
  - apply Qltb_false. apply Qltb_false in Hyx. rewrite <- Zle_Qle in Hyx.
    change 0%Q with (inject_Z 0). rewrite <- Zle_Qle. lia.
Qed.

(** The comparator of a criterion puts [x] before [y] exactly when [x] is
    ahead of [y]. *)
Lemma before_ahead c x y :
  measure host c x <> NaN -> measure host c y <> NaN ->
  before (comparator host c) x y <-> ahead host c x y = true.
Proof.
  intros Hx Hy. unfold before, comes_after, ahead.
  destruct c; cbn [comparator measure wants_largest] in *;
    try (unfold descending; rewrite (nsub_pos _ _ Hy Hx); reflexivity);
    try (unfold ascending; rewrite (nsub_pos _ _ Hx Hy); reflexivity);
    unfold date_number in *;
    destruct (release_or_epoch host x) as [tx|] eqn:Htx; try congruence;
    destruct (release_or_epoch host y) as [ty|] eqn:Hty; try congruence.
  - rewrite (Date_sub_pos _ _ tx ty eq_refl eq_refl). reflexivity.
  - rewrite (Date_sub_pos _ _ ty tx eq_refl eq_refl). reflexivity.
Qed.

Lemma ahead_asym c x y : ahead host c x y = true -> ahead host c y x = false.
Proof. unfold ahead. destruct (wants_largest c); apply nlt_asym. Qed.

Lemma ahead_cotrans c x y z :
  measure host c z <> NaN ->
  ahead host c x y = true -> ahead host c x z = true \/ ahead host c z y = true.
Proof.
  unfold ahead. intros Hz. destruct (wants_largest c); intros Hxy.
  - destruct (nlt_cotrans _ _ _ Hz Hxy); auto.
  - destruct (nlt_cotrans _ _ _ Hz Hxy); auto.
Qed.

(** The head of the copy sorted for a criterion: the earliest record that
    no record is ahead of. *)
Lemma head_best c (records : list JsObject) :
  records <> [] ->
  (forall v, v ∈ records -> measure host c v <> NaN) ->
  exists (i : nat) (v : JsObject),
    records !! i = Some v
    /\ head (sort (comparator host c) records) = Some v
    /\ (forall j w, records !! j = Some w -> ahead host c w v = false)
    /\ (forall j w, j < i -> records !! j = Some w -> ahead host c v w = true).
Proof.
  intros Hne Hkeys.
  assert (HP : forall j w, records !! j = Some w -> measure host c w <> NaN).
  { intros j w Hw. apply Hkeys. eapply list_elem_of_lookup_2. exact Hw. }
  destruct (sort_head (comparator host c) (fun v => measure host c v <> NaN))
    with (l := records) as (i & v & Hi & Hhead & Hmin & Hearly).
  - intros x y Hx Hy Hb Hb'.
    apply (before_ahead c x y Hx Hy) in Hb. apply (before_ahead c y x Hy Hx) in Hb'.
    apply ahead_asym in Hb. congruence.
  - intros x y z Hx Hy Hz Hb. apply (before_ahead c x y Hx Hy) in Hb.
    destruct (ahead_cotrans c x y z Hz Hb) as [Hxz|Hzy].
    + left. apply (before_ahead c x z Hx Hz). exact Hxz.
    + right. apply (before_ahead c z y Hz Hy). exact Hzy.
  - rewrite Forall_forall. exact Hkeys.
  - exact Hne.
  - exists i, v. repeat split; try assumption.
    + intros j w Hw. apply not_true_is_false. intros Hahead.
      apply (Hmin j w Hw). apply (before_ahead c w v (HP j w Hw) (HP i v Hi)).
      exact Hahead.
    + intros j w Hj Hw. apply (before_ahead c v w (HP i v Hi) (HP j w Hw)).
      apply (Hearly j w Hj Hw).
Qed.

(** *** The title match on titles that are text *)

Lemma title_has_every_text terms v :
  text_or_falsy (get v "title") = true ->
  title_has_every terms v = Normal (has_every_term terms v).
Proof.
  intros Htext. destruct (lower_title_text v Htext) as (t & Ht).
  unfold title_has_every, has_every_term. rewrite Ht. reflexivity.
Qed.

Lemma title_has_some_text terms v :
  text_or_falsy (get v "title") = true ->
  title_has_some terms v = Normal (has_some_term terms v).
Proof.
  intros Htext. destruct (lower_title_text v Htext) as (t & Ht).
  unfold title_has_some, has_some_term. rewrite Ht. reflexivity.
Qed.

Lemma title_search_text terms records :
  (forall v, v ∈ records -> text_or_falsy (get v "title") = true) ->
  match find_first (title_has_every terms) records with
  | Normal None => find_first (title_has_some terms) records
  | found => found
  end
  = Normal (match List.find (has_every_term terms) records with
            | Some v => Some v
            | None => List.find (has_some_term terms) records
            end).
Proof.
  intros Htext.
  rewrite (find_first_total (title_has_every terms) (has_every_term terms) records)
    by (intros v Hv; apply title_has_every_text, Htext, Hv).
  destruct (List.find (has_every_term terms) records); [reflexivity|].
  apply find_first_total. intros v Hv. apply title_has_some_text, Htext, Hv.
Qed.

End Best.

(** X4.  A query that selects a criterion (most or least viewed, most liked,
    latest, oldest, shortest, longest) and that the ordinal step leaves
    unresolved plays, on a non-empty dataset whose measures are numbers, the
    record no other record is ahead of by that criterion, and among equals the
    one that comes first in the dataset. *)
Theorem criteria_play_the_earliest_best :
  forall (host : Host) (args : JsObject) (query : string) (videos : loc) (h : heap)
         (records : list JsObject) (c : Criterion),
    h !! videos = Some records ->
    records <> [] ->
    normalized_query args = Normal query ->
    snd (ordinal_match query videos h) = Normal None ->
    criterion_of query = Some c ->
    (forall v, v ∈ records -> measure host c v <> NaN) ->
    exists (i : nat) (v : JsObject),
      records !! i = Some v
      /\ snd (play_video host args videos h) = Normal (video_card host v)
      /\ (forall j w, records !! j = Some w -> ahead host c w v = false)
      /\ (forall j w, j < i -> records !! j = Some w -> ahead host c v w = true).
Proof.
  intros host args query videos h records c Hv Hne Hq Hord Hc Hkeys.
  destruct (head_best host c records Hne Hkeys) as (i & v & Hi & Hhead & Hbest & Hearly).
  exists i, v. repeat split; try assumption.
  rewrite (play_video_cases host args videos h records Hv), Hq.
  destruct records as [|v0 rest]; [contradiction|].
  destruct (find_video_run host query videos h (v0 :: rest) Hv)
    as (found0 & h' & Hrun & _ & Hfind).
  rewrite Hrun in Hord. simpl in Hord. injection Hord as ->.
  rewrite Hfind, Hc, Hhead. reflexivity.
Qed.

Lemma criteria_play_the_earliest_best_witness :
  exists (i : nat) (v : JsObject),
    Samples.abc !! i = Some v
    /\ snd (play_video Samples.sample_host [("query", JStr "The LEAST viewed one")] 0
              (Samples.dataset_at_0 Samples.abc))
       = Normal (video_card Samples.sample_host v)
    /\ (forall j w, Samples.abc !! j = Some w ->
           ahead Samples.sample_host LeastViewed w v = false)
    /\ (forall j w, j < i -> Samples.abc !! j = Some w ->
           ahead Samples.sample_host LeastViewed v w = true).
Proof.
  apply (criteria_play_the_earliest_best Samples.sample_host
           [("query", JStr "The LEAST viewed one")] "the least viewed one" 0
           (Samples.dataset_at_0 Samples.abc) Samples.abc LeastViewed);
    [reflexivity|discriminate|reflexivity|reflexivity|reflexivity|].
  intros v Hv.
  repeat (apply elem_of_cons in Hv as [->|Hv];
          [intros Hnan; vm_compute in Hnan; discriminate Hnan|]).
  apply elem_of_nil in Hv. contradiction.
Defined.

(** X5.  When neither an ordinal nor a criterion resolves the query and the
    titles are text (or absent), the title decides: the result is the card of
    the first record whose lower-cased title holds every term of the query;
    when there is none, of the first record whose title holds some term
    longer than two characters; and the error result naming the query exactly
    when no record passes either test. *)
Theorem title_match_prefers_every_term :
  forall (host : Host) (args : JsObject) (query : string) (videos : loc) (h : heap)
         (records : list JsObject),
    h !! videos = Some records ->
    records <> [] ->
    normalized_query args = Normal query ->
    snd (ordinal_match query videos h) = Normal None ->
    criterion_of query = None ->
    (forall v, v ∈ records -> text_or_falsy (get v "title") = true) ->
    let every := has_every_term (split_ws query) in
    let some := has_some_term (split_ws query) in
    (exists (i : nat) (v : JsObject),
        records !! i = Some v
        /\ snd (play_video host args videos h) = Normal (video_card host v)
        /\ ((every v = true
             /\ forall j w, j < i -> records !! j = Some w -> every w = false)
            \/ ((forall w, w ∈ records -> every w = false)
                /\ some v = true
                /\ forall j w, j < i -> records !! j = Some w -> some w = false)))
    \/ (snd (play_video host args videos h)
        = Normal (ErrorResult ("No video found matching " ++ dquote
                                 ++ ToString host (get args "query") ++ dquote ++ "."))
        /\ forall w, w ∈ records -> every w = false /\ some w = false).
Proof.
  intros host args query videos h records Hv Hne Hq Hord Hc Htext every some.
  rewrite (play_video_cases host args videos h records Hv), Hq.
  destruct records as [|v0 rest]; [contradiction|].
  destruct (find_video_run host query videos h (v0 :: rest) Hv)
    as (found0 & h' & Hrun & _ & Hfind).
  rewrite Hrun in Hord. simpl in Hord. injection Hord as ->.
  rewrite Hfind, Hc. cbn [snd].
  rewrite (title_search_text (split_ws query) (v0 :: rest) Htext).
  fold every. fold some.
  destruct (List.find every (v0 :: rest)) as [v|] eqn:Hevery.
  - left. destruct (find_Some_first _ _ _ Hevery) as (i & Hi & Hpass & Hearly).
    exists i, v. split; [exact Hi|]. split; [reflexivity|]. left. split; assumption.
  - pose proof (find_None_all _ _ Hevery) as Hnone.
    destruct (List.find some (v0 :: rest)) as [v|] eqn:Hsome.
    + left. destruct (find_Some_first _ _ _ Hsome) as (i & Hi & Hpass & Hearly).
      exists i, v. split; [exact Hi|]. split; [reflexivity|]. right.
      split; [exact Hnone|]. split; assumption.
    + right. split; [reflexivity|]. intros w Hw. split.
      * apply Hnone, Hw.
      * apply (find_None_all _ _ Hsome), Hw.
Qed.

Lemma title_match_prefers_every_term_witness :
  let every := has_every_term (split_ws "play the first video") in
  let some := has_some_term (split_ws "play the first video") in
  (exists (i : nat) (v : JsObject),
      Samples.spring !! i = Some v
      /\ snd (play_video Samples.sample_host [("query", JStr "Play the first video")] 0
                (Samples.dataset_at_0 Samples.spring))
         = Normal (video_card Samples.sample_host v)
      /\ ((every v = true
           /\ forall j w, j < i -> Samples.spring !! j = Some w -> every w = false)
          \/ ((forall w, w ∈ Samples.spring -> every w = false)
              /\ some v = true
              /\ forall j w, j < i -> Samples.spring !! j = Some w -> some w = false)))
  \/ (snd (play_video Samples.sample_host [("query", JStr "Play the first video")] 0
             (Samples.dataset_at_0 Samples.spring))
      = Normal (ErrorResult ("No video found matching " ++ dquote
                               ++ "Play the first video" ++ dquote ++ "."))
      /\ forall w, w ∈ Samples.spring -> every w = false /\ some w = false).
Proof.
  apply (title_match_prefers_every_term Samples.sample_host
           [("query", JStr "Play the first video")] "play the first video" 0
           (Samples.dataset_at_0 Samples.spring) Samples.spring);
    [reflexivity|discriminate|reflexivity|reflexivity|reflexivity|].
  intros v Hv. repeat (apply elem_of_cons in Hv as [->|Hv]; [reflexivity|]).
  apply elem_of_nil in Hv. contradiction.
Defined.

(** X6.  A blank query (absent, falsy, or only white space) plays the first
    record of a non-empty dataset whose first title is text (or absent): the
    only term is the empty string, which every title holds.  On an empty
    dataset every text query gives the error result "No videos loaded.". *)
Theorem blank_query_plays_the_first :
  forall (host : Host) (args : JsObject) (videos : loc) (h : heap)
         (records : list JsObject),
    h !! videos = Some records ->
    text_or_falsy (get args "query") = true ->
    match records with
    | [] => snd (play_video host args videos h) = Normal (ErrorResult "No videos loaded.")
    | first :: _ =>
        blank_query (get args "query") = true ->
        text_or_falsy (get first "title") = true ->
        snd (play_video host args videos h) = Normal (video_card host first)
    end.
Proof.
  intros host args videos h records Hv Htext.
  rewrite (play_video_cases host args videos h records Hv).
  destruct records as [|v0 rest].
  - unfold normalized_query.
    destruct (toLowerCase_method_text _ Htext) as (s & ->). reflexivity.
  - intros Hblank Htitle.
    assert (Hq : normalized_query args = Normal EmptyString).
    { unfold normalized_query, blank_query, or_else in *.
      destruct (get args "query") as [| |b|n|s|]; simpl in *; try reflexivity;
        try discriminate.
      - destruct b; [discriminate|reflexivity].
      - destruct (number_truthy n); [discriminate|reflexivity].
      - destruct (String.eqb_spec s EmptyString) as [->|Hs]; [reflexivity|].
        simpl in Hblank. apply String.eqb_eq in Hblank. simpl. rewrite Hblank.
        reflexivity. }
    rewrite Hq.
    destruct (find_video_run host EmptyString videos h (v0 :: rest) Hv)
      as (found0 & h' & Hrun & _ & Hfind).
    assert (Hnone : found0 = None).
    { change (ordinal_match EmptyString videos h)
        with (h, @Normal (option JsObject) None) in Hrun.
      congruence. }
    rewrite Hfind, Hnone. change (criterion_of EmptyString) with (@None Criterion).
    cbn [snd]. change (split_ws EmptyString) with [EmptyString].
    simpl. rewrite (title_has_every_text [EmptyString] v0 Htitle).
    unfold has_every_term. destruct (lower_title_text v0 Htitle) as (t & ->).
    simpl. destruct t; reflexivity.
Qed.

Lemma blank_query_plays_the_first_witness :
  snd (play_video Samples.sample_host [("query", JStr "   ")] 0
         (Samples.dataset_at_0 Samples.the_cat))
  = Normal (video_card Samples.sample_host
              [("title", JStr "Sunrise"); ("view_count", Samples.num 100)])
  /\ snd (play_video Samples.sample_host [] 0 (Samples.dataset_at_0 []))
     = Normal (ErrorResult "No videos loaded.").
Proof.
  split.
  - apply (blank_query_plays_the_first Samples.sample_host [("query", JStr "   ")] 0
             (Samples.dataset_at_0 Samples.the_cat) Samples.the_cat eq_refl eq_refl);
      reflexivity.
  - apply (blank_query_plays_the_first Samples.sample_host [] 0
             (Samples.dataset_at_0 []) [] eq_refl eq_refl).
Defined.

(** X3.  [play_video] on a dataset fails in one way only: with the
    [TypeError] of calling [toLowerCase] on a value that is no string, because
    the query, or the title of a record, is a truthy value other than text.
    A query that is no text always fails, before the dataset is looked at;
    and with a text (or absent) query and text (or absent) titles the result
    is a video card or an error result. *)
Theorem play_video_fails_only_on_non_text :
  forall (host : Host) (args : JsObject) (videos : loc) (h : heap)
         (records : list JsObject),
    h !! videos = Some records ->
    (forall e, snd (play_video host args videos h) = Throw e ->
       e = TypeError_toLowerCase
       /\ (text_or_falsy (get args "query") = false
           \/ exists v, v ∈ records /\ text_or_falsy (get v "title") = false))
    /\ (text_or_falsy (get args "query") = false ->
        snd (play_video host args videos h) = Throw TypeError_toLowerCase)
    /\ (text_or_falsy (get args "query") = true ->
        (forall v, v ∈ records -> text_or_falsy (get v "title") = true) ->
        exists r, snd (play_video host args videos h) = Normal r
                  /\ (is_error r = true \/ is_video_card r = true)).
Proof.
  intros host args videos h records Hv. split; [|split].
  - intros e. apply (play_video_throws host args videos h records e Hv).
  - intros Htext. rewrite (play_video_cases host args videos h records Hv).
    unfold normalized_query. rewrite (toLowerCase_method_not_text _ Htext). reflexivity.
  - intros Hquery Htitles.
    destruct (snd (play_video host args videos h)) as [r|e] eqn:Hrun.
    + exists r. split; [reflexivity|].
      apply (play_video_returns host args videos h records r Hv Hrun).
    + destruct (play_video_throws host args videos h records e Hv Hrun)
        as [_ [Hbad|(v & Hin & Hbad)]].
      * congruence.
      * rewrite (Htitles v Hin) in Hbad. discriminate.
Qed.

Lemma play_video_fails_only_on_non_text_witness :
  snd (play_video Samples.sample_host [("query", Samples.num 7)] 0
         (Samples.dataset_at_0 Samples.abc))
  = Throw TypeError_toLowerCase
  /\ exists r,
       snd (play_video Samples.sample_host [("query", JStr "tides at dawn")] 0
              (Samples.dataset_at_0 Samples.the_cat)) = Normal r
       /\ (is_error r = true \/ is_video_card r = true).
Proof.
  split.
  - apply (play_video_fails_only_on_non_text Samples.sample_host
             [("query", Samples.num 7)] 0 (Samples.dataset_at_0 Samples.abc)
             Samples.abc eq_refl).
    reflexivity.
  - apply (play_video_fails_only_on_non_text Samples.sample_host
             [("query", JStr "tides at dawn")] 0 (Samples.dataset_at_0 Samples.the_cat)
             Samples.the_cat eq_refl).
    + reflexivity.
    + intros v Hv. repeat (apply elem_of_cons in Hv as [->|Hv]; [reflexivity|]).
      apply elem_of_nil in Hv. contradiction.
Defined.

End ResolverFacts.

(** ** [Chat.js]: the executor of the JSON tools path, the stored message
    and the routing *)

Module ChatFacts.
Import Js Heap JsonTools Gemini Notions Criteria HeapFacts ChartFacts ResolverFacts LogFacts.

Lemma filter_map_call_result {R : Type} (p : R -> bool) (calls : list (@ToolCall R)) :
  map call_result (List.filter (fun tc => p (call_result tc)) calls)
  = List.filter p (map call_result calls).
Proof.
  induction calls as [|tc rest IH]; simpl; [reflexivity|].
  destruct (p (call_result tc)); simpl; rewrite IH; reflexivity.
Qed.

Lemma generatedImages_of_filter (calls : list (@ToolCall Chat.Result)) :
  Chat.generatedImages_of
    (List.filter (fun tc => match Chat.generatedImage (call_result tc) with
                            | Some _ => true
                            | None => false
                            end) calls)
  = Chat.generatedImages_of calls.
Proof.
  induction calls as [|tc rest IH]; simpl; [reflexivity|].
  destruct (Chat.generatedImage (call_result tc)) eqn:Himage; simpl.
  - rewrite Himage, IH. reflexivity.
  - exact IH.
Qed.

(** X7.  A turn of the JSON tools path, whatever the model and the executor
    do, stores a message from which the reload effect rebuilds the message
    shown at the end of the turn: the same text, charts, video cards,
    generated images and tool calls.  (The store is taken to return the
    message it was given.) *)
Theorem reload_rebuilds_the_shown_message :
  forall (W : Type) (remote : @Remote Chat.Result W)
         (executeFn : string -> JsObject -> StE W Chat.Result)
         (history : list Message) (promptForGemini fullName : string) (st : @State W),
    let outcome :=
      snd (chatWithJsonTools Chat.has_chartType Chat.is_video_card remote executeFn
             history promptForGemini fullName st) in
    Chat.enriched (Chat.saved outcome) = Chat.shown outcome.
Proof.
  intros W remote executeFn history promptForGemini fullName st outcome.
  destruct (chatWithJsonTools Chat.has_chartType Chat.is_video_card remote executeFn
              history promptForGemini fullName st) as [st' [answer|e]] eqn:Hrun;
    subst outcome; cbn [snd]; [|reflexivity].
  destruct (run_chat_log Chat.has_chartType Chat.is_video_card remote executeFn true
              _ _ _ _ _ _ Hrun) as (_ & _ & Hcards & _).
  unfold Chat.enriched, Chat.saved, Chat.shown. cbn [Chat.stored_toolCalls
    Chat.stored_content Chat.stored_charts].
  rewrite Hcards.
  destruct (toolCalls (answer_log answer)) as [|tc rest] eqn:Hcalls; [reflexivity|].
  cbn [Chat.if_any]. rewrite <- Hcalls at 1 2.
  rewrite filter_map_call_result, generatedImages_of_filter.
  rewrite Hcalls. reflexivity.
Qed.

(** The text of the message shown at the end of a turn of the JSON tools
    path, and of the message stored, is [fullContent]: the text of the
    answer or, when the turn failed, "Error: " and the message of the
    exception. *)
Lemma shown_text_is_fullContent (outcome : Completion (@Answer Chat.Result)) :
  Chat.msg_content (Chat.shown outcome) = Chat.fullContent outcome
  /\ Chat.stored_content (Chat.saved outcome) = Chat.fullContent outcome
  /\ (forall e, outcome = Throw e ->
        Chat.shown outcome
        = {| Chat.msg_content := "Error: " ++ e; Chat.msg_charts := None;
             Chat.msg_videoCards := None; Chat.msg_generatedImages := None;
             Chat.msg_toolCalls := None |}).
Proof.
  destruct outcome as [answer|e]; repeat split; try discriminate.
  intros e' [= ->]. reflexivity.
Qed.

Section Executor.
Context (host : Host) {N : Type}.
Context (generateContent : list Chat.ContentPart -> StE N (list Chat.GeneratedPart)).

Lemma handleGenerateImage_run prompt anchorImage (n : N) :
  exists r, snd (Chat.handleGenerateImage host generateContent prompt anchorImage n)
            = Normal r
            /\ fst (Chat.handleGenerateImage host generateContent prompt anchorImage n)
               = fst (generateContent (Chat.contentParts prompt anchorImage) n)
            /\ Chat.has_chartType r = false
            /\ Chat.is_video_card r = false
            /\ (forall message,
                   snd (generateContent (Chat.contentParts prompt anchorImage) n)
                   = Throw message ->
                   r = Chat.Tool (ErrorResult ("Image generation failed: " ++ message))).
Proof.
  unfold Chat.handleGenerateImage.
  destruct (generateContent (Chat.contentParts prompt anchorImage) n)
    as [n' [parts|message]]; eexists; (split; [reflexivity|]); cbn [fst snd].
  - repeat split; try (destruct (Chat.first_inlineData parts); reflexivity). discriminate.
  - repeat split. intros message' [= ->]. reflexivity.
Qed.

Lemma executeJsonTool_other toolName args videos (h : heap) records e :
  h !! videos = Some records ->
  toolName <> "compute_stats_json" ->
  snd (executeJsonTool host toolName args videos h) = Throw e ->
  toolName = "play_video"
  /\ e = TypeError_toLowerCase
  /\ (text_or_falsy (get args "query") = false
      \/ exists v, v ∈ records /\ text_or_falsy (get v "title") = false).
Proof.
  intros Hv Hnot. unfold executeJsonTool.
  destruct (String.eqb_spec toolName "compute_stats_json") as [Heq|_]; [contradiction|].
  destruct (String.eqb_spec toolName "plot_metric_vs_time") as [_|_].
  { rewrite (plot_metric_vs_time_run host args videos h records Hv). discriminate. }
  destruct (String.eqb_spec toolName "play_video") as [->|_].
  { intros Hthrow. split; [reflexivity|].
    apply (play_video_throws host args videos h records e Hv Hthrow). }
  destruct (String.eqb toolName "generateImage"); discriminate.
Qed.

End Executor.

(** X8.  The executor that [handleSend] passes to [chatWithJsonTools] never
    raises for [generateImage]: a failure of the image service comes back as
    the error result "Image generation failed: ..." and the dataset is not
    touched.  For the other tools apart from [compute_stats_json] it raises
    only for [play_video], and then the [TypeError] of a query or title that
    is no text. *)
Theorem chat_executor_failures :
  forall (host : Host) (N : Type)
         (generateContent : list Chat.ContentPart -> StE N (list Chat.GeneratedPart))
         (imageParts : list Chat.Image) (sessionJsonData : loc) (toolName : string)
         (args : JsObject) (h : heap) (n : N) (records : list JsObject),
    h !! sessionJsonData = Some records ->
    let run :=
      Chat.executor host generateContent imageParts sessionJsonData toolName args (h, n) in
    (toolName = "generateImage" ->
     fst (fst run) = h
     /\ exists r, snd run = Normal r
                  /\ forall message,
                       snd (generateContent
                              (Chat.contentParts (get args "prompt") (head imageParts)) n)
                       = Throw message ->
                       r = Chat.Tool (ErrorResult ("Image generation failed: " ++ message)))
    /\ (toolName <> "compute_stats_json" ->
        forall e, snd run = Throw e ->
          toolName = "play_video"
          /\ e = TypeError_toLowerCase
          /\ (text_or_falsy (get args "query") = false
              \/ exists v, v ∈ records /\ text_or_falsy (get v "title") = false)).
Proof.
  intros host N generateContent imageParts sessionJsonData toolName args h n records Hv run.
  subst run. unfold Chat.executor. split.
  - intros ->. cbn [String.eqb Ascii.eqb Bool.eqb]. cbv beta iota zeta. cbn [fst snd].
    destruct (handleGenerateImage_run host generateContent (get args "prompt")
                (head imageParts) n) as (r & Hrun & _ & _ & _ & Hfail).
    destruct (Chat.handleGenerateImage host generateContent (get args "prompt")
                (head imageParts) n) as [n' r'].
    cbn [fst snd] in *. split; [reflexivity|]. exists r. split; assumption.
  - intros Hnot e. destruct (String.eqb_spec toolName "generateImage") as [->|Hother].
    + cbv beta iota zeta. cbn [fst snd].
      destruct (handleGenerateImage_run host generateContent (get args "prompt")
                  (head imageParts) n) as (r & Hrun & _).
      destruct (Chat.handleGenerateImage host generateContent (get args "prompt")
                  (head imageParts) n) as [n' r'].
      cbn [fst snd] in *. intros Hthrow. congruence.
    + cbv beta iota zeta. cbn [fst snd].
      pose proof (executeJsonTool_other host toolName args sessionJsonData h records e
                    Hv Hnot) as Hthrows.
      destruct (executeJsonTool host toolName args sessionJsonData h) as [h' [t|e']];
        cbn [fst snd] in *; intros Hthrow; [discriminate Hthrow|].
      injection Hthrow as ->. apply Hthrows. reflexivity.
Qed.

Lemma chat_executor_failures_witness :
  snd (Chat.executor Samples.sample_host Fixtures.failing_image_service [] 0
         "generateImage" [("prompt", JStr "a cat")]
         (Samples.dataset_at_0 Samples.abc, 0))
  = Normal (Chat.Tool (ErrorResult "Image generation failed: quota exceeded")).
Proof.
  destruct (chat_executor_failures Samples.sample_host nat Fixtures.failing_image_service
              [] 0 "generateImage" [("prompt", JStr "a cat")]
              (Samples.dataset_at_0 Samples.abc) 0 Samples.abc eq_refl)
    as [Himage _].
  destruct (Himage eq_refl) as (_ & r & Hrun & Hfail).
  rewrite Hrun. f_equal. apply Hfail. reflexivity.
Defined.

(** X9.  The three routes exclude one another; a loaded JSON dataset always
    selects the JSON tools; and once CSV rows are loaded the code keywords
    play no part: the CSV tools are used unless a Python-only keyword occurs
    or a CSV file is attached to the message, and code execution is used
    exactly when a Python-only keyword occurs. *)
Theorem routes_exclude_one_another :
  forall (sessionJsonData sessionCsvRows capturedCsv pythonKeyword codeKeyword : bool),
    let r := Chat.routing sessionJsonData sessionCsvRows capturedCsv pythonKeyword
               codeKeyword in
    Chat.useJsonTools r && Chat.useTools r = false
    /\ Chat.useJsonTools r && Chat.useCodeExecution r = false
    /\ Chat.useTools r && Chat.useCodeExecution r = false
    /\ (Chat.path_of r = Chat.JsonToolsPath <-> sessionJsonData = true)
    /\ (sessionJsonData = false -> sessionCsvRows = true ->
        Chat.useTools r = negb pythonKeyword && negb capturedCsv
        /\ Chat.useCodeExecution r = pythonKeyword)
    /\ (sessionJsonData = false -> sessionCsvRows = false ->
        Chat.path_of r = Chat.StreamingPath (pythonKeyword || codeKeyword)).
Proof.
  intros [|] [|] [|] [|] [|]; cbv; repeat split; intros; congruence.
Qed.

End ChatFacts.

(** ** [parseDuration]: the matcher on runs of digits and the value read *)

Module DurationFacts.
Import Js Downloader Readers RoundFacts.

(** *** Runs of digits *)

Lemma rmatch_Star_Digit {T : Type} ci (k : string -> list string -> option T) s caps :
  rmatch ci (Star Digit) s caps k = star_digit s caps k.
Proof.
  cbn [rmatch].
  generalize (Nat.le_refl (String.length s)).
  generalize (String.length s) at 2 3 as fuel.
  intros fuel. revert s caps.
  induction fuel as [|fuel IH]; intros s caps Hlen.
  - destruct s; [reflexivity|simpl in Hlen; lia].
  - destruct s as [|d s']; [reflexivity|].
    cbn [star_digit]. destruct (is_digit d); [|reflexivity].
    assert (Hlt : (String.length s' <? String.length (String d s')) = true).
    { apply Nat.ltb_lt. simpl. lia. }
    rewrite Hlt. rewrite IH by (simpl in Hlen; lia). reflexivity.
Qed.

Lemma take_skip_digits s : (take_digits s ++ skip_digits s)%string = s.
Proof.
  induction s as [|d r IH]; simpl; [reflexivity|].
  destruct (is_digit d); [|reflexivity].
  change (String d (take_digits r ++ skip_digits r)%string = String d r).
  rewrite IH. reflexivity.
Qed.

Lemma skip_digits_no_digit s d r : skip_digits s = String d r -> is_digit d = false.
Proof.
  induction s as [|c s' IH]; simpl; [discriminate|].
  destruct (is_digit c) eqn:Hc; [exact IH|].
  intros [= <- <-]. exact Hc.
Qed.

Lemma length_append (s t : string) :
  String.length (s ++ t) = String.length s + String.length t.
Proof. induction s as [|c s IH]; simpl; [reflexivity|rewrite IH; reflexivity]. Qed.

Lemma take_str_append (s t : string) : take_str (String.length s) (s ++ t) = s.
Proof. induction s as [|c s IH]; simpl; [destruct t|rewrite IH]; reflexivity. Qed.

(** The text between the start of [s] and what follows its digits. *)
Lemma take_str_digits s :
  take_str (String.length s - String.length (skip_digits s)) s = take_digits s.
Proof.
  rewrite <- (take_skip_digits s) at 1 3.
  rewrite length_append.
  replace (String.length (take_digits s) + String.length (skip_digits s)
           - String.length (skip_digits s)) with (String.length (take_digits s)) by lia.
  apply take_str_append.
Qed.

(** With a continuation that refuses every input that starts with a digit,
    [\d*] settles on the longest run. *)
Lemma star_digit_longest {T : Type} (k : string -> list string -> option T) s caps :
  (forall d r caps', is_digit d = true -> k (String d r) caps' = None) ->
  star_digit s caps k = k (skip_digits s) caps.
Proof.
  intros Hk. induction s as [|d r IH]; simpl; [reflexivity|].
  destruct (is_digit d) eqn:Hd; [|reflexivity].
  rewrite IH. destruct (k (skip_digits r) caps); [reflexivity|].
  apply Hk. exact Hd.
Qed.

Lemma rmatch_Plus_Digit {T : Type} ci (k : string -> list string -> option T) s caps :
  rmatch ci (Plus Digit) s caps k =
    match s with
    | String d r => if is_digit d then star_digit r caps k else None
    | EmptyString => None
    end.
Proof.
  destruct s as [|d r]; [reflexivity|].
  change (rmatch ci (Plus Digit) (String d r) caps k)
    with (if is_digit d then rmatch ci (Star Digit) r caps k else None).
  rewrite rmatch_Star_Digit. reflexivity.
Qed.

(** *** One optional unit *)

Lemma rmatch_optional_unit {T : Type} (c : ascii)
    (k : string -> list string -> option T) s caps :
  is_digit c = false ->
  rmatch false (optional_unit c) s caps k =
    match read_unit c s with
    | (String a ds, rest) =>
        match k rest (caps ++ [String a ds]) with
        | Some x => Some x
        | None => k s (caps ++ [EmptyString])
        end
    | (EmptyString, _) => k s (caps ++ [EmptyString])
    end.
Proof.
  intros Hc.
  set (K := fun (s' : string) (caps' : list string) =>
              rmatch false (Chr c) s'
                (caps' ++ [take_str (String.length s - String.length s') s]) k).
  change (rmatch false (optional_unit c) s caps k)
    with (match rmatch false (Plus Digit) s caps K with
          | Some x => Some x
          | None => k s (caps ++ [take_str (String.length s - String.length s) s])
          end).
  replace (String.length s - String.length s) with 0 by lia.
  change (take_str 0 s) with EmptyString.
  assert (HK : forall d r caps', is_digit d = true -> K (String d r) caps' = None).
  { intros d r caps' Hd. unfold K. cbn [rmatch]. unfold chr_eq.
    destruct (Ascii.eqb_spec c d) as [->|_]; [congruence|reflexivity]. }
  rewrite rmatch_Plus_Digit. unfold read_unit.
  destruct s as [|d r]; [reflexivity|].
  cbn [take_digits skip_digits]. destruct (is_digit d) eqn:Hd; [|reflexivity].
  rewrite (star_digit_longest K r caps HK).
  destruct (skip_digits r) as [|e rest] eqn:Hskip; [reflexivity|].
  unfold K at 1. cbn [rmatch]. unfold chr_eq. destruct (Ascii.eqb c e); [|reflexivity].
  assert (Hcap : take_str (String.length (String d r) - String.length (String e rest))
                   (String d r) = String d (take_digits r)).
  { pose proof (take_str_digits (String d r)) as Htake.
    cbn [take_digits skip_digits] in Htake. rewrite Hd, Hskip in Htake. exact Htake. }
  rewrite Hcap. reflexivity.
Qed.

Lemma read_unit_digits c s : all_chars is_digit (fst (read_unit c s)) = true.
Proof.
  assert (Htake : forall t, all_chars is_digit (take_digits t) = true).
  { induction t as [|d r IH]; simpl; [reflexivity|].
    destruct (is_digit d) eqn:Hd; simpl; [rewrite Hd; exact IH|reflexivity]. }
  unfold read_unit. destruct (take_digits s) as [|a ds] eqn:Hs; [reflexivity|].
  destruct (skip_digits s) as [|d rest]; [reflexivity|].
  destruct (Ascii.eqb c d); [|reflexivity].
  cbn [fst]. rewrite <- Hs. apply Htake.
Qed.

Lemma read_unit_nothing c s rest : read_unit c s = (EmptyString, rest) -> rest = s.
Proof.
  unfold read_unit. destruct (take_digits s) as [|a ds]; [congruence|].
  destruct (skip_digits s) as [|d r]; [congruence|].
  destruct (Ascii.eqb c d); [discriminate|congruence].
Qed.

(** With a continuation that always succeeds, an optional unit hands on
    what the reader leaves. *)
Lemma rmatch_optional_unit_total {T : Type} (c : ascii)
    (k : string -> list string -> option T) s caps :
  is_digit c = false ->
  (forall s' caps', k s' caps' <> None) ->
  rmatch false (optional_unit c) s caps k
  = k (snd (read_unit c s)) (caps ++ [fst (read_unit c s)]).
Proof.
  intros Hc Hk. rewrite (rmatch_optional_unit c k s caps Hc).
  destruct (read_unit c s) as [[|a ds] rest] eqn:Hread; cbn [fst snd].
  - rewrite (read_unit_nothing c s rest Hread). reflexivity.
  - destruct (k rest (caps ++ [String a ds])) eqn:Hrest; [reflexivity|].
    exfalso. exact (Hk _ _ Hrest).
Qed.

(** The match of the duration pattern at the start of a text that starts
    with [PT]. *)
Lemma rmatch_duration_PT s :
  rmatch false duration_re ("PT" ++ s) [] (fun _ caps => Some caps) = Some (read_units s).
Proof.
  change (rmatch false duration_re ("PT" ++ s) [] (fun _ caps => Some caps))
    with (rmatch false (optional_unit "H") s []
            (fun s1 caps1 =>
               rmatch false (optional_unit "M") s1 caps1
                 (fun s2 caps2 =>
                    rmatch false (optional_unit "S") s2 caps2
                      (fun _ caps => Some caps)))).
  assert (Hlast : forall s2 caps2,
             rmatch false (optional_unit "S") s2 caps2 (fun _ caps => Some caps)
             = Some (caps2 ++ [fst (read_unit "S" s2)])).
  { intros s2 caps2. apply rmatch_optional_unit_total; [reflexivity|discriminate]. }
  assert (Hmid : forall s1 caps1,
             rmatch false (optional_unit "M") s1 caps1
               (fun s2 caps2 =>
                  rmatch false (optional_unit "S") s2 caps2 (fun _ caps => Some caps))
             = Some ((caps1 ++ [fst (read_unit "M" s1)])
                       ++ [fst (read_unit "S" (snd (read_unit "M" s1)))])).
  { intros s1 caps1. rewrite rmatch_optional_unit_total.
    - apply Hlast.
    - reflexivity.
    - intros s' caps'. rewrite Hlast. discriminate. }
  rewrite rmatch_optional_unit_total.
  - rewrite Hmid. unfold read_units.
    destruct (read_unit "H" s) as [hours s1]. cbn [fst snd].
    destruct (read_unit "M" s1) as [minutes s2]. cbn [fst snd].
    destruct (read_unit "S" s2) as [seconds s3]. reflexivity.
  - reflexivity.
  - intros s' caps'. rewrite Hmid. discriminate.
Qed.

Lemma search_duration s :
  search false duration_re ("PT" ++ s) = Some (read_units s).
Proof.
  pose proof (rmatch_duration_PT s) as Hmatch.
  change ("PT" ++ s)%string with (String "P" (String "T" s)) in *.
  cbn [search]. rewrite Hmatch. reflexivity.
Qed.

(** Elsewhere the pattern does not match. *)
Lemma rmatch_duration_other {T : Type} s caps (k : string -> list string -> option T) :
  starts_with "PT" s = false -> rmatch false duration_re s caps k = None.
Proof.
  intros Hstart. destruct s as [|a [|b r]]; try reflexivity.
  - cbn [duration_re lit rmatch]. unfold chr_eq. destruct (Ascii.eqb "P" a); reflexivity.
  - cbn [starts_with] in Hstart. cbn [duration_re lit rmatch]. unfold chr_eq.
    destruct (Ascii.eqb "P" a); [|reflexivity].
    destruct (Ascii.eqb "T" b); [discriminate|reflexivity].
Qed.

Lemma starts_with_PT s : starts_with "PT" s = true -> exists t, s = ("PT" ++ t)%string.
Proof.
  destruct s as [|a [|b r]]; cbn [starts_with]; try discriminate.
  - destruct (Ascii.eqb "P" a); discriminate.
  - destruct (Ascii.eqb_spec "P" a) as [<-|_]; [|discriminate].
    destruct (Ascii.eqb_spec "T" b) as [<-|_]; [|discriminate].
    intros _. exists r. reflexivity.
Qed.

(** The leftmost match is at the first [PT]. *)
Lemma search_duration_any s :
  search false duration_re s
  = if includes s "PT" then
      match search false duration_re s with
      | Some m => Some m
      | None => None
      end
    else None.
Proof.
  destruct (includes s "PT") eqn:Hinc.
  - destruct (search false duration_re s); reflexivity.
  - induction s as [|c r IH].
    + reflexivity.
    + cbn [includes] in Hinc. apply orb_false_iff in Hinc as [Hstart Hrest].
      cbn [search]. rewrite (rmatch_duration_other _ _ _ Hstart). apply IH. exact Hrest.
Qed.

Lemma search_duration_found s m :
  search false duration_re s = Some m -> exists t, m = read_units t.
Proof.
  induction s as [|c r IH].
  - cbn [search]. rewrite rmatch_duration_other by reflexivity. discriminate.
  - cbn [search]. destruct (starts_with "PT" (String c r)) eqn:Hstart.
    + destruct (starts_with_PT _ Hstart) as (t & ->).
      rewrite rmatch_duration_PT. intros [= <-]. exists t. reflexivity.
    + rewrite (rmatch_duration_other _ _ _ Hstart). exact IH.
Qed.

(** *** The number of a run of digits *)

Lemma digits_go_all s : forall acc cnt,
  all_chars is_digit s = true ->
  exists v, digits_go s acc cnt = (v, cnt + String.length s, EmptyString).
Proof.
  induction s as [|d r IH]; intros acc cnt Hall; simpl in *.
  - exists acc. rewrite Nat.add_0_r. reflexivity.
  - apply andb_true_iff in Hall as [Hd Hr]. rewrite Hd.
    destruct (IH (10 * acc + Z.of_nat (digit_val d))%Z (S cnt) Hr) as (v & Hv).
    exists v. rewrite Hv. f_equal. f_equal. lia.
Qed.

Lemma is_ws_not_digit d : is_digit d = true -> is_ws d = false.
Proof.
  unfold is_digit, is_ws. cbv zeta. intros Hd.
  apply andb_true_iff in Hd as [Hlo Hhi].
  apply Nat.leb_le in Hlo. apply Nat.leb_le in Hhi.
  apply orb_false_iff. split; [apply orb_false_iff; split|].
  - apply andb_false_iff. right. apply Nat.leb_gt. lia.
  - apply Nat.eqb_neq. lia.
  - apply Nat.eqb_neq. lia.
Qed.

Lemma trimEnd_digits s : all_chars is_digit s = true -> trimEnd s = s.
Proof.
  induction s as [|d r IH]; simpl; [reflexivity|].
  intros Hall. apply andb_true_iff in Hall as [Hd Hr].
  rewrite (IH Hr). destruct r; [|reflexivity].
  rewrite (is_ws_not_digit d Hd). reflexivity.
Qed.

Lemma trim_digits s : all_chars is_digit s = true -> trim s = s.
Proof.
  intros Hall. unfold trim.
  assert (Hstart : trimStart s = s).
  { destruct s as [|d r]; [reflexivity|]. simpl in *.
    apply andb_true_iff in Hall as [Hd _]. rewrite (is_ws_not_digit d Hd). reflexivity. }
  rewrite Hstart. apply trimEnd_digits. exact Hall.
Qed.

Lemma digit_is_no_letter d (c : ascii) :
  is_digit d = true -> is_digit c = false -> Ascii.eqb d c = false.
Proof.
  intros Hd Hc. destruct (Ascii.eqb_spec d c) as [->|_]; [congruence|reflexivity].
Qed.

(** [+ds] for a non-empty run of digits is its decimal value. *)
Lemma StringToNumber_numeral ds :
  is_numeral ds = true ->
  StringToNumber ds = round64 (inject_Z (parseInt_digits ds)).
Proof.
  unfold is_numeral. intros Hnum. apply andb_true_iff in Hnum as [Hne Hall].
  unfold StringToNumber. rewrite (trim_digits ds Hall).
  destruct ds as [|d r]; [discriminate|]. clear Hne.
  pose proof Hall as Hall'. simpl in Hall'. apply andb_true_iff in Hall' as [Hd Hr].
  assert (Hradix : radix_literal (String d r) = None).
  { unfold radix_literal. destruct r as [|x [|c r']]; try reflexivity.
    destruct (Ascii.eqb d "0"); [|reflexivity].
    simpl in Hr. apply andb_true_iff in Hr as [Hx _].
    rewrite !(digit_is_no_letter x _ Hx) by reflexivity. reflexivity. }
  rewrite Hradix.
  assert (Hsigned : signed (String d r) = (false, String d r)).
  { unfold signed. rewrite !(digit_is_no_letter d _ Hd) by reflexivity. reflexivity. }
  rewrite Hsigned.
  assert (Hinf : String.eqb (String d r) "Infinity" = false).
  { cbn [String.eqb]. rewrite (digit_is_no_letter d _ Hd) by reflexivity. reflexivity. }
  rewrite Hinf.
  destruct (digits_go_all (String d r) 0%Z 0 Hall) as (v & Hv).
  unfold decimal_prefix, parseInt_digits, digits. rewrite Hv.
  cbn [Nat.add String.length Nat.eqb andb exponent_part].
  apply round64_comp. unfold pow10. cbn [Z.of_nat Z.opp Qpower]. ring.
Qed.

(** [+cap || 0] for a capture that holds digits only. *)
Lemma digits_go_nonneg s : forall acc cnt,
  (0 <= acc)%Z -> (0 <= fst (fst (digits_go s acc cnt)))%Z.
Proof.
  induction s as [|d r IH]; intros acc cnt Hacc; simpl; [exact Hacc|].
  destruct (is_digit d); [|exact Hacc]. apply IH. lia.
Qed.

Lemma parseInt_digits_nonneg s : (0 <= parseInt_digits s)%Z.
Proof.
  unfold parseInt_digits, digits.
  pose proof (digits_go_nonneg s 0%Z 0 (Z.le_refl 0)) as Hnonneg.
  destruct (digits_go s 0 0) as [[v n] rest]. exact Hnonneg.
Qed.

(** A whole number that is not negative is rounded to a number that is
    zero only when it is zero. *)
Lemma round64_Z_zero (v : Z) (q : Q) :
  (0 <= v)%Z -> round64 (inject_Z v) = Fin q -> (q == 0)%Q -> q = 0%Q.
Proof.
  intros Hv Hq Hzero. destruct (Z.eq_dec v 0%Z) as [->|Hpos].
  - change (round64 (inject_Z 0)) with (Fin 0) in Hq. injection Hq as <-. reflexivity.
  - exfalso. assert (Hone : nle (round64 (inject_Z 1)) (round64 (inject_Z v)) = true).
    { apply round64_mono. rewrite <- Zle_Qle. lia. }
    rewrite Hq in Hone. change (round64 (inject_Z 1)) with (Fin 1) in Hone.
    cbn [nle] in Hone. apply Qle_bool_iff in Hone. lra.
Qed.

Lemma unit_value_digits (m : list string) (i : nat) :
  all_chars is_digit (nth i m EmptyString) = true ->
  unit_value m i = round64 (inject_Z (parseInt_digits (nth i m EmptyString))).
Proof.
  intros Hall. unfold unit_value.
  destruct (nth i m EmptyString) as [|d r] eqn:Hcap; [reflexivity|].
  rewrite (StringToNumber_numeral (String d r))
    by (unfold is_numeral; rewrite Hall; reflexivity).
  destruct (round64 (inject_Z (parseInt_digits (String d r)))) as [| | |q] eqn:Hq;
    try reflexivity.
  - exfalso. exact (round64_not_NaN _ Hq).
  - cbn [number_truthy]. destruct (Qeq_bool q 0) eqn:Hzero; cbn [negb]; [|reflexivity].
    apply Qeq_bool_eq in Hzero.
    rewrite (round64_Z_zero _ q (parseInt_digits_nonneg _) Hq Hzero). reflexivity.
Qed.

(** [parseDuration] on a text that starts with [PT]: the three units the
    reader finds, weighted. *)
Lemma parseDuration_PT s :
  parseDuration (JStr ("PT" ++ s))
  = Normal
      (fadd (fadd (fmul (round64 (inject_Z (parseInt_digits (nth 0 (read_units s) EmptyString))))
                        (Fin 3600))
                  (fmul (round64 (inject_Z (parseInt_digits (nth 1 (read_units s) EmptyString))))
                        (Fin 60)))
            (round64 (inject_Z (parseInt_digits (nth 2 (read_units s) EmptyString))))).
Proof.
  unfold parseDuration.
  change (truthy (JStr ("PT" ++ s))) with true. cbn [negb].
  rewrite search_duration.
  assert (Hall : forall i, all_chars is_digit (nth i (read_units s) EmptyString) = true).
  { intros i. unfold read_units.
    pose proof (read_unit_digits "H" s) as H1.
    destruct (read_unit "H" s) as [hours s1].
    pose proof (read_unit_digits "M" s1) as H2.
    destruct (read_unit "M" s1) as [minutes s2].
    pose proof (read_unit_digits "S" s2) as H3.
    destruct (read_unit "S" s2) as [seconds s3].
    cbn [fst] in *. destruct i as [|[|[|[|i]]]]; simpl; auto. }
  rewrite !unit_value_digits by apply Hall. reflexivity.
Qed.

(** *** Durations written with their components *)

Lemma append_unit (ds : string) (c : ascii) (rest : string) :
  ((ds ++ String c EmptyString) ++ rest)%string = (ds ++ String c rest)%string.
Proof.
  induction ds as [|d r IH]; [reflexivity|].
  change (String d ((r ++ String c EmptyString) ++ rest)%string
          = String d (r ++ String c rest)%string).
  rewrite IH. reflexivity.
Qed.

Lemma digits_then_letter ds c rest :
  all_chars is_digit ds = true -> is_digit c = false ->
  take_digits (ds ++ String c rest) = ds
  /\ skip_digits (ds ++ String c rest) = String c rest.
Proof.
  intros Hall Hc. induction ds as [|d r IH].
  - simpl. rewrite Hc. split; reflexivity.
  - simpl in Hall. apply andb_true_iff in Hall as [Hd Hr].
    destruct (IH Hr) as [Htake Hskip].
    change (String d r ++ String c rest)%string with (String d (r ++ String c rest)%string).
    cbn [take_digits skip_digits]. rewrite Hd, Htake, Hskip. split; reflexivity.
Qed.

Lemma read_unit_numeral c c' ds rest :
  is_numeral ds = true -> is_digit c' = false ->
  read_unit c (ds ++ String c' rest)
  = if Ascii.eqb c c' then (ds, rest) else (EmptyString, (ds ++ String c' rest)%string).
Proof.
  unfold is_numeral. intros Hnum Hc. apply andb_true_iff in Hnum as [Hne Hall].
  destruct (digits_then_letter ds c' rest Hall Hc) as [Htake Hskip].
  unfold read_unit. rewrite Htake, Hskip.
  destruct ds as [|d r]; [discriminate|]. reflexivity.
Qed.

Lemma append_empty_l (s : string) : (EmptyString ++ s)%string = s.
Proof. reflexivity. Qed.

Lemma read_unit_hit c ds rest :
  is_numeral ds = true -> is_digit c = false ->
  read_unit c ((ds ++ String c EmptyString) ++ rest) = (ds, rest).
Proof.
  intros Hnum Hc. rewrite append_unit, (read_unit_numeral c c ds rest Hnum Hc).
  rewrite Ascii.eqb_refl. reflexivity.
Qed.

Lemma read_unit_miss c c' ds rest :
  is_numeral ds = true -> is_digit c' = false -> Ascii.eqb c c' = false ->
  read_unit c ((ds ++ String c' EmptyString) ++ rest)
  = (EmptyString, ((ds ++ String c' EmptyString) ++ rest)%string).
Proof.
  intros Hnum Hc Hne. rewrite append_unit, (read_unit_numeral c c' ds rest Hnum Hc), Hne.
  reflexivity.
Qed.

Lemma read_units_components (h m s : option string) :
  component_ok h = true -> component_ok m = true -> component_ok s = true ->
  read_units (component_text h "H" ++ component_text m "M" ++ component_text s "S")
  = [component_digits h; component_digits m; component_digits s].
Proof.
  intros Hh Hm Hs. unfold read_units.
  destruct h as [hs|], m as [ms|], s as [ss|];
    cbn [component_text component_ok component_digits String.append] in *;
    repeat (first [ rewrite append_empty_l
                  | rewrite read_unit_hit by (assumption || reflexivity)
                  | rewrite read_unit_miss by (assumption || reflexivity)
                  | rewrite (read_unit_numeral _ _ _ EmptyString)
                      by (assumption || reflexivity);
                    cbn [Ascii.eqb Bool.eqb andb] ]);
    reflexivity.
Qed.



(** *** Products and sums of numbers that are not negative *)

Lemma fmul_nonneg (a : number) (c : Q) :
  (0 < c)%Q -> nle (Fin 0) a = true -> nle (Fin 0) (fmul a (Fin c)) = true.
Proof.
  intros Hc. destruct a as [| | |x]; cbn [nle]; try discriminate.
  - intros _. unfold fmul, nmul. cbn [nsign].
    destruct (Qeq_bool c 0) eqn:Hzero; [apply Qeq_bool_eq in Hzero; lra|].
    assert (Hpos : Qle_bool 0 c = true) by (apply Qle_bool_iff; lra).
    rewrite Hpos. reflexivity.
  - intros Hx. apply Qle_bool_iff in Hx.
    change (fmul (Fin x) (Fin c)) with (round64 (x * c)%Q). apply round64_nonneg.
    apply Qmult_le_0_compat; lra.
Qed.

Lemma round64_Z_nonneg (v : Z) : (0 <= v)%Z -> nle (Fin 0) (round64 (inject_Z v)) = true.
Proof.
  intros Hv. apply round64_nonneg. change 0%Q with (inject_Z 0). rewrite <- Zle_Qle. exact Hv.
Qed.

(** Whatever it is given, [parseDuration] returns a number that is not
    negative (and so is not [NaN]), when it returns. *)
Lemma parseDuration_nonneg iso r :
  parseDuration iso = Normal r -> nle (Fin 0) r = true.
Proof.
  unfold parseDuration. destruct (truthy iso).
  - cbn [negb]. destruct iso as [| | | |s|]; try discriminate.
    destruct (search false duration_re s) as [m|] eqn:Hsearch.
    + destruct (search_duration_found s m Hsearch) as (t & ->).
      pose proof (search_duration t) as Hpt. pose proof (parseDuration_PT t) as Hq.
      unfold parseDuration in Hq. change (truthy (JStr ("PT" ++ t))) with true in Hq.
      cbn [negb] in Hq. rewrite Hpt in Hq.
      intros [= <-]. injection Hq as ->.
      repeat apply StatsFacts.fadd_nonneg;
        try (apply fmul_nonneg; [reflexivity|]);
        apply round64_Z_nonneg, parseInt_digits_nonneg.
    + intros [= <-]. reflexivity.
  - cbn [negb]. intros [= <-]. reflexivity.
Qed.

(** Exact arithmetic on whole numbers up to [2^53]. *)
Lemma fmul_Z (a b : Z) :
  (Z.abs (a * b) <= 2 ^ 53)%Z ->
  fmul (Fin (inject_Z a)) (Fin (inject_Z b)) = Fin (inject_Z (a * b)).
Proof.
  intros Hab. change (fmul (Fin (inject_Z a)) (Fin (inject_Z b)))
    with (round64 (inject_Z a * inject_Z b)%Q).
  rewrite <- (round64_Z (a * b) Hab). apply round64_comp.
  rewrite inject_Z_mult. reflexivity.
Qed.

Lemma fadd_Z (a b : Z) :
  (Z.abs (a + b) <= 2 ^ 53)%Z ->
  fadd (Fin (inject_Z a)) (Fin (inject_Z b)) = Fin (inject_Z (a + b)).
Proof.
  intros Hab. change (fadd (Fin (inject_Z a)) (Fin (inject_Z b)))
    with (round64 (inject_Z a + inject_Z b)%Q).
  rewrite <- (round64_Z (a + b) Hab). apply round64_comp.
  rewrite inject_Z_plus. reflexivity.
Qed.

(** X10.  A duration written as [PT], then any of hours, minutes and seconds,
    each a run of digits before its letter [H], [M] or [S], is read as
    [3600 * hours + 60 * minutes + seconds], provided that number of seconds
    is at most [2^53]; a component that is left out counts as 0.  (Beyond
    [2^53] the result is rounded: see [parseDuration_rounds_long_durations].) *)
Theorem parseDuration_reads_hours_minutes_seconds :
  forall (hours minutes seconds : option string),
    component_ok hours = true ->
    component_ok minutes = true ->
    component_ok seconds = true ->
    (3600 * component_value hours + 60 * component_value minutes
       + component_value seconds <= 2 ^ 53)%Z ->
    parseDuration (JStr ("PT" ++ component_text hours "H" ++ component_text minutes "M"
                           ++ component_text seconds "S"))
    = Normal (Fin (inject_Z (3600 * component_value hours + 60 * component_value minutes
                               + component_value seconds))).
Proof.
  intros hours minutes seconds Hh Hm Hs Hbound.
  rewrite parseDuration_PT.
  rewrite (read_units_components hours minutes seconds Hh Hm Hs). cbn [nth].
  assert (Hvalue : forall o, parseInt_digits (component_digits o) = component_value o).
  { intros [ds|]; reflexivity. }
  rewrite !Hvalue.
  assert (H0 : (0 <= component_value hours)%Z)
    by (rewrite <- Hvalue; apply parseInt_digits_nonneg).
  assert (H1 : (0 <= component_value minutes)%Z)
    by (rewrite <- Hvalue; apply parseInt_digits_nonneg).
  assert (H2 : (0 <= component_value seconds)%Z)
    by (rewrite <- Hvalue; apply parseInt_digits_nonneg).
  rewrite !round64_Z by lia.
  change (Fin 3600) with (Fin (inject_Z 3600)). change (Fin 60) with (Fin (inject_Z 60)).
  rewrite !fmul_Z by lia. rewrite !fadd_Z by lia.
  do 2 f_equal. f_equal. lia.
Qed.

Lemma parseDuration_reads_hours_minutes_seconds_witness :
  parseDuration (JStr "PT1H02M03S") = Normal (Fin (inject_Z 3723)).
Proof.
  apply (parseDuration_reads_hours_minutes_seconds (Some "1") (Some "02") (Some "03"));
    [reflexivity|reflexivity|reflexivity|vm_compute; discriminate].
Defined.

(** Beyond [2^53] seconds the reading is rounded to a double, and a
    component of 309 digits or more reads as [Infinity]. *)
Example parseDuration_rounds_long_durations :
  parseDuration (JStr "PT9007199254740993S") = Normal (Fin (inject_Z 9007199254740992))
  /\ parseDuration (JStr "PT10000000000000000H1S")
     = Normal (Fin (inject_Z 36000000000000000000)).
Proof. split; vm_compute; reflexivity. Qed.

(** X11.  [parseDuration] gives 0 for every text in which the letters [PT] do
    not occur next to each other, whatever else it holds: a duration with a
    day part, such as [P1DT2H], counts as 0 seconds.  A falsy value gives 0
    as well. *)
Theorem parseDuration_needs_PT :
  forall iso : JsValue,
    match iso with
    | JStr s => includes s "PT" = false
    | other => truthy other = false
    end ->
    parseDuration iso = Normal (Fin 0).
Proof.
  intros iso Hiso. unfold parseDuration. destruct (truthy iso) eqn:Htruthy.
  - cbn [negb]. destruct iso as [| | | |s|]; try discriminate.
    rewrite search_duration_any, Hiso. reflexivity.
  - reflexivity.
Qed.

Lemma parseDuration_needs_PT_witness :
  parseDuration (JStr "P1DT2H30M") = Normal (Fin 0).
Proof. apply (parseDuration_needs_PT (JStr "P1DT2H30M")). reflexivity. Defined.

End DurationFacts.

(** ** [loadSystemPrompt]: the cache *)

Module PromptFacts.
Import Js Gemini.

(** X12.  The prompt file is requested again on every call until a non-empty
    prompt has been read: once the cache holds a non-empty text, a further
    call changes nothing, requests nothing and, for the same user name,
    returns the same instruction; while the cache is empty (the file was
    missing, blank, or the request failed) the next call requests the file
    again.  The line about the user's name is added to the result only: what
    is cached does not depend on the name. *)
Theorem prompt_is_requested_until_read :
  forall (R W : Type) (remote : @Remote R W) (userName userName' : string)
         (st : @State W),
    let first := loadSystemPrompt remote userName st in
    let second := loadSystemPrompt remote userName' (fst first) in
    cachedPrompt (fst first) = cachedPrompt (fst (loadSystemPrompt remote userName' st))
    /\ match cachedPrompt (fst first) with
       | Some (String c p) =>
           fst second = fst first
           /\ (userName' = userName -> snd second = snd first)
       | _ => world (fst second) = fst (fetch_prompt remote (world (fst first)))
       end.
Proof.
  intros R W remote userName userName' st. cbv zeta. unfold loadSystemPrompt.
  destruct st as [w cached]. cbn [cachedPrompt world fst snd].
  destruct cached as [[|c p]|].
  - destruct (fetch_prompt remote w) as [w1 body] eqn:Hfetch.
    cbn [cachedPrompt world fst snd]. split; [reflexivity|].
    destruct (match body with Some t => trim t | None => EmptyString end) as [|c p].
    + destruct (fetch_prompt remote w1) as [w2 body2]. reflexivity.
    + cbn [cachedPrompt world fst snd default]. split; [reflexivity|].
      intros ->. reflexivity.
  - cbn [cachedPrompt world fst snd default]. split; [reflexivity|].
    split; [reflexivity|]. intros ->. reflexivity.
  - destruct (fetch_prompt remote w) as [w1 body] eqn:Hfetch.
    cbn [cachedPrompt world fst snd]. split; [reflexivity|].
    destruct (match body with Some t => trim t | None => EmptyString end) as [|c p].
    + destruct (fetch_prompt remote w1) as [w2 body2]. reflexivity.
    + cbn [cachedPrompt world fst snd default]. split; [reflexivity|].
      intros ->. reflexivity.
Qed.

End PromptFacts.

(** ** The downloader: pages, batches and records *)

Module DownloadFacts.
Import Js Heap JsonTools Downloader DownloaderTrace Criteria Readers DurationFacts
  ResolverFacts.

Section Ids.
Context {W : Type} (api : Api W) (playlistId : JsValue) (max : nat).

Lemma pushed_ids_length items ids :
  pushed_ids items = Normal ids -> length ids = length items.
Proof.
  revert ids. induction items as [|item rest IH]; intros ids; simpl.
  - intros [= <-]. reflexivity.
  - destruct (item_contentDetails item); [|discriminate].
    destruct (pushed_ids rest) as [ids'|]; [|discriminate].
    simpl. intros [= <-]. simpl. rewrite (IH ids' eq_refl). reflexivity.
Qed.

(** One turn of the loop. *)
Lemma getVideoIds_from_step {V : Type} (a : Api V) fuel ids token (s : V) :
  getVideoIds_from a fuel playlistId max ids token s =
    if length ids <? max then
      match fuel with
      | 0 => (s, Normal None)
      | S fuel' =>
          match playlistItems_list a playlistId (Nat.min 50 (max - length ids)) token s with
          | (s1, Normal res) =>
              match pushed_ids (page_items res) with
              | Normal new =>
                  if truthy (nextPageToken res)
                  then getVideoIds_from a fuel' playlistId max (ids ++ new)
                         (nextPageToken res) s1
                  else (s1, Normal (Some (take max (ids ++ new))))
              | Throw e => (s1, Throw e)
              end
          | (s1, Throw e) => (s1, Throw e)
          end
      end
    else (s, Normal (Some (take max ids))).
Proof.
  destruct fuel as [|fuel']; cbn [getVideoIds_from]; destruct (length ids <? max);
    try reflexivity.
  unfold bind, lift, ret.
  destruct (playlistItems_list a playlistId (Nat.min 50 (max - length ids)) token s)
    as [s1 [res|e]]; [|reflexivity].
  destruct (pushed_ids (page_items res)) as [new|e]; [|reflexivity].
  destruct (truthy (nextPageToken res)); reflexivity.
Qed.

(** The log does not change the run. *)
Lemma tracing_getVideoIds_from fuel :
  forall ids token w log,
    (fst (fst (getVideoIds_from (tracing_api api) fuel playlistId max ids token (w, log))),
     snd (getVideoIds_from (tracing_api api) fuel playlistId max ids token (w, log)))
    = getVideoIds_from api fuel playlistId max ids token w.
Proof.
  induction fuel as [|fuel IH]; intros ids token w log;
    rewrite !getVideoIds_from_step; destruct (length ids <? max); try reflexivity.
  cbn [tracing_api playlistItems_list]. unfold logged. cbn [fst snd].
  destruct (playlistItems_list api playlistId (Nat.min 50 (max - length ids)) token w)
    as [w1 [res|e]]; [|reflexivity].
  destruct (pushed_ids (page_items res)) as [new|e]; [|reflexivity].
  destruct (truthy (nextPageToken res)); [apply IH|reflexivity].
Qed.

(** What a run that ends normally has asked, and what it returns. *)
Lemma getVideoIds_from_log fuel :
  forall ids token w log w' log' out,
    getVideoIds_from (tracing_api api) fuel playlistId max ids token (w, log)
    = ((w', log'), Normal (Some out)) ->
    exists calls,
      log' = log ++ calls
      /\ Forall (page_call_within playlistId max) calls
      /\ tokens_chain token calls
      /\ out = take max (ids ++ concat (map ids_of_call calls)).
Proof.
  induction fuel as [|fuel IH]; intros ids token w log w' log' out;
    rewrite getVideoIds_from_step; destruct (length ids <? max) eqn:Hless;
    try discriminate;
    try (intros [= <- <- <-]; exists []; simpl; rewrite !app_nil_r;
         repeat split; constructor).
  cbn [tracing_api playlistItems_list]. unfold logged. cbn [fst snd].
  destruct (playlistItems_list api playlistId (Nat.min 50 (max - length ids)) token w)
    as [w1 [res|e]] eqn:Hpage; [|discriminate].
  destruct (pushed_ids (page_items res)) as [new|e] eqn:Hnew; [|discriminate].
  apply Nat.ltb_lt in Hless.
  assert (Hcall : page_call_within playlistId max
                    (PageCall playlistId (Nat.min 50 (max - length ids)) token (Normal res))).
  { cbn [page_call_within]. split; [reflexivity|]. lia. }
  destruct (truthy (nextPageToken res)).
  - intros Hrun. destruct (IH _ _ _ _ _ _ _ Hrun) as (calls & Hlog & Hcalls & Hchain & Hout).
    exists (PageCall playlistId (Nat.min 50 (max - length ids)) token (Normal res) :: calls).
    split; [rewrite Hlog, <- app_assoc; reflexivity|].
    split; [constructor; assumption|].
    split; [split; [reflexivity|exact Hchain]|].
    rewrite Hout. cbn [map concat ids_of_call]. rewrite Hnew, <- app_assoc. reflexivity.
  - intros [= <- <- <-].
    exists [PageCall playlistId (Nat.min 50 (max - length ids)) token (Normal res)].
    split; [reflexivity|]. split; [constructor; [exact Hcall|constructor]|].
    split; [split; [reflexivity|exact I]|].
    cbn [map concat ids_of_call]. rewrite Hnew, app_nil_r. reflexivity.
Qed.

(** With pages that bring something whenever they name a next page, one
    unit of fuel for each missing id is enough. *)
Lemma getVideoIds_from_fuel fuel :
  productive api ->
  forall ids token w,
    max - length ids <= fuel ->
    snd (getVideoIds_from api fuel playlistId max ids token w) <> Normal None.
Proof.
  intros Hprod. induction fuel as [|fuel IH]; intros ids token w Hfuel;
    rewrite getVideoIds_from_step; destruct (length ids <? max) eqn:Hless;
    try discriminate.
  - apply Nat.ltb_lt in Hless. lia.
  - apply Nat.ltb_lt in Hless.
    destruct (playlistItems_list api playlistId (Nat.min 50 (max - length ids)) token w)
      as [w1 [res|e]] eqn:Hpage; [|discriminate].
    destruct (pushed_ids (page_items res)) as [new|e] eqn:Hnew; [|discriminate].
    destruct (truthy (nextPageToken res)) eqn:Htoken; [|discriminate].
    apply IH. rewrite length_app.
    assert (Hsome : page_items res <> []).
    { apply (Hprod playlistId (Nat.min 50 (max - length ids)) token w res);
        [rewrite Hpage; reflexivity|exact Htoken]. }
    rewrite (pushed_ids_length _ _ Hnew).
    destruct (page_items res); [contradiction|]. simpl. lia.
Qed.

End Ids.

Section Details.
Context (host : Host) {W : Type} (api : Api W) (videoIds : list JsValue).

(** One turn of the loop. *)
Lemma getVideoDetails_from_step {V : Type} (a : Api V) fuel i results (s : V) :
  getVideoDetails_from host a fuel videoIds i results s =
    if i <? length videoIds then
      match fuel with
      | 0 => (s, Normal None)
      | S fuel' =>
          match videos_list a (take 50 (drop i videoIds)) s with
          | (s1, Normal items) =>
              match pushed_records host items with
              | Normal records =>
                  getVideoDetails_from host a fuel' videoIds (i + 50) (results ++ records) s1
              | Throw e => (s1, Throw e)
              end
          | (s1, Throw e) => (s1, Throw e)
          end
      end
    else (s, Normal (Some results)).
Proof.
  destruct fuel as [|fuel']; cbn [getVideoDetails_from]; destruct (i <? length videoIds);
    reflexivity.
Qed.

(** The fuel of [getVideoDetails] is enough. *)
Lemma getVideoDetails_from_fuel fuel :
  forall i results w,
    length videoIds <= i + 50 * fuel ->
    snd (getVideoDetails_from host api fuel videoIds i results w) <> Normal None.
Proof.
  induction fuel as [|fuel IH]; intros i results w Hfuel;
    rewrite getVideoDetails_from_step; destruct (i <? length videoIds) eqn:Hless;
    try discriminate.
  - apply Nat.ltb_lt in Hless. lia.
  - destruct (videos_list api (take 50 (drop i videoIds)) w) as [w1 [items|e]];
      [|discriminate].
    destruct (pushed_records host items) as [records|e]; [|discriminate].
    apply IH. lia.
Qed.

Lemma tracing_getVideoDetails_from fuel :
  forall i results w log,
    (fst (fst (getVideoDetails_from host (tracing_api api) fuel videoIds i results (w, log))),
     snd (getVideoDetails_from host (tracing_api api) fuel videoIds i results (w, log)))
    = getVideoDetails_from host api fuel videoIds i results w.
Proof.
  induction fuel as [|fuel IH]; intros i results w log;
    rewrite !getVideoDetails_from_step; destruct (i <? length videoIds); try reflexivity.
  cbn [tracing_api videos_list]. unfold logged. cbn [fst snd].
  destruct (videos_list api (take 50 (drop i videoIds)) w) as [w1 [items|e]];
    [|reflexivity].
  destruct (pushed_records host items) as [records|e]; [apply IH|reflexivity].
Qed.

(** What a run that ends normally has asked, and what it returns. *)
Lemma getVideoDetails_from_log fuel :
  forall i results w log w' log' out,
    getVideoDetails_from host (tracing_api api) fuel videoIds i results (w, log)
    = ((w', log'), Normal (Some out)) ->
    exists calls,
      log' = log ++ calls
      /\ Forall batch_call_within calls
      /\ concat (map batch_of_call calls) = drop i videoIds
      /\ out = results ++ concat (map (records_of_call host) calls).
Proof.
  induction fuel as [|fuel IH]; intros i results w log w' log' out;
    rewrite getVideoDetails_from_step; destruct (i <? length videoIds) eqn:Hless;
    try discriminate;
    try (apply Nat.ltb_ge in Hless; intros [= <- <- <-]; exists []; simpl;
         rewrite !app_nil_r, drop_ge by exact Hless; repeat split; constructor).
  cbn [tracing_api videos_list]. unfold logged. cbn [fst snd].
  destruct (videos_list api (take 50 (drop i videoIds)) w) as [w1 [items|e]] eqn:Hlist;
    [|discriminate].
  destruct (pushed_records host items) as [records|e] eqn:Hrecords; [|discriminate].
  apply Nat.ltb_lt in Hless.
  intros Hrun. destruct (IH _ _ _ _ _ _ _ Hrun) as (calls & Hlog & Hcalls & Hbatches & Hout).
  exists (VideosCall (take 50 (drop i videoIds)) (Normal items) :: calls).
  split; [rewrite Hlog, <- app_assoc; reflexivity|].
  split.
  { constructor; [|exact Hcalls]. cbn [batch_call_within].
    rewrite length_take, length_drop. lia. }
  split.
  { cbn [map concat batch_of_call]. rewrite Hbatches.
    rewrite <- (drop_drop videoIds 50 i). apply take_drop. }
  rewrite Hout. cbn [map concat records_of_call]. rewrite Hrecords, <- app_assoc.
  reflexivity.
Qed.

(** Every record of the result was built from an item the service returned. *)
Lemma getVideoDetails_from_all (P : JsObject -> Prop) fuel :
  (forall batch w items item record,
      snd (videos_list api batch w) = Normal items -> item ∈ items ->
      video_record host item = Normal record -> P record) ->
  forall i results w w' out,
    Forall P results ->
    getVideoDetails_from host api fuel videoIds i results w = (w', Normal (Some out)) ->
    Forall P out.
Proof.
  intros Hitems. induction fuel as [|fuel IH]; intros i results w w' out Hresults;
    rewrite getVideoDetails_from_step; destruct (i <? length videoIds);
    try discriminate; try (intros [= <- <-]; exact Hresults).
  destruct (videos_list api (take 50 (drop i videoIds)) w) as [w1 [items|e]] eqn:Hlist;
    [|discriminate].
  destruct (pushed_records host items) as [records|e] eqn:Hrecords; [|discriminate].
  apply IH. apply Forall_app. split; [exact Hresults|].
  assert (Hall : forall item, item ∈ items ->
                   forall record, video_record host item = Normal record -> P record).
  { intros item Hin record.
    apply (Hitems (take 50 (drop i videoIds)) w items item record); [|exact Hin].
    rewrite Hlist. reflexivity. }
  clear Hlist. revert records Hrecords Hall.
  induction items as [|item rest IHitems]; intros records Hrecords Hall; simpl in Hrecords.
  - injection Hrecords as <-. constructor.
  - destruct (video_record host item) as [record|] eqn:Hrecord; [|discriminate].
    destruct (pushed_records host rest) as [records'|]; [|discriminate].
    simpl in Hrecords. injection Hrecords as <-. constructor.
    + apply (Hall item); [left|exact Hrecord].
    + apply IHitems; [reflexivity|]. intros it Hit. apply Hall. right. exact Hit.
Qed.

Lemma pushed_records_length items records :
  pushed_records host items = Normal records -> length records = length items.
Proof.
  revert records. induction items as [|item rest IH]; intros records; simpl.
  - intros [= <-]. reflexivity.
  - destruct (video_record host item); [|discriminate].
    destruct (pushed_records host rest) as [records'|]; [|discriminate].
    simpl. intros [= <-]. simpl. rewrite (IH records' eq_refl). reflexivity.
Qed.

End Details.

(** *** Records *)

Lemma count_of_number key (v : JsObject) n :
  get v key = JNum n -> count_of key v <> NaN.
Proof.
  intros Hget. unfold count_of, or_else. rewrite Hget. cbn [truthy].
  destruct n as [| | |q]; cbn [number_truthy ToNumber]; try discriminate.
  destruct (negb (Qeq_bool q 0)); discriminate.
Qed.

Lemma own_property_set_other (o : JsObject) k t key :
  String.eqb k key = false ->
  own_property (set_property o k t) key = own_property o key.
Proof.
  intros Hne. induction o as [|[k' v'] rest IH]; [reflexivity|].
  cbn [set_property]. destruct (String.eqb_spec k' k) as [->|Hk]; cbn [own_property].
  - rewrite Hne. reflexivity.
  - rewrite IH. reflexivity.
Qed.

Lemma get_set_other (o : JsObject) k t key :
  String.eqb k key = false -> get (set_property o k t) key = get o key.
Proof. intros Hne. unfold get. rewrite (own_property_set_other o k t key Hne). reflexivity. Qed.

Lemma Object_keys_set (o : JsObject) k t :
  Object_keys (set_property o k t) = Object_keys o.
Proof.
  unfold Object_keys. induction o as [|[k' v'] rest IH]; [reflexivity|].
  cbn [set_property]. destruct (String.eqb_spec k' k) as [->|Hk]; cbn [map fst].
  - reflexivity.
  - rewrite IH. reflexivity.
Qed.

Lemma get_set_same (o : JsObject) k t :
  In k (Object_keys o) -> get (set_property o k t) k = t.
Proof.
  unfold get, Object_keys. induction o as [|[k' v'] rest IH]; [contradiction|].
  cbn [set_property map fst In].
  destruct (String.eqb_spec k' k) as [->|Hk]; cbn [own_property].
  - rewrite String.eqb_refl. reflexivity.
  - intros [Heq|Hin]; [contradiction|].
    destruct (String.eqb_spec k' k) as [Heq|_]; [contradiction|]. apply IH. exact Hin.
Qed.

Lemma video_record_shape (host : Host) item record :
  video_record host item = Normal record ->
  well_formed record
  /\ (titled item = true -> text_or_falsy (get record "title") = true).
Proof.
  unfold video_record.
  destruct (parseDuration (duration (default no_contentDetails (contentDetails item))))
    as [seconds|e] eqn:Hduration; [|discriminate].
  pose proof (parseDuration_nonneg _ _ Hduration) as Hseconds.
  cbn [cbind]. intros [= <-]. split.
  - split; [reflexivity|]. split; [exists seconds; split; [reflexivity|exact Hseconds]|].
    split; [eexists; reflexivity|]. split; [eexists; reflexivity|].
    split; [eexists; reflexivity|]. left. reflexivity.
  - unfold titled, text_or_falsy.
    change (get _ "title")
      with (or_else (title (default no_snippet (snippet item))) (JStr EmptyString)).
    destruct (or_else (title (default no_snippet (snippet item))) (JStr EmptyString));
      try discriminate.
    intros _. unfold or_else. destruct (truthy (JStr s)); reflexivity.
Qed.

Lemma well_formed_measures (host : Host) v :
  well_formed v ->
  count_of "view_count" v <> NaN /\ count_of "like_count" v <> NaN
  /\ count_of "duration" v <> NaN.
Proof.
  intros (_ & (n0 & Hd & _) & (n1 & Hv) & (n2 & Hl) & _).
  split; [|split]; eapply count_of_number; eassumption.
Qed.

Lemma well_formed_set_transcript v t :
  well_formed v -> (t = JNull \/ exists s, t = JStr s) ->
  well_formed (set_property v "transcript" t).
Proof.
  intros (Hkeys & Hd & Hv & Hl & Hc & _) Ht.
  unfold well_formed. rewrite Object_keys_set, !get_set_other by reflexivity.
  repeat (split; [assumption|]).
  rewrite get_set_same by (rewrite Hkeys; simpl; tauto). exact Ht.
Qed.

Section Fetch.
Context (host : Host) {W : Type} (api : Api W).

Lemma fetchTranscriptForVideo_run videoId (w : W) :
  exists t, snd (fetchTranscriptForVideo api videoId w) = Normal t
            /\ fst (fetchTranscriptForVideo api videoId w)
               = fst (fetchTranscript api videoId w)
            /\ (t = JNull \/ exists s, t = JStr s).
Proof.
  unfold fetchTranscriptForVideo.
  destruct (fetchTranscript api videoId w) as [w' [segments|e]]; eexists;
    (split; [reflexivity|]); (split; [reflexivity|]).
  - right. eexists. reflexivity.
  - left. reflexivity.
Qed.

(** Attaching the transcripts never fails, and sets the transcript of each
    record to a text or to [null]. *)
Lemma attach_transcripts_run videos :
  forall w : W,
    exists videos',
      snd (attach_transcripts api videos w) = Normal videos'
      /\ Forall2 with_transcript videos videos'.
Proof.
  induction videos as [|video rest IH]; intros w; cbn [attach_transcripts].
  - exists []. split; [reflexivity|constructor].
  - unfold bind.
    destruct (fetchTranscriptForVideo_run (get video "video_id") w) as (t & Ht & _ & Hkind).
    destruct (fetchTranscriptForVideo api (get video "video_id") w) as [w1 r].
    cbn [snd] in Ht. subst r.
    destruct (IH w1) as (rest' & Hrest & Hall).
    destruct (attach_transcripts api rest w1) as [w2 r]. cbn [snd] in Hrest. subst r.
    eexists. split; [reflexivity|]. constructor; [|exact Hall].
    exists t. split; [reflexivity|exact Hkind].
Qed.

Lemma getVideoIds_from_length (playlistId : JsValue) (max : nat) fuel :
  forall ids token w w' out,
    getVideoIds_from api fuel playlistId max ids token w = (w', Normal (Some out)) ->
    length out <= max.
Proof.
  induction fuel as [|fuel IH]; intros ids token w w' out;
    rewrite getVideoIds_from_step; destruct (length ids <? max);
    try discriminate; try (intros [= <- <-]; apply firstn_le_length).
  destruct (playlistItems_list api playlistId (Nat.min 50 (max - length ids)) token w)
    as [w1 [res|e]]; [|discriminate].
  destruct (pushed_ids (page_items res)) as [new|e]; [|discriminate].
  destruct (truthy (nextPageToken res)); [apply IH|].
  intros [= <- <-]. apply firstn_le_length.
Qed.

Lemma getVideoDetails_from_length (videoIds : list JsValue) fuel :
  honest api ->
  forall i results w w' out,
    getVideoDetails_from host api fuel videoIds i results w = (w', Normal (Some out)) ->
    length out <= length results + (length videoIds - i).
Proof.
  intros Hhonest. induction fuel as [|fuel IH]; intros i results w w' out;
    rewrite getVideoDetails_from_step; destruct (i <? length videoIds) eqn:Hless;
    try discriminate; try (intros [= <- <-]; lia).
  destruct (videos_list api (take 50 (drop i videoIds)) w) as [w1 [items|e]] eqn:Hlist;
    [|discriminate].
  destruct (pushed_records host items) as [records|e] eqn:Hrecords; [|discriminate].
  intros Hrun. apply IH in Hrun. rewrite length_app in Hrun.
  rewrite (pushed_records_length host _ _ Hrecords) in Hrun.
  pose proof (Hhonest (take 50 (drop i videoIds)) w items) as Hitems.
  rewrite Hlist in Hitems. specialize (Hitems eq_refl).
  rewrite length_take, length_drop in Hitems.
  apply Nat.ltb_lt in Hless. lia.
Qed.

(** The steps of a download that ends normally. *)
Lemma fetchChannelVideos_steps fuel channelUrl max includeTranscripts (w w' : W) videos :
  fetchChannelVideos host api fuel channelUrl max includeTranscripts w
  = (w', Normal (Some videos)) ->
  exists (videoIds : list JsValue) (records : list JsObject) (w1 w2 : W),
    length videoIds <= limit_of max
    /\ getVideoDetails host api videoIds w1 = (w2, Normal (Some records))
    /\ if includeTranscripts
       then Forall2 with_transcript records videos
       else videos = records.
Proof.
  unfold fetchChannelVideos, bind.
  destruct (resolveChannelId api channelUrl w) as [wa [channelId|e]]; [|discriminate].
  destruct (getUploadsPlaylistId host api channelId wa) as [wb [uploads|e]];
    [|discriminate].
  destruct (getVideoIds api fuel uploads (limit_of max) wb) as [wc [[videoIds|]|e]] eqn:Hids;
    try discriminate.
  destruct (getVideoDetails host api videoIds wc) as [wd [[records|]|e]] eqn:Hdetails;
    try discriminate.
  intros Hrun. exists videoIds, records, wc, wd.
  split; [apply (getVideoIds_from_length _ _ _ _ _ _ _ _ Hids)|].
  split; [exact Hdetails|].
  destruct includeTranscripts.
  - destruct (attach_transcripts_run records wd) as (videos' & Hrun' & Hall).
    destruct (attach_transcripts api records wd) as [we r]. cbn [snd] in Hrun'. subst r.
    unfold ret in Hrun. injection Hrun as <- <-. exact Hall.
  - unfold ret in Hrun. injection Hrun as <- <-. reflexivity.
Qed.

End Fetch.

(** X13.  A run of [getVideoIds] that ends normally has made page requests
    only, each for the given playlist and for between 1 and 50 ids, never
    more than [max]; the first request carries no page token and each later
    one the token of the page before it; and the result is the ids of the
    pages in the order received, cut off after [max]. *)
Theorem getVideoIds_asks_page_by_page :
  forall (W : Type) (api : Api W) (fuel : nat) (uploadsPlaylistId : JsValue) (max : nat)
         (w w' : W) (log : list Call) (ids : list JsValue),
    getVideoIds (tracing_api api) fuel uploadsPlaylistId max (w, [])
    = ((w', log), Normal (Some ids)) ->
    Forall (page_call_within uploadsPlaylistId max) log
    /\ tokens_chain JUndefined log
    /\ ids = take max (concat (map ids_of_call log))
    /\ length ids <= max
    /\ getVideoIds api fuel uploadsPlaylistId max w = (w', Normal (Some ids)).
Proof.
  intros W api fuel uploadsPlaylistId max w w' log ids Hrun. unfold getVideoIds in *.
  destruct (getVideoIds_from_log api uploadsPlaylistId max fuel _ _ _ _ _ _ _ Hrun)
    as (calls & Hlog & Hcalls & Hchain & Hids).
  simpl in Hlog, Hids. subst calls.
  repeat split; try assumption.
  - rewrite Hids. apply firstn_le_length.
  - rewrite <- (tracing_getVideoIds_from api uploadsPlaylistId max fuel [] JUndefined w []).
    rewrite Hrun. reflexivity.
Qed.

Lemma getVideoIds_asks_page_by_page_witness :
  let run := getVideoIds (tracing_api Fixtures.sample_api) 5 (JStr "UU-tides") 10 (0, []) in
  snd run = Normal (Some [JStr "a"; JStr "b"; JStr "c"])
  /\ Forall (page_call_within (JStr "UU-tides") 10) (snd (fst run))
  /\ tokens_chain JUndefined (snd (fst run)).
Proof.
  split; [vm_compute; reflexivity|].
  destruct (getVideoIds_asks_page_by_page nat Fixtures.sample_api 5 (JStr "UU-tides") 10
              0 _ _ _ ltac:(vm_compute; reflexivity)) as (Hcalls & Hchain & _).
  split; [exact Hcalls|exact Hchain].
Defined.

(** X14.  When every page that names a next page brings at least one item,
    [getVideoIds] ends within [max] requests: with that much fuel the loop
    does not run out. *)
Theorem getVideoIds_ends_within_max_requests :
  forall (W : Type) (api : Api W) (fuel : nat) (uploadsPlaylistId : JsValue) (max : nat)
         (w : W),
    productive api ->
    max <= fuel ->
    snd (getVideoIds api fuel uploadsPlaylistId max w) <> Normal None.
Proof.
  intros W api fuel uploadsPlaylistId max w Hprod Hfuel. unfold getVideoIds.
  apply (getVideoIds_from_fuel api uploadsPlaylistId max fuel Hprod). simpl. lia.
Qed.

Lemma sample_api_productive : productive Fixtures.sample_api.
Proof.
  intros playlistId maxResults pageToken w page Hpage Htoken.
  cbn in Hpage. injection Hpage as <-.
  destruct pageToken; discriminate.
Qed.

Lemma getVideoIds_ends_within_max_requests_witness :
  snd (getVideoIds Fixtures.sample_api 2 (JStr "UU-tides") 2 0) <> Normal None.
Proof.
  apply (getVideoIds_ends_within_max_requests nat Fixtures.sample_api 2 (JStr "UU-tides")
           2 0 sample_api_productive).
  lia.
Defined.

(** The condition is needed: on empty pages that always name a next page
    the loop never ends. *)
Example getVideoIds_can_stall :
  forall fuel pageToken n,
    snd (getVideoIds_from Fixtures.stalling_api fuel (JStr "UU-tides") 1 [] pageToken n)
    = Normal None.
Proof.
  induction fuel as [|fuel IH]; intros pageToken n; rewrite getVideoIds_from_step; cbn.
  - reflexivity.
  - apply IH.
Qed.

(** X15.  [getVideoDetails] always ends (its loop never needs more turns than
    there are ids).  A run that ends normally has asked for the ids in
    order, each exactly once, in batches of between 1 and 50 ids, and returns
    the records built from the items of the answers, in the order
    received. *)
Theorem getVideoDetails_asks_in_batches :
  forall (host : Host) (W : Type) (api : Api W) (videoIds : list JsValue) (w : W),
    let run := getVideoDetails host (tracing_api api) videoIds (w, []) in
    snd run <> Normal None
    /\ (fst (fst run), snd run) = getVideoDetails host api videoIds w
    /\ forall records,
         snd run = Normal (Some records) ->
         Forall batch_call_within (snd (fst run))
         /\ concat (map batch_of_call (snd (fst run))) = videoIds
         /\ records = concat (map (records_of_call host) (snd (fst run))).
Proof.
  intros host W api videoIds w run. subst run. unfold getVideoDetails.
  pose proof (tracing_getVideoDetails_from host api videoIds (length videoIds) 0 [] w [])
    as Herase.
  split; [|split].
  - replace (snd (getVideoDetails_from host (tracing_api api) (length videoIds) videoIds 0
                     [] (w, [])))
      with (snd (getVideoDetails_from host api (length videoIds) videoIds 0 [] w))
      by (rewrite <- Herase; reflexivity).
    apply (getVideoDetails_from_fuel host api videoIds). lia.
  - exact Herase.
  - intros records Hrun.
    destruct (getVideoDetails_from host (tracing_api api) (length videoIds) videoIds 0 []
                (w, [])) as [[w' log'] r] eqn:Hfrom.
    cbn [fst snd] in *. subst r.
    destruct (getVideoDetails_from_log host api videoIds _ _ _ _ _ _ _ _ Hfrom)
      as (calls & Hlog & Hcalls & Hbatches & Hout).
    simpl in Hlog, Hout. subst calls. repeat split; assumption.
Qed.

Lemma Forall_with_transcript (P : JsObject -> Prop) records videos :
  (forall v v', with_transcript v v' -> P v -> P v') ->
  Forall2 with_transcript records videos -> Forall P records -> Forall P videos.
Proof.
  intros Hstep Hall. induction Hall as [|v v' rest rest' Hv Hrest IH]; intros HP.
  - constructor.
  - inversion HP; subst. constructor; [eapply Hstep; eassumption|apply IH; assumption].
Qed.

(** X16.  Every record of a download that ends normally has the eleven keys
    of the dataset, a number of seconds that is not negative as duration,
    numbers as counts and a text or [null] as transcript; so its view count,
    like count and duration never read as [NaN].  When the titles the service returns are
    text, the titles of the records are text, and [play_video] on the
    downloaded dataset never raises for a text (or absent) query: it returns
    a video card or an error result. *)
Theorem downloaded_records_suit_the_resolver :
  forall (host : Host) (W : Type) (api : Api W) (fuel : nat) (channelUrl : string)
         (max : Z) (includeTranscripts : bool) (w w' : W) (videos : list JsObject),
    fetchChannelVideos host api fuel channelUrl max includeTranscripts w
    = (w', Normal (Some videos)) ->
    (forall v, v ∈ videos ->
       well_formed v
       /\ count_of "view_count" v <> NaN
       /\ count_of "like_count" v <> NaN
       /\ count_of "duration" v <> NaN)
    /\ (titles_are_text api ->
        (forall v, v ∈ videos -> text_or_falsy (get v "title") = true)
        /\ forall (args : JsObject) (dataset : loc) (h : heap),
             h !! dataset = Some videos ->
             text_or_falsy (get args "query") = true ->
             exists r, snd (play_video host args dataset h) = Normal r
                       /\ (is_error r = true \/ is_video_card r = true)).
Proof.
  intros host W api fuel channelUrl max includeTranscripts w w' videos Hrun.
  destruct (fetchChannelVideos_steps host api _ _ _ _ _ _ _ Hrun)
    as (videoIds & records & w1 & w2 & _ & Hdetails & Hvideos).
  assert (Hshape : Forall well_formed records).
  { apply (getVideoDetails_from_all host api videoIds well_formed (length videoIds))
      with (i := 0) (results := []) (w := w1) (w' := w2); [|constructor|exact Hdetails].
    intros batch w0 items item record _ _ Hrecord.
    apply (video_record_shape host item record Hrecord). }
  assert (Hshape' : Forall well_formed videos).
  { destruct includeTranscripts; [|subst videos; exact Hshape].
    apply (Forall_with_transcript well_formed records videos); [|assumption..].
    intros v v' (t & -> & Ht) Hv. apply well_formed_set_transcript; assumption. }
  split.
  - intros v Hv. rewrite Forall_forall in Hshape'. specialize (Hshape' v Hv).
    split; [exact Hshape'|]. apply (well_formed_measures host v Hshape').
  - intros Htitles.
    assert (Htext : Forall (fun v => text_or_falsy (get v "title") = true) records).
    { apply (getVideoDetails_from_all host api videoIds _ (length videoIds))
        with (i := 0) (results := []) (w := w1) (w' := w2); [|constructor|exact Hdetails].
      intros batch w0 items item record Hitems Hin Hrecord.
      apply (video_record_shape host item record Hrecord).
      apply (Htitles batch w0 items item Hitems Hin). }
    assert (Htext' : forall v, v ∈ videos -> text_or_falsy (get v "title") = true).
    { rewrite <- Forall_forall.
      destruct includeTranscripts; [|subst videos; exact Htext].
      apply (Forall_with_transcript _ records videos); [|assumption..].
      intros v v' (t & -> & Ht) Hv. rewrite get_set_other by reflexivity. exact Hv. }
    split; [exact Htext'|].
    intros args dataset h Hdataset Hquery.
    destruct (snd (play_video host args dataset h)) as [r|e] eqn:Hplay.
    + exists r. split; [reflexivity|].
      apply (play_video_returns host args dataset h videos r Hdataset Hplay).
    + destruct (play_video_throws host args dataset h videos e Hdataset Hplay)
        as [_ [Hbad|(v & Hin & Hbad)]].
      * congruence.
      * rewrite (Htext' v Hin) in Hbad. discriminate.
Qed.

Lemma downloaded_records_suit_the_resolver_witness :
  exists videos : list JsObject,
    snd (fetchChannelVideos Samples.sample_host Fixtures.sample_api 5
           "https://www.youtube.com/@tides/" 2 true 0) = Normal (Some videos)
    /\ length videos = 2
    /\ forall v, v ∈ videos -> count_of "duration" v <> NaN.
Proof.
  eexists. split; [vm_compute; reflexivity|]. split; [reflexivity|].
  intros v Hv.
  destruct (downloaded_records_suit_the_resolver Samples.sample_host nat
              Fixtures.sample_api 5 "https://www.youtube.com/@tides/" 2 true 0 _ _
              ltac:(vm_compute; reflexivity)) as [Hall _].
  apply (Hall v Hv).
Defined.

(** X17.  A download never holds more than [limit] records, where [limit] is
    [max] brought into the range 1..100, provided the service returns at most
    one item for each id asked. *)
Theorem download_is_limited :
  forall (host : Host) (W : Type) (api : Api W) (fuel : nat) (channelUrl : string)
         (max : Z) (includeTranscripts : bool) (w w' : W) (videos : list JsObject),
    honest api ->
    fetchChannelVideos host api fuel channelUrl max includeTranscripts w
    = (w', Normal (Some videos)) ->
    length videos <= limit_of max
    /\ 1 <= limit_of max <= 100
    /\ ((1 <= max <= 100)%Z -> Z.of_nat (limit_of max) = max).
Proof.
  intros host W api fuel channelUrl max includeTranscripts w w' videos Hhonest Hrun.
  destruct (fetchChannelVideos_steps host api _ _ _ _ _ _ _ Hrun)
    as (videoIds & records & w1 & w2 & Hids & Hdetails & Hvideos).
  apply (getVideoDetails_from_length host api videoIds (length videoIds) Hhonest)
    in Hdetails.
  assert (Hlen : length videos = length records).
  { destruct includeTranscripts; [|subst videos; reflexivity].
    symmetry. apply (Forall2_length _ _ _ Hvideos). }
  unfold limit_of in *. simpl in Hdetails. split; [lia|]. split; lia.
Qed.

Lemma sample_api_honest : honest Fixtures.sample_api.
Proof.
  intros batch w items Hitems. cbn in Hitems. injection Hitems as <-.
  rewrite length_map. lia.
Qed.

Lemma download_is_limited_witness :
  exists videos : list JsObject,
    snd (fetchChannelVideos Samples.sample_host Fixtures.sample_api 5 "c/tides" 250
           false 0) = Normal (Some videos)
    /\ length videos <= 100.
Proof.
  eexists. split; [vm_compute; reflexivity|].
  destruct (download_is_limited Samples.sample_host nat Fixtures.sample_api 5 "c/tides"
              250 false 0 _ _ sample_api_honest ltac:(vm_compute; reflexivity))
    as (Hlen & _).
  exact Hlen.
Defined.

(** X18.  The transcripts are best effort: a download with transcripts ends
    as the download without them does (normally, with an exception, or not
    within the fuel); when it ends normally its records are those of the
    download without transcripts, each with a text or [null] as transcript
    and otherwise unchanged. *)
Theorem transcripts_are_best_effort :
  forall (host : Host) (W : Type) (api : Api W) (fuel : nat) (channelUrl : string)
         (max : Z) (w : W),
    match snd (fetchChannelVideos host api fuel channelUrl max false w) with
    | Normal (Some records) =>
        exists videos,
          snd (fetchChannelVideos host api fuel channelUrl max true w)
          = Normal (Some videos)
          /\ Forall2 with_transcript records videos
    | other => snd (fetchChannelVideos host api fuel channelUrl max true w) = other
    end.
Proof.
  intros host W api fuel channelUrl max w. unfold fetchChannelVideos, bind.
  destruct (resolveChannelId api channelUrl w) as [wa [channelId|e]]; [|reflexivity].
  destruct (getUploadsPlaylistId host api channelId wa) as [wb [uploads|e]];
    [|reflexivity].
  destruct (getVideoIds api fuel uploads (limit_of max) wb) as [wc [[videoIds|]|e]];
    try reflexivity.
  destruct (getVideoDetails host api videoIds wc) as [wd [[records|]|e]]; try reflexivity.
  cbn [snd ret].
  destruct (attach_transcripts_run api records wd) as (videos & Hrun & Hall).
  destruct (attach_transcripts api records wd) as [we r]. cbn [snd] in Hrun. subst r.
  exists videos. split; [reflexivity|exact Hall].
Qed.

(** X19.  Whatever is typed into the field, [maxVideos] of the download form
    is a number between 1 and 100: an entry within the range is kept, one
    that is 0 or no number becomes 10, an entry above 100 (also [Infinity])
    becomes 100, and any other entry below 1 (also a negative one and
    [-Infinity]) becomes 1.  For a whole number of videos the limit that
    [fetchChannelVideos] computes from it is that same number. *)
Theorem maxVideos_stays_within_1_and_100 :
  forall value : number,
    exists q : Q,
      clamped_maxVideos value = Fin q
      /\ (1 <= q)%Q /\ (q <= 100)%Q
      /\ (number_truthy value = false -> q = 10%Q)
      /\ (nlt (Fin 100) value = true -> q = 100%Q)
      /\ (number_truthy value = true -> nlt value (Fin 1) = true -> q = 1%Q)
      /\ (forall v, value = Fin v -> (1 <= v)%Q -> (v <= 100)%Q -> (q == v)%Q)
      /\ (forall z, (q == inject_Z z)%Q -> Z.of_nat (limit_of z) = z).
Proof.
  intros value.
  assert (Hlimit : forall (q : Q) z,
             (1 <= q)%Q -> (q <= 100)%Q -> (q == inject_Z z)%Q ->
             Z.of_nat (limit_of z) = z).
  { intros q z Hlo Hhi Hz. rewrite Hz in Hlo, Hhi.
    change 1%Q with (inject_Z 1) in Hlo. change 100%Q with (inject_Z 100) in Hhi.
    rewrite <- Zle_Qle in Hlo, Hhi. unfold limit_of. lia. }
  unfold clamped_maxVideos. destruct value as [| | |v]; cbn [number_truthy nlt].
  - exists 10%Q. split; [reflexivity|]. repeat split; try discriminate; try reflexivity.
    intros z. apply Hlimit; discriminate.
  - exists 100%Q. split; [reflexivity|]. repeat split; try discriminate; try reflexivity.
    intros z. apply Hlimit; discriminate.
  - exists 1%Q. split; [reflexivity|]. repeat split; try discriminate; try reflexivity.
    intros z. apply Hlimit; discriminate.
  - destruct (Qeq_bool v 0) eqn:Hzero; cbn [negb].
    + apply Qeq_bool_eq in Hzero. exists 10%Q. split; [reflexivity|].
      split; [discriminate|]. split; [discriminate|]. split; [reflexivity|].
      split; [intros H; apply NumberFacts.Qltb_lt in H; lra|].
      split; [discriminate|].
      split; [intros v' [= <-] Hv _; lra|].
      intros z. apply Hlimit; discriminate.
    + cbn [Math_max Math_min fold_left nlt].
      destruct (Qltb 1 v) eqn:Hone.
      * apply NumberFacts.Qltb_lt in Hone. cbn [nlt].
        destruct (Qltb v 100) eqn:Hhundred.
        -- apply NumberFacts.Qltb_lt in Hhundred. exists v.
           split; [reflexivity|]. split; [lra|]. split; [lra|].
           split; [discriminate|].
           split; [intros H; apply NumberFacts.Qltb_lt in H; lra|].
           split; [intros _ H; apply NumberFacts.Qltb_lt in H; lra|].
           split; [intros v' [= <-] _ _; reflexivity|].
           intros z. apply Hlimit; lra.
        -- apply NumberFacts.Qltb_false in Hhundred. exists 100%Q.
           split; [reflexivity|]. split; [discriminate|]. split; [discriminate|].
           split; [discriminate|]. split; [reflexivity|].
           split; [intros _ H; apply NumberFacts.Qltb_lt in H; lra|].
           split; [intros v' [= <-] _ Hv; lra|].
           intros z; apply Hlimit; discriminate.
      * apply NumberFacts.Qltb_false in Hone. exists 1%Q.
        split; [reflexivity|]. split; [discriminate|]. split; [discriminate|].
        split; [discriminate|].
        split; [intros H; apply NumberFacts.Qltb_lt in H; lra|].
        split; [reflexivity|].
        split; [intros v' [= <-] Hv _; lra|].
        intros z; apply Hlimit; discriminate.
Qed.

(** The bounds and the default are reached: 0 and an entry that is no
    number give 10, 250 gives 100 and -5 gives 1. *)
Example maxVideos_out_of_range :
  clamped_maxVideos (Fin 0) = Fin 10 /\ clamped_maxVideos NaN = Fin 10
  /\ clamped_maxVideos (Fin 250) = Fin 100 /\ clamped_maxVideos (Fin (-5)) = Fin 1.
Proof. repeat split; reflexivity. Qed.

End DownloadFacts.

(** ** [play_video]: a numeral with a suffix *)

Module OrdinalFacts.
Import Js Heap JsonTools Notions Criteria Downloader Readers HeapFacts PlayFacts
  ResolverFacts DurationFacts.

(** The pattern does not match at a character that is no digit. *)
Lemma rmatch_suffix_no_digit {T : Type} c r caps (k : string -> list string -> option T) :
  is_digit c = false -> rmatch false ordinal_suffix_re (String c r) caps k = None.
Proof.
  intros Hc.
  change (rmatch false ordinal_suffix_re (String c r) caps k)
    with (rmatch false (Plus Digit) (String c r) caps
            (fun s' caps' =>
               rmatch false (Alt (lit "st") (Alt (lit "nd") (Alt (lit "rd") (lit "th"))))
                 s' (caps' ++ [take_str (String.length (String c r) - String.length s')
                                 (String c r)]) k)).
  rewrite rmatch_Plus_Digit, Hc. reflexivity.
Qed.

Lemma search_suffix_skips pre s :
  no_digit pre = true ->
  search false ordinal_suffix_re (pre ++ s) = search false ordinal_suffix_re s.
Proof.
  unfold no_digit. induction pre as [|c r IH]; [reflexivity|].
  cbn [all_chars]. intros Hpre. apply andb_true_iff in Hpre as [Hc Hr].
  apply negb_true_iff in Hc.
  change (String c r ++ s)%string with (String c (r ++ s)%string).
  cbn [search]. rewrite (rmatch_suffix_no_digit c _ _ _ Hc). apply IH. exact Hr.
Qed.

(** At a numeral followed by one of the four suffixes the pattern matches,
    and captures the numeral. *)
Lemma search_suffix_numeral ds suffix post :
  is_numeral ds = true ->
  In suffix ["st"; "nd"; "rd"; "th"] ->
  search false ordinal_suffix_re (ds ++ suffix ++ post) = Some [ds].
Proof.
  intros Hnum Hsuffix.
  assert (Hshape : exists c rest, (suffix ++ post)%string = String c rest
                                  /\ is_digit c = false
                                  /\ rmatch false
                                       (Alt (lit "st") (Alt (lit "nd") (Alt (lit "rd") (lit "th"))))
                                       (String c rest) [ds] (fun _ caps => Some caps)
                                     = Some [ds]).
  { simpl in Hsuffix.
    destruct Hsuffix as [<-|[<-|[<-|[<-|[]]]]]; eexists _, _;
      (split; [reflexivity|]); split; reflexivity. }
  destruct Hshape as (c & rest & Heq & Hc & Hmatch). rewrite Heq.
  pose proof Hnum as Hnum'. unfold is_numeral in Hnum'.
  apply andb_true_iff in Hnum' as [Hne Hall].
  destruct (digits_then_letter ds c rest Hall Hc) as [Htake Hskip].
  set (s := (ds ++ String c rest)%string) in *.
  assert (Hrun : rmatch false ordinal_suffix_re s [] (fun _ caps => Some caps) = Some [ds]).
  { change (rmatch false ordinal_suffix_re s [] (fun _ caps => Some caps))
      with (rmatch false (Plus Digit) s []
              (fun s' caps' =>
                 rmatch false (Alt (lit "st") (Alt (lit "nd") (Alt (lit "rd") (lit "th"))))
                   s' (caps' ++ [take_str (String.length s - String.length s') s])
                   (fun _ caps => Some caps))).
    set (K := fun (s' : string) (caps' : list string) =>
                rmatch false (Alt (lit "st") (Alt (lit "nd") (Alt (lit "rd") (lit "th"))))
                  s' (caps' ++ [take_str (String.length s - String.length s') s])
                  (fun _ caps => Some caps)).
    assert (HK : forall d r caps', is_digit d = true -> K (String d r) caps' = None).
    { intros d r caps' Hd. unfold K. cbn [rmatch lit]. unfold chr_eq.
      rewrite !(Ascii.eqb_sym _ d), !(digit_is_no_letter d _ Hd) by reflexivity.
      reflexivity. }
    rewrite rmatch_Plus_Digit.
    destruct s as [|d r] eqn:Hs.
    { destruct ds; discriminate. }
    cbn [take_digits skip_digits] in Htake, Hskip.
    destruct (is_digit d) eqn:Hd.
    - rewrite (star_digit_longest K r [] HK), Hskip. unfold K.
      pose proof (take_str_digits (String d r)) as Hcap.
      cbn [take_digits skip_digits] in Hcap. rewrite Hd, Hskip, Htake in Hcap.
      rewrite Hcap. exact Hmatch.
    - destruct ds; discriminate. }
  destruct s as [|d r] eqn:Hs.
  { destruct ds; discriminate. }
  cbn [search]. rewrite Hrun. reflexivity.
Qed.

Lemma no_digit_append s t : no_digit (s ++ t) = no_digit s && no_digit t.
Proof.
  unfold no_digit. induction s as [|c r IH]; [reflexivity|].
  change (String c r ++ t)%string with (String c (r ++ t)%string).
  cbn [all_chars]. rewrite IH, andb_assoc. reflexivity.
Qed.

Lemma numeral_has_digit ds : is_numeral ds = true -> no_digit ds = false.
Proof.
  unfold is_numeral, no_digit. destruct ds as [|d r]; [discriminate|].
  cbn [all_chars]. intros Hnum. apply andb_true_iff in Hnum as [_ Hall].
  apply andb_true_iff in Hall as [Hd _]. rewrite Hd. reflexivity.
Qed.

Lemma spelled_out_no_digit k : In k (Object_keys ordinals) -> no_digit k = true.
Proof.
  intros Hk. simpl in Hk.
  repeat (destruct Hk as [<-|Hk]; [reflexivity|]). contradiction.
Qed.

(** X20.  A query that holds a numeral followed by [st], [nd], [rd] or [th]
    (the first run of digits of the query) plays the record at that position
    of the dataset as given, whatever else the query says: criteria and
    titles are not looked at.  When the numeral is 0 or beyond the number of
    records, the ordinal step finds nothing and leaves the query to the
    criteria and the titles. *)
Theorem numeral_suffix_indexes_the_dataset :
  forall (host : Host) (args : JsObject) (query : string) (videos : loc) (h : heap)
         (records : list JsObject) (before numeral suffix rest : string),
    h !! videos = Some records ->
    records <> [] ->
    normalized_query args = Normal query ->
    query = (before ++ numeral ++ suffix ++ rest)%string ->
    no_digit before = true ->
    is_numeral numeral = true ->
    In suffix ["st"; "nd"; "rd"; "th"] ->
    match record_numbered (parseInt_digits numeral) records with
    | Some v => snd (play_video host args videos h) = Normal (video_card host v)
    | None => snd (ordinal_match query videos h) = Normal None
    end.
Proof.
  intros host args query videos h records before numeral suffix rest Hv Hne Hq Hquery
         Hbefore Hnum Hsuffix.
  assert (Hnot : ~ In query (Object_keys ordinals)).
  { intros Hin. apply spelled_out_no_digit in Hin.
    rewrite Hquery, !no_digit_append, (numeral_has_digit numeral Hnum) in Hin.
    rewrite andb_false_r in Hin. discriminate. }
  assert (Hord : ordinal_match query videos h
                 = (h, Normal (record_numbered (parseInt_digits numeral) records))).
  { rewrite (ordinal_match_other query videos h Hnot). unfold numeral_suffix_match.
    rewrite Hquery, (search_suffix_skips before _ Hbefore),
      (search_suffix_numeral numeral suffix rest Hnum Hsuffix).
    cbn [nth]. rewrite (Array_at_run _ _ _ _ Hv). unfold record_numbered.
    destruct (Z.leb_spec 1 (parseInt_digits numeral)) as [Hone|Hzero].
    - destruct (Z.ltb_spec (parseInt_digits numeral - 1) 0); [lia|reflexivity].
    - destruct (Z.ltb_spec (parseInt_digits numeral - 1) 0); [reflexivity|lia]. }
  destruct (record_numbered (parseInt_digits numeral) records) as [v|] eqn:Hrecord.
  - rewrite (play_video_cases host args videos h records Hv), Hq.
    destruct records as [|v0 others]; [contradiction|].
    destruct (find_video_run host query videos h (v0 :: others) Hv)
      as (found0 & h' & Hrun & _ & Hfind).
    rewrite Hord in Hrun. injection Hrun as <-. rewrite Hfind. reflexivity.
  - rewrite Hord. reflexivity.
Qed.

Lemma numeral_suffix_indexes_the_dataset_witness :
  snd (play_video Samples.sample_host [("query", JStr "Play the 1st most viewed")] 0
         (Samples.dataset_at_0 Samples.abc))
  = Normal (video_card Samples.sample_host
              [("title", JStr "A"); ("view_count", Samples.num 100)]).
Proof.
  apply (numeral_suffix_indexes_the_dataset Samples.sample_host
           [("query", JStr "Play the 1st most viewed")] "play the 1st most viewed" 0
           (Samples.dataset_at_0 Samples.abc) Samples.abc "play the " "1" "st"
           " most viewed");
    [reflexivity|discriminate|reflexivity|reflexivity|reflexivity|reflexivity|].
  simpl. tauto.
Defined.

End OrdinalFacts.

(** ** [streamChat] and the message of a streamed turn *)

Module StreamFacts.
Import Js Gemini Stream.

Section Facts.
Context {G : Type}.

Lemma texts_of_truthy (parts : list ModelPart) :
  Forall (fun t => t <> EmptyString) (texts_of parts).
Proof.
  induction parts as [|p rest IH]; simpl; [constructor|].
  unfold truthy_text. destruct (model_text p) as [[|c r]|]; try exact IH.
  constructor; [discriminate|exact IH].
Qed.

(** The texts yielded are those of the parts that have a text, in order. *)
Lemma texts_of_filter (parts : list ModelPart) :
  map Some (texts_of parts) = map model_text (List.filter has_text parts).
Proof.
  induction parts as [|p rest IH]; [reflexivity|].
  cbn [texts_of List.filter]. unfold has_text, truthy_text.
  destruct (model_text p) as [[|c r]|] eqn:Htext; try exact IH.
  cbn [map]. rewrite Htext, IH. reflexivity.
Qed.

(** A run that ends normally. *)
Lemma yielded_normally (result : @StreamResult G) final has :
  stream_failure result = None ->
  response result = Normal final ->
  some_has_code (allParts final) = Normal has ->
  yielded result
  = (map TextEvent (streamed_texts (stream result))
       ++ (if has then [FullResponse (structuredParts (allParts final))] else [])
       ++ match groundingMetadata final with
          | Some data => [Grounding data]
          | None => []
          end,
     Normal tt).
Proof. intros Hfailure Hresponse Hhas. unfold yielded. rewrite Hfailure, Hresponse, Hhas. reflexivity. Qed.

(** The shape of what a run yields. *)
Lemma yielded_shape (result : @StreamResult G) :
  exists (full grounding : list (Event G)),
    fst (yielded result)
    = map TextEvent (streamed_texts (stream result)) ++ full ++ grounding
    /\ (full = [] \/ exists final,
           response result = Normal final
           /\ some_has_code (allParts final) = Normal true
           /\ full = [FullResponse (structuredParts (allParts final))])
    /\ (grounding = [] \/ exists final data,
           response result = Normal final
           /\ groundingMetadata final = Some data
           /\ grounding = [Grounding data])
    /\ (forall e, snd (yielded result) = Throw e -> full = [] /\ grounding = []).
Proof.
  unfold yielded. destruct (stream_failure result) as [e|].
  { exists [], []. cbn [fst snd]. rewrite !app_nil_r. repeat split; auto. }
  destruct (response result) as [final|e].
  2: { exists [], []. cbn [fst snd]. rewrite !app_nil_r. repeat split; auto. }
  destruct (some_has_code (allParts final)) as [has|e] eqn:Hhas.
  2: { exists [], []. cbn [fst snd]. rewrite !app_nil_r. repeat split; auto. }
  exists (if has then [FullResponse (structuredParts (allParts final))] else []),
         (match groundingMetadata final with
          | Some grounding => [Grounding grounding]
          | None => []
          end).
  cbn [fst snd]. split; [reflexivity|]. split; [|split].
  - destruct has; [right; exists final; repeat split; congruence|left; reflexivity].
  - destruct (groundingMetadata final) as [data|] eqn:Hdata.
    + right. exists final, data. repeat split. exact Hdata.
    + left. reflexivity.
  - discriminate.
Qed.

Lemma texts_first_texts (texts : list string) (rest : list (Event G)) :
  texts_first false (map TextEvent texts ++ rest) = texts_first false rest.
Proof. induction texts as [|t ts IH]; [reflexivity|exact IH]. Qed.

Lemma yielded_texts_first (result : @StreamResult G) :
  texts_first false (fst (yielded result)) = true.
Proof.
  destruct (yielded_shape result) as (full & grounding & -> & Hfull & Hground & _).
  rewrite texts_first_texts.
  destruct Hfull as [->|(final & _ & _ & ->)];
    destruct Hground as [->|(final' & data & _ & _ & ->)]; reflexivity.
Qed.

Lemma yielded_failure_texts (result : @StreamResult G) e :
  snd (yielded result) = Throw e ->
  forallb is_text_event (fst (yielded result)) = true.
Proof.
  intros Hthrow.
  destruct (yielded_shape result) as (full & grounding & -> & _ & _ & Hfail).
  destruct (Hfail e Hthrow) as [-> ->]. rewrite !app_nil_r.
  induction (streamed_texts (stream result)) as [|t ts IH]; [reflexivity|exact IH].
Qed.

Lemma texts_first_take after (events : list (Event G)) k :
  texts_first after events = true -> texts_first after (take k events) = true.
Proof.
  revert after k. induction events as [|e rest IH]; intros after k Hall.
  - destruct k; reflexivity.
  - destruct k as [|k]; [reflexivity|]. cbn [take].
    destruct e as [t|ps|data]; cbn [texts_first] in *.
    + apply andb_true_iff in Hall as [Hafter Hrest]. rewrite Hafter. cbn [andb].
      apply IH. exact Hrest.
    + apply IH. exact Hall.
    + apply IH. exact Hall.
Qed.

Lemma fold_in_step (events : list (Event G)) :
  forall after l,
    texts_first after events = true ->
    in_step after l ->
    exists after', in_step after' (fold_left on_event events l)
                   /\ (forallb is_text_event events = true -> after' = after).
Proof.
  induction events as [|e rest IH]; intros after l Hall Hl.
  - exists after. split; [exact Hl|reflexivity].
  - destruct e as [t|ps|data]; cbn [texts_first fold_left forallb is_text_event] in *.
    + apply andb_true_iff in Hall as [Hafter Hrest].
      destruct after; [discriminate|].
      destruct (IH false (on_event l (TextEvent t)) Hrest) as (after' & Hstep & Hsame).
      { destruct Hl as (Hp & Hs & Hc). repeat split; assumption. }
      exists after'. split; [exact Hstep|exact Hsame].
    + destruct (IH true (on_event l (FullResponse ps)) Hall) as (after' & Hstep & _).
      { exists ps. repeat split. }
      exists after'. split; [exact Hstep|discriminate].
    + destruct (IH after (on_event l (Grounding data)) Hall) as (after' & Hstep & _).
      { destruct after; exact Hl. }
      exists after'. split; [exact Hstep|discriminate].
Qed.

Lemma in_step_reads_the_same after (l : @Loop G) :
  in_step after l ->
  history_text (shown_content (shown l)) (shown_parts (shown l))
  = history_text (savedContent l) None.
Proof.
  assert (Hnone : forall c, @history_text c None = c) by (intros [|a r]; reflexivity).
  rewrite Hnone. unfold shown, savedContent.
  destruct after; cbn [in_step].
  - intros (ps & -> & Hs & Hc).
    destruct (groundingData l); cbn [shown_content shown_parts]; rewrite Hs, Hc;
      reflexivity.
  - intros (-> & Hs & Hc).
    destruct (groundingData l); cbn [shown_content shown_parts]; rewrite Hs, Hc;
      apply Hnone.
Qed.

Lemma on_error_in_step (l : @Loop G) e : in_step false l -> in_step false (on_error l e).
Proof. intros (Hp & Hs & Hc). repeat split; assumption. Qed.

Lemma consume_in_step (run : list (Event G) * Completion unit) abort :
  texts_first false (fst run) = true ->
  (forall e, snd run = Throw e -> forallb is_text_event (fst run) = true) ->
  exists after, in_step after (consume run abort).
Proof.
  destruct run as [events ending]. cbn [fst snd]. intros Hfirst Hfail.
  assert (Hstart : in_step false (@start G)) by (repeat split).
  assert (Hwhole : exists after,
             in_step after
               match ending with
               | Normal _ => fold_left on_event events start
               | Throw e => on_error (fold_left on_event events start) e
               end).
  { destruct (fold_in_step events false start Hfirst Hstart) as (after & Hstep & Hsame).
    destruct ending as [u|e]; [exists after; exact Hstep|].
    rewrite (Hsame (Hfail e eq_refl)) in Hstep.
    exists false. apply on_error_in_step. exact Hstep. }
  unfold consume. destruct abort as [k|]; [|exact Hwhole].
  destruct (k <? length events); [|exact Hwhole].
  destruct (fold_in_step (take k events) false start
              (texts_first_take false events k Hfirst) Hstart) as (after & Hstep & _).
  exists after. exact Hstep.
Qed.

End Facts.

(** X21.  A run of [streamChat] yields text events first, then at most one
    full response, then at most one grounding event; when the run ends with
    an exception, only text events were yielded before it.  Once the stream
    is obtained, the text events are one for each part of the chunks of that
    stream whose text is not empty, in order, carrying that text; the full
    response holds the structured parts of the final response of that stream
    and is yielded exactly when one of its parts is code, a result or an
    image; the grounding event carries its grounding metadata.  When the
    chat cannot be started or the stream is not obtained, nothing is
    yielded. *)
Theorem streamChat_yields_texts_first :
  forall (G R W : Type) (remote : @Remote R W)
         (sendMessageStream : bool -> list RequestPart -> StE W (@StreamResult G))
         (history : list Message) (newMessage : string)
         (imageParts : list (JsValue * JsValue)) (useCodeExecution : bool)
         (userName : string) (st : @State W),
    let run := snd (streamChat remote sendMessageStream history newMessage imageParts
                      useCodeExecution userName st) in
    exists (texts : list string) (full grounding : list (Event G)),
      fst run = map TextEvent texts ++ full ++ grounding
      /\ Forall (fun t => t <> EmptyString) texts
      /\ (full = [] \/ exists parts, full = [FullResponse parts])
      /\ (grounding = [] \/ exists data, grounding = [Grounding data])
      /\ (forall e, snd run = Throw e -> full = [] /\ grounding = [])
      /\ (forall (st1 : @State W) (systemInstruction : string) (w0 w1 : W) (u : unit)
                 (result : @StreamResult G),
            loadSystemPrompt remote userName st = (st1, Normal systemInstruction) ->
            startChat remote (chatHistory systemInstruction history) (world st1)
            = (w0, Normal u) ->
            sendMessageStream useCodeExecution (request_parts newMessage imageParts) w0
            = (w1, Normal result) ->
            texts = streamed_texts (stream result)
            /\ map Some texts
               = map model_text (List.filter has_text (concat (stream result)))
            /\ (forall parts,
                  full = [FullResponse parts] ->
                  exists final,
                    response result = Normal final
                    /\ some_has_code (allParts final) = Normal true
                    /\ parts = structuredParts (allParts final))
            /\ (forall data,
                  grounding = [Grounding data] ->
                  exists final,
                    response result = Normal final /\ groundingMetadata final = Some data)
            /\ (forall final has,
                  stream_failure result = None ->
                  response result = Normal final ->
                  some_has_code (allParts final) = Normal has ->
                  snd run = Normal tt
                  /\ full = (if has then [FullResponse (structuredParts (allParts final))]
                             else [])
                  /\ grounding = match groundingMetadata final with
                                 | Some data => [Grounding data]
                                 | None => []
                                 end))
      /\ (forall (st1 : @State W) (systemInstruction : string) (w0 : W) (e : string),
            loadSystemPrompt remote userName st = (st1, Normal systemInstruction) ->
            startChat remote (chatHistory systemInstruction history) (world st1)
            = (w0, Throw e) ->
            run = ([], Throw e))
      /\ (forall (st1 : @State W) (systemInstruction : string) (w0 w1 : W) (u : unit)
                 (e : string),
            loadSystemPrompt remote userName st = (st1, Normal systemInstruction) ->
            startChat remote (chatHistory systemInstruction history) (world st1)
            = (w0, Normal u) ->
            sendMessageStream useCodeExecution (request_parts newMessage imageParts) w0
            = (w1, Throw e) ->
            run = ([], Throw e)).
Proof.
  intros G R W remote sendMessageStream history newMessage imageParts useCodeExecution
         userName st run.
  assert (Hrun : run = snd (streamChat remote sendMessageStream history newMessage
                              imageParts useCodeExecution userName st)) by reflexivity.
  clearbody run. unfold streamChat in Hrun.
  destruct (loadSystemPrompt remote userName st) as [st1 [systemInstruction|e]].
  2: { cbn [snd] in Hrun. exists [], [], []. rewrite Hrun. cbn [fst snd].
       split; [reflexivity|]. split; [constructor|]. split; [left; reflexivity|].
       split; [left; reflexivity|]. split; [intros; split; reflexivity|].
       split; [|split].
       - intros st2 sys w0 w1 u result Hload. discriminate Hload.
       - intros st2 sys w0 e' Hload. discriminate Hload.
       - intros st2 sys w0 w1 u e' Hload. discriminate Hload. }
  destruct (startChat remote (chatHistory systemInstruction history) (world st1))
    as [w0 [u|e]] eqn:Hstarted.
  2: { cbn [snd] in Hrun. exists [], [], []. rewrite Hrun. cbn [fst snd].
       split; [reflexivity|]. split; [constructor|]. split; [left; reflexivity|].
       split; [left; reflexivity|]. split; [intros; split; reflexivity|].
       split; [|split].
       - intros st2 sys w0' w1 u result [= <- <-] Hstart.
         rewrite Hstarted in Hstart. discriminate Hstart.
       - intros st2 sys w0' e' [= <- <-] Hstart.
         rewrite Hstarted in Hstart. injection Hstart as _ <-. reflexivity.
       - intros st2 sys w0' w1 u e' [= <- <-] Hstart.
         rewrite Hstarted in Hstart. discriminate Hstart. }
  destruct (sendMessageStream useCodeExecution (request_parts newMessage imageParts) w0)
    as [w1 [result|e]] eqn:Hsent.
  2: { cbn [snd] in Hrun. exists [], [], []. rewrite Hrun. cbn [fst snd].
       split; [reflexivity|]. split; [constructor|]. split; [left; reflexivity|].
       split; [left; reflexivity|]. split; [intros; split; reflexivity|].
       split; [|split].
       - intros st2 sys w0' w1' u' result [= <- <-] Hstart Hsend.
         rewrite Hstarted in Hstart. injection Hstart as <- _.
         rewrite Hsent in Hsend. discriminate Hsend.
       - intros st2 sys w0' e' [= <- <-] Hstart.
         rewrite Hstarted in Hstart. discriminate Hstart.
       - intros st2 sys w0' w1' u' e' [= <- <-] Hstart Hsend.
         rewrite Hstarted in Hstart. injection Hstart as <- _.
         rewrite Hsent in Hsend. injection Hsend as _ <-. reflexivity. }
  cbn [snd] in Hrun.
  destruct (yielded_shape result) as (full & grounding & Hevents & Hfull & Hground & Hfail).
  exists (streamed_texts (stream result)), full, grounding. rewrite Hrun.
  split; [exact Hevents|]. split; [apply texts_of_truthy|].
  split; [destruct Hfull as [->|(final & _ & _ & ->)]; [left|right; eexists]; reflexivity|].
  split; [destruct Hground as [->|(final & data & _ & _ & ->)];
          [left|right; eexists]; reflexivity|].
  split; [exact Hfail|].
  split; [|split].
  - intros st2 sys w0' w1' u' result' [= <- <-] Hstart Hsend.
    rewrite Hstarted in Hstart. injection Hstart as <- _.
    rewrite Hsent in Hsend. injection Hsend as _ <-.
    split; [reflexivity|]. split; [apply texts_of_filter|]. split; [|split].
    + intros parts Heq.
      destruct Hfull as [Hnil|(final & Hresponse & Hhas & Hparts)];
        [rewrite Hnil in Heq; discriminate Heq|].
      exists final. rewrite Hparts in Heq. injection Heq as <-.
      repeat split; assumption.
    + intros data Heq.
      destruct Hground as [Hnil|(final & data' & Hresponse & Hdata & Hparts)];
        [rewrite Hnil in Heq; discriminate Heq|].
      exists final. rewrite Hparts in Heq. injection Heq as <-.
      split; assumption.
    + intros final has Hfailure Hresponse Hhas.
      rewrite (yielded_normally result final has Hfailure Hresponse Hhas) in Hevents |- *.
      cbn [fst snd] in *. split; [reflexivity|].
      apply app_inv_head in Hevents.
      destruct Hfull as [->|(final' & Hresponse' & Hhas' & ->)];
        destruct Hground as [->|(final'' & data & Hresponse'' & Hdata & ->)];
        rewrite ?Hresponse in *;
        repeat match goal with
               | H : Normal _ = Normal _ |- _ => injection H as <-
               end;
        rewrite ?Hhas in *;
        repeat match goal with
               | H : Normal _ = Normal _ |- _ => injection H as <-
               end;
        rewrite ?Hdata in *;
        destruct has; destruct (groundingMetadata final); cbn in Hevents;
        try discriminate Hevents; split; try reflexivity;
        try (injection Hevents as <-; reflexivity).
  - intros st2 sys w0' e' [= <- <-] Hstart.
    rewrite Hstarted in Hstart. discriminate Hstart.
  - intros st2 sys w0' w1' u' e' [= <- <-] Hstart Hsend.
    rewrite Hstarted in Hstart. injection Hstart as <- _.
    rewrite Hsent in Hsend. discriminate Hsend.
Qed.

(** X22.  The text that stands for a streamed assistant message in the
    history of later turns is the same within the session and after the
    session is reloaded: for every run of [streamChat], also one that fails
    or that the user stops, [m.content || messageText(m)] of the message on
    the screen is the content handed to [saveMessage].  (The store is taken
    to return the content it was given.) *)
Theorem streamed_message_reads_the_same_after_reload :
  forall (G R W : Type) (remote : @Remote R W)
         (sendMessageStream : bool -> list RequestPart -> StE W (@StreamResult G))
         (history : list Message) (newMessage : string)
         (imageParts : list (JsValue * JsValue)) (useCodeExecution : bool)
         (userName : string) (st : @State W) (abort : option nat),
    let l := consume (snd (streamChat remote sendMessageStream history newMessage
                             imageParts useCodeExecution userName st)) abort in
    history_text (shown_content (shown l)) (shown_parts (shown l)) = savedContent l
    /\ history_text (savedContent l) None = savedContent l.
Proof.
  intros G R W remote sendMessageStream history newMessage imageParts useCodeExecution
         userName st abort l.
  assert (Hnone : forall c, @history_text c None = c) by (intros [|a r]; reflexivity).
  split; [|apply Hnone].
  rewrite <- (Hnone (savedContent l)).
  assert (Hstep : exists after, in_step after l).
  { subst l. apply consume_in_step.
    - unfold streamChat.
      destruct (loadSystemPrompt remote userName st) as [st1 [systemInstruction|e]];
        [|reflexivity].
      destruct (startChat remote (chatHistory systemInstruction history) (world st1))
        as [w0 [u|e]]; [|reflexivity].
      destruct (sendMessageStream useCodeExecution (request_parts newMessage imageParts)
                  w0) as [w1 [result|e]]; [|reflexivity].
      apply yielded_texts_first.
    - intros e. unfold streamChat.
      destruct (loadSystemPrompt remote userName st) as [st1 [systemInstruction|e']];
        [|reflexivity].
      destruct (startChat remote (chatHistory systemInstruction history) (world st1))
        as [w0 [u|e']]; [|reflexivity].
      destruct (sendMessageStream useCodeExecution (request_parts newMessage imageParts)
                  w0) as [w1 [result|e']]; [|reflexivity].
      apply yielded_failure_texts. }
  destruct Hstep as (after & Hstep).
  apply (in_step_reads_the_same after l Hstep).
Qed.

(** The order of the events matters: had a text event followed the full
    response, the two texts would differ. *)
Example text_after_full_response_reads_differently :
  let l := @consume unit ([FullResponse [TextPart "Result: 4"]; TextEvent "late"],
                          Normal tt) None in
  history_text (shown_content (shown l)) (shown_parts (shown l)) = "late"
  /\ savedContent l = "Result: 4".
Proof. split; reflexivity. Qed.

End StreamFacts.

(** ** [compute_stats_json]: the median, the minimum and the maximum *)

Module MedianFacts.
Import Js Heap JsonTools Notions StatsNotions HeapFacts SortFacts NumberFacts RoundFacts
  StatsFacts.

(** *** The numeric comparator sorts in ascending order *)

Lemma comes_after_difference (x y : Q) :
  comes_after (fun a b => nsub a b) (Fin x) (Fin y) = Qltb y x.
Proof.
  unfold comes_after. apply (nsub_pos (Fin y) (Fin x)); discriminate.
Qed.

Lemma insert_sorted_finite (q : Q) (s : list Q) :
  exists l : list Q,
    insert_sorted (fun a b => nsub a b) (Fin q) (map Fin s) = map Fin l
    /\ Permutation l (q :: s)
    /\ (StronglySorted Qle s -> StronglySorted Qle l).
Proof.
  induction s as [|y s IH].
  - exists [q]. split; [reflexivity|]. split; [reflexivity|].
    intros _. constructor; constructor.
  - cbn [map insert_sorted]. rewrite comes_after_difference.
    destruct (Qltb y q) eqn:Hlt.
    + apply Qltb_lt in Hlt. destruct IH as (l & Hl & Hperm & Hsorted).
      exists (y :: l). split; [cbn [map]; rewrite Hl; reflexivity|].
      split; [rewrite Hperm; apply perm_swap|].
      intros Hs. inversion Hs as [|? ? Hs' Hall]; subst.
      constructor; [apply Hsorted; exact Hs'|].
      rewrite Hperm. constructor; [apply Qlt_le_weak; exact Hlt|exact Hall].
    + apply Qltb_false in Hlt. exists (q :: y :: s).
      split; [reflexivity|]. split; [reflexivity|].
      intros Hs. constructor; [exact Hs|].
      inversion Hs as [|? ? Hs' Hall]; subst. constructor; [exact Hlt|].
      eapply Forall_impl; [exact Hall|]. intros z Hz. simpl in Hz.
      eapply Qle_trans; eassumption.
Qed.

Lemma sort_finite (qs : list Q) :
  exists sorted : list Q,
    sort (fun a b => nsub a b) (map Fin qs) = map Fin sorted
    /\ Permutation sorted qs
    /\ StronglySorted Qle sorted.
Proof.
  induction qs as [|q qs (s & Hs & Hperm & Hsorted)].
  - exists []. split; [reflexivity|]. split; [reflexivity|constructor].
  - cbn [map]. change (sort (fun a b => nsub a b) (Fin q :: map Fin qs))
      with (insert_sorted (fun a b => nsub a b) (Fin q)
              (sort (fun a b => nsub a b) (map Fin qs))).
    rewrite Hs. destruct (insert_sorted_finite q s) as (l & Hl & Hperm' & Hsorted').
    exists l. split; [exact Hl|]. split; [|apply Hsorted'; exact Hsorted].
    rewrite Hperm'. constructor. exact Hperm.
Qed.

(** *** The median of finite values *)

Lemma num_at_finite (s : list Q) i :
  i < length s -> num_at (map Fin s) i = Fin (nth i s 0%Q).
Proof.
  unfold num_at. revert i. induction s as [|q s IH]; intros i Hi; simpl in Hi; [lia|].
  destruct i as [|i]; [reflexivity|]. cbn [map nth]. apply IH. lia.
Qed.

(** With an odd number of values the median is the value in the middle. *)
Lemma median_odd (s : list Q) :
  length s mod 2 = 1 -> median (map Fin s) = Fin (nth (length s / 2) s 0%Q).
Proof.
  intros Hodd. unfold median. rewrite length_map, Hodd. cbn [Nat.eqb].
  apply num_at_finite. apply Nat.div_lt; [|lia].
  destruct s; [discriminate Hodd|simpl; lia].
Qed.

(** On doubles, when the sum of the two values in the middle is not
    rounded, the median is the middle rounded once. *)
Lemma median_finite (s : list Q) :
  s <> [] -> (forall q, In q s -> round64 q = Fin q) -> middle_sum_exact s = true ->
  median (map Fin s) = round64 (middle s).
Proof.
  intros Hne Hdoubles. unfold median, middle, middle_sum_exact. rewrite length_map.
  assert (Hpos : 0 < length s) by (destruct s; [contradiction|simpl; lia]).
  assert (Hhalf : length s / 2 < length s) by (apply Nat.div_lt; lia).
  destruct (length s mod 2 =? 0).
  - rewrite !num_at_finite by lia.
    set (a := nth (length s / 2 - 1) s 0%Q). set (b := nth (length s / 2) s 0%Q).
    change (fadd (Fin a) (Fin b)) with (round64 (a + b)%Q).
    destruct (round64 (a + b)%Q) as [| | |sum]; try discriminate.
    intros Hsum. apply Qeq_bool_iff in Hsum.
    change (fdiv (Fin sum) (Fin 2)) with (round64 (sum / 2)%Q).
    apply round64_comp. rewrite Hsum. reflexivity.
  - intros _. rewrite num_at_finite by lia. symmetry. apply Hdoubles.
    apply nth_In. lia.
Qed.

Lemma middle_bounds (lo hi : Q) (s : list Q) :
  s <> [] -> (forall q, In q s -> lo <= q /\ q <= hi)%Q ->
  (lo <= middle s /\ middle s <= hi)%Q.
Proof.
  intros Hne Hall. unfold middle.
  assert (Hpos : 0 < length s) by (destruct s; [contradiction|simpl; lia]).
  assert (Hhalf : length s / 2 < length s) by (apply Nat.div_lt; lia).
  assert (Hnth : forall i, i < length s -> (lo <= nth i s 0 /\ nth i s 0 <= hi)%Q).
  { intros i Hi. apply Hall. apply nth_In. exact Hi. }
  destruct (length s mod 2 =? 0).
  - destruct (Hnth (length s / 2 - 1)) as [H1 H2]; [lia|].
    destruct (Hnth (length s / 2)) as [H3 H4]; [lia|].
    split; [apply Qle_shift_div_l|apply Qle_shift_div_r]; lra.
  - apply Hnth. lia.
Qed.

(** X23.  When at least one value of the field coerces and every coerced
    value is finite, the returned median is [fmt] of the median of the
    values put in ascending numeric order.  With an odd number of values
    that median is the value in the middle.  In general, when the values are
    doubles and the sum of the two in the middle is not rounded, it is the
    middle (the value in the middle, or the mean of the two in the middle)
    rounded to a double, and it lies between [min] and [max], which are
    values of the field. *)
Theorem stats_median_is_the_middle :
  forall (host : Host) (args : JsObject) (videos : loc) (h : heap)
         (records : list JsObject) (qs : list Q),
    h !! videos = Some records ->
    coerced host (get args "field") records = map Fin qs ->
    qs <> [] ->
    exists (sorted : list Q) (mean std : number) (mn mx : Q),
      snd (executeJsonTool host "compute_stats_json" args videos h)
      = Normal (StatsResult (get args "field") (length qs) mean
                  (fmt (median (map Fin sorted))) std (Fin mn) (Fin mx))
      /\ Permutation sorted qs
      /\ StronglySorted Qle sorted
      /\ In mn qs /\ In mx qs
      /\ (forall q, In q qs -> mn <= q /\ q <= mx)%Q
      /\ (length qs mod 2 = 1 ->
          median (map Fin sorted) = Fin (nth (length qs / 2) sorted 0%Q)
          /\ In (nth (length qs / 2) sorted 0%Q) qs)
      /\ ((forall q, In q qs -> round64 q = Fin q) ->
          middle_sum_exact sorted = true ->
          exists m : Q,
            median (map Fin sorted) = Fin m
            /\ round64 (middle sorted) = Fin m
            /\ (mn <= m /\ m <= mx)%Q).
Proof.
  intros host args videos h records qs Hv Hqs Hqne.
  change (executeJsonTool host "compute_stats_json" args videos h)
    with (compute_stats_json host args videos h).
  rewrite (compute_stats_json_run host args videos h records Hv). cbn [snd]. cbv zeta.
  rewrite Hqs.
  destruct (length (map Fin qs) =? 0) eqn:Hlen.
  { apply Nat.eqb_eq in Hlen. rewrite length_map in Hlen.
    destruct qs; [contradiction|discriminate]. }
  destruct (sort_finite qs) as (sorted & Hsort & Hperm & Hsorted).
  assert (Hsne : sorted <> []).
  { intros ->. apply Permutation_nil in Hperm. contradiction. }
  assert (Hsame : length sorted = length qs) by (apply Permutation_length; exact Hperm).
  rewrite Hsort.
  destruct (Math_min_finite qs Hqne) as (mn & Hmin & Hlow).
  destruct (Math_max_finite qs Hqne) as (mx & Hmax & Hhigh).
  rewrite Hmin, Hmax, !length_map.
  eexists sorted, _, _, mn, mx.
  split; [reflexivity|]. split; [exact Hperm|]. split; [exact Hsorted|].
  pose proof (Math_min_attained qs mn Hqne Hmin) as Hmn.
  pose proof (Math_max_attained qs mx Hqne Hmax) as Hmx.
  split; [exact Hmn|]. split; [exact Hmx|].
  split; [intros q Hq; split; [apply Hlow|apply Hhigh]; exact Hq|].
  split.
  { intros Hodd. rewrite <- Hsame in *. split; [apply median_odd; exact Hodd|].
    apply (Permutation_in _ Hperm). apply nth_In. apply Nat.div_lt; [|lia].
    destruct sorted; [contradiction|simpl; lia]. }
  intros Hdoubles Hexact.
  assert (Hdoubles' : forall q, In q sorted -> round64 q = Fin q).
  { intros q Hq. apply Hdoubles. apply (Permutation_in _ Hperm). exact Hq. }
  rewrite (median_finite sorted Hsne Hdoubles' Hexact).
  destruct (middle_bounds mn mx sorted Hsne) as [Hlo Hhi].
  { intros q Hq. apply (Permutation_in _ Hperm) in Hq.
    split; [apply Hlow|apply Hhigh]; exact Hq. }
  pose proof (round64_ge mn _ (Hdoubles mn Hmn) Hlo) as Hge.
  pose proof (round64_le _ mx (Hdoubles mx Hmx) Hhi) as Hle.
  destruct (round64 (middle sorted)) as [| | |m]; try discriminate.
  cbn [nle] in Hge, Hle. apply Qle_bool_iff in Hge, Hle.
  exists m. split; [reflexivity|]. split; [reflexivity|]. split; assumption.
Qed.

Lemma stats_median_is_the_middle_witness :
  exists (sorted : list Q) (mean std : number) (mn mx : Q),
    snd (executeJsonTool Samples.sample_host "compute_stats_json"
           [("field", JStr "view_count")] 0 (Samples.dataset_at_0 Samples.abc))
    = Normal (StatsResult (JStr "view_count") 3 mean
                (fmt (median (map Fin sorted))) std (Fin mn) (Fin mx))
    /\ Permutation sorted [inject_Z 100; inject_Z 300; inject_Z 200]
    /\ StronglySorted Qle sorted
    /\ median (map Fin sorted) = Fin (nth 1 sorted 0%Q).
Proof.
  destruct (stats_median_is_the_middle Samples.sample_host
              [("field", JStr "view_count")] 0 (Samples.dataset_at_0 Samples.abc)
              Samples.abc [inject_Z 100; inject_Z 300; inject_Z 200]
              eq_refl eq_refl ltac:(discriminate))
    as (sorted & mean & std & mn & mx & Hrun & Hperm & Hsorted & _ & _ & _ & Hodd & _).
  exists sorted, mean, std, mn, mx. split; [exact Hrun|]. split; [exact Hperm|].
  split; [exact Hsorted|]. apply (Hodd eq_refl).
Defined.

(** The parts of the property that ask for exact sums are needed: the
    median of two values 1e308 is [Infinity], and the text 2.00005 is read
    as a double below it, so that its median is 2 and not 2.0001. *)
Example median_overflows_and_rounds :
  (exists (mean std mn mx : number),
     snd (executeJsonTool Samples.sample_host "compute_stats_json"
            [("field", JStr "ratio")] 0 (Samples.dataset_at_0 Samples.huge))
     = Normal (StatsResult (JStr "ratio") 2 mean PInf std mn mx))
  /\ (exists (mean std mn mx : number),
        snd (executeJsonTool Samples.sample_host "compute_stats_json"
               [("field", JStr "ratio")] 0
               (Samples.dataset_at_0 [[("ratio", JStr "2.00005")]]))
        = Normal (StatsResult (JStr "ratio") 1 mean (Fin 2) std mn mx)).
Proof.
  split; eexists _, _, _, _; vm_compute; reflexivity.
Qed.

End MedianFacts.

(** ** [buildJsonSummary]: the dataset is left alone and listed once *)

Module SummaryFacts.
Import Js Heap JsonTools Notions StatsNotions Summary HeapFacts FrameFacts SortFacts
  NumberFacts StatsFacts.

Section Facts.
Context (host : Host) (locale : Locale).

Lemma keeps_numeric_lines (h0 : heap) fields videos :
  keeps h0 (numeric_lines host fields videos) (fun _ => True).
Proof.
  induction fields as [|field rest IH]; cbn [numeric_lines].
  - apply keeps_ret. exact I.
  - eapply keeps_bind; [apply keeps_numericValues|]. intros vals _.
    eapply keeps_bind; [exact IH|]. intros more _. apply keeps_ret. exact I.
Qed.

Lemma keeps_buildJsonSummary (h0 : heap) videos :
  keeps h0 (buildJsonSummary host locale videos) (fun _ => True).
Proof.
  unfold buildJsonSummary.
  eapply keeps_bind; [apply keeps_Array_length|]. intros n _.
  destruct (n =? 0); [apply keeps_ret; exact I|].
  eapply keeps_bind; [apply keeps_numeric_lines|]. intros numeric _.
  eapply keeps_bind; [apply keeps_Array_spread|]. intros copy Hcopy.
  eapply keeps_bind; [apply keeps_Array_sort; exact Hcopy|]. intros sorted _.
  eapply keeps_bind; [apply keeps_read|]. intros listed _.
  apply keeps_ret. exact I.
Qed.

Lemma numeric_lines_run fields videos (h : heap) records :
  h !! videos = Some records ->
  exists lines,
    numeric_lines host fields videos h = (h, Normal lines)
    /\ length lines <= length fields.
Proof.
  intros Hv. induction fields as [|field rest (more & Hmore & Hlen)]; cbn [numeric_lines].
  - exists []. split; [reflexivity|]. simpl. lia.
  - unfold bind. rewrite (numericValues_run host videos (JStr field) h records Hv).
    rewrite Hmore. eexists. split; [reflexivity|].
    destruct (length (coerced host (JStr field) records) =? 0); simpl; lia.
Qed.

Lemma buildJsonSummary_run videos (h : heap) records :
  h !! videos = Some records ->
  exists numeric,
    length numeric <= 4
    /\ snd (buildJsonSummary host locale videos h) =
         Normal
           (if length records =? 0 then EmptyString
            else join newline
                   ([("**YouTube Channel Data: "
                        ++ Number_toString host (of_nat (length records)) ++ " videos**"
                        ++ newline)%string;
                     "**Numeric fields:**"] ++ numeric
                      ++ [(newline ++ "**Videos (by release date):**")%string]
                      ++ video_lines host locale 0
                           (sort (by_release_or_epoch host) records))).
Proof.
  intros Hv. unfold buildJsonSummary, bind.
  rewrite (Array_length_run _ _ _ Hv).
  destruct (numeric_lines_run numericFields videos h records Hv) as (numeric & Hrun & Hlen).
  exists numeric. split; [exact Hlen|].
  destruct (length records =? 0); [reflexivity|].
  rewrite Hrun, (Array_spread_run _ _ _ Hv).
  rewrite (Array_sort_run _ _ _ records) by apply lookup_insert_eq.
  rewrite (read_run _ _ (sort (by_release_or_epoch host) records))
    by apply lookup_insert_eq.
  reflexivity.
Qed.

(** On records with readable dates the comparator follows the time value. *)
Lemma by_release_or_epoch_key (a b : JsObject) :
  release_or_epoch host a <> None ->
  release_or_epoch host b <> None ->
  comes_after (by_release_or_epoch host) a b
  = (time_or_epoch host b <? time_or_epoch host a)%Z.
Proof.
  unfold comes_after, by_release_or_epoch, time_or_epoch. intros Ha Hb.
  destruct (release_or_epoch host a) as [ta|]; [|contradiction].
  destruct (release_or_epoch host b) as [tb|]; [|contradiction].
  simpl. destruct (Z.ltb_spec tb ta) as [Hlt|Hge].
  - apply Qltb_lt. change 0%Q with (inject_Z 0). rewrite <- Zlt_Qlt. lia.
  - apply Qltb_false. change 0%Q with (inject_Z 0). rewrite <- Zle_Qle. lia.
Qed.

End Facts.

(** X24.  [buildJsonSummary] leaves the dataset as it is (it sorts a copy), as
    it leaves every other array.  For an empty dataset the summary is the
    empty string; otherwise it consists of the header, at most four lines of
    numeric fields, and one numbered line for each record, every record once,
    in the order of the stable sort by release date: ascending when the host
    can read every date. *)
Theorem summary_lists_every_video_once :
  forall (host : Host) (locale : Locale) (videos : loc) (h : heap)
         (records : list JsObject),
    h !! videos = Some records ->
    fst (buildJsonSummary host locale videos h) !! videos = Some records
    /\ h ⊆ fst (buildJsonSummary host locale videos h)
    /\ exists (numeric : list string) (listed : list JsObject),
         length numeric <= 4
         /\ Permutation listed records
         /\ ((forall v, v ∈ records -> release_or_epoch host v <> None) ->
             StronglySorted (key_le (time_or_epoch host)) listed)
         /\ snd (buildJsonSummary host locale videos h) =
              Normal
                (if length records =? 0 then EmptyString
                 else join newline
                        ([("**YouTube Channel Data: "
                             ++ Number_toString host (of_nat (length records))
                             ++ " videos**" ++ newline)%string;
                          "**Numeric fields:**"] ++ numeric
                           ++ [(newline ++ "**Videos (by release date):**")%string]
                           ++ video_lines host locale 0 listed)).
Proof.
  intros host locale videos h records Hv.
  destruct (keeps_buildJsonSummary host locale h videos h) as [Hsub _]; [reflexivity|].
  split; [apply (lookup_weaken h); assumption|]. split; [exact Hsub|].
  destruct (buildJsonSummary_run host locale videos h records Hv) as (numeric & Hlen & Hrun).
  exists numeric, (sort (by_release_or_epoch host) records).
  split; [exact Hlen|]. split; [apply sort_perm|]. split; [|exact Hrun].
  intros Hdates.
  apply (sort_by_key (by_release_or_epoch host) (time_or_epoch host)
           (fun v => release_or_epoch host v <> None)).
  - intros a b Ha Hb. apply by_release_or_epoch_key; assumption.
  - rewrite Forall_forall. exact Hdates.
Qed.

Lemma summary_lists_every_video_once_witness :
  fst (buildJsonSummary Samples.sample_host Fixtures.sample_locale 0
         (Samples.dataset_at_0 Samples.abc)) !! 0 = Some Samples.abc
  /\ exists (numeric : list string) (listed : list JsObject),
       length numeric <= 4
       /\ Permutation listed Samples.abc
       /\ snd (buildJsonSummary Samples.sample_host Fixtures.sample_locale 0
                 (Samples.dataset_at_0 Samples.abc)) =
            Normal
              (join newline
                 (["**YouTube Channel Data: 3 videos**" ++ newline;
                   "**Numeric fields:**"] ++ numeric
                    ++ [newline ++ "**Videos (by release date):**"]
                    ++ video_lines Samples.sample_host Fixtures.sample_locale 0 listed))%string.
Proof.
  destruct (summary_lists_every_video_once Samples.sample_host Fixtures.sample_locale 0
              (Samples.dataset_at_0 Samples.abc) Samples.abc eq_refl)
    as (Hkept & _ & numeric & listed & Hlen & Hperm & _ & Hrun).
  split; [exact Hkept|]. exists numeric, listed.
  split; [exact Hlen|]. split; [exact Hperm|]. exact Hrun.
Defined.

End SummaryFacts.

(** ** [resolveChannelId]: the forms of input it accepts *)

Module ResolveFacts.
Import Js Downloader DownloaderTrace ResolveNotions.

Local Ltac listed := repeat (apply elem_of_cons; first [left; reflexivity | right]).

Lemma name_char_plain c :
  is_name_char c = true ->
  is_ws c = false /\ Ascii.eqb c "/" = false /\ Ascii.eqb c ":" = false
  /\ Ascii.eqb c "@" = false.
Proof.
  destruct c as [[] [] [] [] [] [] [] []]; intros H; try discriminate H;
    repeat split; reflexivity.
Qed.

Lemma all_chars_app p s t :
  all_chars p (s ++ t) = all_chars p s && all_chars p t.
Proof.
  induction s as [|c s IH]; [reflexivity|].
  change (p c && all_chars p (s ++ t) = p c && all_chars p s && all_chars p t).
  rewrite IH, andb_assoc. reflexivity.
Qed.

Lemma all_chars_impl (p q : ascii -> bool) s :
  (forall c, p c = true -> q c = true) -> all_chars p s = true -> all_chars q s = true.
Proof.
  intros Hpq. induction s as [|c s IH]; [reflexivity|]. cbn [all_chars].
  intros [Hc Hs]%andb_prop. rewrite (Hpq c Hc), (IH Hs). reflexivity.
Qed.

Lemma is_name_inv s :
  is_name s = true ->
  exists c r, s = String c r /\ is_name_char c = true /\ all_chars is_name_char r = true.
Proof.
  unfold is_name. destruct s as [|c r]; [discriminate|]. cbn [all_chars].
  intros [_ [Hc Hr]%andb_prop]%andb_prop. exists c, r. repeat split; assumption.
Qed.

Lemma starts_with_app p s :
  starts_with p s = true -> exists t, s = (p ++ t)%string.
Proof.
  revert s. induction p as [|a p IH]; intros s.
  - exists s. reflexivity.
  - destruct s as [|b s]; [discriminate|]. cbn [starts_with].
    intros [Hab Hrest]%andb_prop. apply Ascii.eqb_eq in Hab as ->.
    destruct (IH s Hrest) as (t & ->). exists t. reflexivity.
Qed.

(** *** The three steps of [cleaned] on a name *)

(** A text without a colon does not begin with the address of the site. *)
Lemma remove_prefix_no_colon s :
  all_chars (fun c => negb (Ascii.eqb c ":")) s = true ->
  remove_prefix url_prefix_re s = s.
Proof.
  unfold remove_prefix, url_prefix_re. cbn [lit rmatch]. unfold chr_eq.
  destruct s as [|c1 s]; [reflexivity|]. destruct (Ascii.eqb "h" c1); [|reflexivity].
  destruct s as [|c2 s]; [reflexivity|]. destruct (Ascii.eqb "t" c2); [|reflexivity].
  destruct s as [|c3 s]; [reflexivity|]. destruct (Ascii.eqb "t" c3); [|reflexivity].
  destruct s as [|c4 s]; [reflexivity|]. destruct (Ascii.eqb "p" c4); [|reflexivity].
  destruct s as [|c5 s]; [reflexivity|]. cbn [all_chars].
  intros [_ [_ [_ [_ [H5 Hs]%andb_prop]%andb_prop]%andb_prop]%andb_prop]%andb_prop.
  destruct (Ascii.eqb "s" c5).
  - destruct s as [|c6 s].
    + destruct (Ascii.eqb_spec ":" c5) as [<-|]; [discriminate H5|reflexivity].
    + cbn [all_chars] in Hs. apply andb_prop in Hs as [H6 _].
      destruct (Ascii.eqb_spec ":" c6) as [<-|]; [discriminate H6|].
      destruct (Ascii.eqb_spec ":" c5) as [<-|]; [discriminate H5|reflexivity].
  - destruct (Ascii.eqb_spec ":" c5) as [<-|]; [discriminate H5|reflexivity].
Qed.

Lemma remove_prefix_site scheme rest :
  scheme ∈ site_prefixes -> scheme <> EmptyString ->
  remove_prefix url_prefix_re (scheme ++ rest) = rest.
Proof.
  unfold site_prefixes. intros Hin Hne.
  repeat (apply elem_of_cons in Hin as [->|Hin]; [try contradiction; try reflexivity|]).
  apply elem_of_nil in Hin. contradiction.
Qed.

Lemma remove_last_slash_cons c s :
  s <> EmptyString -> remove_last_slash (String c s) = String c (remove_last_slash s).
Proof. destruct s; [contradiction|reflexivity]. Qed.

Lemma append_not_empty s t : t <> EmptyString -> (s ++ t)%string <> EmptyString.
Proof. destruct s; [auto|discriminate]. Qed.

Lemma remove_last_slash_name name :
  is_name name = true ->
  forall s, remove_last_slash (s ++ name) = (s ++ name)%string.
Proof.
  intros Hname.
  assert (Hne : name <> EmptyString).
  { destruct (is_name_inv _ Hname) as (c & r & -> & _). discriminate. }
  assert (Hbase : remove_last_slash name = name).
  { destruct (is_name_inv _ Hname) as (c & r & -> & Hc & Hr). clear Hname Hne.
    revert c Hc. induction r as [|d r IH]; intros c Hc.
    - cbn [remove_last_slash].
      destruct (name_char_plain c Hc) as (_ & -> & _). reflexivity.
    - cbn [all_chars] in Hr. apply andb_prop in Hr as [Hd Hr].
      rewrite remove_last_slash_cons by discriminate. rewrite (IH Hr d Hd). reflexivity. }
  induction s as [|c s IH]; [exact Hbase|].
  change (remove_last_slash (String c (s ++ name)) = String c (s ++ name)).
  rewrite remove_last_slash_cons by (apply append_not_empty; exact Hne).
  rewrite IH. reflexivity.
Qed.

Lemma remove_last_slash_end s : remove_last_slash (s ++ "/") = s.
Proof.
  induction s as [|c s IH]; [reflexivity|].
  change (remove_last_slash (String c (s ++ "/")) = String c s).
  rewrite remove_last_slash_cons by (apply append_not_empty; discriminate).
  rewrite IH. reflexivity.
Qed.

Lemma trimEnd_cons c s :
  s <> EmptyString -> trimEnd s = s -> trimEnd (String c s) = String c s.
Proof. intros Hne Hs. cbn [trimEnd]. rewrite Hs. destruct s; [contradiction|reflexivity]. Qed.

Lemma trimEnd_name name :
  is_name name = true -> forall s, trimEnd (s ++ name) = (s ++ name)%string.
Proof.
  intros Hname.
  assert (Hne : name <> EmptyString).
  { destruct (is_name_inv _ Hname) as (c & r & -> & _). discriminate. }
  assert (Hbase : trimEnd name = name).
  { destruct (is_name_inv _ Hname) as (c & r & -> & Hc & Hr). clear Hname Hne.
    revert c Hc. induction r as [|d r IH]; intros c Hc.
    - cbn [trimEnd]. destruct (name_char_plain c Hc) as (-> & _). reflexivity.
    - cbn [all_chars] in Hr. apply andb_prop in Hr as [Hd Hr].
      apply trimEnd_cons; [discriminate|]. exact (IH Hr d Hd). }
  induction s as [|c s IH]; [exact Hbase|].
  change (trimEnd (String c (s ++ name)) = String c (s ++ name)).
  apply trimEnd_cons; [apply append_not_empty; exact Hne|exact IH].
Qed.

Lemma append_assoc (a b c : string) : ((a ++ b) ++ c = a ++ (b ++ c))%string.
Proof.
  induction a as [|x a IH]; [reflexivity|].
  change (String x ((a ++ b) ++ c) = String x (a ++ (b ++ c))). rewrite IH. reflexivity.
Qed.

Lemma append_empty_r (a : string) : (a ++ EmptyString)%string = a.
Proof.
  induction a as [|x a IH]; [reflexivity|].
  change (String x (a ++ EmptyString) = String x a). rewrite IH. reflexivity.
Qed.

(** A marker of one of the forms, then a name, then perhaps a slash: the
    address of the site and the slash are removed, the rest is kept. *)
Lemma cleaned_form scheme marker name slash :
  scheme ∈ site_prefixes ->
  marker ∈ [EmptyString; "@"; "c/"; "c/@"; "channel/"] ->
  slash ∈ [EmptyString; "/"] ->
  is_name name = true ->
  cleaned (scheme ++ marker ++ name ++ slash) = (marker ++ name)%string.
Proof.
  intros Hscheme Hmarker Hslash Hname. unfold cleaned.
  assert (Hprefix : remove_prefix url_prefix_re (scheme ++ marker ++ name ++ slash)
                    = (marker ++ name ++ slash)%string).
  { destruct (String.eqb_spec scheme EmptyString) as [->|Hne].
    - change (remove_prefix url_prefix_re (marker ++ name ++ slash)
              = (marker ++ name ++ slash)%string).
      repeat (apply elem_of_cons in Hmarker as [->|Hmarker]; [try reflexivity|]);
        [|apply elem_of_nil in Hmarker; contradiction].
      apply remove_prefix_no_colon.
      change (all_chars (fun c => negb (Ascii.eqb c ":")) (name ++ slash) = true).
      rewrite all_chars_app. apply andb_true_intro. split.
      + destruct (is_name_inv _ Hname) as (c & r & -> & Hc & Hr).
        apply (all_chars_impl is_name_char).
        * intros d Hd. destruct (name_char_plain d Hd) as (_ & _ & -> & _). reflexivity.
        * cbn [all_chars]. rewrite Hc, Hr. reflexivity.
      + repeat (apply elem_of_cons in Hslash as [->|Hslash]; [reflexivity|]).
        apply elem_of_nil in Hslash. contradiction.
    - apply remove_prefix_site; assumption. }
  rewrite Hprefix.
  assert (Hslashed : remove_last_slash (marker ++ name ++ slash) = (marker ++ name)%string).
  { apply elem_of_cons in Hslash as [->|Hslash].
    - rewrite append_empty_r. apply remove_last_slash_name. exact Hname.
    - apply elem_of_cons in Hslash as [->|Hslash];
        [|apply elem_of_nil in Hslash; contradiction].
      rewrite <- append_assoc. apply remove_last_slash_end. }
  rewrite Hslashed. unfold trim.
  assert (Hstart : trimStart (marker ++ name) = (marker ++ name)%string).
  { repeat (apply elem_of_cons in Hmarker as [->|Hmarker]; [try reflexivity|]);
      [|apply elem_of_nil in Hmarker; contradiction].
    destruct (is_name_inv _ Hname) as (c & r & -> & Hc & _).
    change (trimStart (String c r) = String c r). cbn [trimStart].
    destruct (name_char_plain c Hc) as (-> & _). reflexivity. }
  rewrite Hstart. apply trimEnd_name. exact Hname.
Qed.

Lemma channel_id_is_name id : is_channel_id id = true -> is_name id = true.
Proof.
  unfold is_channel_id, is_name.
  intros [[Hstart _]%andb_prop Hchars]%andb_prop. apply andb_true_intro. split.
  - destruct id; [discriminate Hstart|reflexivity].
  - apply (all_chars_impl _ _ _ (fun c Hc => orb_true_intro _ _ (or_introl Hc)) Hchars).
Qed.

Lemma name_has_no_marker name :
  is_name name = true ->
  starts_with "channel/" name = false /\ starts_with "c/" name = false
  /\ starts_with "@" name = false.
Proof.
  unfold is_name. intros [_ Hchars]%andb_prop.
  repeat split;
    match goal with
    | |- starts_with ?p name = false =>
        destruct (starts_with p name) eqn:Hstart; [|reflexivity];
        destruct (starts_with_app _ _ Hstart) as (t & ->); discriminate Hchars
    end.
Qed.

(** X25.  A channel id (UC and 22 letters, digits, [_] or [-]) is returned as
    it is, without a request to the service, when it is given bare or after
    [channel/], with or without the address of the site before it and a
    slash after it. *)
Theorem channel_id_needs_no_request :
  forall (W : Type) (api : Api W) (scheme marker slash id : string) (w : W),
    is_channel_id id = true ->
    scheme ∈ site_prefixes ->
    marker ∈ [EmptyString; "channel/"] ->
    slash ∈ [EmptyString; "/"] ->
    resolveChannelId api (scheme ++ marker ++ id ++ slash) w = (w, Normal (JStr id)).
Proof.
  intros W api scheme marker slash id w Hid Hscheme Hmarker Hslash.
  unfold resolveChannelId.
  repeat (apply elem_of_cons in Hmarker as [->|Hmarker]);
    [| |apply elem_of_nil in Hmarker; contradiction];
    (rewrite cleaned_form;
     [|exact Hscheme|listed|exact Hslash|apply channel_id_is_name; exact Hid]).
  - change (EmptyString ++ id)%string with id. rewrite Hid. reflexivity.
  - reflexivity.
Qed.

Lemma channel_id_needs_no_request_witness :
  resolveChannelId Fixtures.sample_api
    "https://www.youtube.com/channel/UC0123456789abcdefghij-_/" 7
  = (7, Normal (JStr "UC0123456789abcdefghij-_")).
Proof.
  apply (channel_id_needs_no_request nat Fixtures.sample_api
           "https://www.youtube.com/" "channel/" "/" "UC0123456789abcdefghij-_" 7);
    [reflexivity|listed|listed|listed].
Defined.

(** X26.  A name of letters, digits, [_], [-] and [.] given bare, after [@],
    after [c/] or after [c/@], with or without the address of the site before
    it and a slash after it, makes exactly one request: for the channel of
    that bare name.  The answer is returned when it is truthy; otherwise the
    exception names the input as it was given.  (A bare name that has the
    form of a channel id is not asked for.) *)
Theorem handle_forms_ask_for_the_name :
  forall (W : Type) (api : Api W) (scheme marker slash name : string) (w : W),
    is_name name = true ->
    scheme ∈ site_prefixes ->
    marker ∈ [EmptyString; "@"; "c/"; "c/@"] ->
    slash ∈ [EmptyString; "/"] ->
    (marker = EmptyString -> is_channel_id name = false) ->
    let input := (scheme ++ marker ++ name ++ slash)%string in
    let answer := channel_of_handle api name w in
    let outcome :=
      match snd answer with
      | Normal channelId =>
          if truthy channelId then Normal channelId
          else Throw ("Channel not found for: " ++ input)
      | Throw e => Throw e
      end in
    resolveChannelId api input w = (fst answer, outcome)
    /\ resolveChannelId (tracing_api api) input (w, [])
       = ((fst answer, [HandleCall name]), outcome).
Proof.
  intros W api scheme marker slash name w Hname Hscheme Hmarker Hslash Hbare
    input answer outcome.
  destruct (name_has_no_marker name Hname) as (Hchannel & Hc & Hat).
  assert (Hrun : forall (V : Type) (a : Api V) (v : V),
             resolveChannelId a input v
             = (let* channelId := channel_of_handle a name in
                if truthy channelId then ret channelId
                else throw ("Channel not found for: " ++ input))%ste v).
  { intros V a v. unfold resolveChannelId. subst input.
    repeat (apply elem_of_cons in Hmarker as [->|Hmarker]);
      [| | | |apply elem_of_nil in Hmarker; contradiction];
      (rewrite cleaned_form; [|exact Hscheme|listed|exact Hslash|exact Hname]).
    - change (EmptyString ++ name)%string with name.
      rewrite (Hbare eq_refl), Hchannel, Hc, Hat. reflexivity.
    - reflexivity.
    - change (is_channel_id ("c/" ++ name)) with false.
      change (starts_with "channel/" ("c/" ++ name)) with false.
      change (starts_with "c/" ("c/" ++ name)) with true.
      change (drop_str 2 ("c/" ++ name)) with name. cbv beta iota zeta.
      rewrite Hat. reflexivity.
    - reflexivity. }
  rewrite !Hrun. subst outcome answer. unfold bind.
  cbn [tracing_api channel_of_handle]. unfold logged. cbn [fst snd].
  destruct (channel_of_handle api name w) as [w' [channelId|e]]; cbn [fst snd];
    [destruct (truthy channelId)|]; split; reflexivity.
Qed.

Lemma handle_forms_ask_for_the_name_witness :
  resolveChannelId Fixtures.sample_api "https://youtube.com/@tides/" 7
  = (8, Normal (JStr "UC-tides"))
  /\ resolveChannelId (tracing_api Fixtures.sample_api) "https://youtube.com/@tides/" (7, [])
     = ((8, [HandleCall "tides"]), Normal (JStr "UC-tides")).
Proof.
  apply (handle_forms_ask_for_the_name nat Fixtures.sample_api
           "https://youtube.com/" "@" "/" "tides" 7);
    [reflexivity|listed|listed|listed|discriminate].
Defined.

End ResolveFacts.

(** ** The text of a transcript *)

Module TranscriptFacts.
Import Js Downloader TranscriptNotions.

Lemma single_spaced_collapse s :
  forall in_ws, single_spaced (collapse_ws_go s in_ws) in_ws = true.
Proof.
  induction s as [|c s IH]; intros in_ws; [reflexivity|]. cbn [collapse_ws_go].
  destruct (is_ws c) eqn:Hc.
  - destruct in_ws; [apply IH|]. cbn [single_spaced]. rewrite IH. reflexivity.
  - cbn [single_spaced]. rewrite Hc. apply IH.
Qed.

Lemma single_spaced_weaken s : single_spaced s true = true -> single_spaced s false = true.
Proof.
  destruct s as [|c s]; [reflexivity|]. cbn [single_spaced].
  destruct (is_ws c); [|auto]. rewrite andb_false_r. discriminate.
Qed.

Lemma trimStart_spaced s :
  single_spaced s true = true -> trimStart s = s.
Proof.
  destruct s as [|c s]; [reflexivity|]. cbn [single_spaced trimStart].
  destruct (is_ws c); [|reflexivity]. rewrite andb_false_r. discriminate.
Qed.

Lemma single_spaced_trimStart s :
  single_spaced s false = true -> single_spaced (trimStart s) true = true.
Proof.
  destruct s as [|c s]; [reflexivity|]. cbn [single_spaced trimStart].
  destruct (is_ws c) eqn:Hc.
  - intros [_ Hs]%andb_prop. rewrite (trimStart_spaced s Hs). exact Hs.
  - intros Hs. cbn [single_spaced]. rewrite Hc. exact Hs.
Qed.

Lemma single_spaced_trimEnd s :
  forall after, single_spaced s after = true -> single_spaced (trimEnd s) after = true.
Proof.
  induction s as [|c s IH]; intros after; [auto|]. cbn [single_spaced trimEnd].
  destruct (is_ws c) eqn:Hc.
  - intros [Hhead Hs]%andb_prop. specialize (IH true Hs).
    destruct (trimEnd s) as [|d r]; [reflexivity|].
    cbn [single_spaced] in *. rewrite Hc, Hhead. exact IH.
  - intros Hs. specialize (IH false Hs).
    destruct (trimEnd s) as [|d r]; cbn [single_spaced] in *; rewrite Hc; [reflexivity|].
    exact IH.
Qed.

Lemma ends_in_text_trimEnd s : ends_in_text (trimEnd s) = true.
Proof.
  induction s as [|c s IH]; [reflexivity|]. cbn [trimEnd].
  destruct (trimEnd s) as [|d r].
  - destruct (is_ws c) eqn:Hc; [reflexivity|]. cbn [ends_in_text]. rewrite Hc. reflexivity.
  - exact IH.
Qed.

Lemma trimEnd_ends_in_text s : ends_in_text s = true -> trimEnd s = s.
Proof.
  induction s as [|c s IH]; [reflexivity|]. destruct s as [|d r].
  - cbn [ends_in_text trimEnd]. destruct (is_ws c); [discriminate|reflexivity].
  - intros Hend. change (ends_in_text (String d r) = true) in Hend.
    change (trimEnd (String c (String d r)))
      with (match trimEnd (String d r) with
            | EmptyString => if is_ws c then EmptyString else String c EmptyString
            | String a b => String c (String a b)
            end).
    rewrite (IH Hend). reflexivity.
Qed.

Lemma collapse_single_spaced s :
  forall after, single_spaced s after = true -> collapse_ws_go s after = s.
Proof.
  induction s as [|c s IH]; intros after; [reflexivity|].
  cbn [single_spaced collapse_ws_go]. destruct (is_ws c).
  - intros [[Hc Hafter]%andb_prop Hs]%andb_prop.
    apply Ascii.eqb_eq in Hc as ->. destruct after; [discriminate Hafter|].
    rewrite (IH true Hs). reflexivity.
  - intros Hs. rewrite (IH false Hs). reflexivity.
Qed.

Lemma non_blank_collapse s : forall in_ws, non_blank (collapse_ws_go s in_ws) = non_blank s.
Proof.
  induction s as [|c s IH]; intros in_ws; [reflexivity|]. cbn [collapse_ws_go non_blank].
  destruct (is_ws c) eqn:Hc.
  - destruct in_ws; [apply IH|]. cbn [non_blank]. apply IH.
  - cbn [non_blank]. rewrite Hc, IH. reflexivity.
Qed.

Lemma non_blank_trimStart s : non_blank (trimStart s) = non_blank s.
Proof.
  induction s as [|c s IH]; [reflexivity|]. cbn [trimStart non_blank].
  destruct (is_ws c) eqn:Hc; [exact IH|]. cbn [non_blank]. rewrite Hc. reflexivity.
Qed.

Lemma non_blank_trimEnd s : non_blank (trimEnd s) = non_blank s.
Proof.
  induction s as [|c s IH]; [reflexivity|]. cbn [trimEnd non_blank]. rewrite <- IH.
  destruct (trimEnd s) as [|d r].
  - destruct (is_ws c) eqn:Hc; [reflexivity|]. cbn [non_blank]. rewrite Hc. reflexivity.
  - reflexivity.
Qed.

Lemma non_blank_app s t : non_blank (s ++ t) = (non_blank s ++ non_blank t)%string.
Proof.
  induction s as [|c s IH]; [reflexivity|].
  change (non_blank (String c (s ++ t)) = (non_blank (String c s) ++ non_blank t)%string).
  cbn [non_blank]. rewrite IH. destruct (is_ws c); reflexivity.
Qed.

Lemma non_blank_join segments :
  non_blank (join " " segments) = non_blank (concat_texts segments).
Proof.
  induction segments as [|x rest IH]; [reflexivity|].
  cbn [concat_texts]. rewrite non_blank_app, <- IH. destruct rest as [|y rest'].
  - cbn [join non_blank]. symmetry. apply ResolveFacts.append_empty_r.
  - change (join " " (x :: y :: rest')) with (x ++ " " ++ join " " (y :: rest'))%string.
    rewrite !non_blank_app. reflexivity.
Qed.

(** X27.  A transcript that is a text consists of the words of the segments
    separated by single spaces: it has no white space other than single
    spaces between words, none at its start or end, and apart from white
    space it has the characters of the segments, in order.  Cleaning it once
    more changes nothing. *)
Theorem transcript_is_single_spaced :
  forall (W : Type) (api : Api W) (videoId : JsValue) (w : W) (t : string),
    snd (fetchTranscriptForVideo api videoId w) = Normal (JStr t) ->
    spaced_words t = true
    /\ trim (collapse_ws t) = t
    /\ exists segments,
         snd (fetchTranscript api videoId w) = Normal segments
         /\ non_blank t = non_blank (concat_texts segments).
Proof.
  intros W api videoId w t. unfold fetchTranscriptForVideo.
  destruct (fetchTranscript api videoId w) as [w' [segments|e]]; [|discriminate].
  cbn [snd]. intros [= <-]. unfold trim, collapse_ws.
  set (u := collapse_ws_go (join " " segments) false).
  assert (Hmid : single_spaced (trimEnd (trimStart u)) true = true).
  { apply single_spaced_trimEnd, single_spaced_trimStart, single_spaced_collapse. }
  assert (Hend : ends_in_text (trimEnd (trimStart u)) = true) by apply ends_in_text_trimEnd.
  split; [unfold spaced_words; rewrite Hmid, Hend; reflexivity|]. split.
  - rewrite (collapse_single_spaced _ false (single_spaced_weaken _ Hmid)).
    rewrite (trimStart_spaced _ Hmid). apply trimEnd_ends_in_text. exact Hend.
  - exists segments. split; [reflexivity|].
    rewrite non_blank_trimEnd, non_blank_trimStart. unfold u.
    rewrite non_blank_collapse. apply non_blank_join.
Qed.

Lemma transcript_is_single_spaced_witness :
  spaced_words "Hello there and welcome" = true
  /\ trim (collapse_ws "Hello there and welcome") = "Hello there and welcome"
  /\ exists segments,
       snd (fetchTranscript Fixtures.sample_api (JStr "a") 0) = Normal segments
       /\ non_blank "Hello there and welcome" = non_blank (concat_texts segments).
Proof.
  apply (transcript_is_single_spaced nat Fixtures.sample_api (JStr "a") 0
           "Hello there and welcome").
  reflexivity.
Defined.

End TranscriptFacts.

(** ** The order of the requests of a download *)

Module OrderFacts.
Import Js Heap JsonTools Downloader DownloaderTrace DownloadFacts.

Section Order.
Context (host : Host) {W : Type} (api : Api W).

Lemma resolveChannelId_log channelInput (w w' : W) log log' channelId :
  resolveChannelId (tracing_api api) channelInput (w, log)
  = ((w', log'), Normal channelId) ->
  exists handles,
    log' = log ++ handles /\ (handles = [] \/ exists handle, handles = [HandleCall handle]).
Proof.
  unfold resolveChannelId.
  destruct (is_channel_id (cleaned channelInput)).
  { intros [= <- <- <-]. exists []. rewrite app_nil_r. split; [reflexivity|left; reflexivity]. }
  destruct (starts_with "channel/" (cleaned channelInput)).
  { intros [= <- <- <-]. exists []. rewrite app_nil_r. split; [reflexivity|left; reflexivity]. }
  unfold bind. cbn [tracing_api channel_of_handle]. unfold logged. cbn [fst snd].
  match goal with
  | |- context [channel_of_handle api ?handle w] =>
      destruct (channel_of_handle api handle w) as [w1 [id|e]]; [|discriminate];
      destruct (truthy id); [|discriminate];
      intros [= <- <- <-]; exists [HandleCall handle];
      split; [reflexivity|right; eexists; reflexivity]
  end.
Qed.

Lemma getUploadsPlaylistId_log channelId (w w' : W) log log' uploads :
  getUploadsPlaylistId host (tracing_api api) channelId (w, log)
  = ((w', log'), Normal uploads) ->
  log' = log ++ [UploadsCall channelId].
Proof.
  unfold getUploadsPlaylistId, bind. cbn [tracing_api uploads_of_channel].
  unfold logged. cbn [fst snd].
  destruct (uploads_of_channel api channelId w) as [w1 [id|e]]; [|discriminate].
  destruct (truthy id); [|discriminate]. intros [= <- <- <-]. reflexivity.
Qed.

Lemma attach_transcripts_log videos :
  forall (w w' : W) log log' videos',
    attach_transcripts (tracing_api api) videos (w, log) = ((w', log'), Normal videos') ->
    log' = log ++ transcript_calls true videos'
    /\ Forall2 with_transcript videos videos'.
Proof.
  induction videos as [|video rest IH]; intros w w' log log' videos';
    cbn [attach_transcripts].
  - intros [= <- <- <-]. rewrite app_nil_r. split; [reflexivity|constructor].
  - unfold bind, fetchTranscriptForVideo at 1. cbn [tracing_api fetchTranscript].
    unfold logged. cbn [fst snd].
    set (t := match fetchTranscript api (get video "video_id") w with
              | (_, Normal segments) => JStr (trim (collapse_ws (join " " segments)))
              | (_, Throw _) => JNull
              end).
    assert (Hkind : t = JNull \/ exists s, t = JStr s).
    { subst t. destruct (fetchTranscript api (get video "video_id") w) as [w1 [segments|e]];
        [right; eexists; reflexivity|left; reflexivity]. }
    assert (Hstep :
      (let '(w1, r) := fetchTranscript api (get video "video_id") w in
       match r with
       | Normal segments =>
           ((w1, log ++ [TranscriptCall (get video "video_id")]),
            @Normal JsValue (JStr (trim (collapse_ws (join " " segments)))))
       | Throw _ => ((w1, log ++ [TranscriptCall (get video "video_id")]), Normal JNull)
       end)
      = ((fst (fetchTranscript api (get video "video_id") w),
          log ++ [TranscriptCall (get video "video_id")]), Normal t)).
    { subst t. destruct (fetchTranscript api (get video "video_id") w) as [w1 [segments|e]];
        reflexivity. }
    destruct (fetchTranscript api (get video "video_id") w) as [w1 r] eqn:Hfetch.
    cbn [fst] in Hstep.
    destruct r as [segments|e]; cbn [fst snd] in *;
      (destruct (attach_transcripts (tracing_api api) rest
                   (w1, log ++ [TranscriptCall (get video "video_id")]))
         as [[w2 log2] [rest'|e']] eqn:Hrest; [|discriminate];
       intros [= <- <- <-];
       destruct (IH _ _ _ _ _ Hrest) as (Hlog & Hall);
       split;
       [rewrite Hlog, <- app_assoc; cbn [transcript_calls map app];
        rewrite get_set_other by reflexivity; reflexivity
       |constructor; [exists t; split; [subst t; reflexivity|exact Hkind]|exact Hall]]).
Qed.

End Order.

(** X28.  A download that ends normally has made its requests in this order:
    at most one for the channel of a handle, one for the uploads playlist of
    the channel, the page requests, the requests for details, and then, when
    transcripts are included, one request for the transcript of each video
    returned, in the order of the result.  Details are asked for exactly the
    ids the pages brought, cut off after the limit, and the videos returned
    are the records built from the answers (with their transcripts set). *)
Theorem download_asks_in_order :
  forall (host : Host) (W : Type) (api : Api W) (fuel : nat) (channelUrl : string)
         (max : Z) (includeTranscripts : bool) (w w' : W) (log : list Call)
         (videos : list JsObject),
    fetchChannelVideos host (tracing_api api) fuel channelUrl max includeTranscripts (w, [])
    = ((w', log), Normal (Some videos)) ->
    exists (handles : list Call) (channelId uploads : JsValue) (pages batches : list Call),
      log = handles ++ [UploadsCall channelId] ++ pages ++ batches
              ++ transcript_calls includeTranscripts videos
      /\ (handles = [] \/ exists handle, handles = [HandleCall handle])
      /\ Forall (page_call_within uploads (limit_of max)) pages
      /\ tokens_chain JUndefined pages
      /\ Forall batch_call_within batches
      /\ concat (map batch_of_call batches)
         = take (limit_of max) (concat (map ids_of_call pages))
      /\ if includeTranscripts
         then Forall2 with_transcript (concat (map (records_of_call host) batches)) videos
         else videos = concat (map (records_of_call host) batches).
Proof.
  intros host W api fuel channelUrl max includeTranscripts w w' log videos.
  unfold fetchChannelVideos, bind.
  destruct (resolveChannelId (tracing_api api) channelUrl (w, []))
    as [[wa la] [channelId|e]] eqn:Hresolve; [|discriminate].
  destruct (getUploadsPlaylistId host (tracing_api api) channelId (wa, la))
    as [[wb lb] [uploads|e]] eqn:Huploads; [|discriminate].
  destruct (getVideoIds (tracing_api api) fuel uploads (limit_of max) (wb, lb))
    as [[wc lc] [[videoIds|]|e]] eqn:Hids; try discriminate.
  destruct (getVideoDetails host (tracing_api api) videoIds (wc, lc))
    as [[wd ld] [[records|]|e]] eqn:Hdetails; try discriminate.
  intros Hrun.
  destruct (resolveChannelId_log api _ _ _ _ _ _ Hresolve) as (handles & Hla & Hhandles).
  pose proof (getUploadsPlaylistId_log host api _ _ _ _ _ _ Huploads) as Hlb.
  unfold getVideoIds in Hids.
  destruct (getVideoIds_from_log api uploads (limit_of max) fuel _ _ _ _ _ _ _ Hids)
    as (pages & Hlc & Hpages & Hchain & Hout).
  unfold getVideoDetails in Hdetails.
  destruct (getVideoDetails_from_log host api videoIds _ _ _ _ _ _ _ _ Hdetails)
    as (batches & Hld & Hbatches & Hasked & Hrecords).
  cbn [app] in Hout, Hrecords. rewrite drop_0 in Hasked.
  exists handles, channelId, uploads, pages, batches.
  assert (Hlog : ld = handles ++ [UploadsCall channelId] ++ pages ++ batches).
  { rewrite Hld, Hlc, Hlb, Hla. cbn [app]. rewrite <- !app_assoc. reflexivity. }
  destruct includeTranscripts.
  - destruct (attach_transcripts (tracing_api api) records (wd, ld))
      as [[we le] [videos'|e]] eqn:Hattach; [|discriminate].
    unfold ret in Hrun. injection Hrun as <- <- <-.
    destruct (attach_transcripts_log api _ _ _ _ _ _ Hattach) as (Hle & Hall).
    split; [rewrite Hle, Hlog, <- !app_assoc; reflexivity|].
    split; [exact Hhandles|]. split; [exact Hpages|]. split; [exact Hchain|].
    split; [exact Hbatches|]. split; [rewrite Hasked, Hout; reflexivity|].
    rewrite <- Hrecords. exact Hall.
  - unfold ret in Hrun. injection Hrun as <- <- <-.
    split; [rewrite Hlog; cbn [transcript_calls]; rewrite app_nil_r; reflexivity|].
    split; [exact Hhandles|]. split; [exact Hpages|]. split; [exact Hchain|].
    split; [exact Hbatches|]. split; [rewrite Hasked, Hout; reflexivity|].
    exact Hrecords.
Qed.

Lemma download_asks_in_order_witness :
  exists (requests : nat) (log : list Call) (videos : list JsObject),
    fetchChannelVideos Samples.sample_host (tracing_api Fixtures.sample_api) 5
      "https://www.youtube.com/@tides/" 2 true (0, [])
    = ((requests, log), Normal (Some videos))
    /\ exists (handles : list Call) (channelId : JsValue) (pages batches : list Call),
         log = handles ++ [UploadsCall channelId] ++ pages ++ batches
                 ++ transcript_calls true videos
         /\ Forall batch_call_within batches.
Proof.
  eexists. eexists. eexists. split; [vm_compute; reflexivity|].
  destruct (download_asks_in_order Samples.sample_host nat Fixtures.sample_api 5
              "https://www.youtube.com/@tides/" 2 true 0 _ _ _
              ltac:(vm_compute; reflexivity))
    as (handles & channelId & uploads & pages & batches & Hlog & _ & _ & _ & Hbatches & _).
  exists handles, channelId, pages, batches. split; [exact Hlog|exact Hbatches].
Defined.

End OrderFacts.
